(* ===== verification/_CoqProject ===== *)
-Q . S2P
Prelude.v
GoStrings.v
Threads.v
GoPath.v
FsID.v
Network.v
Config.v
GoFloat.v
Types.v
Logger.v
Metrics.v
Rpc.v
Sources.v
BufferPool.v
HostMap.v
Prefetcher.v
Disk.v
Storage.v
StorageCorrect.v
StorageRuns.v
StorageProps.v
StorageThreads.v
ContentStore.v
S3Client.v
RedisClient.v
Subscriptions.v
Redis.v
Metadata.v
Coordinator.v
CoordinatorLaws.v
NodeStore.v
BlobFs.v
Client.v
Discovery.v
LockOrder.v
Server.v
Timed.v
Cluster.v
ClusterRuns.v
ClusterTree.v
Startup.v
Process.v
