(* ===== verification/Prelude.v ===== *)
(** * Blobcache: a verification development

    Blobcache is a cache of content addressed by its SHA-256.  Servers keep pages
    of the contents in memory and on disk; a coordinator (over Redis) keeps the
    live hosts of each region, the locks, and the nodes of a file system whose
    files are cached contents; clients find the servers of their region, route
    each content to a host by rendezvous hashing, read and store over gRPC, and
    mount the file system over FUSE.

    ** The parts and where they are modelled

    - [pkg/errors.go]: [Prelude.v], as the type [error].
    - The Go standard library, where the source uses it: [GoStrings.v]
      (package [strings], [strconv]), [GoPath.v] ([path], [filepath]),
      [GoFloat.v] (floats), [FsID.v] (SHA-256 and hexadecimal), [Disk.v] (the
      calls of [os] on the disk cache), [Network.v] (parts of [net]).
    - [pkg/types.go]: [Types.v].  [pkg/config.go]: [Config.v].
      [pkg/network.go]: [Network.v].
    - [pkg/buffer_pool.go]: [BufferPool.v].  [pkg/prefetcher.go]:
      [Prefetcher.v] (detector, queue, spawned goroutines; the workers are in
      [Storage.v], since they read through the storage).
    - [pkg/storage.go]: [Storage.v] (operations), [StorageCorrect.v] (invariant),
      [StorageRuns.v] (transition system over whole operations), [StorageProps.v]
      (properties), [StorageThreads.v] (the same operations as threads that interleave
      at every access to memory or disk, over the programs of [Threads.v]; a file is
      written in two steps), and [ContentStore.v], the interface through which the
      server uses it.
    - [pkg/s3_client.go]: [S3Client.v].
    - [pkg/redis.go]: [Redis.v] (struct encoding, locks, the server's
      operations), [RedisClient.v] (choice of the client, [Scan]) and
      [Subscriptions.v] (publish and subscribe).  [pkg/metadata.go]: [Metadata.v].
    - [pkg/logger.go]: [Logger.v].  [pkg/metrics.go]: [Metrics.v].  The other files
      leave out the lines that log.
    - [pkg/coordinator_local.go], [pkg/coordinator_mock.go],
      [pkg/coordinator_remote.go], [pkg/server_coordinator.go]:
      [Coordinator.v]; their contract in [CoordinatorLaws.v], and the reasoning
      that clients of the contract use in [NodeStore.v].
    - [pkg/blobfs_node.go] and the file system of [pkg/blobfs.go]: [BlobFs.v];
      identifiers in [FsID.v]; mounting in [Startup.v] and [Process.v].
    - [pkg/server.go]: the handlers in [Server.v]; its start in [Startup.v], its life
      and its end in [Process.v], which also has the loops of the background
      goroutines, [cmd/main.go] and [pkg/fadvise.go].  [Timed.v] adds time to the
      Redis server: keepalives and locks that expire.
      [pkg/source.go], [pkg/source_juicefs.go], [pkg/source_mountpoint.go]:
      [Sources.v].
    - [pkg/hostmap.go]: [HostMap.v].  [pkg/client.go]: [Client.v].
      [pkg/discovery.go]: [Discovery.v].  The locks of these three:
      [LockOrder.v].  The messages between client and server: [Rpc.v].
    - Everything together: [Cluster.v], where the servers answer the client and
      the client answers the file system; [ClusterRuns.v], where servers start, crash
      and serve other clients between the attempts of a call; [ClusterTree.v], where
      mounts and servers write the tree of files together.

    A Go struct is a record, and a method of the source is a definition of the
    same name, prefixed by its type where two types share a name.  A body of a
    loop, or a goroutine, has a definition of its own ([Add_body], [part_step],
    [monitorHost_tick], ...).  Names that Rocq reserves or that clash carry a
    prefix of their component ([cs_Add], [c_AddFsNodeChild]).

    ** How code is modelled

    Code with effects is in the monad [M S A] of this file: a function of the
    state [S] that returns the new state with a value, an error, or a panic.
    State changes that precede an error stay, as in Go.  Integers are in [Z];
    the sums and products that can overflow wrap ([+!], [*!], [wrap64]),
    slices out of range panic.  Time, map iteration order, scheduling choices
    (which goroutine answers first, what a poll sees, what [sync.Pool] hands out),
    failing system calls and lost messages are arguments, over which the theorems
    quantify.  Sections that the source runs under a mutex are single steps, and the
    interleavings of steps are transition systems ([StorageRuns.v],
    [BufferPool.v], [Discovery.v], [RedisClient.v], [Subscriptions.v], [ClusterRuns.v],
    [ClusterTree.v], [Timed.v], [Process.v]); [LockOrder.v] splits the steps of [Discovery.v]
    into the lock operations they are made of, and [StorageThreads.v] the operations of the
    storage into their accesses, without the mutex of [getFromDiskCache], which is thus
    proved not to matter for what is read.

    Third-party code is a class of operations, with a class of the laws of its
    documentation, and an instance that satisfies the laws, at which the witnesses
    evaluate: [Ristretto] (the memory cache may forget any entry at any time, and may not find an
    entry that was just set),
    [Redis] and the lock package (a server of strings, hashes and sets) with
    [TimedRedis] (the time that a key has left), [HostCodec] (JSON, which keeps valid UTF-8), [RendezvousHasher], [Koanf] (the merging of
    documents, and the matching of tags).  The AWS client, the
    network of the remote coordinator, the programs that a source runs and the kernel's answers are
    functions.

    The interfaces between components are classes too: [ContentStore] (storage
    to server), [CoordinatorClient] with the contract [NodeStore] (the three
    coordinators to server and file system), [BlobCacheService] (servers to
    client), [FsClient] (client to file system).  Clients are proved against the
    class; the implementations are instances.

    ** What the theorems show

    - Storage: in every state of any run, with failing disk writes, evictions,
      restarts and prefetching, a read returns bytes of the content that hashes to
      the key, at the offset asked for, or an error
      ([Get_serves_content]); what was added is read back ([Add_then_Get]);
      reads and writes that interleave at every access serve the same, and a thread
      that runs alone is the sequential operation ([concurrent_reads],
      [alone_is_sequential]); lengths, and the read at the exact end of a content, which fails
      when the content is a multiple of the page ([Get_full_length],
      [Get_aligned_eof]).
    - Buffer pool: no two holders of one array ([Get_exclusive]).  Prefetcher: at
      most one run per content, the next chunks of the reader in order
      ([prefetch_ahead]), in a bounded queue.
    - S3: the result does not depend on the order of the chunks ([Download_any_order]);
      a failing chunk gives no data ([Download_all_or_nothing]).
    - Metadata and coordinators: nodes read back as stored; a lock has one holder;
      each call of the remote coordinator is one of the coordinator that it reaches; the three
      coordinators keep one contract, listed hosts are alive; a server is listed while
      its keepalive is set in time, and no longer ([listed_while_running]); servers that
      refresh the lock around the storing of a file in time store it one at a time, and
      the lock is free when its owner is gone ([store_lock_lease]; a server that is late
      can give back the lock of another).
      Subscriptions hand on messages in order; those of a cluster with three masters
      block.
    - File system: through any calls of the handlers every node is stored under the hash
      of its own path, and as long as no mount calls [Rename] the nodes are a tree
      ([session_tree], and [cluster_tree] with servers that store files meanwhile; [Rename]
      keeps the old identifier and parent of a node, [Rename_moves_link]);
      creation, lookup, removal, renaming and reading; [fsid_inode]
      bounds the inodes.
    - Server: the stream of a range ends and sends the range; [StoreContentInBlobFs] builds the path; a file that was stored is
      found, when the coordinator answers ([stored_file_found]); the lock around a store, over
      the local coordinator ([StoreWithLock_lock]); a shutdown answers the
      requests that were taken, with the cache open ([server_shutdown]); the status that
      the program ends with ([main_status]).
    - Host map, client, discovery: the nearest host; any run of rounds, ticks and
      requests keeps the routing tables consistent ([routing_invariant]); the order
      of the answers does not matter ([discovery_order]); which hosts the attempts of a read
      ask, and that a remembered host takes the place of the key's first one
      ([GetContent_failover]); [LockOrder.v]
      shows that the two locks are taken in both orders, so a client can deadlock.
    - Composition: a content stored through a client on one server is served to
      another client with the same hosts ([client_store_get]), and a file populated
      through FUSE's path is read back ([populated_file_is_read]); in any run of a
      cluster, with crashes and restarts during a call, a client and a mount get bytes
      of the content they ask for or an error ([cluster_serves_content],
      [mounted_read_serves]).
    - Configuration: which of the three documents gives the value of a field, with
      sections that a document replaces and keys in another case ([config_field_value]).

    Where code departs from what it means to do, the definitions follow the code, and a
    theorem or an [Example] shows the behaviour.

    ** Loops and fuel

    [loopM] runs a body at most as often as a [positive]; running out is the panic
    [OutOfFuel], and the theorems about a loop exclude it ([triple_loopM] asks
    for a measure below the fuel).  The fuels: [zlen content + 2] for [Add] (a
    page a turn), [length + 1] for [Get] and for the stream of a range (a turn
    without progress ends the loop), [timeout / 1s + 3] polls ([poll_fuel]) for
    [Closest], [ClosestWithCapacity] and [WaitForHosts], which sleep a second
    a turn.  [GetContent] and [GetContentStream] recurse on the number of attempts
    that the configuration gives ([max_attempts], one for short contents).  Every
    other recursion is structural.

    ** Not modelled

    - [proto/*.pb.go]: generated; its messages are records.  The programs of [e2e/]:
      tests.
    - In [pkg/redis.go], [ToSlice] and [LRange], which hand their arguments to the
      library, and [Keys], which is [Scan].  In [pkg/s3_client.go], the accessors of the
      client and of the bucket.
    - The hints of [pkg/fadvise.go] have definitions, but the reads of the storage leave
      them out, since they change no data.
    - Inside FUSE, gRPC, the AWS client and the HTTP client; the delivery of signals.
    - Redis keys do not expire in the middle of an operation; the ticker that
      refreshes a lock runs before and after the storing, not inside; the
      messages of [Cluster.v] are not too large.
    - Data races below the granularity of an access (the maps of the client that are
      read without their lock, the host that the keepalive updates): the steps are
      atomic, and the races are listed as findings.

    This file holds what the components share: machine integers, errors, the monad
    with its notations, triples, loops, invariants
    that computations keep, and lemmas on lists and options. *)

From Stdlib Require Export Ascii.
From stdpp Require Export base tactics numbers list list_numbers gmap fin_maps strings pretty sorting.
From Stdlib Require Export ZArith Lia.

Declare Scope go_scope.
Delimit Scope go_scope with go.

(** ** Machine integers *)

(** Go's [int64] (and [int] on the 64-bit targets of the repository), [uint64]
    and [uint32] are integers in [Z]; arithmetic that can leave the range is
    wrapped explicitly. *)
Definition wrap64 (z : Z) : Z := ((z + 2 ^ 63) `mod` 2 ^ 64 - 2 ^ 63)%Z.
Definition wrapU64 (z : Z) : Z := (z `mod` 2 ^ 64)%Z.
Definition wrapU32 (z : Z) : Z := (z `mod` 2 ^ 32)%Z.
Definition int64_range (z : Z) : Prop := (- 2 ^ 63 ≤ z < 2 ^ 63)%Z.

(** Go's [/] and [%] on integers truncate towards zero. *)
Notation "x / y" := (Z.quot x y) : go_scope.
Notation "x % y" := (Z.rem x y) (at level 40, left associativity) : go_scope.
Notation "x +! y" := (wrap64 (x + y)%Z) (at level 50, left associativity) : go_scope.
Notation "x -! y" := (wrap64 (x - y)%Z) (at level 50, left associativity) : go_scope.
Notation "x *! y" := (wrap64 (x * y)%Z) (at level 40, left associativity) : go_scope.

(** ** Errors and panics *)

(** The error values of the repository: the sentinels of [errors.go] and
    [redis.go], [ErrNodeNotFound], and the errors built in place.  [ErrLib]
    stands for an error value made by a library. *)
Inductive error : Type :=
  | ErrHostNotFound
  | ErrUnableToReachHost
  | ErrInvalidHostVersion
  | ErrContentNotFound
  | ErrClientNotFound
  | ErrCacheLockHeld
  | ErrUnableToPopulateContent
  | ErrBlobFsMountFailure
  | ErrUnableToAcquireLock
  | ErrNodeNotFound (id : string)
  | ErrChannelClosed
  | ErrConnectionIssue
  | ErrUnknownRedisMode
  | ErrNew (msg : string)
  | ErrWrap (msg : string) (err : error)
  | ErrStatus (code : string) (msg : string)
  | ErrLib (name : string).

#[export] Instance error_eq_dec : EqDecision error.
Proof. solve_decision. Defined.

(** Run-time panics that the modelled code can raise, [PanicCall] being a call of
    [panic]; [OutOfFuel], which marks a loop of the model stopped by its fuel; and
    [ProcessExit], the end of the process by [log.Fatal]. *)
Inductive panic : Type :=
  | PanicSlice
  | PanicIndex
  | PanicMake
  | PanicNil
  | PanicType
  | PanicDivide
  | PanicCall (msg : string)
  | OutOfFuel
  | ProcessExit.

Inductive res (A : Type) : Type :=
  | Ok (a : A)
  | Err (e : error)
  | Panic (p : panic).
Arguments Ok {A} a.
Arguments Err {A} e.
Arguments Panic {A} p.

(** ** The state and error monad *)

(** A Go function that reads and writes a state of type [S], returns an [A] or
    a non-nil [error], and may panic.  The state survives an error: what was
    written before the [return err] stays written. *)
Definition M (S A : Type) : Type := S → res A * S.

#[export] Instance M_ret S : MRet (M S) := λ A a s, (Ok a, s).
#[export] Instance M_bind S : MBind (M S) := λ A B f m s,
  match m s with
  | (Ok a, s') => f a s'
  | (Err e, s') => (Err e, s')
  | (Panic p, s') => (Panic p, s')
  end.

Definition throw {S A} (e : error) : M S A := λ s, (Err e, s).
Definition gopanic {S A} (p : panic) : M S A := λ s, (Panic p, s).
Definition get {S} : M S S := λ s, (Ok s, s).
Definition gets {S A} (f : S → A) : M S A := λ s, (Ok (f s), s).
Definition modify {S} (f : S → S) : M S () := λ s, (Ok tt, f s).

(** [x, err := m] with the error kept as a value: the caller branches on it. *)
Definition attempt {S A} (m : M S A) : M S (A + error) := λ s,
  match m s with
  | (Ok a, s') => (Ok (inl a), s')
  | (Err e, s') => (Ok (inr e), s')
  | (Panic p, s') => (Panic p, s')
  end.

(** A call whose error result is dropped. *)
Definition ignore {S A} (m : M S A) : M S () := attempt m ≫= λ _, mret tt.

(** Run an operation of a component on the field of a larger state. *)
Definition zoom {S T A} (proj : S → T) (inj : T → S → S) (m : M T A) : M S A :=
  λ s, let '(r, t) := m (proj s) in (r, inj t s).

(** [for _, x := range l { body }] *)
Fixpoint forM {S X} (l : list X) (body : X → M S ()) : M S () :=
  match l with
  | [] => mret tt
  | x :: l => body x ≫= λ _, forM l body
  end.

(** ** Loops *)

(** [iter_pos p f x] runs the step [f] at most [p] times and stops at the
    first [inr].  It recurses on the binary digits of [p], so a fuel as large
    as a 64-bit length costs nothing until it is used. *)
Fixpoint iter_pos {X R} (p : positive) (f : X → X + R) (x : X) : X + R :=
  match p with
  | xH => f x
  | xO p => match iter_pos p f x with inl x' => iter_pos p f x' | r => r end
  | xI p =>
      match f x with
      | inl x1 => match iter_pos p f x1 with inl x2 => iter_pos p f x2 | r => r end
      | r => r
      end
  end.

(** A loop body returns [inl] of the next loop variables, or [inr] to leave
    the loop (by [break], [return] or a false condition). *)
Definition loop_step {S X R} (body : X → M S (X + R)) (xs : X * S) :
    (X * S) + (res R * S) :=
  match body xs.1 xs.2 with
  | (Ok (inl x), s) => inl (x, s)
  | (Ok (inr r), s) => inr (Ok r, s)
  | (Err e, s) => inr (Err e, s)
  | (Panic p, s) => inr (Panic p, s)
  end.

Definition loopM {S X R} (fuel : positive) (body : X → M S (X + R)) (x : X) : M S R :=
  λ s, match iter_pos fuel (loop_step body) (x, s) with
       | inl (_, s') => (Panic OutOfFuel, s')
       | inr r => r
       end.

(** ** Slices *)

(** [l[a:b]]: [None] is the run-time panic of an out-of-range slice. *)
Definition slice {A} (l : list A) (a b : Z) : option (list A) :=
  if bool_decide (0 ≤ a ∧ a ≤ b ∧ b ≤ Z.of_nat (length l))%Z
  then Some (take (Z.to_nat (b - a)) (drop (Z.to_nat a) l))
  else None.

(** [copy(l[a:a+len(src)], src)] when it is in range. *)
Definition splice {A} (l : list A) (a : Z) (src : list A) : list A :=
  take (Z.to_nat a) l ++ src ++ drop (Z.to_nat a + length src) l.

Definition zlen {A} (l : list A) : Z := Z.of_nat (length l).

Definition or_panic {S A} (p : panic) (o : option A) : M S A :=
  match o with Some a => mret a | None => gopanic p end.

(** ** Lemmas on integers *)

Lemma wrap64_id z : int64_range z → wrap64 z = z.
Proof. unfold wrap64, int64_range. intros. rewrite Z.mod_small; lia. Qed.

Lemma wrap64_range z : int64_range (wrap64 z).
Proof.
  unfold wrap64, int64_range.
  pose proof (Z.mod_pos_bound (z + 2 ^ 63) (2 ^ 64)). lia.
Qed.

Lemma wrapU64_id z : (0 ≤ z < 2 ^ 64)%Z → wrapU64 z = z.
Proof. apply Z.mod_small. Qed.

Lemma wrapU32_id z : (0 ≤ z < 2 ^ 32)%Z → wrapU32 z = z.
Proof. apply Z.mod_small. Qed.

(** ** Lemmas on sequencing *)

Lemma bind_Ok {S A B} (m : M S A) (k : A → M S B) s a s1 :
  m s = (Ok a, s1) → (m ≫= k) s = k a s1.
Proof. intros E. unfold mbind, M_bind. by rewrite E. Qed.

Lemma bind_Ok_inv {S A B} (m : M S A) (k : A → M S B) s b s' :
  (m ≫= k) s = (Ok b, s') → ∃ a t, m s = (Ok a, t) ∧ k a t = (Ok b, s').
Proof. unfold mbind, M_bind. destruct (m s) as [[a|e|p] t]; [|done..]. eauto. Qed.

Lemma bind_attempt_Ok {S A B} (m : M S A) (k : A + error → M S B) s a s1 :
  m s = (Ok a, s1) → (attempt m ≫= k) s = k (inl a) s1.
Proof. intros E. unfold attempt, mbind, M_bind. by rewrite E. Qed.

Lemma bind_attempt_Err {S A B} (m : M S A) (k : A + error → M S B) s e s1 :
  m s = (Err e, s1) → (attempt m ≫= k) s = k (inr e) s1.
Proof. intros E. unfold attempt, mbind, M_bind. by rewrite E. Qed.

Lemma bind_attempt_Panic {S A B} (m : M S A) (k : A + error → M S B) s p s1 :
  m s = (Panic p, s1) → (attempt m ≫= k) s = (Panic p, s1).
Proof. intros E. unfold attempt, mbind, M_bind. by rewrite E. Qed.

(** ** Lemmas on loops *)

Section iter.
Context {X R : Type} (f : X → X + R).

(** An invariant [I], a measure that decreases while the loop runs, and a
    postcondition [Q] at the exit: with more fuel than measure the loop ends
    and [Q] holds. *)
Lemma iter_pos_spec_aux (I : X → Prop) (μ : X → Z) (Q : R → Prop) :
  (∀ x, I x → match f x with
              | inl x' => I x' ∧ (0 ≤ μ x' < μ x)%Z
              | inr r => Q r
              end) →
  ∀ p x, I x →
  match iter_pos p f x with
  | inl x' => I x' ∧ (0 ≤ μ x')%Z ∧ (μ x' + Zpos p ≤ μ x)%Z
  | inr r => Q r
  end.
Proof.
  intros Hf p. induction p as [p IH|p IH|]; intros x Hx; simpl.
  - specialize (Hf x Hx). destruct (f x) as [x1|r]; [|done].
    destruct Hf as [H1 ?]. specialize (IH x1 H1) as IH1.
    destruct (iter_pos p f x1) as [x2|r]; [|done].
    destruct IH1 as (H2 & ? & ?). specialize (IH x2 H2).
    destruct (iter_pos p f x2); [|done].
    destruct IH as (? & ? & ?). split_and!; [done..|lia].
  - specialize (IH x Hx) as IH1.
    destruct (iter_pos p f x) as [x1|r]; [|done].
    destruct IH1 as (H1 & ? & ?). specialize (IH x1 H1).
    destruct (iter_pos p f x1); [|done].
    destruct IH as (? & ? & ?). split_and!; [done..|lia].
  - specialize (Hf x Hx). destruct (f x); [|done].
    destruct Hf as [? ?]. split_and!; [done|lia..].
Qed.

Lemma iter_pos_spec (I : X → Prop) (μ : X → Z) (Q : R → Prop) p x :
  (∀ x, I x → match f x with
              | inl x' => I x' ∧ (0 ≤ μ x' < μ x)%Z
              | inr r => Q r
              end) →
  I x → (μ x < Zpos p)%Z →
  ∃ r, iter_pos p f x = inr r ∧ Q r.
Proof.
  intros Hf Hx Hp. pose proof (iter_pos_spec_aux I μ Q Hf p x Hx) as H.
  destruct (iter_pos p f x) as [x'|r]; [lia|eauto].
Qed.

(** The invariant alone. *)
Lemma iter_pos_spec_aux' (I : X → Prop) (Q : R → Prop) :
  (∀ x, I x → match f x with inl x' => I x' | inr r => Q r end) →
  ∀ p x, I x → match iter_pos p f x with inl x' => I x' | inr r => Q r end.
Proof.
  intros Hf p. induction p as [p IH|p IH|]; intros x Hx; simpl; [| |by apply Hf].
  - specialize (Hf x Hx). destruct (f x) as [x1|r]; [|done].
    specialize (IH x1 Hf) as IH1. destruct (iter_pos p f x1); [by apply IH|done].
  - specialize (IH x Hx) as IH1. destruct (iter_pos p f x); [by apply IH|done].
Qed.

End iter.

Lemma iter_pos_ext {X R} (f g : X → X + R) p x :
  (∀ x, f x = g x) → iter_pos p f x = iter_pos p g x.
Proof.
  intros E. revert x. induction p as [p IH|p IH|]; intros x; simpl; [| |apply E].
  - rewrite E. destruct (g x) as [y|]; [|done]. rewrite IH. by destruct (iter_pos p g y).
  - rewrite IH. by destruct (iter_pos p g x).
Qed.

Lemma loopM_ext {S X R} fuel (f g : X → M S (X + R)) x s :
  (∀ x s, f x s = g x s) → loopM fuel f x s = loopM fuel g x s.
Proof.
  intros E. unfold loopM. rewrite (iter_pos_ext _ (loop_step g)); [done|].
  intros xs. unfold loop_step. by rewrite E.
Qed.

Lemma iter_pos_stop {X R} (f : X → X + R) p x r : f x = inr r → iter_pos p f x = inr r.
Proof.
  revert x r. induction p as [p IH|p IH|]; intros x r E; simpl; [by rewrite E|by rewrite (IH _ _ E)|done].
Qed.

(** A loop whose first turn leaves. *)
Lemma loopM_stop {S X R} fuel (body : X → M S (X + R)) x s r :
  loop_step body (x, s) = inr r → loopM fuel body x s = r.
Proof. intros E. unfold loopM. by rewrite (iter_pos_stop _ _ _ _ E). Qed.

(** ** Programs that keep an invariant *)

(** [keeps I m]: whatever [m] returns, an error or a panic included, the
    invariant [I] holds of the state it leaves. *)
Definition keeps {S A} (I : S → Prop) (m : M S A) : Prop :=
  ∀ s, I s → I (m s).2.

(** [triple P m Q E]: from a state of [P], [m] does not panic; it ends in [Q]
    when it returns a value and in [E] when it returns an error. *)
Definition triple {S A} (P : S → Prop) (m : M S A) (Q : A → S → Prop)
    (E : error → S → Prop) : Prop :=
  ∀ s, P s → match m s with
             | (Ok a, s') => Q a s'
             | (Err e, s') => E e s'
             | (Panic _, _) => False
             end.

Create HintDb keeps discriminated.
Create HintDb triple discriminated.
Create Rewrite HintDb gostr.

Section keeps.
Context {S : Type} (I : S → Prop).

Lemma keeps_ret {A} (a : A) : keeps I (mret a).
Proof. by intros s Hs. Qed.

Lemma keeps_throw {A} e : keeps I (throw (A:=A) e).
Proof. by intros s Hs. Qed.

Lemma keeps_gopanic {A} p : keeps I (gopanic (A:=A) p).
Proof. by intros s Hs. Qed.

Lemma keeps_get : keeps I get.
Proof. by intros s Hs. Qed.

Lemma keeps_gets {A} (f : S → A) : keeps I (gets f).
Proof. by intros s Hs. Qed.

Lemma keeps_modify f : (∀ s, I s → I (f s)) → keeps I (modify f).
Proof. intros H s Hs. by apply H. Qed.

(** A program that only looks. *)
Lemma keeps_pure {A} (r : S → res A) : keeps I (λ s, (r s, s)).
Proof. by intros s Hs. Qed.

(** The rest has to keep the invariant for the values that the first part gives. *)
Lemma keeps_bind_val {A B} (m : M S A) (k : A → M S B) :
  keeps I m → (∀ s a s', m s = (Ok a, s') → keeps I (k a)) → keeps I (m ≫= k).
Proof.
  intros Hm Hk s Hs. specialize (Hm s Hs). unfold mbind, M_bind.
  destruct (m s) as [[a|e|p] s'] eqn:E; simpl in *; auto. by apply (Hk s a s' E).
Qed.

Lemma keeps_bind {A B} (m : M S A) (k : A → M S B) :
  keeps I m → (∀ a, keeps I (k a)) → keeps I (m ≫= k).
Proof. intros Hm Hk. apply keeps_bind_val; auto. Qed.

Lemma keeps_attempt {A} (m : M S A) : keeps I m → keeps I (attempt m).
Proof.
  intros Hm s Hs. specialize (Hm s Hs). unfold attempt.
  by destruct (m s) as [[a|e|p] s'].
Qed.

Lemma keeps_ignore {A} (m : M S A) : keeps I m → keeps I (ignore m).
Proof.
  intros Hm. unfold ignore.
  apply keeps_bind; auto using keeps_attempt, keeps_ret.
Qed.

Lemma keeps_or_panic {A} p (o : option A) : keeps I (or_panic p o).
Proof. by destruct o; intros s Hs. Qed.

Lemma keeps_forM {X} (l : list X) body :
  (∀ x, x ∈ l → keeps I (body x)) → keeps I (forM l body).
Proof.
  induction l as [|x l IH]; intros Hb; simpl; [apply keeps_ret|].
  apply keeps_bind; [apply Hb; by left|]. intros _. apply IH.
  intros y Hy. apply Hb. by right.
Qed.

Lemma keeps_loopM {X R} fuel (body : X → M S (X + R)) x :
  (∀ x, keeps I (body x)) → keeps I (loopM fuel body x).
Proof.
  intros Hb s Hs. unfold loopM.
  pose proof (iter_pos_spec_aux' (loop_step body) (λ xs, I xs.2) (λ r, I r.2)) as H.
  specialize (H ltac:(intros [y t] Hy; unfold loop_step; simpl in *; specialize (Hb y t Hy);
    by destruct (body y t) as [[[y'|r]|e|p] t'])).
  specialize (H fuel (x, s) Hs). by destruct (iter_pos _ _ _) as [[y t]|[r t]].
Qed.

(** An operation on a field: it keeps [J] of the field, and [I] follows from
    the old state and the new field. *)
Lemma keeps_zoom {T A} (J : T → Prop) (proj : S → T) (inj : T → S → S) (m : M T A) :
  keeps J m → (∀ s, I s → J (proj s)) → (∀ s t, I s → J t → I (inj t s)) →
  keeps I (zoom proj inj m).
Proof.
  intros Hm Hp Hi s Hs. specialize (Hm (proj s) (Hp s Hs)). unfold zoom.
  destruct (m (proj s)) as [r t]. by apply Hi.
Qed.

(** A field the invariant does not read. *)
Lemma keeps_zoom_frame {T A} (proj : S → T) (inj : T → S → S) (m : M T A) :
  (∀ s t, I s → I (inj t s)) → keeps I (zoom proj inj m).
Proof. intros Hi. by apply (keeps_zoom (λ _, True)); auto. Qed.

End keeps.

(** What keeps every value of a part of the state keeps what is said of it. *)
Lemma keeps_part {S T A} (f : S → T) (P : T → Prop) (m : M S A) :
  (∀ t, keeps (λ s, f s = t) m) → keeps (λ s, P (f s)) m.
Proof. intros Hm s Hs. by rewrite (Hm (f s) s eq_refl). Qed.

#[export] Hint Resolve keeps_ret keeps_throw keeps_gopanic keeps_get keeps_gets
  keeps_attempt keeps_ignore keeps_or_panic : keeps.

(** Structural steps of a [keeps] proof. *)
Ltac keeps_step :=
  match goal with
  | |- keeps _ (mbind _ _) => apply keeps_bind; [|intro]
  | |- keeps _ (match ?x with _ => _ end) => destruct x
  | |- keeps _ (if ?x then _ else _) => destruct x
  | |- keeps _ (forM _ _) => apply keeps_forM; intros
  | |- keeps _ (ignore _) => apply keeps_ignore
  | |- keeps _ (attempt _) => apply keeps_attempt
  | |- keeps _ (loopM _ _ _) => apply keeps_loopM; intro
  | |- keeps _ _ => solve [eauto with keeps]
  end.
Ltac keeps_auto := repeat keeps_step.

(** ** Programs with pre- and postconditions *)

Section triple.
Context {S : Type}.
Implicit Types P : S → Prop.
Implicit Types E : error → S → Prop.

Lemma triple_ret {A} P (a : A) Q E : (∀ s, P s → Q a s) → triple P (mret a) Q E.
Proof. intros H s Hs. by apply H. Qed.

Lemma triple_throw {A} P e (Q : A → S → Prop) E :
  (∀ s, P s → E e s) → triple P (throw e) Q E.
Proof. intros H s Hs. by apply H. Qed.

Lemma triple_get P Q E : (∀ s, P s → Q s s) → triple P get Q E.
Proof. intros H s Hs. by apply H. Qed.

Lemma triple_gets {A} P (f : S → A) Q E : (∀ s, P s → Q (f s) s) → triple P (gets f) Q E.
Proof. intros H s Hs. by apply H. Qed.

Lemma triple_modify P f Q E : (∀ s, P s → Q tt (f s)) → triple P (modify f) Q E.
Proof. intros H s Hs. by apply H. Qed.

Lemma triple_bind {A B} P (m : M S A) (k : A → M S B) R Q E :
  triple P m R E → (∀ a, triple (R a) (k a) Q E) → triple P (m ≫= k) Q E.
Proof.
  intros Hm Hk s Hs. specialize (Hm s Hs). unfold mbind, M_bind.
  destruct (m s) as [[a|e|p] s']; [by apply Hk|done..].
Qed.

Lemma triple_conseq {A} P P' (m : M S A) Q Q' E E' :
  triple P' m Q' E' → (∀ s, P s → P' s) → (∀ a s, Q' a s → Q a s) →
  (∀ e s, E' e s → E e s) → triple P m Q E.
Proof.
  intros Hm HP HQ HE s Hs. specialize (Hm s (HP s Hs)).
  destruct (m s) as [[a|e|p] s']; auto.
Qed.

(** A fact in the precondition that does not depend on the state. *)
Lemma triple_pure {A} P (φ : Prop) (m : M S A) Q E :
  (φ → triple P m Q E) → triple (λ s, P s ∧ φ) m Q E.
Proof. intros H s [Hs Hφ]. by apply H. Qed.

Lemma triple_attempt {A} P (m : M S A) Q E E' :
  triple P m (λ a, Q (inl a)) (λ e, Q (inr e)) → triple P (attempt m) Q E'.
Proof.
  intros Hm s Hs. specialize (Hm s Hs). unfold attempt.
  by destruct (m s) as [[a|e|p] s'].
Qed.

(** The rule for a call whose result is known by a fact [φ]. *)
Lemma triple_bind_pure {A B} P P' (m : M S A) (k : A → M S B) (φ : A → Prop) Q E :
  triple P m (λ a s, P' s ∧ φ a) E → (∀ a, φ a → triple P' (k a) Q E) →
  triple P (m ≫= k) Q E.
Proof.
  intros Hm Hk. eapply triple_bind; [done|]. intros a. apply triple_pure. apply Hk.
Qed.

(** The same for a call whose error is kept. *)
Lemma triple_bind_attempt {A B} P P' (m : M S A) (k : A + error → M S B)
    (φ : A → Prop) (ψ : error → Prop) Q E :
  triple P m (λ a s, P' s ∧ φ a) (λ e s, P' s ∧ ψ e) →
  (∀ a, φ a → triple P' (k (inl a)) Q E) → (∀ e, ψ e → triple P' (k (inr e)) Q E) →
  triple P (attempt m ≫= k) Q E.
Proof.
  intros Hm Hk1 Hk2. apply (triple_bind_pure P P' _ _
    (λ r, match r with inl a => φ a | inr e => ψ e end)).
  - by apply triple_attempt.
  - intros []; auto.
Qed.

Lemma triple_ignore {A} P (m : M S A) Q E :
  triple P m (λ _, Q tt) (λ _, Q tt) → triple P (ignore m) Q E.
Proof.
  intros Hm. unfold ignore. apply (triple_bind _ _ _ (λ _, Q tt)).
  - by apply triple_attempt.
  - intros _. by apply triple_ret.
Qed.

Lemma triple_or_panic {A} P p (o : option A) Q E :
  (∀ s, P s → ∃ a, o = Some a ∧ Q a s) → triple P (or_panic p o) Q E.
Proof. intros H s Hs. by destruct (H s Hs) as (a & -> & HQ). Qed.

Lemma triple_forM {X} (l : list X) body P E :
  (∀ x, x ∈ l → triple P (body x) (λ _, P) E) → triple P (forM l body) (λ _, P) E.
Proof.
  induction l as [|x l IH]; intros Hb; simpl; [by apply triple_ret|].
  apply (triple_bind _ _ _ (λ _, P)); [apply Hb; by left|].
  intros _. apply IH. intros y Hy. apply Hb. by right.
Qed.

(** A loop with invariant [J] and measure [μ], bounded by the fuel. *)
Lemma triple_loopM {X R} fuel (body : X → M S (X + R)) (x : X) (J : X → S → Prop)
    (μ : X → Z) P Q E :
  (∀ x, triple (J x) (body x)
          (λ r s, match r with
                  | inl x' => J x' s ∧ (0 ≤ μ x' < μ x)%Z
                  | inr r => Q r s
                  end) E) →
  (∀ s, P s → J x s) → (μ x < Zpos fuel)%Z → triple P (loopM fuel body x) Q E.
Proof.
  intros Hb HJ Hμ s Hs. unfold loopM.
  destruct (iter_pos_spec (loop_step body) (λ xs, J xs.1 xs.2) (λ xs, μ xs.1)
    (λ r, match r with
          | (Ok a, s') => Q a s'
          | (Err e, s') => E e s'
          | (Panic _, _) => False
          end) fuel (x, s)) as (r & -> & Hr); [|by apply HJ|done|].
  - intros [y t] Hy. simpl in *. unfold loop_step. simpl. specialize (Hb y t Hy).
    by destruct (body y t) as [[[y'|r]|e|p] t'].
  - by destruct r as [[a|e|p] s'].
Qed.

Lemma triple_zoom {T A} P (proj : S → T) (inj : T → S → S) (m : M T A)
    (P' : T → Prop) (Q' : A → T → Prop) (E' : error → T → Prop) Q E :
  triple P' m Q' E' → (∀ s, P s → P' (proj s)) →
  (∀ a s t, P s → Q' a t → Q a (inj t s)) → (∀ e s t, P s → E' e t → E e (inj t s)) →
  triple P (zoom proj inj m) Q E.
Proof.
  intros Hm HP HQ HE s Hs. specialize (Hm (proj s) (HP s Hs)). unfold zoom.
  destruct (m (proj s)) as [[a|e|p] t]; auto.
Qed.

Lemma triple_keeps {A} P (m : M S A) :
  triple P m (λ _, P) (λ _, P) → keeps P m.
Proof. intros Hm s Hs. specialize (Hm s Hs). by destruct (m s) as [[a|e|p] s']. Qed.

End triple.

(** ** Lemmas on options, lists and slices *)

(** What every step keeps is true after a run. *)
Lemma rtc_keeps {A} (step : relation A) (P : A → Prop) x y :
  (∀ x y, step x y → P x → P y) → rtc step x y → P x → P y.
Proof. intros Hstep Hrun. induction Hrun as [x|x y z Hxy _ IH]; eauto. Qed.

Lemma pair_fst_eq {A B} (x : A * B) a : x.1 = a → x = (a, x.2).
Proof. by destruct x; intros <-. Qed.

Lemma exists_Some_eq {A} (a : A) (P : A → Prop) : (∃ x, Some a = Some x ∧ P x) ↔ P a.
Proof. naive_solver. Qed.

Lemma slice_Some {A} (l : list A) a b :
  (0 ≤ a ≤ b)%Z → (b ≤ zlen l)%Z →
  slice l a b = Some (take (Z.to_nat (b - a)) (drop (Z.to_nat a) l)).
Proof. unfold slice, zlen. intros. by rewrite bool_decide_eq_true_2 by lia. Qed.

Lemma slice_length {A} (l l' : list A) a b :
  slice l a b = Some l' → zlen l' = (b - a)%Z ∧ (0 ≤ a ≤ b ∧ b ≤ zlen l)%Z.
Proof.
  unfold slice, zlen. case_bool_decide; [|done]. intros [= <-].
  rewrite length_take, length_drop. lia.
Qed.

Lemma zlen_nonneg {A} (l : list A) : (0 ≤ zlen l)%Z.
Proof. unfold zlen. lia. Qed.

Lemma zlen_app {A} (l k : list A) : zlen (l ++ k) = (zlen l + zlen k)%Z.
Proof. unfold zlen. rewrite length_app. lia. Qed.

Lemma splice_length {A} (l src : list A) a :
  (0 ≤ a)%Z → (a + zlen src ≤ zlen l)%Z → length (splice l a src) = length l.
Proof.
  unfold splice, zlen. intros. rewrite !length_app, length_take, length_drop. lia.
Qed.

(** Writing [src] right after a prefix [pre] extends the prefix. *)
Lemma splice_prefix {A} (pre l src : list A) a :
  take (Z.to_nat a) l = pre → zlen pre = a → (a + zlen src ≤ zlen l)%Z →
  take (Z.to_nat (a + zlen src)) (splice l a src) = pre ++ src.
Proof.
  unfold splice, zlen. intros Hpre Ha Hl. rewrite Hpre.
  replace (Z.to_nat (a + Z.of_nat (length src))) with (length (pre ++ src))
    by (rewrite length_app; lia).
  by rewrite (assoc_L (++)), take_app_length.
Qed.

(** [l[a:b]] followed by [l[b:c]] is [l[a:c]]. *)
Lemma take_drop_split {A} (l : list A) a n m :
  take n (drop a l) ++ take m (drop (a + n) l) = take (n + m) (drop a l).
Proof. by rewrite <-drop_drop, take_take_drop. Qed.
