(* ===== verification/GoStrings.v ===== *)
(** * The string functions of Go's standard library that the repository uses

    [strings.Split], [Join], [ReplaceAll], [Contains] and [SplitN] for the
    one-character separators of the source, [fmt]'s [%d] (stdpp's [pretty]),
    and [strconv.ParseUint]/[ParseInt] in base 10.  A Go string is a sequence
    of bytes: stdpp's [string]. *)

From S2P Require Import Prelude.

(** ** Definitions *)

Fixpoint all_chars (P : ascii → bool) (s : string) : bool :=
  match s with
  | "" => true
  | String a s => P a && all_chars P s
  end.

(** [strings.Contains(s, string(c))] *)
Fixpoint has_char (c : ascii) (s : string) : bool :=
  match s with
  | "" => false
  | String a s => bool_decide (a = c) || has_char c s
  end.

(** [strings.Split(s, string(c))] *)
Fixpoint split_on (c : ascii) (s : string) : list string :=
  match s with
  | "" => [""]
  | String a s =>
      if decide (a = c) then "" :: split_on c s
      else match split_on c s with
           | w :: ws => String a w :: ws
           | [] => [String a ""]
           end
  end.

(** [strings.Join(l, sep)] *)
Fixpoint join (sep : string) (l : list string) : string :=
  match l with
  | [] => ""
  | [x] => x
  | x :: l => x +:+ sep +:+ join sep l
  end.

(** [strings.ReplaceAll(s, string(c), string(d))] *)
Fixpoint replace_char (c d : ascii) (s : string) : string :=
  match s with
  | "" => ""
  | String a s => String (if decide (a = c) then d else a) (replace_char c d s)
  end.

(** [strings.SplitN(s, string(c), 2)[0]] *)
Fixpoint before (c : ascii) (s : string) : string :=
  match s with
  | "" => ""
  | String a s => if decide (a = c) then "" else String a (before c s)
  end.

Definition digit_val (a : ascii) : option N :=
  let n := N_of_ascii a in
  if bool_decide (48 ≤ n ∧ n ≤ 57)%N then Some (n - 48)%N else None.

Fixpoint parse_digits (acc : N) (s : string) : option N :=
  match s with
  | "" => Some acc
  | String a s => d ← digit_val a; parse_digits (10 * acc + d) s
  end.

(** [strconv.ParseUint(s, 10, bits)]: [None] is a non-nil error. *)
Definition ParseUint (bits : N) (s : string) : option Z :=
  match s with
  | "" => None
  | _ =>
      n ← parse_digits 0 s;
      if bool_decide (n < 2 ^ bits)%N then Some (Z.of_N n) else None
  end.

(** [strconv.ParseInt(s, 10, bits)]: an optional sign, then [ParseUint]'s
    digits, in the range of a [bits]-wide signed integer. *)
Definition ParseInt (bits : N) (s : string) : option Z :=
  let parse neg t :=
    u ← ParseUint 64 t;
    let z := if (neg : bool) then (- u)%Z else u in
    if bool_decide (- 2 ^ Z.of_N (bits - 1) ≤ z ∧ z < 2 ^ Z.of_N (bits - 1))%Z
    then Some z else None in
  match s with
  | String "-" t => parse true t
  | String "+" t => parse false t
  | t => parse false t
  end.

(** ** Appending *)

Lemma string_app_nil_r s : s +:+ "" = s.
Proof. induction s as [|a s IH]; [done|]. unfold String.app in *. simpl. by rewrite IH. Qed.

Lemma string_app_cons a s t : String a s +:+ t = String a (s +:+ t).
Proof. done. Qed.

Lemma string_app_nil s : "" +:+ s = s.
Proof. done. Qed.

Lemma string_app_assoc s t u : (s +:+ t) +:+ u = s +:+ (t +:+ u).
Proof. induction s as [|a s IH]; [done|]. by rewrite !string_app_cons, IH. Qed.

Lemma string_length_app s t : String.length (s +:+ t) = String.length s + String.length t.
Proof. induction s as [|a s IH]; [done|]. rewrite string_app_cons. simpl. by rewrite IH. Qed.

Lemma string_app_inj_l s t u : s +:+ t = s +:+ u → t = u.
Proof. induction s as [|a s IH]; [done|]. rewrite !string_app_cons. intros [= ?]. auto. Qed.

Lemma string_app_inj_r s t u : s +:+ u = t +:+ u → s = t.
Proof.
  revert t. induction s as [|a s IH]; intros [|b t] E; [done|..].
  - apply (f_equal String.length) in E. rewrite !string_length_app in E. simpl in E. lia.
  - apply (f_equal String.length) in E. rewrite !string_length_app in E. simpl in E. lia.
  - rewrite !string_app_cons in E. injection E as -> E. f_equal. by apply IH.
Qed.

#[export] Hint Rewrite string_app_cons string_app_nil string_app_nil_r string_app_assoc : gostr.

(** ** Characters of a string *)

Lemma has_char_app c s t : has_char c (s +:+ t) = has_char c s || has_char c t.
Proof.
  induction s as [|a s IH]; [done|]. rewrite string_app_cons. simpl.
  by rewrite IH, orb_assoc.
Qed.

Lemma all_chars_app P s t : all_chars P (s +:+ t) = all_chars P s && all_chars P t.
Proof.
  induction s as [|a s IH]; [done|]. rewrite string_app_cons. simpl.
  by rewrite IH, andb_assoc.
Qed.

(** A character that fails [P] does not occur in a string of [P] characters. *)
Lemma all_chars_has_char P c s : all_chars P s = true → P c = false → has_char c s = false.
Proof.
  intros Hs Hc. induction s as [|a s IH]; [done|]. simpl in *.
  apply andb_true_iff in Hs as [Ha Hs]. rewrite IH by done.
  by rewrite bool_decide_eq_false_2 by congruence.
Qed.

(** ** Split and join *)

Lemma split_on_ne c s : split_on c s ≠ [].
Proof. destruct s as [|a s]; simpl; [done|]. case_decide; [done|]. by destruct (split_on c s). Qed.

Lemma split_on_no c s : has_char c s = false → split_on c s = [s].
Proof.
  induction s as [|a s IH]; [done|]. simpl. intros [Ha Hs]%orb_false_iff.
  apply bool_decide_eq_false_1 in Ha. rewrite decide_False by done. by rewrite IH.
Qed.

Lemma split_on_app c s t : split_on c (s +:+ String c t) = split_on c s ++ split_on c t.
Proof.
  induction s as [|a s IH].
  - rewrite string_app_nil. simpl. by rewrite decide_True.
  - rewrite string_app_cons. simpl. case_decide; [by rewrite IH|].
    rewrite IH. pose proof (split_on_ne c s). by destruct (split_on c s).
Qed.

Lemma split_on_join c l :
  l ≠ [] → Forall (λ s, has_char c s = false) l → split_on c (join (String c "") l) = l.
Proof.
  intros Hne Hl. induction Hl as [|x l Hx Hl IH]; [done|].
  destruct l as [|y l]; [by apply split_on_no|].
  change (join (String c "") (x :: y :: l))
    with (x +:+ String c (join (String c "") (y :: l))).
  rewrite split_on_app, split_on_no by done. by rewrite IH.
Qed.

Lemma join_split_on c s : join (String c "") (split_on c s) = s.
Proof.
  induction s as [|a s IH]; [done|]. simpl. pose proof (split_on_ne c s) as Hne.
  case_decide as Ha; destruct (split_on c s) as [|w ws]; try done.
  - subst a. change (String c (join (String c "") (w :: ws)) = String c s). by rewrite IH.
  - destruct ws as [|w' ws]; simpl in *; rewrite <-IH; done.
Qed.

Lemma split_on_pieces c s : Forall (λ w, has_char c w = false) (split_on c s).
Proof.
  induction s as [|a s IH]; simpl; [by repeat constructor|].
  case_decide as Ha; [by constructor|].
  pose proof (split_on_ne c s). destruct (split_on c s) as [|w ws]; [done|].
  inversion IH; subst. constructor; [|done]. simpl.
  by rewrite bool_decide_eq_false_2.
Qed.

Lemma join_inj c l k :
  l ≠ [] → k ≠ [] → Forall (λ s, has_char c s = false) l →
  Forall (λ s, has_char c s = false) k →
  join (String c "") l = join (String c "") k → l = k.
Proof. intros ?? Hl Hk E. by rewrite <-(split_on_join c l), E, split_on_join. Qed.

Lemma before_app c s t : has_char c s = false → before c (s +:+ String c t) = s.
Proof.
  induction s as [|a s IH]; [intros _|intros [Ha Hs]%orb_false_iff].
  - unfold String.app. simpl. by rewrite decide_True.
  - apply bool_decide_eq_false_1 in Ha.
    rewrite string_app_cons. simpl. by rewrite decide_False, IH.
Qed.

(** Two strings cut at the same separator are equal piece by piece. *)
Lemma app_sep_inj c s s' t t' :
  has_char c s = false → has_char c s' = false →
  s +:+ String c t = s' +:+ String c t' → s = s' ∧ t = t'.
Proof.
  intros Hs Hs' E. assert (s = s') as <-.
  { by rewrite <-(before_app c s t), E, before_app. }
  apply (inj (String.app s)) in E. by injection E.
Qed.

(** ** Decimal numbers *)

Definition is_digit (a : ascii) : bool := bool_decide (is_Some (digit_val a)).

Lemma digit_val_char d : (d < 10)%N → digit_val (pretty_N_char d) = Some d.
Proof.
  intros Hd.
  assert (d = 0 ∨ d = 1 ∨ d = 2 ∨ d = 3 ∨ d = 4 ∨ d = 5 ∨ d = 6 ∨ d = 7 ∨ d = 8 ∨ d = 9)%N
    as H by lia.
  repeat destruct H as [->|H]; try reflexivity. by subst.
Qed.

Lemma parse_pretty_go n s : parse_digits 0 (pretty_N_go n s) = parse_digits n s.
Proof.
  revert s. induction (N.lt_wf_0 n) as [n _ IH]. intros s.
  destruct (decide (n = 0)%N) as [->|Hn]; [by rewrite pretty_N_go_0|].
  rewrite pretty_N_go_step by lia. rewrite IH by (apply N.div_lt; lia).
  pose proof (N.mod_upper_bound n 10). pose proof (N.div_mod n 10).
  simpl. rewrite digit_val_char by lia. simpl. f_equal. lia.
Qed.

Lemma pretty_N_digits_go n s :
  all_chars is_digit s = true → all_chars is_digit (pretty_N_go n s) = true.
Proof.
  revert s. induction (N.lt_wf_0 n) as [n _ IH]. intros s Hs.
  destruct (decide (n = 0)%N) as [->|Hn]; [by rewrite pretty_N_go_0|].
  rewrite pretty_N_go_step by lia. apply IH; [apply N.div_lt; lia|].
  simpl. rewrite Hs, andb_true_r. unfold is_digit.
  pose proof (N.mod_upper_bound n 10).
  rewrite digit_val_char by lia. by apply bool_decide_eq_true_2.
Qed.

Lemma pretty_N_digits n : all_chars is_digit (pretty (n : N)) = true.
Proof.
  unfold pretty, pretty_N. case_decide; [done|]. by apply pretty_N_digits_go.
Qed.

Lemma parse_digits_pretty n : parse_digits 0 (pretty (n : N)) = Some n.
Proof.
  unfold pretty, pretty_N. case_decide as Hn; [by subst|]. by rewrite parse_pretty_go.
Qed.

Lemma pretty_N_ne n : pretty (n : N) ≠ "".
Proof.
  intros E. pose proof (parse_digits_pretty n) as H. rewrite E in H.
  injection H as <-. done.
Qed.

Lemma pretty_Z_nonneg z : (0 ≤ z)%Z → pretty z = pretty (Z.to_N z).
Proof. by destruct z. Qed.

Lemma ParseUint_pretty bits z :
  (0 ≤ z < 2 ^ Z.of_N bits)%Z → ParseUint bits (pretty z) = Some z.
Proof.
  intros Hz. rewrite pretty_Z_nonneg by lia. unfold ParseUint.
  pose proof (pretty_N_ne (Z.to_N z)).
  destruct (pretty (Z.to_N z)) as [|a s] eqn:E; [done|].
  rewrite <-E, parse_digits_pretty. simpl.
  rewrite bool_decide_eq_true_2; [by rewrite Z2N.id by lia|].
  apply N2Z.inj_lt. rewrite N2Z.inj_pow, Z2N.id; lia.
Qed.

(** The text of a number holds no separator of the source. *)
Lemma pretty_Z_no_char c z :
  is_digit c = false → c ≠ "-"%char → has_char c (pretty (z : Z)) = false.
Proof.
  intros Hc Hm. destruct z as [|p|p].
  - by apply (all_chars_has_char is_digit).
  - change (pretty (Z.pos p)) with (pretty (N.pos p)).
    apply (all_chars_has_char is_digit); [apply pretty_N_digits|done].
  - change (pretty (Z.neg p)) with ("-" +:+ pretty (N.pos p)).
    rewrite has_char_app. simpl. rewrite bool_decide_eq_false_2 by done. simpl.
    apply (all_chars_has_char is_digit); [apply pretty_N_digits|done].
Qed.
