(* ===== verification/Threads.v ===== *)
(** * Goroutines that interleave

    A computation of the monad [M] is one step.  A [thread] is a computation cut at
    the points where others can run: each [Act] is one access to the shared state.
    A thread that runs alone is a computation of [M] ([run]); a pool of threads takes
    the steps of its members in any order. *)

From S2P Require Import Prelude.

Inductive thread (S A : Type) : Type :=
  | Done (r : res A)
  | Act (next : S → S) (k : S → thread S A).
Arguments Done {S A} r.
Arguments Act {S A} next k.

(** ** Composition *)

Section ops.
Context {S : Type}.

(** A computation in one step. *)
Definition lift {A} (m : M S A) : thread S A := Act (λ s, (m s).2) (λ s, Done (m s).1).

Fixpoint thread_bind' {A B} (f : A → thread S B) (t : thread S A) : thread S B :=
  match t with
  | Done (Ok a) => f a
  | Done (Err e) => Done (Err e)
  | Done (Panic p) => Done (Panic p)
  | Act next k => Act next (λ s, thread_bind' f (k s))
  end.

#[export] Instance thread_ret : MRet (thread S) := λ A a, Done (Ok a).
#[export] Instance thread_bind : MBind (thread S) := λ A B f t, thread_bind' f t.

Definition throwT {A} (e : error) : thread S A := Done (Err e).

Fixpoint attemptT {A} (t : thread S A) : thread S (A + error) :=
  match t with
  | Done (Ok a) => Done (Ok (inl a))
  | Done (Err e) => Done (Ok (inr e))
  | Done (Panic p) => Done (Panic p)
  | Act next k => Act next (λ s, attemptT (k s))
  end.

Definition ignoreT {A} (t : thread S A) : thread S () := attemptT t ≫= λ _, mret tt.

Fixpoint forT {X} (l : list X) (body : X → thread S ()) : thread S () :=
  match l with
  | [] => mret tt
  | x :: l => body x ≫= λ _, forT l body
  end.

Fixpoint loopT {X R} (fuel : nat) (body : X → thread S (X + R)) (x : X) : thread S R :=
  match fuel with
  | O => Done (Panic OutOfFuel)
  | Datatypes.S fuel =>
      r ← body x;
      match r with inl x => loopT fuel body x | inr r => mret r end
  end.

(** Alone, without interruption. *)
Fixpoint run {A} (t : thread S A) : M S A := λ s,
  match t with
  | Done r => (r, s)
  | Act next k => run (k s) (next s)
  end.

End ops.

(** A thread of a component, on the field of a larger state. *)
Fixpoint zoomT {S T A} (proj : S → T) (inj : T → S → S) (t : thread T A) : thread S A :=
  match t with
  | Done r => Done r
  | Act next k => Act (λ s, inj (next (proj s)) s) (λ s, zoomT proj inj (k (proj s)))
  end.

(** ** A thread that runs alone *)

Section run.
Context {S : Type}.

Lemma run_lift {A} (m : M S A) s : run (lift m) s = m s.
Proof. simpl. by destruct (m s). Qed.

Lemma run_bind {A B} (t : thread S A) (f : A → thread S B) s :
  run (t ≫= f) s = ((λ s, run t s) ≫= λ a, run (f a)) s.
Proof.
  unfold mbind, thread_bind, M_bind. revert s.
  induction t as [[a|e|p]|next k IH]; intros s; simpl; [done..|]. apply IH.
Qed.

Lemma run_attempt {A} (t : thread S A) s : run (attemptT t) s = attempt (run t) s.
Proof.
  unfold attempt. revert s.
  induction t as [[a|e|p]|next k IH]; intros s; simpl; [done..|]. apply IH.
Qed.

(** The loop of [Prelude.v] counts in binary. *)
Fixpoint iter_nat {X R} (n : nat) (f : X → X + R) (x : X) : X + R :=
  match n with
  | O => inl x
  | Datatypes.S n => match f x with inl x => iter_nat n f x | inr r => inr r end
  end.

Lemma iter_nat_add {X R} m n (f : X → X + R) x :
  iter_nat (m + n) f x = match iter_nat m f x with inl y => iter_nat n f y | inr r => inr r end.
Proof. revert x. induction m as [|m IH]; intros x; simpl; [done|]. by destruct (f x). Qed.

Lemma iter_pos_nat {X R} p (f : X → X + R) x : iter_pos p f x = iter_nat (Pos.to_nat p) f x.
Proof.
  revert x. induction p as [p IH|p IH|]; intros x.
  - rewrite Pos2Nat.inj_xI. simpl. destruct (f x) as [y|r]; [|done].
    rewrite Nat.add_0_r, iter_nat_add, <-IH. destruct (iter_pos p f y); [apply IH|done].
  - rewrite Pos2Nat.inj_xO. simpl. rewrite Nat.add_0_r, iter_nat_add, <-IH.
    destruct (iter_pos p f x); [apply IH|done].
  - simpl. by destruct (f x).
Qed.

Lemma run_loop {X R} p (body : X → thread S (X + R)) (bodyM : X → M S (X + R)) x s :
  (∀ x s, run (body x) s = bodyM x s) →
  run (loopT (Pos.to_nat p) body x) s = loopM p bodyM x s.
Proof.
  intros Hb. unfold loopM. rewrite iter_pos_nat. generalize (Pos.to_nat p) as n. intros n.
  revert x s. induction n as [|n IH]; intros x s; [done|].
  simpl loopT. rewrite run_bind. unfold mbind at 1, M_bind. rewrite Hb. simpl iter_nat.
  unfold loop_step at 1. simpl. destruct (bodyM x s) as [[[y|r]|e|q] s']; [apply IH|done..].
Qed.

Lemma run_zoom {T A} (proj : S → T) (inj : T → S → S) (t : thread T A) s :
  (∀ s t, proj (inj t s) = t) → (∀ s t t', inj t' (inj t s) = inj t' s) →
  (∀ s, inj (proj s) s = s) →
  run (zoomT proj inj t) s = zoom proj inj (run t) s.
Proof.
  intros Hpi Hii Hip. unfold zoom. revert s.
  induction t as [r|next k IH]; intros s; simpl; [by rewrite Hip|].
  rewrite IH, Hpi. destruct (run (k (proj s)) (next (proj s))). by rewrite Hii.
Qed.

End run.

(** ** Safety under interference *)

Section safe.
Context {S : Type} (I : S → Prop).

(** From any state of the invariant, at any step, the thread keeps the invariant; it
    never panics, and it ends in [Q] or in [E]. *)
Fixpoint safe {A} (Q : A → Prop) (E : error → Prop) (t : thread S A) : Prop :=
  match t with
  | Done (Ok a) => Q a
  | Done (Err e) => E e
  | Done (Panic _) => False
  | Act next k => ∀ s, I s → I (next s) ∧ safe Q E (k s)
  end.

Lemma safe_ret {A} (Q : A → Prop) E a : Q a → safe Q E (mret a).
Proof. done. Qed.

Lemma safe_throw {A} (Q : A → Prop) (E : error → Prop) e : E e → safe Q E (throwT e).
Proof. done. Qed.

Lemma safe_lift {A} (m : M S A) (Q : A → Prop) (E : error → Prop) :
  triple I m (λ a s, I s ∧ Q a) (λ e s, I s ∧ E e) → safe Q E (lift m).
Proof. intros Hm s Hs. specialize (Hm s Hs). simpl. by destruct (m s) as [[a|e|p] s']. Qed.

(** A step whose result does not matter. *)
Lemma safe_lift_any {A} (m : M S A) :
  triple I m (λ _, I) (λ _, I) → safe (λ _, True) (λ _, True) (lift m).
Proof. intros Hm. apply safe_lift. eapply triple_conseq; [done..| |]; by intros. Qed.

Lemma safe_conseq {A} (Q Q' : A → Prop) (E E' : error → Prop) t :
  safe Q' E' t → (∀ a, Q' a → Q a) → (∀ e, E' e → E e) → safe Q E t.
Proof.
  intros Ht HQ HE. induction t as [[a|e|p]|next k IH]; simpl in *; [by auto..|].
  intros s Hs. destruct (Ht s Hs). split; [done|by apply IH].
Qed.

Lemma safe_bind {A B} (t : thread S A) (f : A → thread S B) R Q E :
  safe R E t → (∀ a, R a → safe Q E (f a)) → safe Q E (t ≫= f).
Proof.
  unfold mbind, thread_bind. intros Ht Hf.
  induction t as [[a|e|p]|next k IH]; simpl in *; [by auto..|].
  intros s Hs. destruct (Ht s Hs). split; [done|by apply IH].
Qed.

Lemma safe_attempt {A} (t : thread S A) (Q : A → Prop) (E : error → Prop) E' :
  safe Q E t → safe (λ r, match r with inl a => Q a | inr e => E e end) E' (attemptT t).
Proof.
  intros Ht. induction t as [[a|e|p]|next k IH]; simpl in *; [done..|].
  intros s Hs. destruct (Ht s Hs). split; [done|by apply IH].
Qed.

Lemma safe_bind_attempt {A B} (t : thread S A) (f : A + error → thread S B) R F Q E :
  safe R F t → (∀ a, R a → safe Q E (f (inl a))) → (∀ e, F e → safe Q E (f (inr e))) →
  safe Q E (attemptT t ≫= f).
Proof.
  intros Ht Ha He. eapply safe_bind; [by apply safe_attempt|]. intros [a|e]; [apply Ha|apply He].
Qed.

Lemma safe_ignore {A} (t : thread S A) E :
  safe (λ _, True) (λ _, True) t → safe (λ _, True) E (ignoreT t).
Proof. intros Ht. by eapply safe_bind_attempt. Qed.

Lemma safe_for {X} (l : list X) (body : X → thread S ()) E :
  (∀ x, x ∈ l → safe (λ _, True) E (body x)) → safe (λ _, True) E (forT l body).
Proof.
  induction l as [|x l IH]; intros Hb; simpl; [done|].
  eapply safe_bind; [apply Hb; by left|]. intros _ _. apply IH. intros y Hy. apply Hb. by right.
Qed.

(** A loop: the loop variables are local, so their invariant is a plain predicate. *)
Lemma safe_loop {X R} fuel (body : X → thread S (X + R)) (J : X → Prop) (μ : X → Z) Q E x :
  (∀ x, J x → safe (λ r, match r with
                         | inl y => J y ∧ (0 ≤ μ y < μ x)%Z
                         | inr r => Q r
                         end) E (body x)) →
  J x → (0 < fuel)%nat → (μ x < Z.of_nat fuel)%Z → safe Q E (loopT fuel body x).
Proof.
  intros Hb. revert x. induction fuel as [|fuel IH]; intros x Hx Hf Hμ; [lia|].
  simpl. eapply safe_bind; [by apply Hb|].
  intros [y|r] Hr; [|done]. destruct Hr as [Hy Hyx]. apply IH; [done|lia..].
Qed.

End safe.

Lemma safe_zoom {S T A} (I : S → Prop) (J : T → Prop) proj inj (t : thread T A) Q E :
  (∀ s, I s → J (proj s)) → (∀ s x, I s → J x → I (inj x s)) →
  safe J Q E t → safe I Q E (zoomT proj inj t).
Proof.
  intros Hp Hi Ht. induction t as [[a|e|p]|next k IH]; simpl in *; [done..|].
  intros s Hs. destruct (Ht (proj s) (Hp s Hs)). split; [by apply Hi|by apply IH].
Qed.

(** ** Pools of threads *)

Section pool.
Context {S C A : Type}.
(** How a call of the program begins: what it does to the state at once (nothing, for
    most), and the thread that it starts. *)
Context (begin : C → S → S → Prop) (spawn : C → thread S A).
(** What happens around the threads, and what ends them all. *)
Context (around reset : S → S → Prop).

Definition pool : Type := S * list (C * thread S A).

Inductive pool_step : pool → pool → Prop :=
  | pool_spawn c s s' l : begin c s s' → pool_step (s, l) (s', l ++ [(c, spawn c)])
  | pool_act i c next k s l :
      l !! i = Some (c, Act next k) → pool_step (s, l) (next s, <[i := (c, k s)]> l)
  | pool_around s s' l : around s s' → pool_step (s, l) (s', l)
  | pool_reset s s' l : reset s s' → pool_step (s, l) (s', []).

Context (I : S → Prop) (Q : C → A → Prop) (E : C → error → Prop).
Context (Hbegin : ∀ c s s', begin c s s' → I s → I s' ∧ safe I (Q c) (E c) (spawn c)).
Context (Haround : ∀ s s', around s s' → I s → I s').
Context (Hreset : ∀ s s', reset s s' → I s → I s').

Definition pool_ok (x : pool) : Prop :=
  I x.1 ∧ Forall (λ ct, safe I (Q ct.1) (E ct.1) ct.2) x.2.

Lemma pool_step_ok x y : pool_ok x → pool_step x y → pool_ok y.
Proof.
  intros [Hs Hl] Hst. destruct Hst as [c s s' l Hb|i c next k s l Hi|s s' l Ha|s s' l Hr]; simpl in *.
  - destruct (Hbegin c s s' Hb Hs). split; [done|]. apply Forall_app. by split; [|constructor].
  - pose proof (Forall_lookup_1 _ _ _ _ Hl Hi s Hs) as [Hs' Hk]. simpl in *.
    split; [done|]. by apply Forall_insert.
  - split; [by eapply Haround|done].
  - split; [by eapply Hreset|by constructor].
Qed.

(** Whatever the interleaving: the invariant holds, and a call that has returned
    returned what it may. *)
Lemma pool_run_ok x y : pool_ok x → rtc pool_step x y → pool_ok y.
Proof. intros Hx Hrun. apply (rtc_keeps _ _ _ _ (λ x y Hst Hok, pool_step_ok x y Hok Hst) Hrun Hx). Qed.

Lemma pool_done x c r :
  pool_ok x → (c, Done r) ∈ x.2 →
  match r with Ok a => Q c a | Err e => E c e | Panic _ => False end.
Proof.
  intros [_ Hl] Hin. rewrite Forall_forall in Hl. specialize (Hl _ Hin). by destruct r.
Qed.

(** A schedule: the threads that take the next steps. *)
Definition turn (x : pool) (i : nat) : pool :=
  match x.2 !! i with
  | Some (c, Act next k) => (next x.1, <[i := (c, k x.1)]> x.2)
  | _ => x
  end.

Lemma turns_run sched x : rtc pool_step x (foldl turn x sched).
Proof.
  revert x. induction sched as [|i sched IH]; intros [s l]; [done|]. simpl.
  etrans; [|apply IH]. unfold turn. simpl. destruct (l !! i) as [[c [r|next k]]|] eqn:Hi; [done| |done].
  by apply rtc_once, (pool_act i c next k).
Qed.

(** ** The threads end *)

(** A step of one of the threads, from any state. *)
Inductive act_step : list (C * thread S A) → list (C * thread S A) → Prop :=
  | act_at i c next k s l : l !! i = Some (c, Act next k) → act_step l (<[i := (c, k s)]> l).

Lemma act_step_cons ct l l' :
  act_step (ct :: l) l' →
  (∃ c next k s, ct = (c, Act next k) ∧ l' = (c, k s) :: l) ∨ (∃ l2, l' = ct :: l2 ∧ act_step l l2).
Proof.
  intros Hst. inversion Hst as [i c next k s l0 Hi E0 E']. subst. destruct i as [|i]; simpl in *.
  - injection Hi as ->. left. by exists c, next, k, s.
  - right. eexists. split; [done|]. by econstructor.
Qed.

(** However the steps of the threads interleave, there are finitely many of them. *)
Lemma act_step_wf : well_founded (flip act_step).
Proof.
  intros l. induction l as [|[c t] l IH].
  { constructor. intros l' Hst. by inversion Hst. }
  revert l IH. induction t as [r|next k IHt]; intros l IH.
  - induction IH as [l _ IHl]. constructor. intros l' Hst.
    destruct (act_step_cons _ _ _ Hst) as [(?&?&?&?&?&?)|(l2 & -> & Hl2)]; [done|by apply IHl].
  - pose proof IH as IH0. induction IH as [l Hacc IHl]. constructor. intros l' Hst.
    destruct (act_step_cons _ _ _ Hst) as [(c' & n' & k' & s & [= -> -> ->] & ->)|(l2 & -> & Hl2)].
    + by apply IHt.
    + apply IHl; [done|]. by apply Hacc.
Qed.

End pool.
