(* ===== verification/GoPath.v ===== *)
(** * Slash-separated paths: [path.Clean], [path.Join] and [filepath.Join]

    The lexical path functions of Go's standard library on a Unix target,
    where [path] and [path/filepath] agree.  A path is cut at its slashes,
    the pieces are reduced with a stack ("" and "." vanish, ".." takes the
    piece before it), and joined again. *)

From S2P Require Import Prelude GoStrings.

(** ** Definitions *)

Definition is_rooted (p : string) : bool :=
  match p with String "/" _ => true | _ => false end.

(** One piece of the path on the stack of pieces kept, last piece first. *)
Definition clean_step (rooted : bool) (st : list string) (c : string) : list string :=
  if decide (c = "" ∨ c = ".") then st
  else if decide (c = "..") then
    match st with
    | [] => if rooted then [] else [".."]
    | t :: st' => if decide (t = "..") then ".." :: st else st'
    end
  else c :: st.

Definition clean_pieces (rooted : bool) (l : list string) : list string :=
  rev (foldl (clean_step rooted) [] l).

(** [path.Clean(p)] *)
Definition Clean (p : string) : string :=
  let body := join "/" (clean_pieces (is_rooted p) (split_on "/" p)) in
  if is_rooted p then "/" +:+ body
  else if decide (body = "") then "." else body.

(** [path.Join(elem...)]: the leading empty elements are ignored. *)
Fixpoint Join (elem : list string) : string :=
  match elem with
  | [] => ""
  | "" :: elem => Join elem
  | _ => Clean (join "/" elem)
  end.

(** A piece that [Clean] keeps where it stands: a plain file name. *)
Definition plain_name (s : string) : Prop :=
  s ≠ "" ∧ s ≠ "." ∧ s ≠ ".." ∧ has_char "/" s = false.

#[export] Instance plain_name_dec s : Decision (plain_name s).
Proof. unfold plain_name. apply _. Defined.

Example Clean_ex1 : Clean "/a/./b//../c/" = "/a/c".
Proof. reflexivity. Qed.
Example Clean_ex2 : Clean "../x/../../y" = "../../y".
Proof. reflexivity. Qed.
Example Clean_ex3 : Clean "" = "." ∧ Clean "/.." = "/" ∧ Clean "a/.." = ".".
Proof. by vm_compute. Qed.
Example Join_ex : Join ["/"; "a"; "../b"] = "/b" ∧ Join [""; ""; "x"] = "x" ∧ Join ["";""] = "".
Proof. by vm_compute. Qed.

(** ** Lemmas *)

Lemma clean_step_plain r st c : plain_name c → clean_step r st c = c :: st.
Proof.
  intros (H1 & H2 & ? & ?). unfold clean_step.
  rewrite decide_False by (by intros [->| ->]). by rewrite decide_False.
Qed.

Lemma clean_pieces_plain r l k :
  Forall plain_name k → clean_pieces r (l ++ k) = clean_pieces r l ++ k.
Proof.
  unfold clean_pieces. rewrite foldl_app. generalize (foldl (clean_step r) [] l) as st.
  induction k as [|c k IH]; intros st Hk; simpl; [by rewrite app_nil_r|].
  inversion Hk; subst. rewrite clean_step_plain, IH by done. simpl.
  by rewrite <-(assoc_L (++)).
Qed.

Lemma clean_step_no_slash r st c :
  has_char "/" c = false → Forall (λ s, has_char "/" s = false) st →
  Forall (λ s, has_char "/" s = false) (clean_step r st c).
Proof.
  intros Hc Hst. unfold clean_step. case_decide; [done|]. case_decide; [|by constructor].
  destruct st as [|t st]; [destruct r; by repeat constructor|].
  inversion Hst; subst. case_decide; by repeat constructor.
Qed.

Lemma clean_pieces_no_slash r l :
  Forall (λ s, has_char "/" s = false) l →
  Forall (λ s, has_char "/" s = false) (clean_pieces r l).
Proof.
  intros Hl. unfold clean_pieces. apply Forall_rev.
  assert (Forall (λ s, has_char "/" s = false) (@nil string)) as Hst by constructor.
  revert Hst. generalize (@nil string) as st. induction Hl as [|c l Hc Hl IH]; intros st Hst; simpl;
    [done|]. apply IH. by apply clean_step_no_slash.
Qed.

Lemma is_rooted_app p q : p ≠ "" → is_rooted (p +:+ q) = is_rooted p.
Proof. destruct p as [|a p]; [done|]. by rewrite string_app_cons. Qed.

Lemma Join_cons_ne d l : d ≠ "" → Join (d :: l) = Clean (join "/" (d :: l)).
Proof. by destruct d. Qed.

Lemma join_cons_ne sep x l : l ≠ [] → join sep (x :: l) = x +:+ sep +:+ join sep l.
Proof. by destruct l. Qed.

(** [Join] of a directory and plain names adds the names after the directory's
    own pieces. *)
Lemma Join_plain d k :
  d ≠ "" → k ≠ [] → Forall plain_name k →
  Join (d :: k) =
    (if is_rooted d then "/" else "") +:+
    join "/" (clean_pieces (is_rooted d) (split_on "/" d) ++ k).
Proof.
  intros Hd Hk Hp. rewrite Join_cons_ne, join_cons_ne by done. unfold Clean.
  rewrite is_rooted_app by done.
  assert (split_on "/" (d +:+ "/" +:+ join "/" k) = split_on "/" d ++ k) as ->.
  { change (d +:+ "/" +:+ join "/" k) with (d +:+ String "/" (join "/" k)).
    rewrite split_on_app, split_on_join; [done..|].
    eapply Forall_impl; [done|]. by intros s (?&?&?&?). }
  rewrite clean_pieces_plain by done.
  destruct (is_rooted d); [done|]. rewrite string_app_nil.
  rewrite decide_False; [done|]. intros E.
  assert (clean_pieces false (split_on "/" d) ++ k = [""]) as E'.
  { apply (join_inj "/"); [by destruct (clean_pieces false (split_on "/" d)), k|done| | |done].
    - apply Forall_app. split; [apply clean_pieces_no_slash, split_on_pieces|].
      eapply Forall_impl; [done|]. by intros s (?&?&?&?).
    - by repeat constructor. }
  assert (last (clean_pieces false (split_on "/" d) ++ k) = Some "") as HL by by rewrite E'.
  rewrite last_app in HL. destruct (last k) as [x|] eqn:Hx.
  - injection HL as ->. apply last_Some_elem_of in Hx.
    rewrite Forall_forall in Hp. by destruct (Hp _ Hx).
  - apply last_None in Hx. done.
Qed.

(** Plain names are read off a joined path in one way only. *)
Lemma Join_plain_inj d k k' :
  d ≠ "" → k ≠ [] → k' ≠ [] → Forall plain_name k → Forall plain_name k' →
  Join (d :: k) = Join (d :: k') → k = k'.
Proof.
  intros Hd ?? Hp Hp'. rewrite !Join_plain by done.
  assert (∀ l, Forall plain_name l → Forall (λ s, has_char "/" s = false) l) as Hns.
  { intros l Hl. eapply Forall_impl; [done|]. by intros s (?&?&?&?). }
  assert (Forall (λ s, has_char "/" s = false)
            (clean_pieces (is_rooted d) (split_on "/" d))) as Hc
    by apply clean_pieces_no_slash, split_on_pieces.
  intros E%(inj _). apply (join_inj "/") in E.
  - by apply (inj _) in E.
  - by destruct (clean_pieces (is_rooted d) (split_on "/" d)), k.
  - by destruct (clean_pieces (is_rooted d) (split_on "/" d)), k'.
  - apply Forall_app; auto.
  - apply Forall_app; auto.
Qed.

(** ** Cleaned paths stay as they are *)

(** The shape of the stack: plain names over leading ".." of a relative path. *)
Fixpoint stack_ok (r : bool) (st : list string) : Prop :=
  match st with
  | [] => True
  | c :: st' => (plain_name c ∧ stack_ok r st') ∨ (r = false ∧ Forall (eq "..") (c :: st'))
  end.

Lemma stack_ok_dots r st : r = false → Forall (eq "..") st → stack_ok r st.
Proof. destruct st; simpl; auto. Qed.

Lemma clean_step_ok r st c :
  has_char "/" c = false → stack_ok r st → stack_ok r (clean_step r st c).
Proof.
  intros Hc Hst. unfold clean_step. case_decide as H1; [done|]. case_decide as H2.
  - destruct st as [|t st]; [destruct r; simpl; auto|]. case_decide as H3.
    + subst. destruct Hst as [[(?&?&?&?) _]|[-> Hd]]; [done|]. right. split; [done|].
      by constructor.
    + destruct Hst as [[_ ?]|[_ Hd]]; [done|]. apply Forall_cons in Hd as [<- _]. done.
  - left. split; [|done]. unfold plain_name. naive_solver.
Qed.

Lemma clean_stack_ok r l :
  Forall (λ s, has_char "/" s = false) l → stack_ok r (foldl (clean_step r) [] l).
Proof.
  intros Hl. assert (stack_ok r []) as Hst by done. revert Hst.
  generalize (@nil string) as st. induction Hl as [|c l Hc Hl IH]; intros st Hst; [done|].
  simpl. by apply IH, clean_step_ok.
Qed.

Lemma clean_stack_rev r st : stack_ok r st → foldl (clean_step r) [] (rev st) = st.
Proof.
  induction st as [|c st IH]; [done|]. intros Hst. simpl. rewrite foldl_app.
  destruct Hst as [[Hc Hst]|[-> Hd]].
  - rewrite IH by done. by apply clean_step_plain.
  - apply Forall_cons in Hd as [<- Hd]. rewrite IH by (by apply stack_ok_dots).
    destruct st as [|t st]; [done|]. by apply Forall_cons in Hd as [<- _].
Qed.

Lemma clean_pieces_idem r l :
  Forall (λ s, has_char "/" s = false) l →
  clean_pieces r (clean_pieces r l) = clean_pieces r l.
Proof.
  intros Hl. unfold clean_pieces. by rewrite (clean_stack_rev r) by (by apply clean_stack_ok).
Qed.

Lemma stack_ok_ne r st : stack_ok r st → Forall (λ s, s ≠ "") st.
Proof.
  induction st as [|c st IH]; [done|].
  intros [[(?&?) ?]|[? Hd]]; [by auto|].
  eapply Forall_impl; [exact Hd|]. by intros ? <-.
Qed.

Lemma clean_pieces_ne r l :
  Forall (λ s, has_char "/" s = false) l → Forall (λ s, s ≠ "") (clean_pieces r l).
Proof. intros. apply Forall_rev. eapply stack_ok_ne. by apply clean_stack_ok. Qed.

Lemma is_rooted_join l :
  Forall (λ s, has_char "/" s = false) l → Forall (λ s, s ≠ "") l →
  is_rooted (join "/" l) = false.
Proof.
  intros Hns Hne. destruct l as [|x l]; [done|].
  apply Forall_cons in Hns as [Hx _], Hne as [Hx' _].
  assert (is_rooted x = false) as Hr.
  { destruct x as [|a x]; [done|]. simpl in Hx. apply orb_false_iff in Hx as [Ha _].
    apply bool_decide_eq_false_1 in Ha. destruct a as [[] [] [] [] [] [] [] []]; done. }
  destruct l as [|y l]; [done|]. rewrite join_cons_ne by done. by rewrite is_rooted_app.
Qed.

(** [Join(Join(d, k...), k'...)] is [Join(d, k..., k'...)]. *)
Lemma Join_Join d k k' :
  d ≠ "" → k ≠ [] → k' ≠ [] → Forall plain_name k → Forall plain_name k' →
  Join (Join (d :: k) :: k') = Join (d :: k ++ k').
Proof.
  intros Hd Hk Hk' Hp Hp'.
  rewrite (Join_plain d (k ++ k')), (Join_plain d k) by
    (first [done | by apply Forall_app | by destruct k]).
  set (r := is_rooted d). set (cp := clean_pieces r (split_on "/" d)).
  assert (∀ l, Forall plain_name l →
            Forall (λ s, has_char "/" s = false) l ∧ Forall (λ s, s ≠ "") l) as Hpl.
  { intros l Hl. split; (eapply Forall_impl; [exact Hl|]); by intros s (?&?&?&?). }
  assert (Forall (λ s, has_char "/" s = false) (cp ++ k)) as Hns.
  { apply Forall_app. split; [apply clean_pieces_no_slash, split_on_pieces|by apply Hpl]. }
  assert (Forall (λ s, s ≠ "") (cp ++ k)) as Hne.
  { apply Forall_app. split; [apply clean_pieces_ne, split_on_pieces|by apply Hpl]. }
  assert (cp ++ k ≠ []) as Hcpk by by destruct cp, k.
  set (d' := (if r then "/" else "") +:+ join "/" (cp ++ k)).
  assert (is_rooted d' = r) as Hr'.
  { unfold d'. destruct r; [done|]. by apply is_rooted_join. }
  assert (clean_pieces r (split_on "/" d') = cp ++ k) as Hcl.
  { assert (clean_pieces r (cp ++ k) = cp ++ k) as Hidem.
    { unfold cp. rewrite <-clean_pieces_plain by done. apply clean_pieces_idem.
      apply Forall_app. split; [apply split_on_pieces|by apply Hpl]. }
    transitivity (clean_pieces r (cp ++ k)); [|done]. unfold d'.
    destruct r; [|by rewrite string_app_nil, split_on_join].
    change ("/" +:+ join "/" (cp ++ k)) with ("" +:+ String "/" (join "/" (cp ++ k))).
    by rewrite split_on_app, split_on_join. }
  rewrite Join_plain; [|by unfold d'; destruct r; [done|]; intros E;
    apply (f_equal (split_on "/")) in E; rewrite string_app_nil, split_on_join in E by done;
    rewrite E in Hne; inversion Hne|done..].
  rewrite Hr', Hcl. by rewrite <-(assoc_L (++)).
Qed.
