(* ===== verification/FsID.v ===== *)
(** * Content hashes and node identifiers

    [GenerateFsID] and [SHA1StringToUint64] of [pkg/blobfs.go], with the parts
    of [crypto/sha256] and [encoding/hex] they call: SHA-256 is written out as
    FIPS 180-4 gives it, on bytes, so identifiers can be computed. *)

From S2P Require Import Prelude GoStrings.
From Stdlib Require Export Strings.Byte.

(** ** Bytes *)

#[export] Instance byte_eq_dec : EqDecision byte := Byte.byte_eq_dec.

Definition bytes_of_string (s : string) : list byte := String.list_byte_of_string s.

Definition byte_of_N' (n : N) : byte :=
  match Byte.of_N (n `mod` 256) with Some b => b | None => x00 end.

(** Big-endian encoding of a number on [k] bytes, and back. *)
Fixpoint be_bytes (k : nat) (n : N) : list byte :=
  match k with
  | O => []
  | S k => be_bytes k (n `div` 256) ++ [byte_of_N' n]
  end.

Definition be_value (l : list byte) : N :=
  foldl (λ acc b, 256 * acc + Byte.to_N b)%N 0%N l.

(** ** SHA-256 *)

Module SHA256.

Definition word (n : N) : N := N.land n 4294967295.
Definition rotr (x k : N) : N :=
  N.lor (N.shiftr x k) (word (N.shiftl x (32 - k))).
Definition notw (x : N) : N := N.lxor x 4294967295.

Definition Ch (x y z : N) : N := N.lxor (N.land x y) (N.land (notw x) z).
Definition Maj (x y z : N) : N := N.lxor (N.land x y) (N.lxor (N.land x z) (N.land y z)).
Definition Sum0 (x : N) : N := N.lxor (rotr x 2) (N.lxor (rotr x 13) (rotr x 22)).
Definition Sum1 (x : N) : N := N.lxor (rotr x 6) (N.lxor (rotr x 11) (rotr x 25)).
Definition sig0 (x : N) : N := N.lxor (rotr x 7) (N.lxor (rotr x 18) (N.shiftr x 3)).
Definition sig1 (x : N) : N := N.lxor (rotr x 17) (N.lxor (rotr x 19) (N.shiftr x 10)).

Definition K : list N :=
  [1116352408; 1899447441; 3049323471; 3921009573; 961987163; 1508970993;
   2453635748; 2870763221; 3624381080; 310598401; 607225278; 1426881987;
   1925078388; 2162078206; 2614888103; 3248222580; 3835390401; 4022224774;
   264347078; 604807628; 770255983; 1249150122; 1555081692; 1996064986;
   2554220882; 2821834349; 2952996808; 3210313671; 3336571891; 3584528711;
   113926993; 338241895; 666307205; 773529912; 1294757372; 1396182291;
   1695183700; 1986661051; 2177026350; 2456956037; 2730485921; 2820302411;
   3259730800; 3345764771; 3516065817; 3600352804; 4094571909; 275423344;
   430227734; 506948616; 659060556; 883997877; 958139571; 1322822218;
   1537002063; 1747873779; 1955562222; 2024104815; 2227730452; 2361852424;
   2428436474; 2756734187; 3204031479; 3329325298]%N.

(** The eight working variables. *)
Record hash : Type := Hash { ha : N; hb : N; hc : N; hd : N; he : N; hf : N; hg : N; hh : N }.

Definition init : hash :=
  Hash 1779033703 3144134277 1013904242 2773480762 1359893119 2600822924 528734635 1541459225%N.

(** The message schedule, latest word first: sixteen words of the block, then
    forty-eight computed ones. *)
Fixpoint schedule (n : nat) (w : list N) : list N :=
  match n with
  | O => w
  | S n =>
      schedule n
        (word (sig1 (nth 1 w 0%N) + nth 6 w 0%N + sig0 (nth 14 w 0%N) + nth 15 w 0%N) :: w)
  end.

Definition round (h : hash) (kw : N * N) : hash :=
  let t1 := (hh h + Sum1 (he h) + Ch (he h) (hf h) (hg h) + kw.1 + kw.2)%N in
  let t2 := (Sum0 (ha h) + Maj (ha h) (hb h) (hc h))%N in
  Hash (word (t1 + t2)) (ha h) (hb h) (hc h) (word (hd h + t1)) (he h) (hf h) (hg h).

Fixpoint words_of (l : list byte) : list N :=
  match l with
  | a :: b :: c :: d :: l => be_value [a; b; c; d] :: words_of l
  | _ => []
  end.

Definition block (h : hash) (b : list byte) : hash :=
  let w := rev (schedule 48 (rev (words_of b))) in
  let h' := foldl round h (zip K w) in
  Hash (word (ha h + ha h')) (word (hb h + hb h')) (word (hc h + hc h'))
    (word (hd h + hd h')) (word (he h + he h')) (word (hf h + hf h'))
    (word (hg h + hg h')) (word (hh h + hh h')).

(** [n] blocks of 64 bytes. *)
Fixpoint blocks (n : nat) (h : hash) (l : list byte) : hash :=
  match n with
  | O => h
  | S n => blocks n (block h (take 64 l)) (drop 64 l)
  end.

Definition pad (l : list byte) : list byte :=
  l ++ [x80] ++ replicate ((119 - length l mod 64) mod 64) x00
    ++ be_bytes 8 (8 * N.of_nat (length l)).

(** [sha256.Sum256] *)
Definition Sum256 (l : list byte) : list byte :=
  let p := pad l in
  let h := blocks (length p / 64) init p in
  be_bytes 4 (ha h) ++ be_bytes 4 (hb h) ++ be_bytes 4 (hc h) ++ be_bytes 4 (hd h) ++
  be_bytes 4 (he h) ++ be_bytes 4 (hf h) ++ be_bytes 4 (hg h) ++ be_bytes 4 (hh h).

End SHA256.

(** ** encoding/hex *)

Definition hex_char (n : N) : ascii :=
  if bool_decide (n < 10)%N then ascii_of_N (48 + n) else ascii_of_N (87 + n).

Definition hex_val (a : ascii) : option N :=
  let n := N_of_ascii a in
  if bool_decide (48 ≤ n ∧ n ≤ 57)%N then Some (n - 48)%N
  else if bool_decide (97 ≤ n ∧ n ≤ 102)%N then Some (n - 87)%N
  else if bool_decide (65 ≤ n ∧ n ≤ 70)%N then Some (n - 55)%N
  else None.

(** [hex.EncodeToString] *)
Fixpoint EncodeToString (l : list byte) : string :=
  match l with
  | [] => ""
  | b :: l =>
      String (hex_char (Byte.to_N b `div` 16))
        (String (hex_char (Byte.to_N b `mod` 16)) (EncodeToString l))
  end.

(** [hex.DecodeString]: an odd length or a character that is not a hex digit
    is an error. *)
Fixpoint DecodeString (s : string) : option (list byte) :=
  match s with
  | "" => Some []
  | String a (String b s) =>
      x ← hex_val a; y ← hex_val b;
      l ← DecodeString s;
      Some (byte_of_N' (16 * x + y) :: l)
  | _ => None
  end.

(** ** pkg/blobfs.go *)

Definition GenerateFsID (name : string) : string :=
  EncodeToString (SHA256.Sum256 (bytes_of_string name)).

Fixpoint string_take (n : nat) (s : string) : string :=
  match n, s with
  | S n, String a s => String a (string_take n s)
  | _, _ => ""
  end.

(** [hash[:16]] panics on a shorter string. *)
Definition SHA1StringToUint64 (hash : string) : res Z :=
  if bool_decide (String.length hash < 16) then Panic PanicSlice
  else match DecodeString (string_take 16 hash) with
       | None => Err (ErrLib "hex: invalid byte")
       | Some bytes => Ok (Z.of_N (be_value bytes))
       end.

Definition is_hex (a : ascii) : bool := bool_decide (is_Some (hex_val a)).

Example Sum256_abc :
  EncodeToString (SHA256.Sum256 (bytes_of_string "abc"))
  = "ba7816bf8f01cfea414140de5dae2223b00361a396177a9cb410ff61f20015ad".
Proof. by vm_compute. Qed.
Example Sum256_two_blocks :
  EncodeToString (SHA256.Sum256
    (bytes_of_string "abcdbcdecdefdefgefghfghighijhijkijkljklmklmnlmnomnopnopq"))
  = "248d6a61d20638b8e5c026930c3e6039a33ce45964ff2167f6ecedd419db06c1".
Proof. by vm_compute. Qed.
Example GenerateFsID_root :
  GenerateFsID "/" = "8a5edab282632443219e051e4ade2d1d5bbc671c781051bf1437897cbdfea0f1".
Proof. by vm_compute. Qed.

(** ** Lemmas *)

Lemma be_bytes_length k n : length (be_bytes k n) = k.
Proof.
  revert n. induction k as [|k IH]; intros n; simpl; [done|].
  rewrite length_app, IH. simpl. lia.
Qed.

Lemma Sum256_length l : length (SHA256.Sum256 l) = 32.
Proof. unfold SHA256.Sum256. by rewrite !length_app, !be_bytes_length. Qed.

Lemma to_N_byte_of_N' n : Byte.to_N (byte_of_N' n) = (n `mod` 256)%N.
Proof.
  unfold byte_of_N'. pose proof (N.mod_upper_bound n 256).
  destruct (Byte.of_N (n `mod` 256)) as [b|] eqn:E.
  - by apply Byte.to_of_N in E.
  - apply Byte.of_N_None_iff in E. lia.
Qed.

Lemma byte_of_to_N b : byte_of_N' (Byte.to_N b) = b.
Proof.
  unfold byte_of_N'. pose proof (Byte.to_N_bounded b).
  rewrite N.mod_small by lia. by rewrite Byte.of_to_N.
Qed.

Lemma hex_val_char n : (n < 16)%N → hex_val (hex_char n) = Some n.
Proof.
  intros Hn. rewrite <-(N2Nat.id n).
  assert (Forall (λ k, hex_val (hex_char (N.of_nat k)) = Some (N.of_nat k)) (seq 0 16)) as H
    by (repeat constructor).
  rewrite Forall_forall in H. apply H, elem_of_seq. lia.
Qed.

Lemma hex_of_byte b : (16 * (Byte.to_N b `div` 16) + Byte.to_N b `mod` 16 = Byte.to_N b)%N.
Proof. symmetry. apply N.div_mod. lia. Qed.

Lemma hex_halves b : (Byte.to_N b `div` 16 < 16 ∧ Byte.to_N b `mod` 16 < 16)%N.
Proof.
  pose proof (Byte.to_N_bounded b). split.
  - apply N.Div0.div_lt_upper_bound. lia.
  - apply N.mod_upper_bound. lia.
Qed.

(** hex decoding undoes hex encoding. *)
Lemma DecodeString_EncodeToString l : DecodeString (EncodeToString l) = Some l.
Proof.
  induction l as [|b l IH]; [done|]. pose proof (hex_halves b) as [??]. simpl.
  rewrite !hex_val_char by done. simpl. rewrite IH. simpl.
  by rewrite hex_of_byte, byte_of_to_N.
Qed.

#[export] Instance EncodeToString_inj : Inj (=) (=) EncodeToString.
Proof.
  intros l k E. apply (f_equal DecodeString) in E.
  rewrite !DecodeString_EncodeToString in E. by injection E.
Qed.

Lemma EncodeToString_hex l : all_chars is_hex (EncodeToString l) = true.
Proof.
  induction l as [|b l IH]; [done|]. pose proof (hex_halves b) as [??]. simpl.
  unfold is_hex. rewrite !hex_val_char by done. by rewrite !bool_decide_eq_true_2 by done.
Qed.

Lemma EncodeToString_length l : String.length (EncodeToString l) = 2 * length l.
Proof. induction l as [|b l IH]; simpl; [done|]. rewrite IH. lia. Qed.

Lemma string_take_Encode k l :
  string_take (2 * k) (EncodeToString l) = EncodeToString (take k l).
Proof.
  revert l. induction k as [|k IH]; intros l; [done|].
  replace (2 * S k) with (S (S (2 * k))) by lia.
  destruct l as [|b l]; [done|]. simpl in *. by rewrite IH.
Qed.

Lemma be_value_snoc l b : be_value (l ++ [b]) = (256 * be_value l + Byte.to_N b)%N.
Proof. unfold be_value. by rewrite foldl_app. Qed.

Lemma be_value_bound l : (be_value l < 256 ^ N.of_nat (length l))%N.
Proof.
  induction l as [|b l IH] using rev_ind; [done|].
  rewrite be_value_snoc, length_app, Nat2N.inj_add, N.pow_add_r.
  pose proof (Byte.to_N_bounded b). simpl. lia.
Qed.

(** A number of [k] bytes is read back from its encoding. *)
Lemma be_value_be_bytes k n : be_value (be_bytes k n) = (n `mod` 256 ^ N.of_nat k)%N.
Proof.
  revert n. induction k as [|k IH]; intros n; simpl be_bytes.
  - by rewrite N.mod_1_r.
  - rewrite be_value_snoc, IH, to_N_byte_of_N'.
    replace (N.of_nat (S k)) with (1 + N.of_nat k)%N by lia.
    rewrite N.pow_add_r, N.pow_1_r, N.Div0.mod_mul_r. lia.
Qed.

(** The inode of a generated identifier. *)
Lemma SHA1StringToUint64_Generate name :
  SHA1StringToUint64 (GenerateFsID name) =
    Ok (Z.of_N (be_value (take 8 (SHA256.Sum256 (bytes_of_string name))))).
Proof.
  unfold GenerateFsID. set (sum := SHA256.Sum256 (bytes_of_string name)).
  assert (length sum = 32) as Hlen by apply Sum256_length.
  unfold SHA1StringToUint64. rewrite bool_decide_eq_false_2 by (rewrite EncodeToString_length; lia).
  by rewrite (string_take_Encode 8), DecodeString_EncodeToString.
Qed.

Lemma inode_range name :
  (0 ≤ Z.of_N (be_value (take 8 (SHA256.Sum256 (bytes_of_string name)))) < 2 ^ 64)%Z.
Proof.
  pose proof (be_value_bound (take 8 (SHA256.Sum256 (bytes_of_string name)))) as Hb.
  rewrite length_take, Sum256_length in Hb.
  change (256 ^ N.of_nat (8 `min` 32))%N with (2 ^ 64)%N in Hb. lia.
Qed.

(** ** Properties *)

(** C31: the identifier of a path is 64 hexadecimal digits, and its inode is the
    number of its first eight bytes: [SHA1StringToUint64] of a generated
    identifier never fails, and fits 64 bits. *)
Theorem fsid_inode name :
  String.length (GenerateFsID name) = 64 ∧
  all_chars is_hex (GenerateFsID name) = true ∧
  DecodeString (GenerateFsID name) = Some (SHA256.Sum256 (bytes_of_string name)) ∧
  ∃ inode, SHA1StringToUint64 (GenerateFsID name) = Ok inode ∧
    inode = Z.of_N (be_value (take 8 (SHA256.Sum256 (bytes_of_string name)))) ∧
    (0 ≤ inode < 2 ^ 64)%Z.
Proof.
  unfold GenerateFsID. set (sum := SHA256.Sum256 (bytes_of_string name)).
  assert (length sum = 32) as Hlen by apply Sum256_length.
  assert (String.length (EncodeToString sum) = 64) as Hs by (rewrite EncodeToString_length; lia).
  split_and!; [done|apply EncodeToString_hex|apply DecodeString_EncodeToString|].
  exists (Z.of_N (be_value (take 8 sum))). split_and!; [|done|apply inode_range..].
  apply SHA1StringToUint64_Generate.
Qed.
