(* ===== verification/Network.v ===== *)
(** * The addresses of [pkg/network.go]

    [isTLSEnabled] over [net.SplitHostPort], the default interface of
    [/proc/net/route] and the private address of the host.  What the kernel
    answers (the lines of the file, the addresses of an interface) is an
    argument; a [net.IP] is its bytes. *)

From S2P Require Import Prelude GoStrings FsID.
Local Open Scope Z_scope.

(** ** Strings *)

(** [strings.IndexByte] and [strings.LastIndexByte]. *)
Fixpoint IndexByte (c : ascii) (s : string) : option nat :=
  match s with
  | "" => None
  | String a s => if decide (a = c) then Some 0%nat else S <$> IndexByte c s
  end.

Fixpoint LastIndexByte (c : ascii) (s : string) : option nat :=
  match s with
  | "" => None
  | String a s =>
      match LastIndexByte c s with
      | Some i => Some (S i)
      | None => if decide (a = c) then Some 0%nat else None
      end
  end.

(** [s[n:]] and [s[:n]], in range. *)
Fixpoint str_drop (n : nat) (s : string) : string :=
  match n, s with S n, String _ s => str_drop n s | _, _ => s end.
Fixpoint str_take (n : nat) (s : string) : string :=
  match n, s with S n, String a s => String a (str_take n s) | _, _ => "" end.

(** The white space of ASCII. *)
Definition is_space (a : ascii) : bool :=
  let n := N_of_ascii a in bool_decide ((9 ≤ n ∧ n ≤ 13) ∨ n = 32)%N.

(** [strings.Fields]: the words between white space; [w] is the word that is
    being read. *)
Fixpoint fields_from (w s : string) : list string :=
  let flush l := if decide (w = "") then l else w :: l in
  match s with
  | "" => flush []
  | String a s =>
      if is_space a then flush (fields_from "" s) else fields_from (w +:+ String a "") s
  end.
Definition Fields (s : string) : list string := fields_from "" s.

(** [strings.TrimSpace] *)
Fixpoint trim_left (s : string) : string :=
  match s with
  | "" => ""
  | String a t => if is_space a then trim_left t else s
  end.
Fixpoint trim_right (s : string) : string :=
  match s with
  | "" => ""
  | String a s =>
      match trim_right s with
      | "" => if is_space a then "" else String a ""
      | t => String a t
      end
  end.
Definition TrimSpace (s : string) : string := trim_right (trim_left s).

(** ** Host and port *)

Definition missingPort : error := ErrLib "missing port in address".
Definition tooManyColons : error := ErrLib "too many colons in address".

(** The host of the address, and the places after which no ['['] and no [']']
    may come; [i] is the place of the last colon. *)
Definition split_host (hostport : string) (i : nat) : res (string * nat * nat) :=
  match hostport with
  | String "[" _ =>
      match IndexByte "]" hostport with
      | None => Err (ErrLib "missing ']' in address")
      | Some e =>
          if decide (e + 1 = String.length hostport)%nat then Err missingPort
          else if decide (e + 1 = i)%nat
          then Ok (str_drop 1 (str_take e hostport), 1%nat, (e + 1)%nat)
          else match str_drop (e + 1) hostport with
               | String ":" _ => Err tooManyColons
               | _ => Err missingPort
               end
      end
  | _ =>
      let host := str_take i hostport in
      if has_char ":" host then Err tooManyColons else Ok (host, 0%nat, 0%nat)
  end.

(** [net.SplitHostPort]: the host and the port. *)
Definition SplitHostPort (hostport : string) : res (string * string) :=
  match LastIndexByte ":" hostport with
  | None => Err missingPort
  | Some i =>
      match split_host hostport i with
      | Ok (host, j, k) =>
          if has_char "[" (str_drop j hostport) then Err (ErrLib "unexpected '[' in address")
          else if has_char "]" (str_drop k hostport) then Err (ErrLib "unexpected ']' in address")
          else Ok (host, str_drop (S i) hostport)
      | Err e => Err e
      | Panic p => Panic p
      end
  end.

Definition isTLSEnabled (addr : string) : bool :=
  match SplitHostPort addr with
  | Ok (_, port) => bool_decide (port = "443")
  | _ => false
  end.

(** ** The addresses of the host *)

(** [getDefaultInterface], over the scanned lines of [/proc/net/route]: a line
    before the default route with fewer than two words is an index panic. *)
Fixpoint default_route (lines : list string) : res string :=
  match lines with
  | [] => Err (ErrNew "default route not found")
  | line :: lines =>
      match Fields line with
      | iface :: destination :: _ =>
          if bool_decide (destination = "00000000") then Ok iface else default_route lines
      | _ => Panic PanicIndex
      end
  end.
Definition getDefaultInterface (file : res (list string)) : res string :=
  match file with
  | Ok lines => default_route lines
  | Err e => Err e
  | Panic p => Panic p
  end.

(** [net.IP]: [To4], [IsLoopback] and the text of an IPv4 address. *)
Definition To4 (ip : list byte) : option (list byte) :=
  if bool_decide (length ip = 4%nat) then Some ip
  else if bool_decide (length ip = 16%nat ∧
       take 12 ip = replicate 10 x00 ++ [xff; xff]) then Some (drop 12 ip)
  else None.

Definition IsLoopback (ip : list byte) : bool :=
  match To4 ip with
  | Some ip4 => bool_decide (head ip4 = Some x7f)
  | None => bool_decide (ip = replicate 15 x00 ++ [x01])
  end.

Definition byte_text (b : byte) : string := pretty (Z.of_N (Byte.to_N b)).
Definition ip4_text (ip4 : list byte) : string := join "." (map byte_text ip4).

(** The addresses of an interface; one that is neither [*net.IPNet] nor
    [*net.IPAddr] leaves the IP nil: [None]. *)
Fixpoint first_private (addrs : list (option (list byte))) : res string :=
  match addrs with
  | [] => Err (ErrNew "no active network interface found with a private IP address")
  | addr :: addrs =>
      match addr with
      | None => first_private addrs
      | Some ip =>
          if IsLoopback ip then first_private addrs
          else match To4 ip with
               | Some ip4 => Ok (ip4_text ip4)
               | None => first_private addrs
               end
      end
  end.

(** [InterfaceByName] and [Addrs] as one answer by name. *)
Definition GetPrivateIpAddr (file : res (list string))
    (addrs_of : string → res (list (option (list byte)))) : res string :=
  match getDefaultInterface file with
  | Ok ifaceName =>
      match addrs_of ifaceName with
      | Ok addrs => first_private addrs
      | Err e => Err e
      | Panic p => Panic p
      end
  | Err e => Err e
  | Panic p => Panic p
  end.

(** [GetPublicIpAddr], over the body that the service answers. *)
Definition GetPublicIpAddr (body : res string) : res string :=
  match body with Ok ip => Ok (TrimSpace ip) | r => r end.

(** The address that a server advertises: [fmt.Sprintf("%s:%d", ip, port)]. *)
Definition server_addr (ip : string) (port : Z) : string := ip +:+ ":" +:+ pretty port.

(** ** Lemmas *)

Lemma LastIndexByte_no c s : has_char c s = false → LastIndexByte c s = None.
Proof.
  induction s as [|a s IH]; [done|]. simpl. intros [Ha Hs]%orb_false_iff.
  apply bool_decide_eq_false_1 in Ha. by rewrite IH, decide_False.
Qed.

Lemma LastIndexByte_app c s t :
  has_char c t = false → LastIndexByte c (s +:+ String c t) = Some (String.length s).
Proof.
  intros Ht. induction s as [|a s IH].
  - rewrite string_app_nil. simpl. by rewrite LastIndexByte_no, decide_True.
  - rewrite string_app_cons. simpl. by rewrite IH.
Qed.

Lemma str_drop_app s t : str_drop (String.length s) (s +:+ t) = t.
Proof. induction s as [|a s IH]; [by destruct t|done]. Qed.

Lemma str_take_app s t : str_take (String.length s) (s +:+ t) = s.
Proof. induction s as [|a s IH]; [done|]. rewrite string_app_cons. simpl. by rewrite IH. Qed.

Lemma str_drop_S_app s c t : str_drop (S (String.length s)) (s +:+ String c t) = t.
Proof. induction s as [|a s IH]; [by destruct t|]. exact IH. Qed.

(** An address without brackets and with one colon. *)
Lemma SplitHostPort_app host port :
  has_char ":" host = false → has_char ":" port = false →
  has_char "[" (host +:+ ":" +:+ port) = false → has_char "]" (host +:+ ":" +:+ port) = false →
  SplitHostPort (host +:+ ":" +:+ port) = Ok (host, port).
Proof.
  intros Hh Hp Hl Hr. change (":" +:+ port) with (String ":" port) in *.
  unfold SplitHostPort. rewrite LastIndexByte_app by done.
  assert (split_host (host +:+ String ":" port) (String.length host) = Ok (host, 0%nat, 0%nat)) as ->.
  { unfold split_host. rewrite str_take_app, Hh.
    destruct (host +:+ String ":" port) as [|a s]; [done|]. simpl in Hl.
    apply orb_false_iff in Hl as [Ha _]. apply bool_decide_eq_false_1 in Ha.
    by destruct a as [[] [] [] [] [] [] [] []]. }
  rewrite str_drop_S_app.
  assert (∀ s, str_drop 0 s = s) as -> by by intros [].
  by rewrite Hl, Hr.
Qed.

(** The text of an IPv4 address: digits and dots. *)
Definition ip_char (a : ascii) : bool := is_digit a || bool_decide (a = "."%char).

Lemma all_chars_weaken (P Q : ascii → bool) s :
  (∀ a, P a = true → Q a = true) → all_chars P s = true → all_chars Q s = true.
Proof.
  intros H. induction s as [|a s IH]; [done|]. simpl.
  intros [Ha Hs]%andb_true_iff. by rewrite H, IH.
Qed.

Lemma byte_text_chars b : all_chars ip_char (byte_text b) = true.
Proof.
  unfold byte_text. rewrite pretty_Z_nonneg by lia.
  apply (all_chars_weaken is_digit); [|apply pretty_N_digits].
  intros a Ha. unfold ip_char. by rewrite Ha.
Qed.

Lemma ip4_text_chars ip4 : all_chars ip_char (ip4_text ip4) = true.
Proof.
  unfold ip4_text. induction ip4 as [|b [|b' l] IH]; [done|apply byte_text_chars|].
  change (all_chars ip_char (byte_text b +:+ "." +:+ join "." (map byte_text (b' :: l))) = true).
  by rewrite !all_chars_app, byte_text_chars, IH.
Qed.

Lemma first_private_chars addrs ip : first_private addrs = Ok ip → all_chars ip_char ip = true.
Proof.
  induction addrs as [|[a|] addrs IH]; simpl; [done| |done].
  destruct (IsLoopback a); [done|]. destruct (To4 a) as [ip4|]; [|done].
  intros [= <-]. apply ip4_text_chars.
Qed.

Lemma GetPrivateIpAddr_chars file addrs_of ip :
  GetPrivateIpAddr file addrs_of = Ok ip → all_chars ip_char ip = true.
Proof.
  unfold GetPrivateIpAddr. destruct (getDefaultInterface file) as [iface|e|p]; [|done..].
  destruct (addrs_of iface) as [addrs|e|p]; [|done..]. apply first_private_chars.
Qed.

Lemma server_addr_split ip port :
  all_chars ip_char ip = true → SplitHostPort (server_addr ip port) = Ok (ip, pretty port).
Proof.
  intros Hip. assert (∀ c, ip_char c = false → has_char c ip = false) as Hc
    by (intros c; by apply all_chars_has_char).
  assert (∀ c : ascii, is_digit c = false → c ≠ "-"%char → has_char c (pretty port) = false) as Hd
    by (intros; by apply pretty_Z_no_char).
  apply SplitHostPort_app; [by apply Hc|by apply Hd|..];
    rewrite !has_char_app, Hc, Hd by done; done.
Qed.

(** ** Properties *)

(** The private address that a server advertises splits back into the address
    it found and its port, so a client dials it over TLS exactly when the server's
    port is 443; a server that found no address advertises [":port"], which splits
    the same way. *)
Theorem advertised_address file addrs_of ip port :
  GetPrivateIpAddr file addrs_of = Ok ip ∨ ip = "" →
  SplitHostPort (server_addr ip port) = Ok (ip, pretty port) ∧
  isTLSEnabled (server_addr ip port) = bool_decide (port = 443).
Proof.
  intros Hip. assert (all_chars ip_char ip = true) as Hc.
  { destruct Hip as [Hip| ->]; [by eapply GetPrivateIpAddr_chars|done]. }
  assert (SplitHostPort (server_addr ip port) = Ok (ip, pretty port)) as Hs
    by by apply server_addr_split.
  split; [done|]. unfold isTLSEnabled. rewrite Hs. apply bool_decide_ext.
  split; [|by intros ->]. intros E. apply (inj (pretty (A:=Z))). by rewrite E.
Qed.

(** A routing table with the header of the file and two routes. *)
Definition route_file : list string :=
  ["Iface Destination Gateway"; "eth1 0000A8C0 00000000"; "eth0 00000000 0100A8C0"].
Definition eth0_addrs (name : string) : res (list (option (list byte))) :=
  if decide (name = "eth0") then
    Ok [Some [x7f; x00; x00; x01]; None; Some (replicate 16 xfe);
        Some (replicate 10 x00 ++ [xff; xff; xc0; xa8; x00; x02])]
  else Err (ErrLib "no such interface").

Lemma advertised_address_witness :
  server_addr "192.168.0.2" 2049 = "192.168.0.2:2049" ∧
  SplitHostPort "192.168.0.2:2049" = Ok ("192.168.0.2", "2049") ∧
  isTLSEnabled "192.168.0.2:2049" = false.
Proof.
  split; [by vm_compute|].
  apply (advertised_address (Ok route_file) eth0_addrs "192.168.0.2" 2049).
  left. by vm_compute.
Defined.

(** [network_test.go], then an IPv6 address, two colons and no port. *)
Example Test_IsTLSEnabled :
  map isTLSEnabled ["localhost:443"; "localhost:2049"; "127.0.0.1:443"; "127.0.0.1:2049"]
  = [true; false; true; false].
Proof. done. Qed.
Example tls_ipv6 : SplitHostPort "[::1]:443" = Ok ("::1", "443").
Proof. done. Qed.
Example two_colons : SplitHostPort "::1:443" = Err tooManyColons.
Proof. done. Qed.
Example no_port : isTLSEnabled "host" = false.
Proof. done. Qed.
(** A blank line before the default route is an index panic. *)
Example blank_route : getDefaultInterface (Ok [""; "eth0 00000000 0"]) = Panic PanicIndex.
Proof. done. Qed.
