(* ===== verification/Config.v ===== *)
(** * The configuration manager of [pkg/config.go]

    [NewConfigManager] loads the default document, then the file of [CONFIG_PATH],
    then [CONFIG_JSON], and [GetConfig] reads the fields of the configuration by
    one of their two tags.  koanf is third-party code: a class with the laws of its
    merging and of its unmarshalling. *)

From S2P Require Import Prelude GoStrings FsID.

(** ** koanf *)

(** What a document, or the configuration, has at a path of keys: nothing, a section,
    or a value ([None] is null). *)
Inductive entry : Type := Absent | Section_ | Value (v : option string).
#[export] Instance entry_eq_dec : EqDecision entry.
Proof. solve_decision. Defined.

Definition is_value (e : entry) : bool := match e with Value _ => true | _ => false end.

(** A value or a null above the path: the path is below something that is no section. *)
Definition cut_above (d : list string → entry) (path : list string) : bool :=
  existsb (λ i, is_value (d (take i path))) (seq 0 (length path)).

(** What a document says of a path: what it has there; that there is nothing, when it
    has a value above; or nothing at all. *)
Definition verdict (d : list string → entry) (path : list string) : option entry :=
  match d path with
  | Absent => if cut_above d path then Some Absent else None
  | e => Some e
  end.

(** [k_field] is what unmarshalling gives to a field of a nested struct, by the tags on
    the way to it; a document can fail to parse. *)
Class Koanf (K Doc : Type) : Type := {
  k_New : K;
  k_Load : string → Doc → K → res K;
  k_field : K → list string → option string;
  k_Bool : K → string → bool;
}.

(** [d_at]: a document as a parser reads it.  A load merges section by section, and a
    value or a null replaces a whole section.  [k_matches]: the keys that unmarshalling
    takes for a tag when the tag itself is not there (those that are the same but for
    upper and lower case). *)
Class KoanfLaws (K Doc : Type) `{Koanf K Doc} : Type := {
  d_at : string → Doc → list string → entry;
  k_at : K → list string → entry;
  k_matches : string → string → Prop;
  k_New_at path : path ≠ [] → k_at k_New path = Absent;
  k_Load_at parser doc k k' path :
    path ≠ [] → k_Load parser doc k = Ok k' →
    k_at k' path = default (k_at k path) (verdict (d_at parser doc) path);
  k_field_exact k path v : k_at k path = Value v → k_field k path = v;
  k_field_absent k path :
    (∀ path', Forall2 k_matches path path' → k_at k path' = Absent) → k_at k path = Absent →
    k_field k path = None;
  k_Load_no_panic parser doc k p : k_Load parser doc k ≠ Panic p;
}.

(** ** Definitions *)

Definition JSONConfigFormat : string := ".json".
Definition YAMLConfigFormat : string := ".yaml".
Definition YMLConfigFormat : string := ".yml".

(** [filepath.Ext]: from the last dot of the last element. *)
Fixpoint Ext (s : string) : string :=
  match s with
  | "" => ""
  | String a t =>
      if decide (a = "."%char ∧ has_char "." t = false ∧ has_char "/" t = false) then s else Ext t
  end.

(** The parsers by format. *)
Definition GetConfigParser (format : string) : res string :=
  if decide (format = JSONConfigFormat) then Ok "json"
  else if decide (format = YAMLConfigFormat ∨ format = YMLConfigFormat) then Ok "yaml"
  else Err (ErrNew ("parser not found for format" +:+ format)).

(** The environment of the process: [CONFIG_PATH] with what the file holds, and
    [CONFIG_JSON] with its document. *)
Record config_env (Doc : Type) : Type := mkConfigEnv {
  defaultConfig : Doc; CONFIG_PATH : string; path_doc : res Doc; CONFIG_JSON : string; json_doc : Doc;
}.
Arguments mkConfigEnv {Doc} _ _ _ _ _.
Arguments defaultConfig {Doc} _.
Arguments CONFIG_PATH {Doc} _.
Arguments path_doc {Doc} _.
Arguments CONFIG_JSON {Doc} _.
Arguments json_doc {Doc} _.

Section config.
Context {K Doc : Type} `{Koanf K Doc}.

Definition LoadConfig (format : string) (provider : res Doc) : M K () := λ k,
  match GetConfigParser format with
  | Ok parser =>
      match provider with
      | Ok doc => match k_Load parser doc k with
                  | Ok k' => (Ok tt, k') | Err e => (Err e, k) | Panic p => (Panic p, k)
                  end
      | Err e => (Err e, k)
      | Panic p => (Panic p, k)
      end
  | Err e => (Err e, k)
  | Panic p => (Panic p, k)
  end.

(** The file of the user. *)
Definition load_path (env : config_env Doc) : M K string :=
  let ce := Ext (CONFIG_PATH env) in
  if decide (CONFIG_PATH env ≠ "" ∧ ce ≠ "")
  then LoadConfig ce (path_doc env) ≫= λ _, mret ce
  else mret YAMLConfigFormat.

(** [NewConfigManager]: the format that [GetConfig] goes by; [log.Fatalf] on a bad
    [CONFIG_JSON]. *)
Definition NewConfigManager (env : config_env Doc) : M K string :=
  LoadConfig YAMLConfigFormat (Ok (defaultConfig env)) ≫= λ _,
  configFormat ← load_path env;
  if decide (CONFIG_JSON env ≠ "") then
    r ← attempt (LoadConfig JSONConfigFormat (Ok (json_doc env)));
    match r with inr _ => gopanic ProcessExit | inl _ => mret JSONConfigFormat end
  else mret configFormat.

(** Whether the current configuration is printed. *)
Definition prints_config (k : K) : bool := k_Bool k "debugMode".

(** The tag that [GetConfig] reads the fields by. *)
Definition config_tag (configFormat : string) : string :=
  if decide (configFormat = JSONConfigFormat) then "json" else "key".

(** A field of the configuration: its paths by the two tags. *)
Record field : Type := mkField { f_key : list string; f_json : list string }.
Definition f_path (tag : string) (f : field) : list string :=
  if decide (tag = "json") then f_json f else f_key f.

(** The value that [UnmarshalWithConf] gives a field; [None] is its zero value. *)
Definition field_value (k : K) (configFormat : string) (f : field) : option string :=
  k_field k (f_path (config_tag configFormat) f).

End config.

(** The fields of [BlobCacheGlobalConfig], of [BlobCacheClientConfig] and of
    [BlobCacheServerConfig] that are not records. *)
Definition in_section (s : string) (l : list (string * string)) : list field :=
  map (λ p, mkField [s; p.1] [s; p.2]) l.

Definition global_fields : list field := in_section "global"
  [("defaultLocality", "default_locality"); ("coordinatorHost", "coordinator_host");
   ("serverPort", "server_port"); ("discoveryIntervalS", "discovery_interval_s");
   ("rttThresholdMilliseconds", "rtt_threshold_ms");
   ("hostStorageCapacityThresholdPct", "host_storage_capacity_threshold_pct");
   ("grpcDialTimeoutS", "grpc_dial_timeout_s"); ("grpcMessageSizeBytes", "grpc_message_size_bytes");
   ("grpcInitialWindowSize", "grpc_initial_window_size");
   ("grpcInitialConnWindowSize", "grpc_initial_conn_window_size");
   ("grpcWriteBufferSize", "grpc_write_buffer_size");
   ("grpcReadBufferSize", "grpc_read_buffer_size");
   ("grpcMaxConcurrentStreams", "grpc_max_concurrent_streams");
   ("grpcNumStreamWorkers", "grpc_num_stream_workers"); ("debugMode", "debug_mode");
   ("prettyLogs", "pretty_logs")].

Definition client_fields : list field := in_section "client"
  [("token", "token"); ("minRetryLengthBytes", "min_retry_length_bytes");
   ("maxGetContentAttempts", "max_get_content_attempts"); ("nTopHosts", "n_top_hosts")].

Definition server_fields : list field := in_section "server"
  [("mode", "mode"); ("diskCacheDir", "disk_cache_dir");
   ("diskCacheMaxUsagePct", "disk_cache_max_usage_pct"); ("enableMemoryCache", "enable_memory_cache");
   ("token", "token"); ("prettyLogs", "pretty_logs"); ("objectTtlS", "object_ttl_s");
   ("maxCachePct", "max_cache_pct"); ("pageSizeBytes", "page_size_bytes");
   ("s3DownloadConcurrency", "s3_download_concurrency");
   ("s3DownloadChunkSize", "s3_download_chunk_size")].

(** ** Theorems *)

Section theorems.
Context {K Doc : Type} `{KoanfLaws K Doc}.

Lemma LoadConfig_at format doc (k k' : K) :
  LoadConfig format (Ok doc) k = (Ok tt, k') →
  ∃ parser, GetConfigParser format = Ok parser ∧
    ∀ path, path ≠ [] → k_at k' path = default (k_at k path) (verdict (d_at parser doc) path).
Proof.
  unfold LoadConfig. destruct (GetConfigParser format) as [parser|e|p]; [|done..].
  destruct (k_Load parser doc k) as [k1|e|p] eqn:E; [|done..]. intros [= <-].
  exists parser. split; [done|]. intros path Hp. by apply k_Load_at.
Qed.

(** The last verdict. *)
Definition last_of (l : list (option entry)) : entry :=
  foldl (λ acc v, default acc v) Absent l.

(** What the documents of the environment make of a path, in the order of their
    loading. *)
Definition documents_say (env : config_env Doc) (parser : string) (path : list string) : entry :=
  last_of
    [verdict (d_at "yaml" (defaultConfig env)) path;
     (if bool_decide (CONFIG_PATH env ≠ "" ∧ Ext (CONFIG_PATH env) ≠ "")
      then match path_doc env with Ok d => verdict (d_at parser d) path | _ => None end
      else None);
     (if bool_decide (CONFIG_JSON env ≠ "") then verdict (d_at "json" (json_doc env)) path else None)].

Lemma load_path_at env cf (k1 k2 : K) :
  (∀ path, path ≠ [] → k_at k1 path = last_of [verdict (d_at "yaml" (defaultConfig env)) path]) →
  load_path env k1 = (Ok cf, k2) →
  ∃ parser, let ext := Ext (CONFIG_PATH env) in
    let b := bool_decide (CONFIG_PATH env ≠ "" ∧ ext ≠ "") in
    cf = (if b then ext else YAMLConfigFormat) ∧ (b = true → GetConfigParser ext = Ok parser) ∧
    ∀ path, path ≠ [] → k_at k2 path = last_of [verdict (d_at "yaml" (defaultConfig env)) path;
      if b then match path_doc env with Ok d => verdict (d_at parser d) path | _ => None end else None].
Proof.
  intros Hg1 E2. unfold load_path in E2. destruct (decide _) as [Hp|Hp]; cbv zeta.
  - apply bind_Ok_inv in E2 as ([] & k2' & E2 & [= <- <-]). rewrite bool_decide_eq_true_2 by done.
    destruct (path_doc env) as [d|e|p] eqn:Ed; [|unfold LoadConfig in E2; by destruct (GetConfigParser _)..].
    destruct (LoadConfig_at _ _ _ _ E2) as (parser & Hparser & Hg). exists parser.
    split_and!; [done..|]. intros path Hne. by rewrite Hg, Hg1 by done.
  - injection E2 as <- <-. rewrite bool_decide_eq_false_2 by done. exists "".
    split_and!; [done..|]. intros path Hne. by rewrite Hg1.
Qed.

Lemma NewConfigManager_at env format (k : K) :
  NewConfigManager env k_New = (Ok format, k) →
  let ext := Ext (CONFIG_PATH env) in
  let from_path := bool_decide (CONFIG_PATH env ≠ "" ∧ ext ≠ "") in
  let from_json := bool_decide (CONFIG_JSON env ≠ "") in
  format = (if from_json then JSONConfigFormat else if from_path then ext else YAMLConfigFormat) ∧
  ∃ parser, (from_path = true → GetConfigParser ext = Ok parser) ∧
    ∀ path, path ≠ [] → k_at k path = documents_say env parser path.
Proof.
  intros ([] & k1 & E1 & E)%bind_Ok_inv. cbv zeta.
  apply bind_Ok_inv in E as (cf & k2 & E2 & E).
  destruct (LoadConfig_at _ _ _ _ E1) as (p1 & [= <-] & Hg1).
  assert (∀ path, path ≠ [] → k_at k1 path = last_of [verdict (d_at "yaml" (defaultConfig env)) path])
    as Hg1' by (intros path Hne; by rewrite Hg1, k_New_at).
  destruct (load_path_at env cf k1 k2 Hg1' E2) as (parser & Hcf & Hparser & Hg2).
  cbv zeta in Hcf, Hparser, Hg2. unfold documents_say.
  destruct (decide (CONFIG_JSON env ≠ "")) as [Hj|Hj].
  - rewrite (bool_decide_eq_true_2 (CONFIG_JSON env ≠ "")) by done.
    apply bind_Ok_inv in E as (r & k3 & E3 & E). unfold attempt in E3.
    destruct (LoadConfig JSONConfigFormat (Ok (json_doc env)) k2) as [[[]|e|p] k3'] eqn:E4;
      [|by injection E3 as <- <-|done]. injection E3 as <- <-. injection E as <- <-.
    destruct (LoadConfig_at _ _ _ _ E4) as (p4 & [= <-] & Hg4).
    split; [done|]. exists parser. split; [done|]. intros path Hne. by rewrite Hg4, Hg2.
  - rewrite (bool_decide_eq_false_2 (CONFIG_JSON env ≠ "")) by done. injection E as <- <-.
    split; [done|]. exists parser. split; [done|]. intros path Hne. by rewrite Hg2.
Qed.

(** C40: a configuration that loads takes each of its fields from the last of the
    default document, the file of [CONFIG_PATH] and [CONFIG_JSON] that says something
    of the field's path: a value there, or a value or a null in place of a section
    above it, which drops what the documents before had.  The path is the one of the
    [json] tag exactly when [CONFIG_JSON] is set, or the file ends in [.json], and of
    the [key] tag otherwise.  A field whose path no document has, in no spelling, is
    left at its zero value. *)
Theorem config_field_value env format (k : K) f :
  NewConfigManager env k_New = (Ok format, k) → f_key f ≠ [] → f_json f ≠ [] →
  let ext := Ext (CONFIG_PATH env) in
  let from_path := bool_decide (CONFIG_PATH env ≠ "" ∧ ext ≠ "") in
  let from_json := bool_decide (CONFIG_JSON env ≠ "") in
  let path := if from_json || (from_path && bool_decide (ext = ".json")) then f_json f else f_key f in
  ∃ parser, (from_path = true → GetConfigParser ext = Ok parser) ∧
  (∀ v, documents_say env parser path = Value v → field_value k format f = v) ∧
  (documents_say env parser path = Absent →
   (∀ path', Forall2 k_matches path path' → documents_say env parser path' = Absent) →
   field_value k format f = None).
Proof.
  intros E Hk Hj. cbv zeta.
  destruct (NewConfigManager_at env format k E) as (Hf & parser & Hparser & Hat).
  set (ext := Ext (CONFIG_PATH env)) in *.
  set (from_path := bool_decide (CONFIG_PATH env ≠ "" ∧ ext ≠ "")) in *.
  set (from_json := bool_decide (CONFIG_JSON env ≠ "")) in *.
  set (path := if from_json || (from_path && bool_decide (ext = ".json")) then f_json f else f_key f).
  assert (f_path (config_tag format) f = path) as Hpath.
  { rewrite Hf. unfold path, config_tag, f_path, JSONConfigFormat, YAMLConfigFormat.
    destruct from_json; [done|]. destruct from_path; [|done]. simpl.
    destruct (decide (ext = ".json")) as [He|He];
      [by rewrite bool_decide_eq_true_2|by rewrite bool_decide_eq_false_2]. }
  assert (path ≠ []) as Hne by (unfold path; by destruct (_ || _)).
  exists parser. split; [exact Hparser|]. unfold field_value. rewrite Hpath. split.
  - intros v Hv. apply k_field_exact. by rewrite Hat.
  - intros Habs Hall. apply k_field_absent; [|by rewrite Hat].
    intros path' Hm. rewrite Hat; [by apply Hall|]. intros ->. by inversion Hm as [E0|].
Qed.

End theorems.

(** ** Examples *)

(** Documents as maps from paths to what they have there: a section, or a value. *)
Abbreviation doc := (gmap (list string) (option (option string))).
Definition entry_of (x : option (option (option string))) : entry :=
  match x with None => Absent | Some None => Section_ | Some (Some v) => Value v end.
Definition at_path (d : doc) (path : list string) : entry := entry_of (d !! path).

(** The same but for the case of ASCII letters. *)
Definition lower (a : ascii) : ascii :=
  let n := N_of_ascii a in if bool_decide (65 ≤ n ∧ n ≤ 90)%N then ascii_of_N (n + 32) else a.
Fixpoint to_lower (s : string) : string :=
  match s with "" => "" | String a s => String (lower a) (to_lower s) end.
Definition same_key (a b : string) : Prop := to_lower a = to_lower b.

Definition map_field (k : doc) (path : list string) : option string :=
  match at_path k path with
  | Value v => v
  | _ =>
      match list_find (λ kv, map to_lower path = map to_lower kv.1) (map_to_list k) with
      | Some (_, (_, Some v)) => v
      | _ => None
      end
  end.

#[local] Instance map_koanf : Koanf doc doc := {
  k_New := ∅;
  k_Load _ d k := Ok (d ∪ filter (λ kv, cut_above (at_path d) kv.1 = false) k);
  k_field := map_field;
  k_Bool k path := bool_decide (at_path k [path] = Value (Some "true"));
}.

Lemma map_to_lower_Forall2 p q : map to_lower p = map to_lower q → Forall2 same_key p q.
Proof.
  revert q. induction p as [|a p IH]; intros [|b q]; try done. simpl. intros [= E1 E2].
  constructor; [done|by apply IH].
Qed.

Lemma at_path_merge (d k : doc) path :
  at_path (d ∪ filter (λ kv, cut_above (at_path d) kv.1 = false) k) path
  = default (at_path k path) (verdict (at_path d) path).
Proof.
  unfold verdict. unfold at_path at 1. rewrite lookup_union, map_lookup_filter.
  destruct (d !! path) as [e|] eqn:E.
  - assert (at_path d path = entry_of (Some e)) as -> by (unfold at_path; by rewrite E).
    rewrite union_Some_l. by destruct e.
  - assert (at_path d path = Absent) as -> by (unfold at_path; by rewrite E).
    rewrite (left_id_L None _). change (at_path k path) with (entry_of (k !! path)).
    destruct (k !! path) as [e|]; simpl; [|by destruct (cut_above _ _)].
    destruct (cut_above (at_path d) path) eqn:Ec.
    + rewrite option_guard_False; [done|]. simpl. congruence.
    + by rewrite option_guard_True.
Qed.

#[local] Instance map_koanf_laws : KoanfLaws doc doc.
Proof.
  refine {| d_at _ := at_path; k_at := at_path; k_matches := same_key |}.
  - intros path _. done.
  - intros parser d k k' path _ [= <-]. apply at_path_merge.
  - intros k path v Hv. simpl. unfold map_field. by rewrite Hv.
  - intros k path Hall Habs. simpl. unfold map_field. rewrite Habs.
    destruct (list_find _ _) as [[i [p [v|]]]|] eqn:E; try done.
    apply list_find_Some in E as (Hl & Hp & _). exfalso.
    apply list_elem_of_lookup_2, elem_of_map_to_list in Hl.
    specialize (Hall p (map_to_lower_Forall2 _ _ Hp)). unfold at_path in Hall. by rewrite Hl in Hall.
  - done.
Defined.

(** A few lines of [config.default.yaml]. *)
Definition sections : doc := {[ ["global"] := None; ["server"] := None; ["client"] := None ]}.
Definition default_yaml : doc :=
  {[ ["global"; "serverPort"] := Some (Some "2049"); ["global"; "discoveryIntervalS"] := Some (Some "5");
     ["server"; "pageSizeBytes"] := Some (Some "4000000"); ["server"; "mode"] := Some (Some "slave");
     ["client"; "nTopHosts"] := Some (Some "3") ]} ∪ sections.
Definition debug_on : doc :=
  {[ ["global"; "debugMode"] := Some (Some "true"); ["global"; "debug_mode"] := Some (Some "true");
     ["global"] := None ]}.
(** A file with [client:] and nothing below it. *)
Definition empty_client : doc := {[ ["client"] := Some None ]}.

Definition load (path json : string) (file : doc) : res string * doc :=
  NewConfigManager (mkConfigEnv default_yaml path (Ok file) json debug_on) (k_New (Doc := doc)).

(** The mode keeps its default with a file that empties the section of the client; the
    number of hosts does not. *)
Lemma config_field_value_witness :
  field_value (load "c.yaml" "" empty_client).2 ".yaml" (mkField ["server"; "mode"] ["server"; "mode"])
  = Some "slave" ∧
  field_value (load "c.yaml" "" empty_client).2 ".yaml"
    (mkField ["client"; "nTopHosts"] ["client"; "n_top_hosts"]) = None.
Proof.
  assert (load "c.yaml" "" empty_client = (Ok ".yaml", (load "c.yaml" "" empty_client).2)) as E
    by (refine (pair_fst_eq _ _ _); by vm_compute).
  pose proof (config_field_value (mkConfigEnv default_yaml "c.yaml" (Ok empty_client) "" debug_on) ".yaml"
    (load "c.yaml" "" empty_client).2) as H.
  split.
  - destruct (H (mkField ["server"; "mode"] ["server"; "mode"]) E ltac:(done) ltac:(done))
      as (parser & _ & Hv & _). apply Hv. by vm_compute.
  - by vm_compute.
Defined.

(** Setting [CONFIG_JSON] makes every field whose tags differ lose its default. *)
Example json_loses_defaults :
  let port := mkField ["global"; "serverPort"] ["global"; "server_port"] in
  field_value (load "" "" ∅).2 ".yaml" port = Some "2049" ∧
  field_value (load "" "{}" ∅).2 ".json" port = None.
Proof. by vm_compute. Qed.

(** The fields whose tags are the same. *)
Example same_tags :
  filter (λ f, f_key f = f_json f) (global_fields ++ client_fields ++ server_fields)
  = [mkField ["client"; "token"] ["client"; "token"]; mkField ["server"; "mode"] ["server"; "mode"];
     mkField ["server"; "token"] ["server"; "token"]].
Proof. by vm_compute. Qed.

(** The debug mode of the configuration does not print it: another path is read. *)
Example debug_mode_path : prints_config (load "" "{}" ∅).2 = false.
Proof. by vm_compute. Qed.

(** A key in another case is taken when the tag itself is not there. *)
Example other_case :
  field_value (load "c.yaml" "" {[ ["global"; "DEBUGMODE"] := Some (Some "true"); ["global"] := None ]}).2
    ".yaml" (mkField ["global"; "debugMode"] ["global"; "debug_mode"]) = Some "true".
Proof. by vm_compute. Qed.

(** An extension without a parser. *)
Example toml : (load "/etc/config.toml" "" ∅).1 = Err (ErrNew "parser not found for format.toml").
Proof. by vm_compute. Qed.
