(* ===== verification/GoFloat.v ===== *)
(** * IEEE floating-point numbers

    Go's [float64] and [float32] as values of the standard library's
    [spec_float], whose operations compute: conversions round to nearest even
    at the precision of the target format. *)

From S2P Require Import Prelude.
From Stdlib Require Export SpecFloat.

Abbreviation float64 := spec_float.
Abbreviation float32 := spec_float.

Definition f_zero : spec_float := S754_zero false.

(** The value of a finite number, rounded to a format. *)
Definition f_round (prec emax : Z) (x : spec_float) : spec_float :=
  match x with
  | S754_finite s m e => binary_normalize prec emax (cond_Zopp s (Zpos m)) e s
  | _ => x
  end.

(** [float64(n)] of an integer, [float32(x)], and [float64(x)] of a [float32]. *)
Definition f64_of_Z (n : Z) : float64 := binary_normalize 53 1024 n 0 false.
Definition to_f32 (x : float64) : float32 := f_round 24 128 x.
Definition to_f64 (x : float32) : float64 := f_round 53 1024 x.

Definition f64_div (x y : float64) : float64 := SFdiv 53 1024 x y.
Definition f64_mul (x y : float64) : float64 := SFmul 53 1024 x y.

(** [<], [>] and [==] on floats; every comparison with a NaN is false. *)
Definition f_lt (x y : spec_float) : bool := SFltb x y.
Definition f_gt (x y : spec_float) : bool := SFltb y x.
Definition f_eq (x y : spec_float) : bool := SFeqb x y.

Definition f_is_nan (x : spec_float) : bool := match x with S754_nan => true | _ => false end.

#[export] Instance spec_float_eq_dec : EqDecision spec_float.
Proof. solve_decision. Defined.

Example f64_third : f64_div (f64_of_Z 1) (f64_of_Z 4) = to_f64 (to_f32 (f64_div (f64_of_Z 1) (f64_of_Z 4))).
Proof. by vm_compute. Qed.
Example f_lt_ex : f_lt (f64_of_Z 2) (f64_of_Z 3) = true ∧ f_lt S754_nan S754_nan = false.
Proof. by vm_compute. Qed.
