(* ===== verification/Types.v ===== *)
(** * The data types of [pkg/types.go]

    Configuration records, hosts and file-system metadata with the conversions
    to and from their protocol messages ([proto/blobcache.pb.go]).  Durations
    are in nanoseconds; a nil pointer field of a message is [None]. *)

From S2P Require Import Prelude GoStrings FsID GoFloat.

(** ** Constants *)

Definition BlobCacheHostPrefix : string := "blobcache-host".
Definition BlobCacheVersion : string := "dev".
Definition defaultHostKeepAliveIntervalS : Z := 10.
Definition defaultHostKeepAliveTimeoutS : Z := 60.
Definition Second : Z := 1000000000.

(** ** Protocol messages *)

Module Proto.

Record BlobCacheHost : Type := mkHost {
  HostId : string;
  Addr : string;
  PrivateIpAddr : string;
  CapacityUsagePct : float32;
}.

Record BlobFsMetadata : Type := mkMetadata {
  Pid : string; Id : string; Name : string; Path : string; Hash : string;
  Ino : Z; Size : Z; Blocks : Z; Atime : Z; Mtime : Z; Ctime : Z;
  Atimensec : Z; Mtimensec : Z; Ctimensec : Z; Mode : Z; Nlink : Z; Rdev : Z;
  Blksize : Z; Padding : Z; Uid : Z; Gid : Z; Gen : Z;
}.

Record JuiceFSConfig : Type := mkJuiceFS {
  RedisUri : string; Bucket : string; JAccessKey : string; JSecretKey : string;
}.

Record MountPointConfig : Type := mkMountPoint {
  BucketName : string; AccessKey : string; SecretKey : string; Region : string;
  EndpointUrl : string; ForcePathStyle : bool;
}.

Record SourceConfig : Type := mkSource {
  SMode : string; FilesystemName : string; FilesystemPath : string;
  Juicefs : option JuiceFSConfig; Mountpoint : option MountPointConfig;
}.

Record BlobCacheServerConfig : Type := mkServerConfig {
  CMode : string; DiskCacheDir : string; DiskCacheMaxUsagePct : float32;
  MaxCachePct : Z; PageSizeBytes : Z; ObjectTtlS : Z; PrettyLogs : bool;
  Token : string; S3DownloadConcurrency : Z; S3DownloadChunkSize : Z;
  Sources : list SourceConfig;
}.

End Proto.

(** ** Hosts *)

Record BlobCacheHost : Type := mkHost {
  RTT : Z;
  HostId : string;
  Addr : string;
  PrivateAddr : string;
  CapacityUsagePct : float64;
}.

#[export] Instance BlobCacheHost_eq_dec : EqDecision BlobCacheHost.
Proof. solve_decision. Defined.

Definition BlobCacheHost_Bytes (h : BlobCacheHost) : list byte := bytes_of_string (HostId h).

Definition BlobCacheHost_ToProto (h : BlobCacheHost) : Proto.BlobCacheHost :=
  {| Proto.HostId := HostId h; Proto.Addr := Addr h;
     Proto.PrivateIpAddr := PrivateAddr h;
     Proto.CapacityUsagePct := to_f32 (CapacityUsagePct h) |}.

(** ** File-system metadata *)

Record BlobFsMetadata : Type := mkMetadata {
  PID : string; ID : string; Name : string; Path : string; Hash : string;
  Ino : Z; Size : Z; Blocks : Z; Atime : Z; Mtime : Z; Ctime : Z;
  Atimensec : Z; Mtimensec : Z; Ctimensec : Z; Mode : Z; Nlink : Z; Rdev : Z;
  Blksize : Z; Padding : Z; Uid : Z; Gid : Z; Gen : Z;
}.

#[export] Instance BlobFsMetadata_eq_dec : EqDecision BlobFsMetadata.
Proof. solve_decision. Defined.

(** [&BlobFsMetadata{}] *)
Definition zeroMetadata : BlobFsMetadata :=
  mkMetadata "" "" "" "" "" 0 0 0 0 0 0 0 0 0 0 0 0 0 0 0 0 0.

Definition set_Gen (g : Z) (m : BlobFsMetadata) : BlobFsMetadata :=
  mkMetadata (PID m) (ID m) (Name m) (Path m) (Hash m) (Ino m) (Size m) (Blocks m)
    (Atime m) (Mtime m) (Ctime m) (Atimensec m) (Mtimensec m) (Ctimensec m) (Mode m)
    (Nlink m) (Rdev m) (Blksize m) (Padding m) (Uid m) (Gid m) g.

Definition set_Ino (i : Z) (m : BlobFsMetadata) : BlobFsMetadata :=
  mkMetadata (PID m) (ID m) (Name m) (Path m) (Hash m) i (Size m) (Blocks m)
    (Atime m) (Mtime m) (Ctime m) (Atimensec m) (Mtimensec m) (Ctimensec m) (Mode m)
    (Nlink m) (Rdev m) (Blksize m) (Padding m) (Uid m) (Gid m) (Gen m).

Definition set_Name_Path (n p : string) (m : BlobFsMetadata) : BlobFsMetadata :=
  mkMetadata (PID m) (ID m) n p (Hash m) (Ino m) (Size m) (Blocks m)
    (Atime m) (Mtime m) (Ctime m) (Atimensec m) (Mtimensec m) (Ctimensec m) (Mode m)
    (Nlink m) (Rdev m) (Blksize m) (Padding m) (Uid m) (Gid m) (Gen m).

(** The field list of [ToProto] has no [Ino]. *)
Definition BlobFsMetadata_ToProto (m : BlobFsMetadata) : Proto.BlobFsMetadata :=
  {| Proto.Id := ID m; Proto.Pid := PID m; Proto.Name := Name m; Proto.Path := Path m;
     Proto.Hash := Hash m; Proto.Ino := 0; Proto.Size := Size m; Proto.Blocks := Blocks m;
     Proto.Atime := Atime m; Proto.Mtime := Mtime m; Proto.Ctime := Ctime m;
     Proto.Atimensec := Atimensec m; Proto.Mtimensec := Mtimensec m;
     Proto.Ctimensec := Ctimensec m; Proto.Mode := Mode m; Proto.Nlink := Nlink m;
     Proto.Rdev := Rdev m; Proto.Blksize := Blksize m; Proto.Padding := Padding m;
     Proto.Uid := Uid m; Proto.Gid := Gid m; Proto.Gen := Gen m |}.

(** ** Configuration *)

Record BlobCacheMetricsConfig : Type := mkMetricsConfig {
  PushIntervalS : Z; URL : string; Username : string; MPassword : string;
}.

Record BlobCacheGlobalConfig : Type := mkGlobalConfig {
  DefaultLocality : string; CoordinatorHost : string; ServerPort : Z;
  DiscoveryIntervalS : Z; RoundTripThresholdMilliseconds : Z;
  HostStorageCapacityThresholdPct : float64; GRPCDialTimeoutS : Z;
  GRPCMessageSizeBytes : Z; GRPCInitialWindowSize : Z; GRPCInitialConnWindowSize : Z;
  GRPCWriteBufferSize : Z; GRPCReadBufferSize : Z; GRPCMaxConcurrentStreams : Z;
  GRPCNumStreamWorkers : Z; DebugMode : bool; GPrettyLogs : bool;
}.

(** [GetLocality], over the value of the environment variable
    [BLOBCACHE_LOCALITY] ("" when it is unset). *)
Definition GetLocality (env : string) (c : BlobCacheGlobalConfig) : string :=
  if decide (env ≠ "") then env else DefaultLocality c.

Record ValkeyExistingPrimary : Type := mkValkeyPrimary { VPHost : string; VPPort : Z }.

Record ValkeyConfig : Type := mkValkey {
  PrimaryName : string; VPassword : string; VTLS : bool; VHost : string; VPort : Z;
  ExistingPrimary : ValkeyExistingPrimary;
}.

Record MetadataConfig : Type := mkMetadataConfig {
  MdMode : string; MdValkeyConfig : ValkeyConfig; RedisAddr : string;
  RedisPasswd : string; RedisTLSEnabled : bool; MdRedisMode : string;
  RedisMasterName : string;
}.

Definition zeroMetadataConfig : MetadataConfig :=
  mkMetadataConfig "" (mkValkey "" "" false "" 0 (mkValkeyPrimary "" 0)) "" "" false "" "".

Record JuiceFSConfig : Type := mkJuiceFS {
  RedisURI : string; Bucket : string; JAccessKey : string; JSecretKey : string;
  CacheSize : Z; BlockSize : Z; Prefetch : Z; BufferSize : Z;
}.

Record MountPointConfig : Type := mkMountPoint {
  BucketName : string; AccessKey : string; SecretKey : string; Region : string;
  EndpointURL : string; ForcePathStyle : bool;
}.

Definition zeroJuiceFS : JuiceFSConfig := mkJuiceFS "" "" "" "" 0 0 0 0.
Definition zeroMountPoint : MountPointConfig := mkMountPoint "" "" "" "" "" false.

Record SourceConfig : Type := mkSource {
  SMode : string; FilesystemName : string; FilesystemPath : string;
  JuiceFS : JuiceFSConfig; MountPoint : MountPointConfig;
}.

Definition SourceModeJuiceFS : string := "juicefs".
Definition SourceModeMountPoint : string := "mountpoint".

#[local] Set Warnings "-register-all".

(** [Regions] maps a locality to the server configuration of its
    [RegionConfig]. *)
Inductive BlobCacheServerConfig : Type := mkServerConfig {
  CMode : string; DiskCacheDir : string; DiskCacheMaxUsagePct : float64;
  EnableMemoryCache : bool; Token : string; PrettyLogs : bool; ObjectTtlS : Z;
  MaxCachePct : Z; PageSizeBytes : Z; Metadata : MetadataConfig;
  Sources : list SourceConfig; S3DownloadConcurrency : Z; S3DownloadChunkSize : Z;
  Regions : list (string * BlobCacheServerConfig);
}.

Definition BlobCacheServerModeCoordinator : string := "coordinator".
Definition BlobCacheServerModeSlave : string := "slave".

Definition source_ToProto (source : SourceConfig) : Proto.SourceConfig :=
  {| Proto.SMode := SMode source;
     Proto.FilesystemName := FilesystemName source;
     Proto.FilesystemPath := FilesystemPath source;
     Proto.Mountpoint :=
       if decide (SMode source = SourceModeMountPoint) then
         let c := MountPoint source in
         Some {| Proto.BucketName := BucketName c; Proto.AccessKey := AccessKey c;
                 Proto.SecretKey := SecretKey c; Proto.Region := Region c;
                 Proto.EndpointUrl := EndpointURL c;
                 Proto.ForcePathStyle := ForcePathStyle c |}
       else None;
     Proto.Juicefs :=
       if decide (SMode source = SourceModeJuiceFS) then
         let c := JuiceFS source in
         Some {| Proto.RedisUri := RedisURI c; Proto.Bucket := Bucket c;
                 Proto.JAccessKey := JAccessKey c; Proto.JSecretKey := JSecretKey c |}
       else None |}.

Definition BlobCacheServerConfig_ToProto (c : BlobCacheServerConfig) :
    Proto.BlobCacheServerConfig :=
  {| Proto.CMode := CMode c; Proto.DiskCacheDir := DiskCacheDir c;
     Proto.DiskCacheMaxUsagePct := to_f32 (DiskCacheMaxUsagePct c);
     Proto.MaxCachePct := MaxCachePct c; Proto.PageSizeBytes := PageSizeBytes c;
     Proto.ObjectTtlS := ObjectTtlS c; Proto.PrettyLogs := PrettyLogs c;
     Proto.Token := Token c; Proto.Sources := map source_ToProto (Sources c);
     Proto.S3DownloadConcurrency := S3DownloadConcurrency c;
     Proto.S3DownloadChunkSize := S3DownloadChunkSize c |}.

(** One source of [BlobCacheServerConfigFromProto]: the sub-message named by
    the mode is dereferenced, so its absence is a nil-pointer panic. *)
Definition source_FromProto (p : Proto.SourceConfig) : res SourceConfig :=
  let mk j m := mkSource (Proto.SMode p) (Proto.FilesystemName p) (Proto.FilesystemPath p) j m in
  if decide (Proto.SMode p = SourceModeMountPoint) then
    match Proto.Mountpoint p with
    | None => Panic PanicNil
    | Some c => Ok (mk zeroJuiceFS
        (mkMountPoint (Proto.BucketName c) (Proto.AccessKey c) (Proto.SecretKey c)
           (Proto.Region c) (Proto.EndpointUrl c) (Proto.ForcePathStyle c)))
    end
  else if decide (Proto.SMode p = SourceModeJuiceFS) then
    match Proto.Juicefs p with
    | None => Panic PanicNil
    | Some c => Ok (mk
        (mkJuiceFS (Proto.RedisUri c) (Proto.Bucket c) (Proto.JAccessKey c)
           (Proto.JSecretKey c) 0 0 0 0) zeroMountPoint)
    end
  else Ok (mk zeroJuiceFS zeroMountPoint).

Fixpoint sources_FromProto (l : list Proto.SourceConfig) : res (list SourceConfig) :=
  match l with
  | [] => Ok []
  | p :: l =>
      match source_FromProto p with
      | Ok s => match sources_FromProto l with
                | Ok ss => Ok (s :: ss) | Err e => Err e | Panic w => Panic w
                end
      | Err e => Err e
      | Panic w => Panic w
      end
  end.

Definition BlobCacheServerConfigFromProto (p : Proto.BlobCacheServerConfig) :
    res BlobCacheServerConfig :=
  match sources_FromProto (Proto.Sources p) with
  | Ok ss => Ok
      {| CMode := Proto.CMode p; DiskCacheDir := Proto.DiskCacheDir p;
         DiskCacheMaxUsagePct := to_f64 (Proto.DiskCacheMaxUsagePct p);
         EnableMemoryCache := false; Token := Proto.Token p;
         PrettyLogs := Proto.PrettyLogs p; ObjectTtlS := Proto.ObjectTtlS p;
         MaxCachePct := Proto.MaxCachePct p; PageSizeBytes := Proto.PageSizeBytes p;
         Metadata := zeroMetadataConfig; Sources := ss;
         S3DownloadConcurrency := Proto.S3DownloadConcurrency p;
         S3DownloadChunkSize := Proto.S3DownloadChunkSize p; Regions := [] |}
  | Err e => Err e
  | Panic w => Panic w
  end.

(** ** Client *)

Record BlobFsConfig : Type := mkBlobFsConfig {
  Enabled : bool; BMountPoint : string; MaxBackgroundTasks : Z; MaxWriteKB : Z;
  MaxReadAheadKB : Z; DirectMount : bool; DirectIO : bool; Options : list string;
}.

Record BlobCacheClientConfig : Type := mkClientConfig {
  CToken : string; MinRetryLengthBytes : Z; MaxGetContentAttempts : Z; NTopHosts : Z;
  BlobFs : BlobFsConfig;
}.

Inductive ClientRequestType : Type :=
  | ClientRequestTypeStorage
  | ClientRequestTypeRetrieval.

Record ClientRequest : Type := mkClientRequest {
  rt : ClientRequestType; hash : string; key : string; hostIndex : Z;
}.

(** ** What a trip over the wire keeps *)

(** The part of a source configuration that its message carries. *)
Definition wire_source (s : SourceConfig) : SourceConfig :=
  let j := JuiceFS s in
  mkSource (SMode s) (FilesystemName s) (FilesystemPath s)
    (if decide (SMode s = SourceModeJuiceFS)
     then mkJuiceFS (RedisURI j) (Bucket j) (JAccessKey j) (JSecretKey j) 0 0 0 0
     else zeroJuiceFS)
    (if decide (SMode s = SourceModeMountPoint) then MountPoint s else zeroMountPoint).

(** The part of a server configuration that its message carries. *)
Definition wire_config (c : BlobCacheServerConfig) : BlobCacheServerConfig :=
  {| CMode := CMode c; DiskCacheDir := DiskCacheDir c;
     DiskCacheMaxUsagePct := to_f64 (to_f32 (DiskCacheMaxUsagePct c));
     EnableMemoryCache := false; Token := Token c; PrettyLogs := PrettyLogs c;
     ObjectTtlS := ObjectTtlS c; MaxCachePct := MaxCachePct c;
     PageSizeBytes := PageSizeBytes c; Metadata := zeroMetadataConfig;
     Sources := map wire_source (Sources c);
     S3DownloadConcurrency := S3DownloadConcurrency c;
     S3DownloadChunkSize := S3DownloadChunkSize c; Regions := [] |}.

Lemma source_FromProto_ToProto s : source_FromProto (source_ToProto s) = Ok (wire_source s).
Proof.
  destruct s as [m ?? j mp]. unfold source_FromProto, wire_source. simpl.
  destruct (decide (m = SourceModeMountPoint)) as [->|]; [by destruct mp|].
  by destruct (decide (m = SourceModeJuiceFS)) as [->|].
Qed.

Lemma sources_FromProto_ToProto l :
  sources_FromProto (map source_ToProto l) = Ok (map wire_source l).
Proof.
  induction l as [|s l IH]; [done|]. simpl. by rewrite source_FromProto_ToProto, IH.
Qed.

(** C32: a server configuration sent in a [GetRegionConfig] answer comes back as
    itself, but for the fields its message does not carry (the metadata store,
    [EnableMemoryCache], the regions, the tuning of JuiceFS, the credentials of
    the other mode) and the usage limit, narrowed to a [float32]. *)
Theorem server_config_roundtrip (c : BlobCacheServerConfig) :
  BlobCacheServerConfigFromProto (BlobCacheServerConfig_ToProto c) = Ok (wire_config c).
Proof.
  unfold BlobCacheServerConfigFromProto. simpl. by rewrite sources_FromProto_ToProto.
Qed.
