(* ===== verification/Logger.v ===== *)
(** * The logger of [pkg/logger.go]

    A global pointer that [InitLogger] sets once.  zerolog is what its documentation
    says of it: an event below the level of its logger is dropped, [Fatal] ends the
    process.  The text that a template and its arguments make is an argument, and
    time stamps are left out. *)

From S2P Require Import Prelude.
Local Open Scope Z_scope.

(** ** Data *)

Inductive level : Type := DebugLevel | InfoLevel | WarnLevel | ErrorLevel | FatalLevel.
Definition level_num (l : level) : Z :=
  match l with
  | DebugLevel => 0 | InfoLevel => 1 | WarnLevel => 2 | ErrorLevel => 3 | FatalLevel => 4
  end.
#[export] Instance level_eq_dec : EqDecision level.
Proof. solve_decision. Defined.

(** A value of type [any]: the type switch of [addFields] sees strings only. *)
Inductive any : Type := AnyString (s : string) | AnyOther (repr : string).

Record event : Type := mkEvent { e_level : level; e_fields : list (string * any); e_msg : string }.

Inductive writer : Type := Stderr | ConsoleWriter.
Record logger : Type := mkLogger { l_output : writer; l_level : level; l_debug : bool }.

(** The package's variables [Logger] (a nil pointer before the first call) and
    [once], and the events written. *)
Record log_state : Type := mkLog { once : bool; Logger : option logger; written : list event }.

(** ** Operations *)

Definition InitLogger (debugMode prettyLogs : bool) : M log_state () :=
  modify (λ s, if once s then s else
    mkLog true (Some (mkLogger (if prettyLogs then ConsoleWriter else Stderr)
                        (if debugMode then DebugLevel else InfoLevel) debugMode)) (written s)).

Definition not_initialized : string := "Logger is not initialized. Call InitLogger first.".
Definition GetLogger : M log_state logger :=
  l ← gets Logger;
  match l with Some l => mret l | None => gopanic (PanicCall not_initialized) end.

(** [addFields]: a pair whose key is not a string is skipped, and so is a last key
    without a value. *)
Fixpoint addFields (fields : list any) : list (string * any) :=
  match fields with
  | key :: value :: fields =>
      match key with
      | AnyString key => (key, value) :: addFields fields
      | AnyOther _ => addFields fields
      end
  | _ => []
  end.

(** [Msg] and [Msgf] of zerolog. *)
Definition emit (l : logger) (lv : level) (fields : list (string * any)) (msg : string) :
    M log_state () :=
  (if bool_decide (level_num (l_level l) ≤ level_num lv)
   then modify (λ s, mkLog (once s) (Logger s) (written s ++ [mkEvent lv fields msg]))
   else mret tt) ≫= λ _,
  if decide (lv = FatalLevel) then gopanic ProcessExit else mret tt.

(** A method on the nil pointer panics where it reads a field. *)
Definition deref (l : option logger) : M log_state logger :=
  match l with Some l => mret l | None => gopanic PanicNil end.

Definition Debug (r : option logger) (msg : string) (fields : list any) : M log_state () :=
  l ← deref r; if l_debug l then emit l DebugLevel (addFields fields) msg else mret tt.
Definition Debugf (r : option logger) (text : string) : M log_state () :=
  l ← deref r; if l_debug l then emit l DebugLevel [] text else mret tt.
Definition Info (r : option logger) (msg : string) (fields : list any) : M log_state () :=
  l ← deref r; emit l InfoLevel (addFields fields) msg.
Definition Infof (r : option logger) (text : string) : M log_state () :=
  l ← deref r; emit l InfoLevel [] text.
Definition Warn (r : option logger) (msg : string) (fields : list any) : M log_state () :=
  l ← deref r; emit l WarnLevel (addFields fields) msg.
Definition Warnf (r : option logger) (text : string) : M log_state () :=
  l ← deref r; emit l WarnLevel [] text.
Definition Error (r : option logger) (msg : string) (fields : list any) : M log_state () :=
  l ← deref r; emit l ErrorLevel (addFields fields) msg.
Definition Errorf (r : option logger) (text : string) : M log_state () :=
  match r with None => mret tt | Some l => emit l ErrorLevel [] text end.
Definition Fatal (r : option logger) (msg : string) (fields : list any) : M log_state () :=
  l ← deref r; emit l FatalLevel (addFields fields) msg.
Definition Fatalf (r : option logger) (text : string) : M log_state () :=
  l ← deref r; emit l FatalLevel [] text.

(** ** A process that logs *)

(** The calls of a process on the package's [Logger]. *)
Inductive log_call : Type :=
  | CInit (debugMode prettyLogs : bool)
  | CLog (lv : level) (msg : string) (fields : list any)
  | CLogf (lv : level) (text : string).

Definition run_call (c : log_call) : M log_state () :=
  match c with
  | CInit d p => InitLogger d p
  | CLog lv msg fields =>
      r ← gets Logger;
      match lv with
      | DebugLevel => Debug r msg fields
      | InfoLevel => Info r msg fields
      | WarnLevel => Warn r msg fields
      | ErrorLevel => Error r msg fields
      | FatalLevel => Fatal r msg fields
      end
  | CLogf lv text =>
      r ← gets Logger;
      match lv with
      | DebugLevel => Debugf r text
      | InfoLevel => Infof r text
      | WarnLevel => Warnf r text
      | ErrorLevel => Errorf r text
      | FatalLevel => Fatalf r text
      end
  end.

(** What a call writes, in a process that was initialized. *)
Definition call_event (debugMode : bool) (c : log_call) : list event :=
  let keep lv e := if decide (lv = DebugLevel) then if debugMode then [e] else [] else [e] in
  match c with
  | CInit _ _ => []
  | CLog lv msg fields => keep lv (mkEvent lv (addFields fields) msg)
  | CLogf lv text => keep lv (mkEvent lv [] text)
  end.

Definition is_fatal (c : log_call) : bool :=
  match c with CLog FatalLevel _ _ | CLogf FatalLevel _ => true | _ => false end.

(** The calls up to the first fatal one, included. *)
Fixpoint executed (l : list log_call) : list log_call :=
  match l with
  | [] => []
  | c :: l => if is_fatal c then [c] else c :: executed l
  end.

Lemma run_call_spec c (d : bool) out w :
  let lg := Some (mkLogger out (if d then DebugLevel else InfoLevel) d) in
  run_call c (mkLog true lg w) =
  ((if is_fatal c then Panic ProcessExit else Ok tt), mkLog true lg (w ++ call_event d c)).
Proof. destruct c as [? ?|[] ? ?|[] ?], d; simpl; by rewrite ?app_nil_r. Qed.

(** The first [InitLogger] decides, later ones change nothing: from then on the events
    of the calls are written in order, the debug ones in debug mode only, until the
    first fatal call, which ends the process. *)
Theorem log_run debugMode prettyLogs calls w :
  let run : M log_state () := InitLogger debugMode prettyLogs ≫= λ _, forM calls run_call in
  let '(r, s) := run (mkLog false None w) in
  r = (if existsb is_fatal calls then Panic ProcessExit else Ok tt) ∧
  written s = w ++ (executed calls ≫= call_event debugMode).
Proof.
  unfold mbind, M_bind, InitLogger at 1, modify at 1. simpl.
  generalize (if prettyLogs then ConsoleWriter else Stderr) as out. intros out. revert w.
  induction calls as [|c calls IH]; intros w; [split; [done|]; by rewrite app_nil_r|].
  simpl. unfold mbind at 1, M_bind. rewrite run_call_spec. destruct (is_fatal c); simpl.
  - split; [done|]. by rewrite app_nil_r.
  - specialize (IH (w ++ call_event debugMode c)).
    destruct (forM _ _ _) as [r s]. destruct IH as [-> ->]. split; [done|]. by rewrite <-(assoc_L (++)).
Qed.

(** Before [InitLogger] every call panics but [Errorf], which does nothing. *)
Theorem log_uninitialized c w :
  run_call c (mkLog false None w) =
  match c with
  | CInit d p => (InitLogger d p) (mkLog false None w)
  | CLogf ErrorLevel _ => (Ok tt, mkLog false None w)
  | _ => (Panic PanicNil, mkLog false None w)
  end.
Proof. by destruct c as [| [] ? ?|[] ?]. Qed.

(** The structured methods keep the string-keyed pairs. *)
Theorem addFields_pairs (l : list (any * any)) (rest : list any) :
  (length rest ≤ 1)%nat →
  addFields ((l ≫= λ p, [p.1; p.2]) ++ rest)
  = omap (λ p, match p.1 with AnyString k => Some (k, p.2) | AnyOther _ => None end) l.
Proof.
  intros Hrest. induction l as [|[k v] l IH]; simpl.
  - by destruct rest as [|? [|? ?]]; simpl in *; try lia.
  - unfold mbind in IH. rewrite IH. by destruct k.
Qed.
