(* ===== verification/Metrics.v ===== *)
(** * The metrics of [pkg/metrics.go]

    [createMetrics] starts the push of the metrics, if it is configured, and
    registers the metrics with the library, whose registry is a class;
    [initMetrics] does it once for the process.  [encoding/base64] is written out.
    The values that are observed are in [Storage.v]. *)

From S2P Require Import Prelude GoStrings FsID GoFloat Types Logger.

(** ** [base64.StdEncoding] *)

Definition b64_char (n : N) : ascii :=
  ascii_of_N (if decide (n < 26) then 65 + n
    else if decide (n < 52) then 71 + n
    else if decide (n < 62) then n - 4
    else if decide (n = 62) then 43 else 47)%N.

(** The four digits of three bytes. *)
Definition b64_quad (a b c : byte) : ascii * ascii * ascii * ascii :=
  let v := (65536 * Byte.to_N a + 256 * Byte.to_N b + Byte.to_N c)%N in
  (b64_char (v `div` 262144), b64_char ((v `div` 4096) `mod` 64),
   b64_char ((v `div` 64) `mod` 64), b64_char (v `mod` 64))%N.

Definition pad : ascii := "="%char.
Fixpoint EncodeToString (l : list byte) : string :=
  match l with
  | [] => ""
  | [a] => let '(p, q, _, _) := b64_quad a x00 x00 in String p (String q (String pad (String pad "")))
  | [a; b] => let '(p, q, r, _) := b64_quad a b x00 in String p (String q (String r (String pad "")))
  | a :: b :: c :: l =>
      let '(p, q, r, t) := b64_quad a b c in
      String p (String q (String r (String t (EncodeToString l))))
  end.

(** ** Registering *)

(** The default registry of the library: metrics have distinct names. *)
Class MetricsLib (G : Type) : Type := {
  m_New : string → M G ();
  m_names : G → list string;
  m_New_fresh name g : name ∉ m_names g →
    ∃ g', m_New name g = (Ok tt, g') ∧ m_names g' = name :: m_names g;
}.

(** A metric is the name it was registered under. *)
Record BlobcacheMetrics : Type := mkMetrics {
  DiskCacheUsageMB : string; DiskCacheUsagePct : string; MemCacheUsageMB : string;
  MemCacheUsagePct : string; L0HitRatio : string; L1HitRatio : string; L2MissRatio : string;
  L0Hits : string; L1Hits : string; L2Misses : string; TotalReads : string;
  L0BytesServed : string; L1BytesServed : string; L2BytesFetched : string;
  FUSEReadLatency : string; FUSELookupLatency : string; FUSEGetattrLatency : string;
  ReadThroughputMBps : string;
}.

(** What [InitPushWithOptions] is given. *)
Record push_options : Type := mkPush {
  p_URL : string; p_interval : Z; p_Headers : list string; p_ExtraLabels : string;
}.

(** The registry, the pushes that were started, the logger, and the package's
    variables [metricsInitOnce] and [globalMetrics]. *)
Record metrics_state (G : Type) : Type := mkState {
  registry : G; pushes : list push_options; logs : log_state;
  metricsInitOnce : bool; globalMetrics : option BlobcacheMetrics;
}.
Arguments mkState {G} _ _ _ _ _.
Arguments registry {G} _.
Arguments pushes {G} _.
Arguments logs {G} _.
Arguments metricsInitOnce {G} _.
Arguments globalMetrics {G} _.

Definition dquote : string := String (ascii_of_nat 34) "".

Section metrics.
Context {G : Type} `{MetricsLib G}.

Definition on_registry {A} (m : M G A) : M (metrics_state G) A :=
  zoom registry (λ g s, mkState g (pushes s) (logs s) (metricsInitOnce s) (globalMetrics s)) m.
Definition on_logs {A} (m : M log_state A) : M (metrics_state G) A :=
  zoom logs (λ l s, mkState (registry s) (pushes s) l (metricsInitOnce s) (globalMetrics s)) m.

Definition NewMetric (name : string) : M (metrics_state G) string :=
  on_registry (m_New name) ≫= λ _, mret name.

(** The options of the push. *)
Definition push_of (config : BlobCacheMetricsConfig) (HostId locality : string) : push_options :=
  let credentials :=
    EncodeToString (bytes_of_string (Username config +:+ ":" +:+ MPassword config)) in
  mkPush (URL config) (PushIntervalS config *! Second)%go
    ["Authorization: Basic " +:+ credentials]
    ("host=" +:+ dquote +:+ HostId +:+ dquote +:+ ",locality=" +:+ dquote +:+ locality +:+ dquote).

(** The push is started unless the library refuses its options ([push_error]); the
    error goes to the logger, if there is one. *)
Definition start_push (push_error : push_options → option error) (config : BlobCacheMetricsConfig)
    (HostId locality : string) : M (metrics_state G) () :=
  if decide (URL config = "") then mret tt
  else
    let opts := push_of config HostId locality in
    match push_error opts with
    | None => modify (λ s, mkState (registry s) (pushes s ++ [opts]) (logs s)
                             (metricsInitOnce s) (globalMetrics s))
    | Some err =>
        l ← gets (λ s, Logger (logs s));
        match l with
        | None => mret tt
        | Some _ => on_logs (Errorf l "Failed to initialize metrics")
        end
    end.

Definition createMetrics (push_error : push_options → option error)
    (config : BlobCacheMetricsConfig) (HostId locality : string) :
    M (metrics_state G) BlobcacheMetrics :=
  start_push push_error config HostId locality ≫= λ _,
  diskCacheUsageMB ← NewMetric "blobcache_disk_cache_usage_mb";
  diskCacheUsagePct ← NewMetric "blobcache_disk_cache_usage_pct";
  memCacheUsageMB ← NewMetric "blobcache_mem_cache_usage_mb";
  memCacheUsagePct ← NewMetric "blobcache_mem_cache_usage_pct";
  l0HitRatio ← NewMetric "blobcache_l0_hit_ratio";
  l1HitRatio ← NewMetric "blobcache_l1_hit_ratio";
  l2MissRatio ← NewMetric "blobcache_l2_miss_ratio";
  l0Hits ← NewMetric "blobcache_l0_hits_total";
  l1Hits ← NewMetric "blobcache_l1_hits_total";
  l2Misses ← NewMetric "blobcache_l2_misses_total";
  totalReads ← NewMetric "blobcache_reads_total";
  l0BytesServed ← NewMetric "blobcache_l0_bytes_served_total";
  l1BytesServed ← NewMetric "blobcache_l1_bytes_served_total";
  l2BytesFetched ← NewMetric "blobcache_l2_bytes_fetched_total";
  fuseReadLatency ← NewMetric "blobcache_fuse_read_latency_ms";
  fuseLookupLatency ← NewMetric "blobcache_fuse_lookup_latency_ms";
  fuseGetattrLatency ← NewMetric "blobcache_fuse_getattr_latency_ms";
  readThroughputMBps ← NewMetric "blobcache_read_throughput_mbps";
  mret (mkMetrics diskCacheUsageMB diskCacheUsagePct memCacheUsageMB memCacheUsagePct
          l0HitRatio l1HitRatio l2MissRatio l0Hits l1Hits l2Misses totalReads
          l0BytesServed l1BytesServed l2BytesFetched fuseReadLatency fuseLookupLatency
          fuseGetattrLatency readThroughputMBps).

(** [sync.Once] marks itself done even when the function panics.  [None] stands for
    the zero value, whose metrics are nil. *)
Definition initMetrics (push_error : push_options → option error)
    (config : BlobCacheMetricsConfig) (HostId locality : string) :
    M (metrics_state G) (option BlobcacheMetrics) :=
  done ← gets metricsInitOnce;
  (if (done : bool) then mret tt
   else
     modify (λ s, mkState (registry s) (pushes s) (logs s) true (globalMetrics s)) ≫= λ _,
     m ← createMetrics push_error config HostId locality;
     modify (λ s, mkState (registry s) (pushes s) (logs s) (metricsInitOnce s) (Some m))) ≫= λ _,
  gets globalMetrics.

End metrics.

(** ** base64: lemmas *)

(** A decoder, to state that nothing is lost. *)
Definition b64_val (a : ascii) : option N :=
  let n := N_of_ascii a in
  (if decide (65 ≤ n ≤ 90) then Some (n - 65)
   else if decide (97 ≤ n ≤ 122) then Some (n - 71)
   else if decide (48 ≤ n ≤ 57) then Some (n + 4)
   else if decide (n = 43) then Some 62
   else if decide (n = 47) then Some 63 else None)%N.

Definition b64_bytes (p q r t : N) : list byte :=
  let v := (262144 * p + 4096 * q + 64 * r + t)%N in
  [byte_of_N' (v `div` 65536); byte_of_N' (v `div` 256); byte_of_N' v].

Fixpoint DecodeString (s : string) : option (list byte) :=
  match s with
  | "" => Some []
  | String p (String q (String r (String t s))) =>
      p ← b64_val p; q ← b64_val q;
      if decide (s = "" ∧ t = pad) then
        if decide (r = pad) then Some (take 1 (b64_bytes p q 0 0))
        else r ← b64_val r; Some (take 2 (b64_bytes p q r 0))
      else r ← b64_val r; t ← b64_val t; rest ← DecodeString s; Some (b64_bytes p q r t ++ rest)
  | _ => None
  end.

Lemma b64_val_char n : (n < 64)%N → b64_val (b64_char n) = Some n ∧ b64_char n ≠ pad.
Proof.
  intros Hn.
  assert (forallb (λ k, bool_decide (b64_val (b64_char (N.of_nat k)) = Some (N.of_nat k) ∧
    b64_char (N.of_nat k) ≠ pad)) (seq 0 64) = true) as H by by vm_compute.
  rewrite forallb_forall in H. specialize (H (N.to_nat n)). rewrite N2Nat.id in H.
  eapply bool_decide_eq_true_1, H, in_seq. lia.
Qed.

Lemma byte_of_N'_add k b : byte_of_N' (256 * k + Byte.to_N b) = b.
Proof.
  rewrite <-(byte_of_to_N b) at 2. unfold byte_of_N'.
  by rewrite N.mul_comm, N.add_comm, N.Div0.mod_add.
Qed.

(** The digits of three bytes give them back. *)
Lemma b64_quad_bytes a b c :
  ∃ p q r t, b64_quad a b c = (b64_char p, b64_char q, b64_char r, b64_char t) ∧
    (p < 64 ∧ q < 64 ∧ r < 64 ∧ t < 64)%N ∧ b64_bytes p q r t = [a; b; c] ∧
    (b = x00 → c = x00 → r = 0%N ∧ t = 0%N) ∧ (c = x00 → t = 0%N).
Proof.
  pose proof (Byte.to_N_bounded a). pose proof (Byte.to_N_bounded b). pose proof (Byte.to_N_bounded c).
  unfold b64_quad. set (v := (65536 * Byte.to_N a + 256 * Byte.to_N b + Byte.to_N c)%N).
  exists (v `div` 262144)%N, ((v `div` 4096) `mod` 64)%N, ((v `div` 64) `mod` 64)%N, (v `mod` 64)%N.
  assert (b64_bytes (v `div` 262144) ((v `div` 4096) `mod` 64) ((v `div` 64) `mod` 64) (v `mod` 64)
    = [a; b; c]) as E.
  { unfold b64_bytes.
    replace (262144 * (v `div` 262144) + 4096 * ((v `div` 4096) `mod` 64) +
      64 * ((v `div` 64) `mod` 64) + v `mod` 64)%N with v.
    2:{ change 262144%N with (64 * 64 * 64)%N. change 4096%N with (64 * 64)%N.
        rewrite <-!N.Div0.div_div. pose proof (N.div_mod' v 64).
        pose proof (N.div_mod' (v `div` 64) 64). pose proof (N.div_mod' ((v `div` 64) `div` 64)%N 64).
        lia. }
    f_equal; [|f_equal; [|f_equal]].
    - replace (v `div` 65536)%N with (256 * 0 + Byte.to_N a)%N
        by (apply (N.div_unique _ _ _ (256 * Byte.to_N b + Byte.to_N c)); unfold v; lia).
      apply byte_of_N'_add.
    - replace (v `div` 256)%N with (256 * Byte.to_N a + Byte.to_N b)%N
        by (apply (N.div_unique _ _ _ (Byte.to_N c)); unfold v; lia).
      apply byte_of_N'_add.
    - replace v with (256 * (256 * Byte.to_N a + Byte.to_N b) + Byte.to_N c)%N by (unfold v; lia).
      apply byte_of_N'_add. }
  assert (Byte.to_N x00 = 0%N) as Hz by done.
  split_and!; [done|..|exact E| |]; try by apply N.mod_lt.
  - apply N.Div0.div_lt_upper_bound. unfold v. lia.
  - intros -> ->. unfold v. rewrite Hz. split.
    + replace (65536 * Byte.to_N a + 256 * 0 + 0)%N with (Byte.to_N a * 16 * 64 * 64)%N by lia.
      by rewrite N.div_mul, N.Div0.mod_mul.
    + replace (65536 * Byte.to_N a + 256 * 0 + 0)%N with (Byte.to_N a * 1024 * 64)%N by lia.
      apply N.Div0.mod_mul.
  - intros ->. unfold v. rewrite Hz.
    replace (65536 * Byte.to_N a + 256 * Byte.to_N b + 0)%N
      with ((Byte.to_N a * 1024 + Byte.to_N b * 4) * 64)%N by lia. apply N.Div0.mod_mul.
Qed.

(** Decoding undoes encoding. *)
Theorem base64_roundtrip l : DecodeString (EncodeToString l) = Some l.
Proof.
  assert (∀ n l, length l ≤ n → DecodeString (EncodeToString l) = Some l) as H; [|by eapply H].
  clear l. induction n as [|n IH]; intros l Hl; [by destruct l; simpl in *; [|lia]|].
  destruct l as [|a [|b [|c l]]]; [done|..].
  - destruct (b64_quad_bytes a x00 x00) as (p & q & r & t & E & (Hp & Hq & _) & Hb & Hz & _).
    destruct Hz as [-> ->]; [done..|]. cbn [EncodeToString]. rewrite E. cbn [DecodeString].
    destruct (b64_val_char p Hp) as [-> _], (b64_val_char q Hq) as [-> _]. simpl.
    unfold b64_bytes in Hb. congruence.
  - destruct (b64_quad_bytes a b x00) as (p & q & r & t & E & (Hp & Hq & Hr & _) & Hb & _ & Hz).
    rewrite (Hz eq_refl) in Hb. cbn [EncodeToString]. rewrite E. cbn [DecodeString].
    destruct (b64_val_char p Hp) as [-> _], (b64_val_char q Hq) as [-> _], (b64_val_char r Hr) as [-> ?].
    simpl. repeat case_decide; [naive_solver| |naive_solver..]. unfold b64_bytes in Hb. congruence.
  - destruct (b64_quad_bytes a b c) as (p & q & r & t & E & (Hp & Hq & Hr & Ht) & Hb & _ & _).
    cbn [EncodeToString]. rewrite E. cbn [DecodeString].
    destruct (b64_val_char p Hp) as [-> _], (b64_val_char q Hq) as [-> _],
      (b64_val_char r Hr) as [-> ?], (b64_val_char t Ht) as [-> ?].
    simpl. case_decide; [naive_solver|]. rewrite IH by (simpl in Hl; lia). simpl.
    unfold b64_bytes in Hb. congruence.
Qed.

(** ** The registration *)

Section registration.
Context {G : Type} `{ML : MetricsLib G}.

(** The names of the metrics, by field. *)
Definition metric_names (m : BlobcacheMetrics) : list string :=
  [DiskCacheUsageMB m; DiskCacheUsagePct m; MemCacheUsageMB m; MemCacheUsagePct m;
   L0HitRatio m; L1HitRatio m; L2MissRatio m; L0Hits m; L1Hits m; L2Misses m; TotalReads m;
   L0BytesServed m; L1BytesServed m; L2BytesFetched m;
   FUSEReadLatency m; FUSELookupLatency m; FUSEGetattrLatency m; ReadThroughputMBps m].

Definition blobcache_metrics : BlobcacheMetrics :=
  mkMetrics "blobcache_disk_cache_usage_mb" "blobcache_disk_cache_usage_pct"
    "blobcache_mem_cache_usage_mb" "blobcache_mem_cache_usage_pct"
    "blobcache_l0_hit_ratio" "blobcache_l1_hit_ratio" "blobcache_l2_miss_ratio"
    "blobcache_l0_hits_total" "blobcache_l1_hits_total" "blobcache_l2_misses_total"
    "blobcache_reads_total" "blobcache_l0_bytes_served_total" "blobcache_l1_bytes_served_total"
    "blobcache_l2_bytes_fetched_total" "blobcache_fuse_read_latency_ms"
    "blobcache_fuse_lookup_latency_ms" "blobcache_fuse_getattr_latency_ms"
    "blobcache_read_throughput_mbps".

Definition registered (names : list string) (s s' : metrics_state G) : Prop :=
  ∃ g', s' = mkState g' (pushes s) (logs s) (metricsInitOnce s) (globalMetrics s) ∧
        m_names g' = names ++ m_names (registry s).

Lemma NewMetric_bind {A} name (k : string → M (metrics_state G) A) s :
  name ∉ m_names (registry s) →
  ∃ s', (NewMetric name ≫= k) s = k name s' ∧ registered [name] s s'.
Proof.
  intros Hn. destruct (m_New_fresh name (registry s) Hn) as (g' & E & Hg).
  exists (mkState g' (pushes s) (logs s) (metricsInitOnce s) (globalMetrics s)).
  split; [|by exists g']. unfold NewMetric, on_registry, zoom, mbind, M_bind. by rewrite E.
Qed.

Lemma registered_trans l n s t u :
  registered l s t → registered [n] t u → registered (n :: l) s u.
Proof.
  intros (g & -> & Hg) (g' & -> & Hg'). exists g'. split; [done|]. simpl in *. by rewrite Hg', Hg.
Qed.

Lemma registered_fresh l n s t :
  registered l s t → bool_decide (n ∈ l) = false → n ∉ m_names (registry s) →
  n ∉ m_names (registry t).
Proof.
  intros (g & -> & Hg) Hl%bool_decide_eq_false_1 Hs. simpl. rewrite Hg.
  by rewrite not_elem_of_app.
Qed.

(** The push that a configuration starts. *)
Definition started (push_error : push_options → option error) (config : BlobCacheMetricsConfig)
    (HostId locality : string) : list push_options :=
  if decide (URL config = "") then []
  else match push_error (push_of config HostId locality) with
       | None => [push_of config HostId locality]
       | Some _ => []
       end.

Lemma start_push_spec push_error config HostId locality (s : metrics_state G) :
  ∃ l, start_push push_error config HostId locality s =
       (Ok tt, mkState (registry s) (pushes s ++ started push_error config HostId locality) l
                 (metricsInitOnce s) (globalMetrics s)) ∧
       Logger l = Logger (logs s).
Proof.
  unfold start_push, started. destruct s as [g ps lg o m].
  destruct (decide (URL config = "")); [exists lg; by rewrite app_nil_r|].
  destruct (push_error _); [|by exists lg]. simpl. rewrite app_nil_r.
  unfold mbind, M_bind, gets. simpl. destruct (Logger lg) as [l|] eqn:El; [|by exists lg].
  unfold on_logs, zoom, Errorf, emit, mbind, M_bind. simpl. case_bool_decide; [|by exists lg].
  by eexists.
Qed.

(** [createMetrics] does not panic when its names are free: it registers its 18
    metrics, each once and under its own name, and starts the configured push. *)
Theorem createMetrics_registers push_error config HostId locality (s : metrics_state G) :
  (∀ x, x ∈ metric_names blobcache_metrics → x ∉ m_names (registry s)) →
  ∃ s', createMetrics push_error config HostId locality s = (Ok blobcache_metrics, s') ∧
    m_names (registry s') = reverse (metric_names blobcache_metrics) ++ m_names (registry s) ∧
    pushes s' = pushes s ++ started push_error config HostId locality ∧
    metricsInitOnce s' = metricsInitOnce s ∧ globalMetrics s' = globalMetrics s.
Proof.
  intros Hfree. unfold createMetrics.
  destruct (start_push_spec push_error config HostId locality s) as (l & E & _).
  rewrite (bind_Ok _ _ _ _ _ E). clear E.
  set (s0 := mkState _ _ _ _ _). assert (registered [] s0 s0) as Hreg by by exists (registry s0).
  revert Hreg. generalize s0 at 2 3 as t. intros t Hreg.
  repeat (match goal with
    | H : registered _ _ ?t |- context [(NewMetric ?n ≫= ?k) ?t] =>
        let t' := fresh "t" in let H' := fresh "H" in
        destruct (NewMetric_bind n k t) as (t' & -> & H');
          [apply (registered_fresh _ _ _ _ H); [by vm_compute|apply Hfree; by set_unfold; tauto]
          |apply (registered_trans _ _ _ _ _ H) in H'; clear H; try clear t]
    end).
  match goal with H : registered _ _ ?t |- _ => exists t; destruct H as (g' & -> & Hg) end.
  split_and!; done.
Qed.

(** [initMetrics] registers once for the process: later calls return the metrics of
    the first, start no push and register nothing, whatever configuration, host and
    region they have. *)
Theorem initMetrics_once push_error config HostId locality calls (s : metrics_state G) :
  (∀ x, x ∈ metric_names blobcache_metrics → x ∉ m_names (registry s)) →
  metricsInitOnce s = false →
  ∃ s', initMetrics push_error config HostId locality s = (Ok (Some blobcache_metrics), s') ∧
    pushes s' = pushes s ++ started push_error config HostId locality ∧
    Forall (λ '(pe, c, h, l), initMetrics pe c h l s' = (Ok (Some blobcache_metrics), s')) calls.
Proof.
  intros Hfree Ho.
  destruct (createMetrics_registers push_error config HostId locality
    (mkState (registry s) (pushes s) (logs s) true (globalMetrics s))) as (t & E & _ & Hp & Ht & _);
    [done|].
  exists (mkState (registry t) (pushes t) (logs t) true (Some blobcache_metrics)).
  split_and!; [|done|].
  - unfold initMetrics, mbind, M_bind, gets, modify. rewrite Ho, E. simpl. by rewrite Ht.
  - apply Forall_true. by intros [[[pe c] h] l].
Qed.

End registration.

(** ** At concrete inputs *)

(** A registry that panics at a name it has. *)
#[export] Program Instance list_registry : MetricsLib (list string) := {
  m_New name := g ← get;
    if decide (name ∈ g) then gopanic (PanicCall "metric is already registered")
    else modify (cons name);
  m_names g := g;
}.
Next Obligation.
  intros name g Hn. exists (name :: g). split; [|done].
  unfold mbind, M_bind, get. simpl. by rewrite decide_False.
Qed.

Definition push_config : BlobCacheMetricsConfig := mkMetricsConfig 10 "http://m" "user" "pass".
Definition fresh_metrics : metrics_state (list string) :=
  mkState [] [] (mkLog false None []) false None.

Lemma initMetrics_once_witness :
  ∃ s', initMetrics (λ _, None) push_config "h" "us" fresh_metrics = (Ok (Some blobcache_metrics), s') ∧
    pushes s' = [] ++ started (λ _, None) push_config "h" "us" ∧
    Forall (λ '(pe, c, h, l), initMetrics pe c h l s' = (Ok (Some blobcache_metrics), s'))
      [((λ _, None), push_config, "other", "eu")].
Proof. apply initMetrics_once; [|done]. intros x _ [] %elem_of_nil. Defined.

(** What the push sends. *)
Example push_header :
  p_Headers (push_of push_config "h" "us") = ["Authorization: Basic dXNlcjpwYXNz"] ∧
  p_interval (push_of push_config "h" "us") = (10 * Second)%Z.
Proof. by vm_compute. Qed.

(** [createMetrics] itself cannot be called twice. *)
Example createMetrics_twice :
  ((createMetrics (λ _, None) push_config "h" "us" ≫= λ _,
    createMetrics (λ _, None) push_config "h" "us" : M (metrics_state (list string)) _)
   fresh_metrics).1 = Panic (PanicCall "metric is already registered").
Proof. by vm_compute. Qed.
