(* ===== verification/Rpc.v ===== *)
(** * The calls of [proto/blobcache.proto] between a client and a server

    The messages of the service, and the service as a client sees it: a call
    over a connection, which answers or fails and changes the world (the servers
    and the network) either way.  The server's handlers are in [Server.v], the
    client's use of them in [Client.v]. *)

From S2P Require Import Prelude GoStrings FsID GoFloat Types.

(** ** Messages *)

Record GetContentResponse : Type := mkGetContent { Content : list byte; gc_Ok : bool }.
Record StoreFromSourceResponse : Type := mkFromSource {
  s_Ok : bool; s_Hash : string; s_ErrorMsg : option error;
}.
Record StoreWithLockResponse : Type := mkWithLock {
  l_Ok : bool; l_Hash : string; l_FailedToAcquireLock : bool; l_ErrorMsg : option error;
}.
Record GetStateResponse : Type := mkState {
  gs_Version : string; gs_PrivateIpAddr : string; gs_CapacityUsagePct : float32;
}.

(** A cached content to fetch: [BucketName] empty means the local path. *)
Record CacheSource : Type := mkSource {
  src_Path : string; src_Bucket : string; src_Region : string; src_Endpoint : string;
  src_AccessKey : string; src_SecretKey : string;
}.

(** ** Connections *)

(** The options of [grpc.Dial], and the token that [grpcAuthInterceptor] adds to
    the unary calls. *)
Record dial_options : Type := mkDial {
  d_tls : bool; d_maxRecvMsgSize : Z; d_maxSendMsgSize : Z;
  d_window : Z; d_connWindow : Z; d_writeBuffer : Z; d_readBuffer : Z;
  d_token : option string;
}.
Record GrpcClient : Type := mkConn { target : string; dialled : dial_options }.

(** ** The service *)

(** A remote call: an answer or an error, never a panic of the caller. *)
Definition call (W A : Type) : Type := W → (A + error) * W.

(** [rpc_GetContentStream] gives the messages that [Recv] yields, then the error
    that ends them ([None] for [io.EOF]); [rpc_StoreContent] sends the chunks and
    closes the stream. *)
Class BlobCacheService (W : Type) : Type := {
  rpc_GetContent : GrpcClient → string → Z → Z → call W GetContentResponse;
  rpc_HasContent : GrpcClient → string → call W bool;
  rpc_GetContentStream :
    GrpcClient → string → Z → Z → call W (list GetContentResponse * option error);
  rpc_StoreContent : GrpcClient → list (list byte) → call W string;
  rpc_StoreContentFromSource : GrpcClient → CacheSource → call W StoreFromSourceResponse;
  rpc_StoreContentFromSourceWithLock : GrpcClient → CacheSource → call W StoreWithLockResponse;
  rpc_GetState : GrpcClient → call W GetStateResponse;
}.

(** A remote call on the second part of a state. *)
Definition on_world {C W A} (m : call W A) : M (C * W) A := λ s,
  match m s.2 with
  | (inl a, w) => (Ok a, (s.1, w))
  | (inr e, w) => (Err e, (s.1, w))
  end.
