(* ===== verification/Sources.v ===== *)
(** * The content sources of [pkg/source.go], [source_juicefs.go] and
      [source_mountpoint.go]

    A source is mounted by programs of the system.  The state is the list of what
    was done: the programs that were started, with their arguments and their
    environment, and the directories made; what they answer, and what the kernel says of the mount
    point at each wake-up, are arguments.  [Logger.Fatalf] is [ProcessExit]. *)

From S2P Require Import Prelude GoStrings FsID GoFloat Types.
Local Open Scope Z_scope.

(** ** Definitions *)

(** [exec.Cmd]: [Env] is nil, for the environment of the process, or the whole
    environment of the program. *)
Record command : Type := mkCommand { argv : list string; cmd_env : option (list string) }.
#[export] Instance command_eq_dec : EqDecision command.
Proof. solve_decision. Defined.

Inductive action : Type := Started (c : command) | MadeDir (path : string).

(** The answer of [syscall.Stat]: the inode. *)
Definition isMounted (stat : res Z) : bool :=
  match stat with Ok ino => bool_decide (ino = 1) | _ => false end.

Section sources.
(** Whether a program fails, and its output. *)
Context (exec : command → option string).

Definition start (c : command) : M (list action) () := modify (λ l, l ++ [Started c]).

(** [cmd.CombinedOutput()] with the message of its failure. *)
Definition run_command (what : string) (c : command) : M (list action) () :=
  start c ≫= λ _,
  match exec c with
  | None => mret tt
  | Some output => throw (ErrNew ("error executing " +:+ what +:+ ": " +:+ output))
  end.

(** A program that runs in a goroutine of its own: its failure ends the process. *)
Definition background (c : command) : M (list action) () :=
  start c ≫= λ _,
  match exec c with None => mret tt | Some _ => gopanic ProcessExit end.

(** *** JuiceFS *)

Definition or_text (v : Z) (dflt : string) : string := if bool_decide (v ≤ 0) then dflt else pretty v.

Definition juicefs_mount (c : JuiceFSConfig) (localPath : string) : command :=
  mkCommand ["juicefs"; "mount"; RedisURI c; localPath; "-d"; "--bucket"; Bucket c;
             "--cache-size"; pretty (CacheSize c); "--prefetch"; or_text (Prefetch c) "1";
             "--buffer-size"; or_text (BufferSize c) "300"; "--no-bgjob"; "--no-usage-report"] None.

Definition juicefs_format (c : JuiceFSConfig) (fsName : string) : command :=
  mkCommand (["juicefs"; "format"; "--storage"; "s3"; "--bucket"; Bucket c; "--block-size";
              or_text (BlockSize c) "4096"; RedisURI c; fsName; "--no-update"] ++
             (if decide (JAccessKey c ≠ "" ∨ JSecretKey c ≠ "")
              then ["--access-key"; JAccessKey c; "--secret-key"; JSecretKey c] else [])) None.

Definition juicefs_umount (localPath : string) : command :=
  mkCommand ["juicefs"; "umount"; "--force"; localPath] None.

(** The goroutine that waits: at each wake-up it is the timeout, or a tick with the
    answer of [Stat].  [None]: it is still waiting. *)
Inductive wake : Type := WakeTimeout | WakeTick (stat : res Z).
Fixpoint wait_mounted (wakes : list wake) : option bool :=
  match wakes with
  | [] => None
  | WakeTimeout :: _ => Some false
  | WakeTick stat :: wakes => if isMounted stat then Some true else wait_mounted wakes
  end.

(** With no wake-up left [Mount] is still waiting: the model runs out of fuel. *)
Definition JuiceFs_Mount (c : JuiceFSConfig) (wakes : list wake) (localPath : string) :
    M (list action) () :=
  background (juicefs_mount c localPath) ≫= λ _,
  match wait_mounted wakes with
  | None => gopanic OutOfFuel
  | Some true => mret tt
  | Some false => throw (ErrNew ("failed to mount JuiceFS filesystem to: '" +:+ localPath +:+ "'"))
  end.

Definition JuiceFs_Format (c : JuiceFSConfig) (fsName : string) : M (list action) () :=
  run_command "juicefs format" (juicefs_format c fsName).
Definition JuiceFs_Unmount (localPath : string) : M (list action) () :=
  run_command "juicefs umount" (juicefs_umount localPath).

(** *** Mountpoint *)

Definition mount_s3 (c : MountPointConfig) (localPath : string) : command :=
  mkCommand (["mount-s3"; BucketName c; localPath; "--region"; Region c; "--endpoint-url";
              EndpointURL c; "--read-only"] ++
             (if ForcePathStyle c then ["--force-path-style"] else []))
    (if decide (AccessKey c ≠ "" ∨ SecretKey c ≠ "")
     then Some ["AWS_ACCESS_KEY_ID=" +:+ AccessKey c; "AWS_SECRET_ACCESS_KEY=" +:+ SecretKey c]
     else None).

Definition MountPoint_Unmount (localPath : string) : M (list action) () :=
  run_command "mount-s3 umount" (mkCommand ["umount"; localPath] None).
Definition MountPoint_Format (fsName : string) : M (list action) () := mret tt.

(** The mount is not waited for. *)
Definition MountPoint_Mount (c : MountPointConfig) (localPath : string) : M (list action) () :=
  ignore (MountPoint_Unmount localPath) ≫= λ _,
  modify (λ l, l ++ [MadeDir localPath]) ≫= λ _,
  background (mount_s3 c localPath).

(** *** [NewSource] *)

(** [if err != nil { Logger.Fatalf(...) }] *)
Definition or_fatal {A} (m : M (list action) A) : M (list action) A :=
  r ← attempt m;
  match r with inl a => mret a | inr _ => gopanic ProcessExit end.

Inductive source : Type := JuiceFsSource (c : JuiceFSConfig) | MountPointSource (c : MountPointConfig).

Definition NewSource (wakes : list wake) (config : SourceConfig) : M (list action) source :=
  if decide (SMode config = SourceModeJuiceFS) then
    let c := JuiceFS config in
    or_fatal (JuiceFs_Format c (FilesystemName config)) ≫= λ _,
    or_fatal (JuiceFs_Mount c wakes (FilesystemPath config)) ≫= λ _,
    mret (JuiceFsSource c)
  else if decide (SMode config = SourceModeMountPoint) then
    let c := MountPoint config in
    or_fatal (MountPoint_Mount c (FilesystemPath config)) ≫= λ _,
    mret (MountPointSource c)
  else throw (ErrNew "invalid storage mode").

End sources.

(** ** Theorems *)

(** What a source needs to be there: the programs succeed, and the JuiceFS mount is
    seen before the timeout. *)
Theorem NewSource_outcome exec wakes config s :
  let '(r, l) := NewSource exec wakes config s in
  match r with
  | Ok (JuiceFsSource c) =>
      SMode config = SourceModeJuiceFS ∧ c = JuiceFS config ∧ wait_mounted wakes = Some true ∧
      l = s ++ [Started (juicefs_format c (FilesystemName config));
                Started (juicefs_mount c (FilesystemPath config))] ∧
      exec (juicefs_format c (FilesystemName config)) = None ∧
      exec (juicefs_mount c (FilesystemPath config)) = None
  | Ok (MountPointSource c) =>
      SMode config = SourceModeMountPoint ∧ c = MountPoint config ∧
      l = s ++ [Started (mkCommand ["umount"; FilesystemPath config] None);
                MadeDir (FilesystemPath config); Started (mount_s3 c (FilesystemPath config))] ∧
      exec (mount_s3 c (FilesystemPath config)) = None
  | Err e => l = s ∧ SMode config ≠ SourceModeJuiceFS ∧ SMode config ≠ SourceModeMountPoint
  | Panic p => p = ProcessExit ∨ (p = OutOfFuel ∧ wait_mounted wakes = None)
  end.
Proof.
  unfold NewSource, or_fatal, JuiceFs_Format, JuiceFs_Mount, MountPoint_Mount, MountPoint_Unmount,
    run_command, background, start, ignore, attempt, mbind, M_bind.
  destruct (decide (SMode config = SourceModeJuiceFS)) as [Hj|Hj].
  - simpl. destruct (exec (juicefs_format _ _)) eqn:Ef; simpl; [by left|].
    destruct (exec (juicefs_mount _ _)) eqn:Em; simpl; [by left|].
    destruct (wait_mounted wakes) as [[]|] eqn:Ew; simpl; [|by left|by right].
    rewrite <-(assoc_L (++)). by split_and!.
  - destruct (decide (SMode config = SourceModeMountPoint)) as [Hm|Hm]; simpl; [|by split_and!].
    destruct (exec (mkCommand ["umount"; _] None)) eqn:Eu; simpl;
      destruct (exec (mount_s3 _ _)) eqn:Em; simpl; try by left.
    all: rewrite <-!(assoc_L (++)); by split_and!.
Qed.

(** With credentials, mountpoint runs with nothing else in its environment. *)
Example mount_s3_environment :
  cmd_env (mount_s3 (Types.mkMountPoint "b" "k" "s" "r" "e" false) "/mnt")
  = Some ["AWS_ACCESS_KEY_ID=k"; "AWS_SECRET_ACCESS_KEY=s"].
Proof. done. Qed.

(** A host where everything works, and one where JuiceFS never comes up. *)
Example juicefs_up :
  (NewSource (λ _, None) [WakeTick (Ok 5); WakeTick (Ok 1)]
     (Types.mkSource "juicefs" "fs" "/mnt" (Types.mkJuiceFS "redis://r" "b" "" "" 0 0 0 0) zeroMountPoint) []).1
  = Ok (JuiceFsSource (Types.mkJuiceFS "redis://r" "b" "" "" 0 0 0 0)).
Proof. by vm_compute. Qed.
Example juicefs_timeout :
  (NewSource (λ _, None) [WakeTick (Err (ErrLib "ENOENT")); WakeTimeout]
     (Types.mkSource "juicefs" "fs" "/mnt" (Types.mkJuiceFS "redis://r" "b" "" "" 0 0 0 0) zeroMountPoint) []).1
  = Panic ProcessExit.
Proof. by vm_compute. Qed.
