(* ===== verification/BufferPool.v ===== *)
(** * The buffer pool of [pkg/buffer_pool.go]

    A buffer is a slice header: the identity of its backing array, its length
    and its capacity.  [sync.Pool] may hand out any pooled object or make a new
    one, so [Get] takes the choice as an argument. *)

From S2P Require Import Prelude.
Local Open Scope Z_scope.

(** ** Definitions *)

Record buffer : Type := mkBuffer { arr : nat; len : Z; cap : Z }.

Record BufferPool : Type := mkPool { pools : gmap Z (list buffer); next : nat }.

Definition BufferSize1MB : Z := 1 * 1024 * 1024.
Definition BufferSize4MB : Z := 4 * 1024 * 1024.
Definition BufferSize16MB : Z := 16 * 1024 * 1024.

Definition NewBufferPool (next : nat) : BufferPool :=
  mkPool (foldl (λ m size, <[size := []]> m) ∅ [BufferSize1MB; BufferSize4MB; BufferSize16MB])
    next.

Definition selectPoolSize (size : Z) : Z :=
  if bool_decide (size ≤ BufferSize1MB) then BufferSize1MB
  else if bool_decide (size ≤ BufferSize4MB) then BufferSize4MB
  else BufferSize16MB.

(** [make([]byte, size)]: a fresh array. *)
Definition make_buffer (size : Z) : M BufferPool buffer := λ bp,
  if bool_decide (0 ≤ size) then
    (Ok (mkBuffer (next bp) size size), mkPool (pools bp) (S (next bp)))
  else (Panic PanicMake, bp).

(** [pool.Get()] on the pool of a size: the pooled object chosen by [pick], or
    the pool's [New]. *)
Definition pool_Get (poolSize : Z) (l : list buffer) (pick : option nat) : M BufferPool buffer :=
  match pick ≫= λ i, (λ b, (i, b)) <$> l !! i with
  | Some (i, b) =>
      modify (λ bp, mkPool (<[poolSize := delete i l]> (pools bp)) (next bp)) ≫= λ _, mret b
  | None => make_buffer poolSize
  end.

Definition Get (pick : option nat) (size : Z) : M BufferPool buffer :=
  let poolSize := selectPoolSize size in
  p ← gets pools;
  match p !! poolSize with
  | Some l =>
      buf ← pool_Get poolSize l pick;
      if bool_decide (0 ≤ size ∧ size ≤ cap buf) then mret (mkBuffer (arr buf) size (cap buf))
      else gopanic PanicSlice
  | None => make_buffer size
  end.

(** [Put], with [None] for a nil slice. *)
Definition Put (buf : option buffer) : M BufferPool () :=
  match buf with
  | None => mret tt
  | Some b =>
      p ← gets pools;
      match p !! cap b with
      | Some l =>
          modify (λ bp, mkPool (<[cap b := mkBuffer (arr b) (cap b) (cap b) :: l]> (pools bp))
                          (next bp))
      | None => mret tt
      end
  end.

(** ** Who holds which buffer *)

(** The pool and the buffers its callers hold; a holder gives a buffer back at
    most once. *)
Inductive step : BufferPool * list buffer → BufferPool * list buffer → Prop :=
  | step_get pick size bp bp' held b :
      Get pick size bp = (Ok b, bp') → step (bp, held) (bp', b :: held)
  | step_put i b bp bp' held :
      held !! i = Some b → (Put (Some b) bp).2 = bp' →
      step (bp, held) (bp', delete i held).

Inductive reachable : BufferPool * list buffer → Prop :=
  | reach_init n : reachable (NewBufferPool n, [])
  | reach_step s s' : reachable s → step s s' → reachable s'.

(** The well-formedness of a pool: its three sizes, and full-size buffers. *)
Definition pool_wf (bp : BufferPool) : Prop :=
  dom (pools bp) = {[ BufferSize1MB; BufferSize4MB; BufferSize16MB ]} ∧
  map_Forall (λ k l, Forall (λ b, len b = k ∧ cap b = k) l) (pools bp).

(** ** Lemmas *)

Lemma selectPoolSize_in bp size : pool_wf bp → is_Some (pools bp !! selectPoolSize size).
Proof.
  intros [Hd _]. apply elem_of_dom. rewrite Hd. unfold selectPoolSize.
  repeat case_bool_decide; set_solver.
Qed.

Lemma selectPoolSize_fits size : size ≤ BufferSize16MB → size ≤ selectPoolSize size.
Proof. unfold selectPoolSize. intros. repeat case_bool_decide; lia. Qed.

Lemma selectPoolSize_least size k :
  k ∈ [BufferSize1MB; BufferSize4MB; BufferSize16MB] → size ≤ k → selectPoolSize size ≤ k.
Proof.
  unfold selectPoolSize. intros Hk ?.
  repeat (apply elem_of_cons in Hk as [->|Hk]); [..|by apply elem_of_nil in Hk];
    repeat case_bool_decide; unfold BufferSize1MB, BufferSize4MB, BufferSize16MB in *; lia.
Qed.

Lemma selectPoolSize_pos size : 0 < selectPoolSize size.
Proof. unfold selectPoolSize. repeat case_bool_decide; done. Qed.

Lemma NewBufferPool_wf n : pool_wf (NewBufferPool n).
Proof.
  split; [by vm_compute|].
  unfold NewBufferPool. simpl. repeat apply map_Forall_insert_2; done.
Qed.

(** The pooled object or the new one: its size, and the pool left behind. *)
Lemma pool_Get_spec bp k l pick :
  pool_wf bp → pools bp !! k = Some l → 0 ≤ k →
  ∃ b bp', pool_Get k l pick bp = (Ok b, bp') ∧ cap b = k ∧ pool_wf bp'.
Proof.
  intros [Hd Hl] Hk Hpos. unfold pool_Get. specialize (Hl _ _ Hk) as Hlk. simpl in Hlk.
  destruct (pick ≫= _) as [[i b]|] eqn:Hp.
  - eexists _, _. split; [done|]. destruct pick as [j|]; [|done]. simpl in Hp.
    destruct (l !! j) as [b'|] eqn:Hj; simplify_eq/=.
    split; [by eapply (Forall_lookup_1 _ _ _ _ Hlk)|].
    split; simpl.
    + rewrite dom_insert_lookup_L; [done|by eexists].
    + apply map_Forall_insert_2; [|done]. by apply Forall_delete.
  - unfold make_buffer. rewrite bool_decide_eq_true_2 by done. by eexists _, _.
Qed.

Lemma Put_wf bp b : pool_wf bp → pool_wf (Put (Some b) bp).2.
Proof.
  intros [Hd Hl]. unfold Put, mbind, M_bind, gets. simpl.
  destruct (pools bp !! cap b) as [l|] eqn:Hk; [|by split].
  split; simpl.
  - rewrite dom_insert_lookup_L; [done|by eexists].
  - apply map_Forall_insert_2; [|done]. constructor; [done|]. by apply (Hl _ _ Hk).
Qed.

Lemma Put_Ok b bp : ∃ bp', Put (Some b) bp = (Ok tt, bp').
Proof. unfold Put, mbind, M_bind, gets. simpl. destruct (pools bp !! cap b); eauto. Qed.

(** ** No sharing *)

Definition arrays_of (m : gmap Z (list buffer)) : list nat :=
  concat (map (λ kl, map arr kl.2) (map_to_list m)).

Lemma arrays_of_insert m k l l' :
  m !! k = Some l →
  arrays_of m ≡ₚ map arr l ++ arrays_of (delete k m) ∧
  arrays_of (<[k := l']> m) ≡ₚ map arr l' ++ arrays_of (delete k m).
Proof.
  intros Hk. assert (∀ x, arrays_of (<[k := x]> (delete k m)) ≡ₚ
                          map arr x ++ arrays_of (delete k m)) as H.
  { intros x. unfold arrays_of.
    by rewrite (map_to_list_insert (delete k m) k x) by apply lookup_delete_eq. }
  split.
  - rewrite <-(insert_delete_id m k l Hk) at 1. apply H.
  - rewrite <-insert_delete_eq. apply H.
Qed.

(** The invariant: no array is in two places, and the arrays in use were made
    before the next one. *)
Definition exclusive (s : BufferPool * list buffer) : Prop :=
  NoDup (arrays_of (pools s.1) ++ map arr s.2) ∧
  Forall (λ a, a < next s.1)%nat (arrays_of (pools s.1) ++ map arr s.2).

Lemma exclusive_fresh bp held size c :
  exclusive (bp, held) →
  exclusive (mkPool (pools bp) (S (next bp)), mkBuffer (next bp) size c :: held).
Proof.
  intros [Hn Hf]. unfold exclusive in *. simpl in *.
  rewrite <-(Permutation_middle (arrays_of (pools bp)) (map arr held) (next bp)).
  split; constructor; [|done|simpl; lia|eapply Forall_impl; [done|simpl; lia]].
  intros Hin. rewrite Forall_forall in Hf. specialize (Hf _ Hin). lia.
Qed.

Lemma exclusive_perm bp bp' held held' :
  arrays_of (pools bp) ++ map arr held ≡ₚ arrays_of (pools bp') ++ map arr held' →
  next bp = next bp' → exclusive (bp, held) → exclusive (bp', held').
Proof. unfold exclusive. simpl. by intros -> ->. Qed.

Lemma exclusive_sub bp held i b :
  held !! i = Some b → exclusive (bp, held) → exclusive (bp, delete i held).
Proof.
  unfold exclusive. simpl. intros Hb. rewrite (delete_Permutation held i b Hb) at 1 2. simpl.
  rewrite <-!Permutation_middle. by intros [[? ?]%NoDup_cons [? ?]%Forall_cons].
Qed.

Lemma exclusive_get bp held k l pick b bp' c :
  pools bp !! k = Some l → pool_Get k l pick bp = (Ok b, bp') →
  exclusive (bp, held) → exclusive (bp', mkBuffer (arr b) c (cap b) :: held).
Proof.
  intros Hk Hg. unfold pool_Get in Hg. destruct (pick ≫= _) as [[i b']|] eqn:Hp.
  - unfold mbind, M_bind, modify in Hg. simpl in Hg. injection Hg as <- <-.
    apply exclusive_perm; [|done]. simpl.
    destruct (arrays_of_insert (pools bp) k l (delete i l) Hk) as [-> ->].
    destruct pick as [j|]; [|done]. simpl in Hp.
    destruct (l !! j) as [b0|] eqn:Hj; simplify_eq/=.
    rewrite (delete_Permutation l i b' Hj) at 1. simpl. solve_Permutation.
  - unfold make_buffer in Hg. case_bool_decide; [|done]. injection Hg as <- <-.
    apply exclusive_fresh.
Qed.

Lemma exclusive_step s s' : exclusive s → step s s' → exclusive s'.
Proof.
  intros Hs Hst. destruct Hst as [pick size bp bp' held b Hg|i b bp bp' held Hb <-].
  - unfold Get, mbind, M_bind, gets in Hg. simpl in Hg.
    destruct (pools bp !! selectPoolSize size) as [l|] eqn:Hk.
    + destruct (pool_Get _ l pick bp) as [[b0|e|p] bp1] eqn:Hp; try done.
      case_bool_decide; [|done]. injection Hg as <- <-. by eapply exclusive_get.
    + unfold make_buffer in Hg. case_bool_decide; [|done]. injection Hg as <- <-.
      by apply exclusive_fresh.
  - unfold Put, mbind, M_bind, gets. simpl.
    destruct (pools bp !! cap b) as [l|] eqn:Hk; [|by eapply exclusive_sub].
    revert Hs. apply exclusive_perm; [|done]. simpl.
    destruct (arrays_of_insert (pools bp) (cap b) l
                (mkBuffer (arr b) (cap b) (cap b) :: l) Hk) as [-> ->].
    rewrite (delete_Permutation held i b Hb) at 1. simpl. solve_Permutation.
Qed.

Lemma Get_fits bp pick size :
  pool_wf bp → 0 ≤ size ≤ BufferSize16MB →
  ∃ b bp', Get pick size bp = (Ok b, bp') ∧ len b = size ∧ cap b = selectPoolSize size ∧
    pool_wf bp'.
Proof.
  intros Hwf Hs. unfold Get, mbind, M_bind, gets. simpl.
  destruct (selectPoolSize_in bp size Hwf) as [l Hl]. rewrite Hl.
  pose proof (selectPoolSize_pos size). pose proof (selectPoolSize_fits size).
  destruct (pool_Get_spec bp _ l pick Hwf Hl) as (b & bp' & -> & Hc & Hwf'); [lia|].
  rewrite bool_decide_eq_true_2 by lia. by eexists _, _.
Qed.

Lemma step_wf s s' : step s s' → pool_wf s.1 → pool_wf s'.1.
Proof.
  intros Hst Hwf. destruct Hst as [pick size bp bp' held b Hg|i b bp bp' held Hb <-]; simpl in *.
  - unfold Get, mbind, M_bind, gets in Hg. simpl in Hg.
    destruct (selectPoolSize_in bp size Hwf) as [l Hl]. rewrite Hl in Hg.
    pose proof (selectPoolSize_pos size).
    destruct (pool_Get_spec bp _ l pick Hwf Hl) as (b' & bp'' & E & Hc & Hwf'); [lia|].
    rewrite E in Hg. case_bool_decide; [|done]. by injection Hg as _ <-.
  - by apply Put_wf.
Qed.

Lemma reachable_wf s : reachable s → pool_wf s.1 ∧ exclusive s.
Proof.
  induction 1 as [n|s s' _ [Hwf Hex] Hst].
  - split; [apply NewBufferPool_wf|].
    unfold NewBufferPool, exclusive, arrays_of. simpl. split; [constructor|done].
  - split; [by eapply step_wf|by eapply exclusive_step].
Qed.

(** ** Properties *)

(** C28: in any history of [Get]s and [Put]s, a request of at most 16 MB succeeds
    whatever pooled object is taken: the buffer has the requested length, the
    smallest capacity class that fits it, and its array is neither held by
    another caller nor left in the pool. *)
Theorem Get_exclusive s pick size :
  reachable s → 0 ≤ size ≤ BufferSize16MB →
  ∃ b bp', Get pick size s.1 = (Ok b, bp') ∧ len b = size ∧
    cap b = selectPoolSize size ∧ size ≤ cap b ∧
    (arr b ∉ map arr s.2) ∧ (arr b ∉ arrays_of (pools bp')).
Proof.
  intros Hr Hs. destruct (reachable_wf s Hr) as [Hwf Hex]. destruct s as [bp held].
  destruct (Get_fits bp pick size Hwf Hs) as (b & bp' & E & Hl & Hc & _).
  exists b, bp'. pose proof (selectPoolSize_fits size). rewrite Hc.
  assert (exclusive (bp', b :: held)) as [Hn _]
    by (eapply exclusive_step; [done|by eapply step_get]).
  simpl in Hn. rewrite <-(Permutation_middle (arrays_of (pools bp')) (map arr held) (arr b)) in Hn.
  apply NoDup_cons in Hn as [Hn _]. rewrite elem_of_app in Hn. naive_solver lia.
Qed.

Lemma Get_exclusive_witness :
  ∃ b bp', Get (Some 0%nat) 100 (NewBufferPool 7) = (Ok b, bp') ∧ len b = 100 ∧
    cap b = selectPoolSize 100 ∧ 100 ≤ cap b ∧
    (arr b ∉ map arr []) ∧ (arr b ∉ arrays_of (pools bp')).
Proof.
  apply (Get_exclusive (NewBufferPool 7, []) (Some 0%nat) 100); [constructor|].
  unfold BufferSize16MB. lia.
Defined.

(** The fallback allocation of [Get] is never reached: a request of more
    than 16 MB is sliced out of a 16 MB buffer, which panics. *)
Theorem Get_oversize_panics s pick size :
  reachable s → BufferSize16MB < size → (Get pick size s.1).1 = Panic PanicSlice.
Proof.
  intros Hr Hs. destruct (reachable_wf s Hr) as [Hwf _]. destruct s as [bp held]. simpl in *.
  unfold Get, mbind, M_bind, gets. simpl.
  destruct (selectPoolSize_in bp size Hwf) as [l Hl]. rewrite Hl.
  pose proof (selectPoolSize_pos size).
  destruct (pool_Get_spec bp _ l pick Hwf Hl) as (b & bp' & -> & Hc & _); [lia|].
  rewrite bool_decide_eq_false_2; [done|]. rewrite Hc.
  unfold selectPoolSize, BufferSize1MB, BufferSize4MB, BufferSize16MB in *.
  repeat case_bool_decide; lia.
Qed.

Lemma Get_oversize_panics_witness :
  (Get None (BufferSize16MB + 1) (NewBufferPool 0)).1 = Panic PanicSlice.
Proof. apply (Get_oversize_panics (NewBufferPool 0, [])); [constructor|lia]. Defined.
