(* ===== verification/HostMap.v ===== *)
(** * The host map of [pkg/hostmap.go]

    [HostMap] keeps the reachable hosts by id.  Go iterates over a map in an
    unspecified order, so the operations that list the hosts take the order as
    an argument; [sort.Slice] is modelled by stdpp's [merge_sort] on the
    comparison of the source.  [Closest] and [ClosestWithCapacity] poll: what
    the [i]-th poll sees of the map and of the clock is an argument. *)

From S2P Require Import Prelude GoStrings GoFloat Types.
Local Open Scope Z_scope.

Abbreviation hosts := (gmap string BlobCacheHost).

(** ** Definitions *)

Section operations.
Context {S : Type}.

(** [Set], with the callback [onHostAdded] as an operation on the rest of the
    program's state; the callback's error is dropped. *)
Definition HostMap_Set (onHostAdded : option (BlobCacheHost → M S ())) (host : BlobCacheHost) :
    M (hosts * S) () :=
  hs ← gets fst;
  match hs !! HostId host with
  | Some _ => mret tt
  | None =>
      modify (λ s, (<[HostId host := host]> s.1, s.2)) ≫= λ _,
      match onHostAdded with
      | None => mret tt
      | Some f => zoom snd (λ t s, (s.1, t)) (ignore (f host))
      end
  end.

Definition HostMap_Remove (host : BlobCacheHost) : M (hosts * S) () :=
  hs ← gets fst;
  match hs !! HostId host with
  | None => mret tt
  | Some _ => modify (λ s, (delete (HostId host) s.1, s.2))
  end.

End operations.

(** [Members]: the ids of the values, not the keys. *)
Definition Members (hs : hosts) : gset string :=
  list_to_set (map (λ kv, HostId kv.2) (map_to_list hs)).

(** An order in which Go may list the values of the map. *)
Definition listing (hs : hosts) (l : list BlobCacheHost) : Prop :=
  l ≡ₚ map snd (map_to_list hs).

Definition HostMap_Get (hs : hosts) (hostId : string) : option BlobCacheHost := hs !! hostId.

(** The comparisons [less(i, j)] of the two sorts. *)
Definition less_rtt (x y : BlobCacheHost) : bool := bool_decide (RTT x < RTT y).
Definition less_capacity (x y : BlobCacheHost) : bool :=
  if bool_decide (RTT x ≠ RTT y) then bool_decide (RTT x < RTT y)
  else f_lt (CapacityUsagePct x) (CapacityUsagePct y).

(** [sort.Slice(l, less)]: [x] may stand before [y] when not [less y x]. *)
Definition may_precede (less : BlobCacheHost → BlobCacheHost → bool) (x y : BlobCacheHost) : Prop :=
  less y x = false.
#[export] Instance may_precede_dec less x y : Decision (may_precede less x y).
Proof. unfold may_precede. apply _. Defined.

Definition sort_slice (less : BlobCacheHost → BlobCacheHost → bool) (l : list BlobCacheHost) :
    list BlobCacheHost :=
  merge_sort (may_precede less) l.

(** What the [i]-th poll sees: the length read before the lock is taken, the
    hosts copied under the lock, and the time since the start. *)
Record poll : Type := mkPoll { seen_len : nat; snapshot : list BlobCacheHost; elapsed : Z }.

Definition Closest_body (timeout : Z) (env : nat → poll) (i : nat) :
    M () (nat + BlobCacheHost) :=
  if bool_decide (0 < seen_len (env i))%nat then
    match sort_slice less_rtt (snapshot (env i)) with
    | [] => gopanic PanicIndex
    | h :: _ => mret (inr h)
    end
  else if bool_decide (elapsed (env i) > timeout) then throw ErrHostNotFound
  else mret (inl (S i)).

Definition ClosestWithCapacity_body (timeout : Z) (env : nat → poll) (i : nat) :
    M () (nat + BlobCacheHost) :=
  if bool_decide (0 < seen_len (env i))%nat then
    match sort_slice less_capacity (snapshot (env i)) with
    | [] => throw ErrHostNotFound
    | h :: _ => mret (inr h)
    end
  else if bool_decide (elapsed (env i) > timeout) then throw ErrHostNotFound
  else mret (inl (S i)).

(** Each turn that does not return sleeps one second, which bounds the turns. *)
Definition poll_fuel (timeout : Z) : positive := Z.to_pos (timeout `div` Second + 3).

Definition Closest (timeout : Z) (env : nat → poll) : res BlobCacheHost :=
  (loopM (poll_fuel timeout) (Closest_body timeout env) 0%nat ()).1.

Definition ClosestWithCapacity (timeout : Z) (env : nat → poll) : res BlobCacheHost :=
  (loopM (poll_fuel timeout) (ClosestWithCapacity_body timeout env) 0%nat ()).1.

(** Clocks that the sleep allows: at least one second between polls. *)
Definition ticking (env : nat → poll) : Prop :=
  0 ≤ elapsed (env 0%nat) ∧ ∀ i, elapsed (env i) + Second ≤ elapsed (env (S i)).

(** [TestClosestWithCapacity] of [hostmap_test.go]. *)
Definition ms (n : Z) : Z := n * 1000000.
Definition pct (n : Z) : float64 := f64_div (f64_of_Z n) (f64_of_Z 10).
Definition test_hosts : list BlobCacheHost :=
  [mkHost (ms 20) "host1" "" "" (pct 3); mkHost (ms 10) "host2" "" "" (pct 7);
   mkHost (ms 10) "host3" "" "" (pct 2); mkHost (ms 50) "host4" "" "" (pct 1)].
Example TestClosestWithCapacity :
  ClosestWithCapacity (5 * Second) (λ _, mkPoll 4 test_hosts 0)
  = Ok (mkHost (ms 10) "host3" "" "" (pct 2)).
Proof. by vm_compute. Qed.

(** ** The order of floats *)

(** A non-NaN float as a place on the line: the class, then the exponent and
    the mantissa, both with the sign of the number. *)
Definition f_key (x : spec_float) : Z * Z * Z :=
  match x with
  | S754_infinity true => (-2, 0, 0)
  | S754_finite true m e => (-1, -e, -Zpos m)
  | S754_zero _ => (0, 0, 0)
  | S754_finite false m e => (1, e, Zpos m)
  | S754_infinity false => (2, 0, 0)
  | S754_nan => (3, 0, 0)
  end.

Definition key_lt (p q : Z * Z * Z) : Prop :=
  p.1.1 < q.1.1 ∨ (p.1.1 = q.1.1 ∧ (p.1.2 < q.1.2 ∨ (p.1.2 = q.1.2 ∧ p.2 < q.2))).

Lemma f_lt_key x y :
  f_is_nan x = false → f_is_nan y = false → f_lt x y = true ↔ key_lt (f_key x) (f_key y).
Proof.
  intros Hx Hy. unfold f_lt, SFltb, key_lt.
  destruct x as [sx|[]| |[] mx ex]; try done; destruct y as [sy|[]| |[] my ey]; try done;
    simpl; try (split; [intros; lia|intros; done || lia]).
  - destruct (Z.compare_spec ex ey); simpl; try (split; [intros; done || lia|intros; done || lia]).
    change (Pos.compare_cont Eq mx my) with (Pos.compare mx my).
    destruct (Pos.compare_spec mx my); simpl; split; intros; done || lia.
  - destruct (Z.compare_spec ex ey); simpl; try (split; [intros; done || lia|intros; done || lia]).
    change (Pos.compare_cont Eq mx my) with (Pos.compare mx my).
    destruct (Pos.compare_spec mx my); simpl; split; intros; done || lia.
Qed.

(** ** Sorting *)

Lemma sorted_head_least {A} (R : relation A) (P : A → Prop) h l :
  (∀ x y z, P x → P y → P z → R x y → R y z → R x z) →
  Forall P (h :: l) → Sorted R (h :: l) → Forall (R h) l.
Proof.
  intros HR. revert h. induction l as [|a l IH]; intros h HP Hs; [done|].
  apply Forall_cons in HP as [Hh HP].
  inversion Hs as [|?? Hs' Hhd]; subst. inversion Hhd as [|?? Hha]; subst.
  constructor; [done|]. specialize (IH a HP Hs').
  apply Forall_cons in HP as [Ha HP]. rewrite Forall_forall in IH, HP |- *.
  intros x Hx. apply (HR h a x); auto.
Qed.

Section sorting.
Context (less : BlobCacheHost → BlobCacheHost → bool) (P : BlobCacheHost → Prop).
Context (asym : ∀ x y, less x y = true → less y x = false).
Context (trans : ∀ x y z, P x → P y → P z →
                          may_precede less x y → may_precede less y z → may_precede less x z).

Lemma sort_slice_perm l : sort_slice less l ≡ₚ l.
Proof. apply merge_sort_Permutation. Qed.

Lemma sort_slice_head l h t :
  Forall P l → sort_slice less l = h :: t → h ∈ l ∧ ∀ x, x ∈ l → less x h = false.
Proof using asym trans.
  intros HP Hl. pose proof (sort_slice_perm l) as Hp. rewrite Hl in Hp.
  assert (Sorted (may_precede less) (h :: t)) as Hs.
  { rewrite <-Hl. apply Sorted_merge_sort. intros x y. unfold may_precede.
    destruct (less y x) eqn:E; [right; auto|by left]. }
  assert (Forall P (h :: t)) as HP' by by rewrite Hp.
  pose proof (sorted_head_least _ P h t trans HP' Hs) as Hmin.
  split; [by rewrite <-Hp; left|]. intros x. rewrite <-Hp. intros [->|Hx]%elem_of_cons.
  - destruct (less h h) eqn:E; [|done]. rewrite <-E. by apply asym.
  - rewrite Forall_forall in Hmin. by apply Hmin.
Qed.

End sorting.

Lemma less_rtt_asym x y : less_rtt x y = true → less_rtt y x = false.
Proof. unfold less_rtt. rewrite bool_decide_eq_true, bool_decide_eq_false. lia. Qed.

Lemma less_rtt_trans x y z :
  may_precede less_rtt x y → may_precede less_rtt y z → may_precede less_rtt x z.
Proof. unfold may_precede, less_rtt. rewrite !bool_decide_eq_false. lia. Qed.

Lemma f_lt_asym x y : f_lt x y = true → f_lt y x = false.
Proof.
  destruct (f_is_nan x) eqn:Hx; [by destruct x|].
  destruct (f_is_nan y) eqn:Hy; [by destruct y; destruct x as [[]|[]| |[]]|].
  intros Hlt. destruct (f_lt y x) eqn:E; [|done].
  apply f_lt_key in Hlt, E; [|done..]. unfold key_lt in *. lia.
Qed.

Definition ordered (h : BlobCacheHost) : Prop := f_is_nan (CapacityUsagePct h) = false.

Lemma less_capacity_asym x y : less_capacity x y = true → less_capacity y x = false.
Proof.
  unfold less_capacity. repeat case_bool_decide; try done; try lia; auto using f_lt_asym.
Qed.

Lemma less_capacity_trans x y z :
  ordered x → ordered y → ordered z →
  may_precede less_capacity x y → may_precede less_capacity y z → may_precede less_capacity x z.
Proof.
  unfold may_precede, less_capacity, ordered. intros Hx Hy Hz.
  repeat case_bool_decide; try done; try lia.
  intros Hxy Hyz. destruct (f_lt (CapacityUsagePct z) (CapacityUsagePct x)) eqn:E; [|done].
  exfalso. apply not_true_iff_false in Hxy, Hyz.
  rewrite f_lt_key in E, Hxy, Hyz by done. unfold key_lt in *. lia.
Qed.

(** ** Polling *)

Section polling.
Context (less : BlobCacheHost → BlobCacheHost → bool) (P : BlobCacheHost → Prop).
Context (asym : ∀ x y, less x y = true → less y x = false).
Context (trans : ∀ x y z, P x → P y → P z →
                          may_precede less x y → may_precede less y z → may_precede less x z).
Context (on_empty : res BlobCacheHost).
Context (timeout : Z) (env : nat → poll) (Hclock : ticking env).
Context (Hsnap : ∀ i, Forall P (snapshot (env i))).

(** The common shape of the two bodies. *)
Definition poll_body (i : nat) : M () (nat + BlobCacheHost) := λ s,
  if bool_decide (0 < seen_len (env i))%nat then
    match sort_slice less (snapshot (env i)) with
    | [] => (match on_empty with Ok h => Ok (inr h) | Err e => Err e | Panic p => Panic p end, s)
    | h :: _ => (Ok (inr h), s)
    end
  else if bool_decide (elapsed (env i) > timeout) then (Err ErrHostNotFound, s)
  else (Ok (inl (S i)), s).

(** What the poll that ends the loop returns. *)
Definition poll_result (n : nat) (r : res BlobCacheHost) : Prop :=
  (seen_len (env n) ≠ 0%nat ∧ snapshot (env n) ≠ [] ∧
     ∃ h, r = Ok h ∧ h ∈ snapshot (env n) ∧ ∀ x, x ∈ snapshot (env n) → less x h = false) ∨
  (seen_len (env n) ≠ 0%nat ∧ snapshot (env n) = [] ∧ r = on_empty) ∨
  (seen_len (env n) = 0%nat ∧ elapsed (env n) > timeout ∧ r = Err ErrHostNotFound).

Definition waited (n : nat) : Prop :=
  ∀ i, (i < n)%nat → seen_len (env i) = 0%nat ∧ elapsed (env i) ≤ timeout.

Lemma ticking_ge (i : nat) : Second * Z.of_nat i ≤ elapsed (env i).
Proof using Hclock.
  destruct Hclock as [H0 Hs]. induction i as [|i IH]; [lia|]. specialize (Hs i). lia.
Qed.

Lemma poll_spec :
  ∃ n, waited n ∧
       poll_result n (loopM (poll_fuel timeout) poll_body 0%nat ()).1.
Proof using asym trans Hclock Hsnap.
  pose (I := λ x : nat * (), waited x.1).
  pose (μ := λ x : nat * (), timeout `div` Second + 2 - Z.of_nat x.1).
  pose (Q := λ r : res BlobCacheHost * (), ∃ n, waited n ∧ poll_result n r.1).
  destruct (iter_pos_spec (loop_step poll_body) I μ Q (poll_fuel timeout) (0%nat, ()))
    as (r & Hr & HQ).
  - intros [i []] Hi. unfold I, Q, μ in *. unfold loop_step, poll_body. simpl in *.
    case_bool_decide as Hlen.
    + destruct (sort_slice less (snapshot (env i))) as [|h t] eqn:Hsort.
      * pose proof (sort_slice_perm less (snapshot (env i))) as Hp. rewrite Hsort in Hp.
        apply Permutation_nil_l in Hp.
        destruct on_empty eqn:Ho; simpl; exists i; (split; [done|]); right; left; split_and!; done || lia.
      * destruct (sort_slice_head less P asym trans _ _ _ (Hsnap i) Hsort) as [Hin Hmin].
        simpl. exists i. split; [done|]. left. split_and!; [lia| |by eauto].
        intros E. rewrite E in Hin. by apply elem_of_nil in Hin.
    + case_bool_decide as Ht.
      * simpl. exists i. split; [done|]. right. right. split_and!; done || lia.
      * simpl. split.
        -- intros j Hj. destruct (decide (j = i)) as [->|]; [lia|]. apply Hi. lia.
        -- pose proof (ticking_ge i). pose proof (Z.div_mod timeout Second).
           pose proof (Z.mod_pos_bound timeout Second). unfold Second in *. lia.
  - intros j Hj. simpl in Hj. lia.
  - unfold μ, poll_fuel. simpl. lia.
  - unfold loopM. rewrite Hr. exact HQ.
Qed.

End polling.

Lemma Closest_poll timeout env :
  Closest timeout env =
  (loopM (poll_fuel timeout) (poll_body less_rtt (Panic PanicIndex) timeout env) 0%nat ()).1.
Proof.
  unfold Closest. f_equal. apply loopM_ext. intros i s. unfold Closest_body, poll_body.
  case_bool_decide; [by destruct (sort_slice _ _)|by case_bool_decide].
Qed.

Lemma ClosestWithCapacity_poll timeout env :
  ClosestWithCapacity timeout env =
  (loopM (poll_fuel timeout) (poll_body less_capacity (Err ErrHostNotFound) timeout env) 0%nat ()).1.
Proof.
  unfold ClosestWithCapacity. f_equal. apply loopM_ext. intros i s.
  unfold ClosestWithCapacity_body, poll_body.
  case_bool_decide; [by destruct (sort_slice _ _)|by case_bool_decide].
Qed.

(** ** The map *)

Definition hosts_wf (hs : hosts) : Prop := map_Forall (λ k h, HostId h = k) hs.

Section map_lemmas.
Context {S : Type}.

Lemma HostMap_Set_present cb host (hs : hosts) (s : S) h :
  hs !! HostId host = Some h → HostMap_Set cb host (hs, s) = (Ok tt, (hs, s)).
Proof. intros Hh. unfold HostMap_Set, mbind, M_bind, gets. simpl. by rewrite Hh. Qed.

Lemma HostMap_Set_absent (f : BlobCacheHost → M S ()) host (hs : hosts) (s : S) :
  hs !! HostId host = None →
  (HostMap_Set (Some f) host (hs, s)).2 = (<[HostId host := host]> hs, (f host s).2).
Proof.
  intros Hh. unfold HostMap_Set, mbind, M_bind, gets. simpl. rewrite Hh. simpl.
  unfold zoom, ignore, mbind, M_bind, attempt. simpl. by destruct (f host s) as [[] ?].
Qed.

Lemma HostMap_Set_wf cb host : keeps (S:=hosts * S) (λ s, hosts_wf s.1) (HostMap_Set cb host).
Proof.
  unfold HostMap_Set. keeps_step; [eauto with keeps|]. keeps_step; [eauto with keeps|].
  keeps_step.
  - apply keeps_modify. intros [hs s] Hwf. by apply map_Forall_insert_2.
  - destruct cb as [f|]; [|eauto with keeps].
    by apply keeps_zoom_frame.
Qed.

Lemma HostMap_Remove_wf host : keeps (S:=hosts * S) (λ s, hosts_wf s.1) (HostMap_Remove host).
Proof.
  unfold HostMap_Remove. keeps_step; [eauto with keeps|]. keeps_step; [|eauto with keeps].
  apply keeps_modify. intros [hs s] Hwf. by apply map_Forall_delete.
Qed.

Lemma HostMap_Remove_lookup host (hs : hosts) (s : S) :
  HostMap_Remove host (hs, s) = (Ok tt, (delete (HostId host) hs, s)).
Proof.
  unfold HostMap_Remove, mbind, M_bind, gets. simpl.
  destruct (hs !! HostId host) eqn:E; [done|]. by rewrite delete_id.
Qed.

End map_lemmas.

Lemma Members_dom hs : hosts_wf hs → Members hs = dom hs.
Proof.
  intros Hwf. apply set_eq. intros k. unfold Members.
  rewrite elem_of_list_to_set, list_elem_of_fmap, elem_of_dom. split.
  - intros ([k' h] & -> & Hin). apply elem_of_map_to_list in Hin. simpl.
    rewrite (Hwf _ _ Hin). by exists h.
  - intros [h Hh]. exists (k, h). split; [by rewrite <-(Hwf _ _ Hh)|].
    by apply elem_of_map_to_list.
Qed.

(** ** Properties *)

(** [Closest] returns: it polls while it sees no host and the timeout has not
    passed; then it returns a host of the map with the least round-trip time, or
    [ErrHostNotFound] once the timeout passed with no host. *)
Theorem Closest_least timeout env :
  ticking env → (∀ i, seen_len (env i) ≠ 0%nat → snapshot (env i) ≠ []) →
  ∃ n, waited timeout env n ∧
    ((∃ h, Closest timeout env = Ok h ∧ h ∈ snapshot (env n) ∧
           ∀ x, x ∈ snapshot (env n) → RTT h ≤ RTT x) ∨
     (seen_len (env n) = 0%nat ∧ elapsed (env n) > timeout ∧
      Closest timeout env = Err ErrHostNotFound)).
Proof.
  intros Hc Hne. destruct (poll_spec less_rtt (λ _, True) less_rtt_asym (λ x y z _ _ _, less_rtt_trans x y z)
    (Panic PanicIndex) timeout env Hc) as (n & Hw & Hr).
  { intros i. by apply Forall_true. }
  exists n. split; [done|]. rewrite <-Closest_poll in Hr.
  destruct Hr as [(_ & _ & h & -> & Hin & Hmin)|[(H1 & H2 & _)|(H1 & H2 & ->)]].
  - left. exists h. split_and!; [done..|]. intros x Hx. specialize (Hmin x Hx).
    unfold less_rtt in Hmin. rewrite bool_decide_eq_false in Hmin. lia.
  - by destruct (Hne n).
  - by right.
Qed.

(** One host after two empty polls. *)
Definition late_host (i : nat) : poll :=
  if decide (i < 2)%nat then mkPoll 0 [] (Second * Z.of_nat i)
  else mkPoll 4 test_hosts (Second * Z.of_nat i).

Lemma late_host_ticking : ticking late_host.
Proof.
  split; [done|]. intros i. unfold late_host. repeat case_decide; simpl; lia.
Qed.

Lemma late_host_seen i : seen_len (late_host i) ≠ 0%nat → snapshot (late_host i) ≠ [].
Proof. unfold late_host. by case_decide. Qed.

Lemma Closest_least_witness :
  ∃ n, waited (5 * Second) late_host n ∧
    ((∃ h, Closest (5 * Second) late_host = Ok h ∧ h ∈ snapshot (late_host n) ∧
           ∀ x, x ∈ snapshot (late_host n) → RTT h ≤ RTT x) ∨
     (seen_len (late_host n) = 0%nat ∧ elapsed (late_host n) > 5 * Second ∧
      Closest (5 * Second) late_host = Err ErrHostNotFound)).
Proof. apply Closest_least; [exact late_host_ticking|exact late_host_seen]. Defined.

(** C29: [ClosestWithCapacity] returns: the host it picks is least for the
    round-trip time and, among those with that time, for the capacity usage; no
    host is excluded for its usage; a map emptied while it polls is
    [ErrHostNotFound]. *)
Theorem ClosestWithCapacity_least timeout env :
  ticking env → (∀ i, Forall ordered (snapshot (env i))) →
  ∃ n, waited timeout env n ∧
    ((∃ h, ClosestWithCapacity timeout env = Ok h ∧ h ∈ snapshot (env n) ∧
           ∀ x, x ∈ snapshot (env n) →
                RTT h ≤ RTT x ∧
                (RTT h = RTT x → f_lt (CapacityUsagePct x) (CapacityUsagePct h) = false)) ∨
     (ClosestWithCapacity timeout env = Err ErrHostNotFound ∧
      (seen_len (env n) ≠ 0%nat ∧ snapshot (env n) = [] ∨
       seen_len (env n) = 0%nat ∧ elapsed (env n) > timeout))).
Proof.
  intros Hc Hord.
  destruct (poll_spec less_capacity ordered less_capacity_asym less_capacity_trans
    (Err ErrHostNotFound) timeout env Hc Hord) as (n & Hw & Hr).
  exists n. split; [done|]. rewrite <-ClosestWithCapacity_poll in Hr.
  destruct Hr as [(_ & _ & h & -> & Hin & Hmin)|[(H1 & H2 & ->)|(H1 & H2 & ->)]].
  - left. exists h. split_and!; [done..|]. intros x Hx. specialize (Hmin x Hx).
    unfold less_capacity in Hmin. case_bool_decide as E.
    + rewrite bool_decide_eq_false in Hmin. lia.
    + split; [lia|done].
  - right. split; [done|]. by left.
  - right. split; [done|]. by right.
Qed.

Lemma ClosestWithCapacity_least_witness :
  ∃ n, waited (5 * Second) late_host n ∧
    ((∃ h, ClosestWithCapacity (5 * Second) late_host = Ok h ∧ h ∈ snapshot (late_host n) ∧
           ∀ x, x ∈ snapshot (late_host n) →
                RTT h ≤ RTT x ∧
                (RTT h = RTT x → f_lt (CapacityUsagePct x) (CapacityUsagePct h) = false)) ∨
     (ClosestWithCapacity (5 * Second) late_host = Err ErrHostNotFound ∧
      (seen_len (late_host n) ≠ 0%nat ∧ snapshot (late_host n) = [] ∨
       seen_len (late_host n) = 0%nat ∧ elapsed (late_host n) > 5 * Second))).
Proof.
  apply ClosestWithCapacity_least; [exact late_host_ticking|].
  intros i. unfold late_host. case_decide; simpl; repeat constructor.
Defined.

(** The length of the map is read before the lock is taken.  When the last
    host is removed in between, [Closest] indexes an empty slice and panics,
    where [ClosestWithCapacity] returns [ErrHostNotFound]. *)
Theorem Closest_race timeout env :
  seen_len (env 0%nat) ≠ 0%nat → snapshot (env 0%nat) = [] →
  Closest timeout env = Panic PanicIndex ∧
  ClosestWithCapacity timeout env = Err ErrHostNotFound.
Proof.
  intros Hl Hs. unfold Closest, ClosestWithCapacity.
  rewrite (loopM_stop _ (Closest_body _ _) _ _ (Panic PanicIndex, ())),
    (loopM_stop _ (ClosestWithCapacity_body _ _) _ _ (Err ErrHostNotFound, ())); [done|..];
    unfold loop_step, Closest_body, ClosestWithCapacity_body; simpl;
    rewrite bool_decide_eq_true_2 by lia; by rewrite Hs.
Qed.

Lemma Closest_race_witness :
  let env (_ : nat) := mkPoll 1 [] 0 in
  Closest Second env = Panic PanicIndex ∧ ClosestWithCapacity Second env = Err ErrHostNotFound.
Proof. by apply (Closest_race Second (λ _, mkPoll 1 [] 0)). Defined.

(** A history of [Set]s and [Remove]s keeps the map keyed by the ids of its
    hosts, so [Members] is the set of its keys; the first [Set] of an id wins
    and runs the callback once with the map already updated, whatever the
    callback returns; [Remove] forgets the id, and a later [Set] adds it again. *)
Theorem HostMap_history {S} (f : BlobCacheHost → M S ()) host (hs : hosts) (s : S) :
  hosts_wf hs →
  let '(hs1, s1) := (HostMap_Set (Some f) host (hs, s)).2 in
  let '(hs2, s2) := (HostMap_Remove host (hs1, s1)).2 in
  hosts_wf hs1 ∧ hosts_wf hs2 ∧
  Members hs1 = dom hs ∪ {[ HostId host ]} ∧ Members hs2 = dom hs ∖ {[ HostId host ]} ∧
  HostMap_Get hs1 (HostId host) = Some (default host (hs !! HostId host)) ∧
  HostMap_Get hs2 (HostId host) = None ∧
  s1 = (if decide (HostId host ∈ dom hs) then s else (f host s).2) ∧ s2 = s1.
Proof.
  intros Hwf. pose proof (HostMap_Set_wf (Some f) host (hs, s) Hwf) as Hwf1.
  destruct (hs !! HostId host) as [h|] eqn:E.
  - rewrite (HostMap_Set_present _ _ _ _ _ E) in *. simpl. rewrite HostMap_Remove_lookup. simpl.
    assert (HostId host ∈ dom hs) as Hin by (by apply elem_of_dom; eexists).
    split_and!; [done|by apply map_Forall_delete| | |done| | |done].
    + rewrite Members_dom by done. set_solver.
    + rewrite Members_dom by by apply map_Forall_delete. apply dom_delete_L.
    + apply lookup_delete_eq.
    + by rewrite decide_True.
  - rewrite (HostMap_Set_absent _ _ _ _ E) in *. rewrite HostMap_Remove_lookup. simpl in *.
    assert (HostId host ∉ dom hs) as Hout by by apply not_elem_of_dom.
    split_and!; [done|by apply map_Forall_delete| | | | | |done].
    + rewrite Members_dom by done. rewrite dom_insert_L. set_solver.
    + rewrite Members_dom by by apply map_Forall_delete. rewrite dom_delete_L, dom_insert_L. set_solver.
    + apply lookup_insert_eq.
    + apply lookup_delete_eq.
    + by rewrite decide_False.
Qed.

Lemma HostMap_history_witness :
  let host := mkHost 1 "a" "" "" f_zero in
  let '(hs1, s1) := (HostMap_Set (Some (λ _, throw ErrHostNotFound)) host (∅, 0)).2 in
  let '(hs2, s2) := (HostMap_Remove host (hs1, s1)).2 in
  hosts_wf hs1 ∧ hosts_wf hs2 ∧
  Members hs1 = dom (∅ : hosts) ∪ {[ "a" ]} ∧ Members hs2 = dom (∅ : hosts) ∖ {[ "a" ]} ∧
  HostMap_Get hs1 "a" = Some host ∧ HostMap_Get hs2 "a" = None ∧ s1 = 0 ∧ s2 = s1.
Proof.
  exact (HostMap_history (λ _, throw ErrHostNotFound) (mkHost 1 "a" "" "" f_zero) ∅ 0
    (map_Forall_empty _)).
Defined.
