(* ===== verification/Prefetcher.v ===== *)
(** * The read-ahead detector of [pkg/prefetcher.go]

    The state per hash, the queue of prefetch tasks, and the goroutines that
    [startPrefetch] has spawned and that have not run yet.  [time.Now] is an
    argument.  The workers, which read through the storage, are in
    [Storage.v]. *)

From S2P Require Import Prelude GoStrings Types.
Local Open Scope Z_scope.

(** ** Definitions *)

Definition prefetchAheadChunks : Z := 16.
Definition prefetchThresholdBytes : Z := 2 * 1024 * 1024.
Definition prefetchWorkers : Z := 4.
Definition prefetchCacheTime : Z := 30 * Second.
Definition workQueueCap : nat := 100.
Definition prefetchChunkSize : Z := 4 * 1024 * 1024.

Record PrefetchState : Type := mkState {
  lastOffset : Z; lastAccessTime : Z; sequential : bool; prefetching : bool;
}.

Record prefetchTask : Type := mkTask { t_hash : string; t_offset : Z; t_length : Z }.

#[export] Instance prefetchTask_eq_dec : EqDecision prefetchTask.
Proof. solve_decision. Defined.

Record Prefetcher : Type := mkPrefetcher {
  states : gmap string PrefetchState;
  workQueue : list prefetchTask;
  spawned : list (string * Z);
}.

Definition NewPrefetcher : Prefetcher := mkPrefetcher ∅ [] [].

Definition set_states (f : gmap string PrefetchState → gmap string PrefetchState) (pf : Prefetcher) :
    Prefetcher := mkPrefetcher (f (states pf)) (workQueue pf) (spawned pf).

(** The mutations of the [*PrefetchState] the map holds. *)
Definition set_sequential (b : bool) (s : PrefetchState) : PrefetchState :=
  mkState (lastOffset s) (lastAccessTime s) b (prefetching s).
Definition set_prefetching (b : bool) (s : PrefetchState) : PrefetchState :=
  mkState (lastOffset s) (lastAccessTime s) (sequential s) b.
Definition set_last (o t : Z) (s : PrefetchState) : PrefetchState :=
  mkState o t (sequential s) (prefetching s).

(** The synchronous part of [startPrefetch]: mark the state and spawn the
    goroutine; [pf.states[hash]] is dereferenced. *)
Definition startPrefetch (hash : string) (startOffset : Z) : M Prefetcher () :=
  pf ← get;
  match states pf !! hash with
  | None => gopanic PanicNil
  | Some state =>
      if prefetching state then mret tt
      else modify (λ pf, mkPrefetcher (alter (set_prefetching true) hash (states pf))
                           (workQueue pf) (spawned pf ++ [(hash, startOffset)]))
  end.

Definition is_sequential (state : PrefetchState) (offset : Z) : bool :=
  bool_decide (lastOffset state ≤ offset) &&
  bool_decide ((offset -! lastOffset state)%go ≤ prefetchThresholdBytes).

Definition OnRead (now : Z) (hash : string) (offset length : Z) : M Prefetcher () :=
  pf ← get;
  match states pf !! hash with
  | None => modify (set_states (insert hash (mkState offset now false false)))
  | Some state =>
      let isSequential := is_sequential state offset in
      (if isSequential && negb (sequential state) then
         modify (set_states (alter (set_sequential true) hash)) ≫= λ _,
         startPrefetch hash (offset +! length)%go
       else if isSequential && sequential state && negb (prefetching state) then
         startPrefetch hash (offset +! length)%go
       else if negb isSequential then
         modify (set_states (alter (set_sequential false) hash))
       else mret tt) ≫= λ _,
      modify (set_states (alter (set_last (offset +! length)%go now) hash))
  end.

(** The queue after the goroutine's loop: one task per chunk until the queue
    is full. *)
Fixpoint enqueue (n : nat) (i : Z) (hash : string) (startOffset : Z) (q : list prefetchTask) :
    list prefetchTask :=
  match n with
  | O => q
  | S n =>
      let offset := (startOffset +! (i *! prefetchChunkSize))%go in
      if bool_decide (length q < workQueueCap)%nat then
        enqueue n (i + 1) hash startOffset (q ++ [mkTask hash offset prefetchChunkSize])
      else q
  end.

(** The [i]-th spawned goroutine runs: [cancelled] tells after how many tasks it
    saw the context cancelled, if it did; its deferred function clears the
    flag. *)
Definition run_spawned (cancelled : option nat) (i : nat) (pf : Prefetcher) : Prefetcher :=
  match spawned pf !! i with
  | None => pf
  | Some (hash, startOffset) =>
      let turns := match cancelled with
                   | None => Z.to_nat prefetchAheadChunks
                   | Some k => k `min` Z.to_nat prefetchAheadChunks
                   end%nat in
      mkPrefetcher (alter (set_prefetching false) hash (states pf))
        (enqueue turns 0 hash startOffset (workQueue pf))
        (delete i (spawned pf))
  end.

(** A worker takes the oldest task. *)
Definition dequeue (pf : Prefetcher) : option prefetchTask * Prefetcher :=
  match workQueue pf with
  | [] => (None, pf)
  | t :: q => (Some t, mkPrefetcher (states pf) q (spawned pf))
  end.

Definition stale (now : Z) (s : PrefetchState) : Prop :=
  now - lastAccessTime s > prefetchCacheTime.

#[export] Instance stale_dec now s : Decision (stale now s).
Proof. unfold stale. apply _. Defined.

Definition cleanup (now : Z) : Prefetcher → Prefetcher :=
  set_states (filter (λ kv, ¬ stale now kv.2)).

(** ** The component as a transition system *)

Inductive event : Type :=
  | EvRead (now : Z) (hash : string) (offset length : Z)
  | EvRun (cancelled : option nat) (i : nat)
  | EvWork
  | EvCleanup (now : Z).

Definition exec (ev : event) (pf : Prefetcher) : Prefetcher :=
  match ev with
  | EvRead now hash offset length => (OnRead now hash offset length pf).2
  | EvRun d i => run_spawned d i pf
  | EvWork => (dequeue pf).2
  | EvCleanup now => cleanup now pf
  end.

Definition exec_all (evs : list event) (pf : Prefetcher) : Prefetcher := foldl (flip exec) pf evs.

Definition is_cleanup (ev : event) : bool := match ev with EvCleanup _ => true | _ => false end.

(** The queue holds at most the capacity of its channel, every task asks for
    one chunk. *)
Definition queue_ok (pf : Prefetcher) : Prop :=
  (length (workQueue pf) ≤ workQueueCap)%nat ∧
  Forall (λ t, t_length t = prefetchChunkSize) (workQueue pf).

(** A goroutine is running for a hash exactly when its state is marked, and
    there is at most one. *)
Definition single_flight (pf : Prefetcher) : Prop :=
  NoDup (map fst (spawned pf)) ∧
  ∀ h, h ∈ map fst (spawned pf) ↔ ∃ s, states pf !! h = Some s ∧ prefetching s = true.

(** ** Lemmas *)

Lemma enqueue_queue_ok n i hash o q :
  (length q ≤ workQueueCap)%nat → Forall (λ t, t_length t = prefetchChunkSize) q →
  (length (enqueue n i hash o q) ≤ workQueueCap)%nat ∧
  Forall (λ t, t_length t = prefetchChunkSize) (enqueue n i hash o q).
Proof.
  revert i q. induction n as [|n IH]; intros i q Hl Hq; simpl; [done|].
  case_bool_decide; [|done]. apply IH.
  - rewrite length_app. simpl. lia.
  - apply Forall_app. by repeat constructor.
Qed.

(** The tasks a goroutine adds: consecutive chunks, as many as fit. *)
Lemma enqueue_Forall (P : prefetchTask → Prop) n i hash o q :
  (∀ o, int64_range o → P (mkTask hash o prefetchChunkSize)) →
  Forall P q → Forall P (enqueue n i hash o q).
Proof.
  intros HP. revert i q. induction n as [|n IH]; intros i q Hq; simpl; [done|].
  case_bool_decide; [|done]. apply IH, Forall_app. split; [done|].
  constructor; [|done]. apply HP, wrap64_range.
Qed.

Lemma enqueue_tasks n i hash o q :
  (length q ≤ workQueueCap)%nat →
  enqueue n i hash o q =
  q ++ map (λ j, mkTask hash (wrap64 (o + wrap64 ((i + Z.of_nat j) * prefetchChunkSize))) prefetchChunkSize)
         (seq 0 (n `min` (workQueueCap - length q))).
Proof.
  revert i q. induction n as [|n IH]; intros i q Hl.
  - simpl. by rewrite app_nil_r.
  - simpl enqueue. case_bool_decide as Hc.
    + rewrite IH by (rewrite length_app; simpl; lia). rewrite <-(assoc_L (++)). f_equal.
      rewrite length_app. simpl length.
      replace (S n `min` (workQueueCap - length q))%nat
        with (S (n `min` (workQueueCap - (length q + 1))))%nat by lia.
      rewrite <-cons_seq, <-fmap_S_seq. simpl. rewrite Z.add_0_r. f_equal.
      rewrite <-(list_fmap_compose S). apply list_fmap_ext. intros j k _. simpl.
      do 5 f_equal. lia.
    + replace (workQueueCap - length q)%nat with 0%nat by lia.
      rewrite Nat.min_0_r. simpl. by rewrite app_nil_r.
Qed.

Lemma OnRead_queue now hash o l pf : workQueue (OnRead now hash o l pf).2 = workQueue pf.
Proof.
  unfold OnRead, startPrefetch, mbind, M_bind, get, modify. simpl.
  destruct (states pf !! hash) as [s|] eqn:Hs; [|done]. simpl.
  destruct (is_sequential s o), (sequential s) eqn:Es, (prefetching s) eqn:Ep; simpl;
    rewrite ?lookup_alter_eq, ?Hs; simpl; rewrite ?Ep, ?Hs; simpl; rewrite ?Ep; done.
Qed.

Lemma queue_ok_exec ev pf : queue_ok pf → queue_ok (exec ev pf).
Proof.
  intros [Hl Hq]. destruct ev as [now h o l|d i| |now]; simpl.
  - unfold queue_ok. by rewrite OnRead_queue.
  - unfold run_spawned. destruct (spawned pf !! i) as [[h o]|]; [|done].
    by apply enqueue_queue_ok.
  - unfold dequeue. destruct (workQueue pf) as [|t q] eqn:E; [by rewrite <-E in *|].
    apply Forall_cons in Hq as [_ Hq]. split; simpl in *; [lia|done].
  - done.
Qed.

Lemma queue_ok_exec_all evs pf : queue_ok pf → queue_ok (exec_all evs pf).
Proof.
  unfold exec_all. revert pf. induction evs as [|ev evs IH]; intros pf Hpf; [done|].
  simpl. apply IH. by apply queue_ok_exec.
Qed.

(** ** One read in closed form *)

(** The read starts a prefetch: it continues the pattern and none is running. *)
Definition starts (s : PrefetchState) (o : Z) : bool := is_sequential s o && negb (prefetching s).

(** The state of the hash after a read, the queue being untouched. *)
Definition after_read (now o l : Z) (s : PrefetchState) : PrefetchState :=
  mkState (wrap64 (o + l)) now (is_sequential s o) (prefetching s || starts s o).

Lemma OnRead_new now h o l pf :
  states pf !! h = None →
  OnRead now h o l pf = (Ok tt, set_states (insert h (mkState o now false false)) pf).
Proof. intros Hs. unfold OnRead, mbind, M_bind, get. simpl. by rewrite Hs. Qed.

Lemma OnRead_seen now h o l pf s :
  states pf !! h = Some s →
  OnRead now h o l pf =
  (Ok tt, mkPrefetcher (<[h := after_read now o l s]> (states pf)) (workQueue pf)
            (spawned pf ++ if starts s o then [(h, wrap64 (o + l))] else [])).
Proof.
  intros Hs. destruct pf as [m q sp]. simpl in Hs.
  unfold OnRead, startPrefetch, mbind, M_bind, get, modify, set_states, after_read, starts.
  simpl. rewrite Hs. simpl. destruct s as [lo lt sq pr].
  assert (∀ f : PrefetchState → PrefetchState, alter f h m = <[h := f (mkState lo lt sq pr)]> m) as Ha.
  { intros f. apply map_eq. intros k. rewrite lookup_alter, lookup_insert.
    case_decide; [subst; by rewrite Hs|done]. }
  destruct (is_sequential _ o), sq, pr; simpl; rewrite ?lookup_alter_eq, ?Hs; simpl;
    rewrite ?app_nil_r, ?Ha, ?alter_insert, ?decide_True by done; simpl;
    rewrite ?alter_insert, ?decide_True by done; simpl; reflexivity.
Qed.

(** ** One goroutine per hash *)

(** Both paths return. *)
Lemma OnRead_Ok now h o l pf : ∃ pf', OnRead now h o l pf = (Ok tt, pf').
Proof.
  destruct (states pf !! h) as [s|] eqn:Hs;
    [rewrite (OnRead_seen _ _ _ _ _ s Hs)|rewrite (OnRead_new _ _ _ _ _ Hs)]; eauto.
Qed.

Lemma single_flight_read now h o l pf :
  single_flight pf → single_flight (OnRead now h o l pf).2.
Proof.
  intros [Hn Hs]. destruct (states pf !! h) as [s|] eqn:Hh.
  - rewrite (OnRead_seen _ _ _ _ _ s Hh). simpl.
    assert (prefetching s = false → h ∉ map fst (spawned pf)) as Hout.
    { intros Hf Hin. apply Hs in Hin as (s' & Hs' & Hp). congruence. }
    split; simpl.
    + unfold starts. destruct (is_sequential s o), (prefetching s) eqn:Hp; simpl;
        rewrite ?app_nil_r; try done.
      rewrite map_app. simpl. apply NoDup_app. split_and!; [done| |apply NoDup_singleton].
      intros x Hx ->%list_elem_of_singleton. by apply Hout.
    + intros k. rewrite map_app, elem_of_app, Hs, lookup_insert.
      destruct (decide (h = k)) as [<-|Hk].
      * rewrite Hh, !exists_Some_eq. simpl.
        destruct (starts s o); simpl; rewrite ?list_elem_of_singleton, ?elem_of_nil;
          destruct (prefetching s); naive_solver.
      * destruct (starts s o); simpl; rewrite ?list_elem_of_singleton, ?elem_of_nil; naive_solver.
  - rewrite OnRead_new by done. split; [done|]. intros k. simpl.
    rewrite Hs, lookup_insert. case_decide; [|done]. subst k.
    rewrite Hh, exists_Some_eq. naive_solver.
Qed.

Lemma single_flight_run c i pf : single_flight pf → single_flight (run_spawned c i pf).
Proof.
  intros [Hn Hs]. unfold run_spawned. destruct (spawned pf !! i) as [[h o]|] eqn:Hi; [|done].
  assert (map fst (spawned pf) ≡ₚ h :: map fst (delete i (spawned pf))) as Hp
    by by rewrite (delete_Permutation _ _ _ Hi) at 1.
  rewrite Hp in Hn. apply NoDup_cons in Hn as [Hh Hn]. split; [done|]. simpl.
  intros k. rewrite lookup_alter. specialize (Hs k). rewrite Hp, elem_of_cons in Hs.
  case_decide as Hk.
  - subst k. split; [done|]. intros (s & Hs' & Hf). destruct (states pf !! h); naive_solver.
  - naive_solver.
Qed.

Lemma single_flight_exec ev pf :
  is_cleanup ev = false → single_flight pf → single_flight (exec ev pf).
Proof.
  intros Hc Hs. destruct ev as [now h o l|c i| |now]; simpl.
  - by apply single_flight_read.
  - by apply single_flight_run.
  - unfold dequeue. by destruct (workQueue pf).
  - done.
Qed.

Lemma single_flight_exec_all evs pf :
  Forall (λ ev, is_cleanup ev = false) evs → single_flight pf → single_flight (exec_all evs pf).
Proof.
  unfold exec_all. intros Hevs. revert pf. induction Hevs as [|ev evs Hev Hevs IH]; intros pf Hpf;
    [done|]. simpl. apply IH. by apply single_flight_exec.
Qed.

Lemma single_flight_init : single_flight NewPrefetcher.
Proof. split; [constructor|]. intros h. simpl. rewrite lookup_empty. set_solver. Qed.

Lemma queue_ok_init : queue_ok NewPrefetcher.
Proof. split; simpl; [unfold workQueueCap; lia|constructor]. Qed.

(** ** Properties *)

(** Whatever reads, goroutines, workers and cleanups run in any order, the
    work queue holds at most 100 tasks and each asks for one chunk of 4 MB. *)
Theorem prefetch_queue_bounded evs :
  let q := workQueue (exec_all evs NewPrefetcher) in
  (length q ≤ 100)%nat ∧ Forall (λ t, t_length t = 4 * 1024 * 1024) q.
Proof. apply (queue_ok_exec_all evs NewPrefetcher queue_ok_init). Qed.

(** C23: as long as no cleanup drops the state of a running prefetch, there is at
    most one prefetch goroutine per hash, and the flag [prefetching] of a hash is
    set exactly while one runs. *)
Theorem prefetch_single_flight evs :
  Forall (λ ev, is_cleanup ev = false) evs →
  let pf := exec_all evs NewPrefetcher in
  NoDup (map fst (spawned pf)) ∧
  ∀ h, h ∈ map fst (spawned pf) ↔ ∃ s, states pf !! h = Some s ∧ prefetching s = true.
Proof. intros Hevs. exact (single_flight_exec_all evs NewPrefetcher Hevs single_flight_init). Qed.

Lemma prefetch_single_flight_witness :
  let pf := exec_all [EvRead 0 "h" 0 10; EvRead 1 "h" 10 10; EvRead 2 "h" 20 10] NewPrefetcher in
  NoDup (map fst (spawned pf)) ∧
  ∀ h, h ∈ map fst (spawned pf) ↔ ∃ s, states pf !! h = Some s ∧ prefetching s = true.
Proof. apply prefetch_single_flight. by repeat constructor. Defined.

(** A cleanup between the start of a goroutine and its end: the next reads of
    the hash start a second goroutine while the first is running. *)
Example cleanup_breaks_single_flight :
  map fst (spawned (exec_all
    [EvRead 0 "h" 0 10; EvRead 1 "h" 10 10; EvCleanup (31 * Second);
     EvRead (32 * Second) "h" 0 10; EvRead (33 * Second) "h" 10 10] NewPrefetcher)) = ["h"; "h"].
Proof. by vm_compute. Qed.

#[local] Arguments enqueue : simpl never.

(** C30: a read that continues the last one, with no prefetch running, queues the
    next sixteen chunks in order from its end, as many as the queue has room
    for, and clears the flag when it is done. *)
Theorem prefetch_ahead now h o l pf s :
  states pf !! h = Some s → lastOffset s ≤ o ≤ lastOffset s + prefetchThresholdBytes →
  prefetching s = false → spawned pf = [] → (length (workQueue pf) ≤ workQueueCap)%nat →
  0 ≤ o → 0 ≤ l → o + l + 16 * prefetchChunkSize < 2 ^ 63 → 0 ≤ lastOffset s →
  let pf' := run_spawned None 0 (OnRead now h o l pf).2 in
  workQueue pf' = workQueue pf ++
    map (λ j, mkTask h (o + l + Z.of_nat j * prefetchChunkSize) prefetchChunkSize)
        (seq 0 (16 `min` (workQueueCap - length (workQueue pf)))) ∧
  states pf' !! h = Some (mkState (o + l) now true false) ∧ spawned pf' = [].
Proof.
  intros Hs Hseq Hp Hsp Hq Ho Hl Hov Hlast. unfold prefetchThresholdBytes in *.
  assert (starts s o = true) as Hst.
  { unfold starts, is_sequential. rewrite Hp, wrap64_id by (unfold int64_range; lia).
    rewrite !bool_decide_eq_true_2; [done|unfold prefetchThresholdBytes; lia..]. }
  assert (is_sequential s o = true) as Hsq by (unfold starts in Hst; by destruct (is_sequential s o)).
  assert (0 < prefetchChunkSize) as Hc by done.
  rewrite (OnRead_seen _ _ _ _ _ s Hs), Hst. cbv zeta. unfold run_spawned.
  rewrite Hsp. cbn [spawned app lookup list_lookup fst snd workQueue states delete list_delete].
  change (Z.to_nat prefetchAheadChunks) with 16%nat. split_and!; [| |done].
  - rewrite enqueue_tasks by done. f_equal. apply map_ext_in. intros j Hj%in_seq.
    assert (j < 16)%nat by lia. rewrite (wrap64_id (o + l)) by (unfold int64_range; lia).
    rewrite (wrap64_id ((0 + _) * _)) by (unfold int64_range; nia).
    rewrite wrap64_id by (unfold int64_range; nia). f_equal; lia.
  - rewrite lookup_alter_eq, lookup_insert_eq. simpl.
    unfold after_read, set_prefetching. simpl. rewrite (wrap64_id (o + l)) by (unfold int64_range; lia). by rewrite Hsq.
Qed.

Lemma prefetch_ahead_witness :
  let pf := exec_all [EvRead 0 "h" 0 10] NewPrefetcher in
  let pf' := run_spawned None 0 (OnRead 1 "h" 5 10 pf).2 in
  workQueue pf' = [] ++
    map (λ j, mkTask "h" (5 + 10 + Z.of_nat j * prefetchChunkSize) prefetchChunkSize)
        (seq 0 (16 `min` (workQueueCap - 0))) ∧
  states pf' !! "h" = Some (mkState (5 + 10) 1 true false) ∧ spawned pf' = [].
Proof.
  apply (prefetch_ahead 1 "h" 5 10 (exec_all [EvRead 0 "h" 0 10] NewPrefetcher)
    (mkState 0 0 false false)); try by vm_compute.
  all: vm_compute; lia.
Defined.
