(* ===== verification/Disk.v ===== *)
(** * The file system under the disk cache

    The operations of package [os] that the storage calls, over the files and
    directories they touch.  A system call can fail: [io] lists the outcomes of
    the calls to come (no entry means success), so a failed or cut-short write
    is an input of the model. *)

From S2P Require Import Prelude GoStrings GoPath FsID.

(** ** Definitions *)

Inductive io_outcome : Type :=
  | IoOk
  | IoErr
  | IoPartial (written : nat).

Record disk : Type := mkDisk {
  files : gmap string (list byte);
  dirs : gset string;
  io : list io_outcome;
}.

Definition io_error : error := ErrLib "os: input/output error".
Definition not_exist : error := ErrLib "os: file does not exist".

(** The outcome of the next call. *)
Definition next_io : M disk io_outcome := λ d,
  match io d with
  | [] => (Ok IoOk, d)
  | o :: os => (Ok o, mkDisk (files d) (dirs d) os)
  end.

(** The path and its ancestors. *)
Definition ancestors (p : string) : list string :=
  let l := split_on "/" p in map (λ k, join "/" (take k l)) (seq 1 (length l)).

Definition parent (p : string) : string :=
  let l := split_on "/" p in join "/" (take (length l - 1) l).

(** [os.MkdirAll] *)
Definition MkdirAll (p : string) : M disk () :=
  o ← next_io;
  match o with
  | IoOk =>
      d ← get;
      match files d !! p with
      | Some _ => throw (ErrLib "os: not a directory")
      | None => modify (λ d, mkDisk (files d) (dirs d ∪ list_to_set (ancestors p)) (io d))
      end
  | _ => throw io_error
  end.

(** [os.WriteFile] truncates the file before it writes: a write cut short
    leaves a prefix of the data. *)
Definition WriteFile (p : string) (data : list byte) : M disk () :=
  o ← next_io;
  d ← get;
  if bool_decide (parent p ∈ dirs d ∧ p ∉ dirs d) then
    match o with
    | IoOk => modify (λ d, mkDisk (<[p := data]> (files d)) (dirs d) (io d))
    | IoPartial n =>
        modify (λ d, mkDisk (<[p := take n data]> (files d)) (dirs d) (io d)) ≫= λ _,
        throw io_error
    | IoErr => throw io_error
    end
  else throw not_exist.

(** [os.Open], for its error only. *)
Definition OpenFile (p : string) : M disk () :=
  o ← next_io;
  d ← get;
  match o with
  | IoOk => match files d !! p with
            | Some _ => mret tt
            | None => if bool_decide (p ∈ dirs d) then mret tt else throw not_exist
            end
  | _ => throw io_error
  end.

(** [os.ReadFile] *)
Definition ReadFile (p : string) : M disk (list byte) :=
  o ← next_io;
  d ← get;
  match o with
  | IoOk => match files d !! p with
            | Some data => mret data
            | None => throw not_exist
            end
  | _ => throw io_error
  end.

(** [os.Stat(p)] and [IsDir]. *)
Definition StatIsDir (p : string) : M disk bool :=
  o ← next_io;
  d ← get;
  match o with
  | IoOk => if bool_decide (p ∈ dirs d) then mret true
            else match files d !! p with
                 | Some _ => mret false
                 | None => throw not_exist
                 end
  | _ => throw io_error
  end.

(** ** Lemmas *)

(** Only [WriteFile] changes the files, at its own path: to the data, or to a
    prefix when the write is cut short.  [Q] bounds the faults to come. *)
Definition disk_ok (P : string → list byte → Prop) (Q : io_outcome → Prop) (d : disk) : Prop :=
  map_Forall P (files d) ∧ Forall Q (io d).

Section files.
Context (P : string → list byte → Prop) (Q : io_outcome → Prop).
Abbreviation I := (disk_ok P Q).
Abbreviation any := (λ _ : error, I).

Lemma next_io_ok (E : error → disk → Prop) :
  triple I next_io (λ o d, I d ∧ (o = IoOk ∨ Q o)) E.
Proof.
  intros d Hd. unfold next_io. destruct Hd as [Hf Hq]. destruct (io d) as [|o os] eqn:E0.
  - split; [by split; [|rewrite E0]|by left].
  - apply Forall_cons in Hq as [? ?]. by split; [|right].
Qed.

Lemma MkdirAll_ok p : triple I (MkdirAll p) (λ _, I) any.
Proof.
  unfold MkdirAll. eapply triple_bind; [apply next_io_ok|]. intros [] d [Hd _]; [|done..].
  unfold mbind, M_bind, get. simpl. by destruct (files d !! p).
Qed.

Lemma OpenFile_ok p : triple I (OpenFile p) (λ _, I) any.
Proof.
  unfold OpenFile. eapply triple_bind; [apply next_io_ok|]. intros o d [Hd _].
  unfold mbind, M_bind, get. destruct o; [|done..].
  destruct (files d !! p); [done|]. by case_bool_decide.
Qed.

Lemma StatIsDir_ok p : triple I (StatIsDir p) (λ _, I) any.
Proof.
  unfold StatIsDir. eapply triple_bind; [apply next_io_ok|]. intros o d [Hd _].
  unfold mbind, M_bind, get. destruct o; [|done..].
  case_bool_decide; [done|]. by destruct (files d !! p).
Qed.

(** A read returns the bytes of a file. *)
Lemma ReadFile_ok p : triple I (ReadFile p) (λ data d, I d ∧ P p data) any.
Proof.
  unfold ReadFile. eapply triple_bind; [apply next_io_ok|]. intros o d [Hd _].
  unfold mbind, M_bind, get. destruct o; [|done..].
  destruct (files d !! p) as [data|] eqn:Hp; [|done]. split; [done|].
  destruct Hd as [Hf _]. by apply (Hf _ _ Hp).
Qed.

Lemma WriteFile_ok p data :
  P p data → (∀ n, Q (IoPartial n) → P p (take n data)) →
  triple I (WriteFile p data) (λ _ d, I d ∧ files d !! p = Some data) any.
Proof.
  intros Hp Hpre. unfold WriteFile. eapply triple_bind; [apply next_io_ok|].
  intros o d [[Hf Hq] Ho]. unfold mbind, M_bind, get. simpl.
  case_bool_decide; [|by split]. destruct o as [| |n]; simpl.
  - split; [|by rewrite lookup_insert_eq]. split; [|done]. by apply map_Forall_insert_2.
  - by split.
  - split; [|done]. apply map_Forall_insert_2; [|done]. destruct Ho as [|Ho]; [done|auto].
Qed.

End files.

(** What a read returns is what the file holds. *)
Lemma ReadFile_Ok p d data : (ReadFile p d).1 = Ok data → files d !! p = Some data.
Proof.
  unfold ReadFile, next_io, mbind, M_bind, get. destruct (io d) as [|[] os]; simpl; try done.
  - by destruct (files d !! p); intros [= <-].
  - by destruct (files d !! p); intros [= <-].
Qed.

(** With no fault to come, the outcomes are those of the files. *)
Lemma ReadFile_nofault p d :
  io d = [] →
  ReadFile p d = (match files d !! p with Some data => Ok data | None => Err not_exist end, d).
Proof.
  intros Hio. unfold ReadFile, next_io, mbind, M_bind, get. rewrite Hio. simpl.
  by destruct (files d !! p).
Qed.

Lemma OpenFile_nofault p d :
  io d = [] →
  (OpenFile p d).2 = d ∧
  (is_Some (files d !! p) → (OpenFile p d).1 = Ok tt) ∧ (∀ q, (OpenFile p d).1 ≠ Panic q).
Proof.
  intros Hio. unfold OpenFile, next_io, mbind, M_bind, get. rewrite Hio. simpl.
  destruct (files d !! p); [done|]. case_bool_decide; split_and!; try done; by intros [].
Qed.

Lemma WriteFile_nofault p data d :
  io d = [] →
  WriteFile p data d = (Ok tt, mkDisk (<[p := data]> (files d)) (dirs d) []) ∨
  WriteFile p data d = (Err not_exist, d).
Proof.
  intros Hio. unfold WriteFile, next_io, mbind, M_bind, get. rewrite Hio. simpl.
  case_bool_decide; [left|by right]. unfold modify. by rewrite Hio.
Qed.

Lemma MkdirAll_nofault p d :
  io d = [] →
  files (MkdirAll p d).2 = files d ∧ io (MkdirAll p d).2 = [] ∧ ∀ q, (MkdirAll p d).1 ≠ Panic q.
Proof.
  intros Hio. unfold MkdirAll, next_io, mbind, M_bind, get. rewrite Hio. simpl.
  by destruct (files d !! p).
Qed.
