(* ===== verification/Storage.v ===== *)
(** * The content-addressed storage of [pkg/storage.go]

    Pages of a content live in an in-memory cache (ristretto) and in files of
    the disk cache.  The in-memory cache is a library: the class [Ristretto]
    holds its operations, and [RistrettoLaws] what its documentation promises;
    it may forget any entry at any time.  The disk is [Disk.v]; [time.Now] and
    the time a read took are arguments. *)

From S2P Require Import Prelude GoStrings GoPath FsID GoFloat Types Disk BufferPool Prefetcher.
Local Open Scope Z_scope.

(** ** The in-memory cache *)

Record cacheValue : Type := mkValue { v_Hash : string; v_Content : list byte }.

(** The two Go types stored in the cache: a page, or the index of a content. *)
Inductive cache_item : Type :=
  | Chunk (v : cacheValue)
  | Index (chunks : string).

#[export] Instance cacheValue_eq_dec : EqDecision cacheValue.
Proof. solve_decision. Defined.
#[export] Instance cache_item_eq_dec : EqDecision cache_item.
Proof. solve_decision. Defined.

Class Ristretto (C : Type) : Type := {
  contents : C → gmap string cache_item;
  rc_get : string → C → option cache_item * C;
  rc_set : string → cache_item → Z → C → bool * C;
  rc_setttl : string → cache_item → Z → Z → C → bool * C;
  rc_getttl : string → C → bool * C;
  rc_resetttl : string → Z → C → C;
  rc_del : string → C → C;
}.

(** [contents]: what the cache holds, with the entries that are set and not yet
    visible, since [Set] is asynchronous.  The cache answers from it, or finds nothing;
    it never holds anything but what was set; an entry can vanish at any call
    (capacity, expiry, dropped [Set]). *)
Class RistrettoLaws (C : Type) `{Ristretto C} : Prop := {
  rc_get_value k c it : (rc_get k c).1 = Some it → contents c !! k = Some it;
  rc_get_sub k c : contents (rc_get k c).2 ⊆ contents c;
  rc_set_sub k v n c : contents (rc_set k v n c).2 ⊆ <[k := v]> (contents c);
  rc_setttl_sub k v n t c : contents (rc_setttl k v n t c).2 ⊆ <[k := v]> (contents c);
  rc_getttl_value k c : (rc_getttl k c).1 = true → is_Some (contents c !! k);
  rc_getttl_sub k c : contents (rc_getttl k c).2 ⊆ contents c;
  rc_resetttl_sub k t c : contents (rc_resetttl k t c) ⊆ contents c;
  rc_del_sub k c : contents (rc_del k c) ⊆ delete k (contents c);
}.

(** ** State *)

Record metrics : Type := mkMetrics {
  TotalReads : Z; L0Hits : Z; L1Hits : Z; L2Misses : Z;
  L0BytesServed : Z; L1BytesServed : Z;
  (** the [Update] calls on histograms, latest first *)
  observed : list (string * float64);
}.

Record CAS (C : Type) : Type := mkCAS {
  cache : C;
  disk_ : disk;
  diskCachedUsageExceeded : bool;
  prefetcher : Prefetcher;
  metrics_ : metrics;
}.
Arguments mkCAS {C} _ _ _ _ _.
Arguments cache {C} _.
Arguments disk_ {C} _.
Arguments diskCachedUsageExceeded {C} _.
Arguments prefetcher {C} _.
Arguments metrics_ {C} _.

(** [fmt.Sprintf("%s-%d", hash, chunkIdx)] *)
Definition mkChunkKey (hash : string) (chunkIdx : Z) : string :=
  hash +:+ "-" +:+ pretty chunkIdx.

(** [min] of [storage.go]. *)
Definition min (a b : Z) : Z := if bool_decide (a < b) then a else b.

(** [NewContentAddressableStorage]: its refusals, given the total memory in
    megabytes and what [ristretto.NewCache] returns for a maximal cost.  The
    disk-only mode drops the error of [NewCache]. *)
Definition NewContentAddressableStorage {C} (serverConfig : BlobCacheServerConfig)
    (totalMemoryMb : Z) (NewCache : Z → C * option error) (d : disk) : res (CAS C * Z) :=
  if bool_decide (PageSizeBytes serverConfig ≤ 0) then Err (ErrNew "invalid cache configuration")
  else
    let cas c := mkCAS c d false NewPrefetcher (mkMetrics 0 0 0 0 0 0 []) in
    if bool_decide (MaxCachePct serverConfig > 0) then
      let maxCacheSizeMb := ((totalMemoryMb *! MaxCachePct serverConfig) / 100)%go in
      let maxCost := (maxCacheSizeMb *! 1000000)%go in
      if bool_decide (maxCacheSizeMb ≤ 0) then Err (ErrNew "invalid memory limit")
      else match NewCache maxCost with
           | (c, None) => Ok (cas c, maxCacheSizeMb)
           | (_, Some e) => Err e
           end
    else Ok (cas (NewCache (1024 * 1024)).1, 0).

Section storage.
Context {C : Type} `{Ristretto C}.
Context (serverConfig : BlobCacheServerConfig).

Definition page : Z := PageSizeBytes serverConfig.
Definition diskCacheDir : string := DiskCacheDir serverConfig.
Definition ttl : Z := wrap64 (ObjectTtlS serverConfig * Second).

(** The fields of the state as places to run operations on. *)
Definition set_cache (c : C) (s : CAS C) : CAS C :=
  mkCAS c (disk_ s) (diskCachedUsageExceeded s) (prefetcher s) (metrics_ s).
Definition set_disk (d : disk) (s : CAS C) : CAS C :=
  mkCAS (cache s) d (diskCachedUsageExceeded s) (prefetcher s) (metrics_ s).
Definition set_exceeded (b : bool) (s : CAS C) : CAS C :=
  mkCAS (cache s) (disk_ s) b (prefetcher s) (metrics_ s).
Definition set_prefetcher (p : Prefetcher) (s : CAS C) : CAS C :=
  mkCAS (cache s) (disk_ s) (diskCachedUsageExceeded s) p (metrics_ s).
Definition set_metrics (m : metrics) (s : CAS C) : CAS C :=
  mkCAS (cache s) (disk_ s) (diskCachedUsageExceeded s) (prefetcher s) m.

Definition on_cache {A} (f : C → A * C) : M (CAS C) A :=
  zoom cache set_cache (λ c, let '(a, c') := f c in (Ok a, c')).
Definition on_disk {A} (m : M disk A) : M (CAS C) A := zoom disk_ set_disk m.
Definition on_metrics (f : metrics → metrics) : M (CAS C) () :=
  modify (λ s, set_metrics (f (metrics_ s)) s).

(** [fmt.Errorf("...: %w", err)] around a call. *)
Definition wrap_err {A} (msg : string) (m : M (CAS C) A) : M (CAS C) A :=
  r ← attempt m;
  match r with inl a => mret a | inr e => throw (ErrWrap msg e) end.

(** *** Add *)

(** One turn of the loop over the pages; the loop variables are [offset] and
    [chunkKeys]. *)
Definition Add_body (hash dirPath : string) (content : list byte) (x : Z * list string) :
    M (CAS C) (Z * list string + list string) :=
  let '(offset, chunkKeys) := x in
  let size := zlen content in
  if bool_decide (offset < size) then
    let chunkIdx := (offset / page)%go in
    let end0 := (offset +! page)%go in
    let end_ := if bool_decide (end0 > size) then size else end0 in
    chunk ← or_panic PanicSlice (slice content offset end_);
    let chunkKey := mkChunkKey hash chunkIdx in
    exceeded ← gets diskCachedUsageExceeded;
    (if exceeded : bool then mret tt
     else wrap_err "failed to write to disk cache"
            (on_disk (WriteFile (Join [dirPath; chunkKey]) chunk))) ≫= λ _,
    let next := ((offset +! page)%go, chunkKeys ++ [chunkKey]) in
    exists_ ← on_cache (rc_getttl chunkKey);
    if exists_ : bool then mret (inl next)
    else
      added ← on_cache (rc_set chunkKey (Chunk (mkValue hash chunk)) (zlen chunk));
      if added : bool then mret (inl next) else throw (ErrNew "unable to cache: set dropped")
  else mret (inr chunkKeys).

Definition Add (hash : string) (content : list byte) : M (CAS C) () :=
  let dirPath := Join [diskCacheDir; hash] in
  exceeded ← gets diskCachedUsageExceeded;
  (if exceeded : bool then mret tt
   else wrap_err "failed to create cache directory" (on_disk (MkdirAll dirPath))) ≫= λ _,
  chunkKeys ← loopM (Z.to_pos (zlen content + 2)) (Add_body hash dirPath content) (0, []);
  let chunks := join "," chunkKeys in
  added ← on_cache (rc_setttl hash (Index chunks) (Z.of_nat (String.length chunks)) ttl);
  if added : bool then mret tt else throw (ErrNew "unable to cache: set dropped").

(** *** Exists *)

Definition Exists (hash : string) : M (CAS C) bool :=
  exists_ ← on_cache (rc_getttl hash);
  if exists_ : bool then mret true
  else
    r ← attempt (on_disk (StatIsDir (Join [diskCacheDir; hash])));
    match r with inl isDir => mret isDir | inr _ => mret false end.

(** *** Get *)

Definition getFromDiskCache (hash chunkKey : string) : M (CAS C) cacheValue :=
  rawValue ← on_cache (rc_get chunkKey);
  match rawValue with
  | Some (Chunk v) => mret v
  | Some (Index _) => gopanic PanicType
  | None =>
      let chunkPath := Join [diskCacheDir; hash; chunkKey] in
      opened ← attempt (on_disk (OpenFile chunkPath));
      match opened with
      | inr _ => throw ErrContentNotFound
      | inl _ =>
          read ← attempt (on_disk (ReadFile chunkPath));
          match read with
          | inr _ => throw ErrContentNotFound
          | inl chunkBytes =>
              let value := mkValue hash chunkBytes in
              on_cache (rc_set chunkKey (Chunk value) (zlen chunkBytes)) ≫= λ _,
              mret value
          end
      end
  end.

Definition inc_total (m : metrics) : metrics :=
  mkMetrics (wrapU64 (TotalReads m + 1)) (L0Hits m) (L1Hits m) (L2Misses m)
    (L0BytesServed m) (L1BytesServed m) (observed m).
Definition inc_l0 (m : metrics) : metrics :=
  mkMetrics (TotalReads m) (wrapU64 (L0Hits m + 1)) (L1Hits m) (L2Misses m)
    (L0BytesServed m) (L1BytesServed m) (observed m).
Definition inc_l1 (m : metrics) : metrics :=
  mkMetrics (TotalReads m) (L0Hits m) (wrapU64 (L1Hits m + 1)) (L2Misses m)
    (L0BytesServed m) (L1BytesServed m) (observed m).
Definition inc_l2 (m : metrics) : metrics :=
  mkMetrics (TotalReads m) (L0Hits m) (L1Hits m) (wrapU64 (L2Misses m + 1))
    (L0BytesServed m) (L1BytesServed m) (observed m).
Definition add_served (fromMemory : bool) (n : Z) (m : metrics) : metrics :=
  mkMetrics (TotalReads m) (L0Hits m) (L1Hits m) (L2Misses m)
    (if fromMemory then wrapU64 (L0BytesServed m + n) else L0BytesServed m)
    (if fromMemory then L1BytesServed m else wrapU64 (L1BytesServed m + n)) (observed m).
Definition observe (name : string) (x : float64) (m : metrics) : metrics :=
  mkMetrics (TotalReads m) (L0Hits m) (L1Hits m) (L2Misses m)
    (L0BytesServed m) (L1BytesServed m) ((name, x) :: observed m).

Definition ratio_pct (n total : Z) : float64 :=
  f64_mul (f64_div (f64_of_Z n) (f64_of_Z total)) (f64_of_Z 100).

Definition updateHitRatios : M (CAS C) () :=
  on_metrics (λ m,
    let total := wrapU64 (L0Hits m + L1Hits m + L2Misses m) in
    if bool_decide (total > 0) then
      observe "blobcache_l2_miss_ratio" (ratio_pct (L2Misses m) total)
        (observe "blobcache_l1_hit_ratio" (ratio_pct (L1Hits m) total)
          (observe "blobcache_l0_hit_ratio" (ratio_pct (L0Hits m) total) m))
    else m).

(** [throughputMBps], the time being [us] microseconds. *)
Definition throughput (n us : Z) : float64 :=
  f64_div (f64_div (f64_of_Z n) (f64_of_Z (1024 * 1024)))
    (f64_div (f64_of_Z us) (f64_of_Z 1000000)).

(** The two-tier lookup of one page: [None] is the early return with
    [ErrContentNotFound]; the flag tells a memory hit. *)
Definition fetch (hash chunkKey : string) : M (CAS C) (option (cache_item * bool)) :=
  value ← on_cache (rc_get chunkKey);
  match value with
  | Some it => on_metrics inc_l0 ≫= λ _, mret (Some (it, true))
  | None =>
      r ← attempt (getFromDiskCache hash chunkKey);
      match r with
      | inr _ => on_metrics inc_l2 ≫= λ _, mret None
      | inl v => on_metrics inc_l1 ≫= λ _, mret (Some (Chunk v, false))
      end
  end.

(** The loop variables of [Get], and how it leaves: the error if any, the
    bytes written and the destination. *)
Record read_state : Type := mkRead {
  remainingLength : Z; o : Z; dstOffset : Z; dst_ : list byte;
}.
Record read_end : Type := mkEnd { r_err : option error; r_n : Z; r_dst : list byte }.

Definition invalid_boundaries : error := ErrNew "invalid chunk boundaries".
Definition unexpected_type : error := ErrNew "unexpected cache value type".

(** The rest of a turn of the loop, with the page that was found. *)
Definition Get_page (x : read_state) (got : option (cache_item * bool)) :
    M (CAS C) (read_state + read_end) :=
  let stop e := mret (inr (mkEnd e (dstOffset x) (dst_ x))) in
  match got with
  | None => stop (Some ErrContentNotFound)
  | Some (Index _, _) => stop (Some unexpected_type)
  | Some (Chunk v, fromMemory) =>
      let chunkBytes := v_Content v in
      let start := Z.rem (o x) page in
      let chunkRemaining := (zlen chunkBytes -! start)%go in
      if bool_decide (chunkRemaining ≤ 0) then stop None
      else
        let readLength := min (remainingLength x) chunkRemaining in
        let end_ := (start +! readLength)%go in
        if bool_decide (start < 0 ∨ end_ ≤ start ∨ end_ > zlen chunkBytes)
        then stop (Some invalid_boundaries)
        else
          src ← or_panic PanicSlice (slice chunkBytes start end_);
          or_panic PanicSlice (slice (dst_ x) (dstOffset x) (dstOffset x +! readLength)%go)
            ≫= λ _,
          on_metrics (add_served fromMemory readLength) ≫= λ _,
          mret (inl (mkRead (remainingLength x -! readLength)%go (o x +! readLength)%go
                       (dstOffset x +! readLength)%go
                       (splice (dst_ x) (dstOffset x) src)))
  end.

Definition Get_body (hash : string) (x : read_state) : M (CAS C) (read_state + read_end) :=
  if bool_decide (0 < remainingLength x) then
    got ← fetch hash (mkChunkKey hash (o x / page)%go);
    Get_page x got
  else mret (inr (mkEnd None (dstOffset x) (dst_ x))).

(** [Get] at time [now], taking [us] microseconds; it returns the number of
    bytes and the destination, whose list is the slice up to its capacity. *)
Definition Get (now us : Z) (hash : string) (offset length : Z) (dst : list byte) :
    M (CAS C) (Z * list byte) :=
  on_metrics inc_total ≫= λ _,
  zoom prefetcher set_prefetcher (OnRead now hash offset length) ≫= λ _,
  modify (λ s, set_cache (rc_resetttl hash ttl (cache s)) s) ≫= λ _,
  r ← loopM (Z.to_pos (length + 1)) (Get_body hash) (mkRead length offset 0 dst);
  (if bool_decide (r_n r > 0)
   then on_metrics (observe "blobcache_read_throughput_mbps" (throughput (r_n r) us))
   else mret tt) ≫= λ _,
  updateHitRatios ≫= λ _,
  match r_err r with
  | None => mret (r_n r, r_dst r)
  | Some e => throw e
  end.

(** *** Eviction *)

(** [onEvict]: [rc_get] on the index, then [Del] on every key it lists.  The
    type assertion [chunks.(string)] panics on a page. *)
Definition onEvict (item : cache_item) : M (CAS C) () :=
  chunkKeys ←
    match item with
    | Chunk v =>
        chunks ← on_cache (rc_get (v_Hash v));
        match chunks with
        | None => mret []
        | Some (Index s) => mret (split_on "," s)
        | Some (Chunk _) => gopanic PanicType
        end
    | Index s => mret (split_on "," s)
    end;
  forM chunkKeys (λ k, on_cache (λ c, (tt, rc_del k c))).

(** The hash that the eviction reports. *)
Definition evicted_hash (item : cache_item) : string :=
  match item with
  | Chunk v => v_Hash v
  | Index s => before "-" s
  end.

(** *** Disk usage *)

(** The bytes of the files that [filepath.Walk] meets under a directory. *)
Definition walk_bytes (dir : string) (d : disk) : Z :=
  map_fold (λ p data acc,
    if bool_decide (String.prefix (dir +:+ "/") p) then acc + zlen data else acc) 0 (files d).

Definition getDiskUsageMb (walk_err : option error) (dir : string) (d : disk) : res Z :=
  match walk_err with
  | Some e => Err e
  | None => Ok (walk_bytes dir d / (1024 * 1024))%go
  end.

(** [Statfs] gives the number of blocks and their size. *)
Definition getTotalDiskSpaceMb (statfs : res (Z * Z)) : res Z :=
  match statfs with
  | Ok (blocks, bsize) => Ok ((blocks *! bsize) / (1024 * 1024))%go
  | Err e => Err e
  | Panic p => Panic p
  end.

Definition usage_pct (diskUsageMb totalDiskSpaceMb : Z) : float64 :=
  if bool_decide (totalDiskSpaceMb > 0) then ratio_pct diskUsageMb totalDiskSpaceMb else f_zero.

Definition GetDiskCacheMetrics (walk_err : option error) (statfs : res (Z * Z)) (d : disk) :
    res (Z * Z * float64) :=
  match getDiskUsageMb walk_err diskCacheDir d with
  | Ok u =>
      match getTotalDiskSpaceMb statfs with
      | Ok t => Ok (u, t, usage_pct u t)
      | Err e => Err e
      | Panic p => Panic p
      end
  | Err e => Err e
  | Panic p => Panic p
  end.

(** One tick of [monitorDiskCacheUsage], given the memory of the host in
    megabytes. *)
Definition monitor_tick (walk_err : option error) (statfs : res (Z * Z))
    (availableMemoryMb totalMemoryMb : Z) : M (CAS C) () :=
  s ← get;
  match GetDiskCacheMetrics walk_err statfs (disk_ s) with
  | Ok (currentUsage, totalDiskSpace, usagePercentage) =>
      let usedMemoryMb := (totalMemoryMb -! availableMemoryMb)%go in
      on_metrics (λ m,
        observe "blobcache_disk_cache_usage_pct" usagePercentage
          (observe "blobcache_disk_cache_usage_mb" (f64_of_Z currentUsage)
            (observe "blobcache_mem_cache_usage_pct"
               (ratio_pct usedMemoryMb totalMemoryMb)
              (observe "blobcache_mem_cache_usage_mb" (f64_of_Z usedMemoryMb) m)))) ≫= λ _,
      modify (set_exceeded (f_gt usagePercentage (DiskCacheMaxUsagePct serverConfig)))
  | Err _ => mret tt
  | Panic p => gopanic p
  end.

(** *** Prefetch workers *)

(** One turn of [worker]: take a task, and read it when the content is known;
    the result of the read is dropped. *)
Definition worker (now us : Z) (pick : option nat) : M (CAS C * BufferPool) () :=
  t ← λ s, let '(t, pf) := dequeue (prefetcher s.1) in (Ok t, (set_prefetcher pf s.1, s.2));
  match t with
  | None => mret tt
  | Some task =>
      known ← zoom fst (λ c s, (c, s.2)) (Exists (t_hash task));
      if known : bool then
        dst ← zoom snd (λ b s, (s.1, b)) (BufferPool.Get pick (t_length task));
        ignore (zoom fst (λ c s, (c, s.2))
                  (Get now us (t_hash task) (t_offset task) (t_length task)
                     (replicate (Z.to_nat (cap dst)) x00))) ≫= λ _,
        zoom snd (λ b s, (s.1, b)) (BufferPool.Put (Some dst))
      else mret tt
  end.

End storage.
