(* ===== verification/StorageCorrect.v ===== *)
(** * Correctness of the content-addressed storage

    What the two tiers of [Storage.v] hold, as an invariant over any run of the
    storage: pages of the contents that were added, whole or cut short by a
    failed write, under their own keys.  From it: a read returns the bytes of
    the content and nothing else, an eviction takes all pages of its content,
    what was added can be read back. *)

From S2P Require Import Prelude GoStrings GoPath FsID GoFloat Types Disk BufferPool Prefetcher.
From S2P Require Import Storage.
Local Open Scope Z_scope.

(** ** Definitions *)

(** A content hash: a file name without the separators of the keys. *)
Definition valid_hash (h : string) : Prop :=
  plain_name h ∧ has_char "-" h = false ∧ has_char "," h = false.

Section spec.
Context {C : Type} `{Ristretto C}.
Context (cfg : BlobCacheServerConfig).
(** the contents ever added, by hash *)
Context (stored : gmap string (list byte)).
(** whether writes to the disk can be cut short *)
Context (cut : bool).

Definition valid_config : Prop := 0 < page cfg < 2 ^ 62 ∧ diskCacheDir cfg ≠ "".

Definition valid_stored : Prop :=
  map_Forall (λ h content, valid_hash h ∧ zlen content < 2 ^ 62) stored.

Definition num_pages (content : list byte) : Z := (zlen content + page cfg - 1) / page cfg.

Definition nth_page (content : list byte) (i : Z) : list byte :=
  take (Z.to_nat (page cfg)) (drop (Z.to_nat (i * page cfg)) content).

Definition chunk_path (h : string) (i : Z) : string :=
  Join [diskCacheDir cfg; h; mkChunkKey h i].

(** [data] is page [i] of the content of [h], or a prefix of it. *)
Definition page_of (h : string) (i : Z) (data : list byte) : Prop :=
  ∃ content, stored !! h = Some content ∧ 0 ≤ i ∧ i * page cfg < zlen content ∧
    data `prefix_of` nth_page content i ∧ (cut = false → data = nth_page content i).

Definition index_of (h : string) (content : list byte) : string :=
  join "," (map (mkChunkKey h) (seqZ 0 (num_pages content))).

Definition item_ok (k : string) (it : cache_item) : Prop :=
  match it with
  | Chunk v => ∃ i, k = mkChunkKey (v_Hash v) i ∧ page_of (v_Hash v) i (v_Content v)
  | Index s => ∃ content, stored !! k = Some content ∧ s = index_of k content
  end.

Definition file_ok (p : string) (data : list byte) : Prop :=
  ∃ h i, p = chunk_path h i ∧ page_of h i data.

Definition fault_ok (o : io_outcome) : Prop :=
  match o with IoPartial _ => cut = true | _ => True end.

Definition items_ok (c : C) : Prop := map_Forall item_ok (contents c).

Definition Inv (st : CAS C) : Prop :=
  items_ok (cache st) ∧ disk_ok file_ok fault_ok (disk_ st).

(** The content of a hash; nothing was ever added: no bytes. *)
Definition content_of (h : string) : list byte := default [] (stored !! h).

(** The destination once the first [n] bytes from [offset] were read into it. *)
Definition read_into (h : string) (offset n : Z) (dst : list byte) : list byte :=
  take (Z.to_nat n) (drop (Z.to_nat offset) (content_of h)) ++ drop (Z.to_nat n) dst.

End spec.

(** ** Keys and paths *)

Lemma mkChunkKey_inj h h' i j :
  has_char "-" h = false → has_char "-" h' = false →
  mkChunkKey h i = mkChunkKey h' j → h = h' ∧ i = j.
Proof.
  unfold mkChunkKey. intros Hh Hh' E.
  apply (app_sep_inj "-" h h' (pretty i) (pretty j)) in E as [-> E]; [|done..].
  split; [done|]. by apply (inj pretty).
Qed.

Lemma mkChunkKey_char c h i :
  has_char c h = false → is_digit c = false → c ≠ "-"%char →
  has_char c (mkChunkKey h i) = false.
Proof.
  intros Hh Hd Hc. unfold mkChunkKey. rewrite !has_char_app, Hh, pretty_Z_no_char by done.
  simpl. rewrite bool_decide_eq_false_2; [done|congruence].
Qed.

Lemma mkChunkKey_dash h i : has_char "-" (mkChunkKey h i) = true.
Proof. unfold mkChunkKey. rewrite !has_char_app. simpl. by rewrite orb_true_r. Qed.

Lemma valid_hash_key h i : valid_hash h → plain_name (mkChunkKey h i).
Proof.
  intros ((H1 & H2 & H3 & H4) & H5 & H6). pose proof (mkChunkKey_dash h i) as Hd.
  split_and!; [by intros E; rewrite E in Hd..|]. by apply mkChunkKey_char.
Qed.

Lemma chunk_path_inj cfg h h' i j :
  diskCacheDir cfg ≠ "" → valid_hash h → valid_hash h' →
  chunk_path cfg h i = chunk_path cfg h' j → h = h' ∧ i = j.
Proof.
  intros Hd Hh Hh' E.
  assert ([h; mkChunkKey h i] = [h'; mkChunkKey h' j]) as [= -> E'].
  { apply (Join_plain_inj (diskCacheDir cfg)); try done; repeat constructor;
      try apply Hh; try apply Hh'; try by apply valid_hash_key. }
  apply mkChunkKey_inj in E' as [_ ->]; [done|apply Hh'..].
Qed.

Lemma Join_dir_key cfg h i :
  diskCacheDir cfg ≠ "" → valid_hash h →
  Join [Join [diskCacheDir cfg; h]; mkChunkKey h i] = chunk_path cfg h i.
Proof.
  intros Hd Hh. apply (Join_Join _ [h] [_]); try done; repeat constructor;
    try apply Hh; by apply valid_hash_key.
Qed.

(** ** Operations on the caches *)

Section ops.
Context {C : Type} `{RC : Ristretto C} {RL : RistrettoLaws C}.
Context (cfg : BlobCacheServerConfig) (stored : gmap string (list byte)) (cut : bool).
Context (Hcfg : valid_config cfg) (Hstored : valid_stored stored).

Abbreviation items_ok := (items_ok cfg stored cut).
Abbreviation page_of := (page_of cfg stored cut).
Abbreviation file_ok := (file_ok cfg stored cut).

(** Good items in memory, and [D] of the disk. *)
Definition InvD (D : disk → Prop) (st : CAS C) : Prop := items_ok (cache st) ∧ D (disk_ st).

Lemma page_of_valid h i data : page_of h i data → valid_hash h.
Proof. intros (content & Hc & _). by apply (Hstored _ _ Hc). Qed.

Lemma items_ok_sub c c' : contents c' ⊆ contents c → items_ok c → items_ok c'.
Proof. intros Hsub Hc k it Hk. apply Hc. by eapply lookup_weaken. Qed.

Lemma items_ok_insert c c' k it :
  contents c' ⊆ <[k := it]> (contents c) → item_ok cfg stored cut k it →
  items_ok c → items_ok c'.
Proof.
  intros Hsub Hit Hc k' it' Hk'. eapply lookup_weaken in Hk'; [|done].
  by apply (map_Forall_insert_2 (M:=gmap string) (item_ok cfg stored cut) _ k it) in Hk'.
Qed.

Lemma on_cache_ok {A} D (f : C → A * C) (Q : A → Prop) E :
  (∀ c, items_ok c → items_ok (f c).2 ∧ Q (f c).1) →
  triple (InvD D) (on_cache f) (λ a st, InvD D st ∧ Q a) E.
Proof.
  intros Hf s [Hc HD]. unfold on_cache, zoom. specialize (Hf _ Hc).
  destruct (f (cache s)) as [a c']. by destruct Hf.
Qed.

Lemma on_disk_ok {A} D (m : M disk A) Q E :
  triple D m Q E →
  triple (InvD D) (on_disk m) (λ a, InvD (Q a)) (λ e, InvD (E e)).
Proof.
  intros Hm. eapply triple_zoom; [done| | |]; unfold InvD; simpl; naive_solver.
Qed.

Lemma on_metrics_ok D f E : triple (InvD D) (on_metrics f) (λ _, InvD D) E.
Proof. by apply triple_modify. Qed.

Lemma rc_get_ok D k E :
  triple (InvD D) (on_cache (rc_get k))
    (λ o st, InvD D st ∧ ∀ it, o = Some it → item_ok cfg stored cut k it) E.
Proof.
  apply (on_cache_ok D (rc_get k)
           (λ o, ∀ it, o = Some it → item_ok cfg stored cut k it)).
  intros c Hc. split; [eapply items_ok_sub; [apply rc_get_sub|done]|].
  intros it Hit%rc_get_value. by apply Hc.
Qed.

Lemma rc_getttl_ok D k E : triple (InvD D) (on_cache (rc_getttl k)) (λ _, InvD D) E.
Proof.
  eapply triple_conseq; [apply (on_cache_ok D _ (λ _, True))|done|by intros ?? []|done].
  intros c Hc. split; [|done]. eapply items_ok_sub; [apply rc_getttl_sub|done].
Qed.

Lemma rc_set_ok D k it n E :
  item_ok cfg stored cut k it → triple (InvD D) (on_cache (rc_set k it n)) (λ _, InvD D) E.
Proof.
  intros Hit. eapply triple_conseq; [apply (on_cache_ok D _ (λ _, True))|done|by intros ?? []|done].
  intros c Hc. split; [|done]. eapply items_ok_insert; [apply rc_set_sub|done..].
Qed.

Lemma rc_setttl_ok D k it n t E :
  item_ok cfg stored cut k it → triple (InvD D) (on_cache (rc_setttl k it n t)) (λ _, InvD D) E.
Proof.
  intros Hit. eapply triple_conseq; [apply (on_cache_ok D _ (λ _, True))|done|by intros ?? []|done].
  intros c Hc. split; [|done]. eapply items_ok_insert; [apply rc_setttl_sub|done..].
Qed.

Lemma rc_del_ok D k E : triple (InvD D) (on_cache (λ c, (tt, rc_del k c))) (λ _, InvD D) E.
Proof.
  eapply triple_conseq; [apply (on_cache_ok D _ (λ _, True))|done|by intros ?? []|done].
  intros c Hc. split; [|done]. eapply items_ok_sub; [|done]. simpl.
  etrans; [apply rc_del_sub|apply delete_subseteq].
Qed.

(** ** The lookup of a page *)

Lemma file_ok_page h i data : valid_hash h → file_ok (chunk_path cfg h i) data → page_of h i data.
Proof.
  intros Hh (h' & j & E & Hp). pose proof (page_of_valid _ _ _ Hp) as Hh'.
  by apply chunk_path_inj in E as [<- <-]; [|apply Hcfg|..].
Qed.

Lemma item_ok_key h i it :
  valid_hash h → item_ok cfg stored cut (mkChunkKey h i) it →
  ∃ data, it = Chunk (mkValue h data) ∧ page_of h i data.
Proof.
  intros Hh Hit. destruct it as [v|s].
  - destruct Hit as (j & E & Hp). pose proof (page_of_valid _ _ _ Hp) as Hh'.
    apply mkChunkKey_inj in E as [-> ->]; [|apply Hh|apply Hh'].
    by exists (v_Content v); destruct v.
  - destruct Hit as (content & Hs & _). destruct (Hstored _ _ Hs) as [(_&Hd&_) _].
    by rewrite mkChunkKey_dash in Hd.
Qed.

Section fetch.
Context (D : disk → Prop) (h : string) (i : Z) (miss : Prop).
Abbreviation path := (chunk_path cfg h i).
Context (Hh : valid_hash h).
Context (Hopen : triple D (OpenFile path) (λ _, D) (λ _ d, D d ∧ miss)).
Context (Hread : triple D (ReadFile path) (λ data d, D d ∧ file_ok path data)
                   (λ _ d, D d ∧ miss)).

Lemma getFromDiskCache_ok :
  triple (InvD D) (getFromDiskCache cfg h (mkChunkKey h i))
    (λ v st, InvD D st ∧ v_Hash v = h ∧ page_of h i (v_Content v))
    (λ e st, InvD D st ∧ e = ErrContentNotFound ∧ miss).
Proof.
  unfold getFromDiskCache. eapply triple_bind_pure; [apply rc_get_ok|].
  intros [it|] Hit.
  { destruct (item_ok_key h i it Hh (Hit it eq_refl)) as (data & -> & Hp). by apply triple_ret. }
  apply (triple_bind_attempt _ (InvD D) _ _ (λ _, True) (λ _, miss)).
  { eapply triple_conseq; [apply (on_disk_ok D _ _ _ Hopen)|..]; unfold InvD; naive_solver. }
  2: { intros e Hm. by apply triple_throw. }
  intros _ _.
  apply (triple_bind_attempt _ (InvD D) _ _ (λ d, file_ok path d) (λ _, miss)).
  { eapply triple_conseq; [apply (on_disk_ok D _ _ _ Hread)|..]; unfold InvD; naive_solver. }
  2: { intros e Hm. by apply triple_throw. }
  intros data Hf%file_ok_page; [|done]. eapply triple_bind.
  { apply rc_set_ok. exists i. by split. }
  intros b. by apply triple_ret.
Qed.

Lemma fetch_ok E :
  triple (InvD D) (fetch cfg h (mkChunkKey h i))
    (λ r st, InvD D st ∧
       match r with
       | None => miss
       | Some (it, _) => ∃ data, it = Chunk (mkValue h data) ∧ page_of h i data
       end) E.
Proof.
  unfold fetch. eapply triple_bind_pure; [apply rc_get_ok|].
  intros [it|] Hit.
  { destruct (item_ok_key h i it Hh (Hit it eq_refl)) as (data & -> & Hp).
    eapply triple_bind; [apply on_metrics_ok|]. intros ?. apply triple_ret. eauto. }
  apply (triple_bind_attempt _ (InvD D) _ _
    (λ v, v_Hash v = h ∧ page_of h i (v_Content v)) (λ _, miss)).
  { eapply triple_conseq; [apply getFromDiskCache_ok|done|naive_solver..]. }
  - intros v [Hv Hp]. eapply triple_bind; [apply on_metrics_ok|]. intros ?. apply triple_ret.
    intros st HI. split; [done|]. exists (v_Content v). rewrite <-Hv at 1. by destruct v.
  - intros e Hm. eapply triple_bind; [apply on_metrics_ok|]. intros ?. by apply triple_ret.
Qed.

End fetch.

(** ** The read loop *)

Lemma page_slice content i data r n :
  data `prefix_of` nth_page cfg content i → 0 ≤ i → 0 ≤ r → 0 < n → r + n ≤ zlen data →
  take (Z.to_nat n) (drop (Z.to_nat r) data) =
    take (Z.to_nat n) (drop (Z.to_nat (i * page cfg + r)) content) ∧
  i * page cfg + r + n ≤ zlen content.
Proof.
  destruct Hcfg as [Hpg _]. intros [k Hk] Hi Hr Hn Hlen. unfold nth_page in Hk.
  set (L := drop (Z.to_nat (i * page cfg)) content) in *.
  assert (length data ≤ length (take (Z.to_nat (page cfg)) L))%nat as Hl
    by (rewrite Hk, length_app; lia).
  rewrite length_take in Hl. unfold zlen in *.
  assert (data = take (length data) L) as Hd.
  { rewrite <-(take_app_length data k) at 1. rewrite <-Hk, take_take. f_equal. lia. }
  split.
  - rewrite !take_drop_commute, Hd, take_take.
    replace (Z.to_nat (i * page cfg + r)) with (Z.to_nat (i * page cfg) + Z.to_nat r)%nat by lia.
    rewrite <-take_drop_commute, <-drop_drop. fold L. rewrite take_drop_commute. do 2 f_equal. lia.
  - assert (length L = length content - Z.to_nat (i * page cfg))%nat as HL
      by (unfold L; by rewrite length_drop). lia.
Qed.

Lemma page_prefix_length content i data :
  data `prefix_of` nth_page cfg content i → zlen data ≤ page cfg.
Proof.
  destruct Hcfg as [Hpg _]. intros [k Hk]. apply (f_equal length) in Hk. unfold nth_page in Hk.
  rewrite length_app, length_take in Hk. unfold zlen. lia.
Qed.

Lemma read_into_step h offset n m dst :
  0 ≤ n → 0 ≤ m → 0 ≤ offset → offset + n + m ≤ zlen (content_of stored h) →
  splice (read_into stored h offset n dst) n
    (take (Z.to_nat m) (drop (Z.to_nat (offset + n)) (content_of stored h))) =
  read_into stored h offset (n + m) dst.
Proof.
  unfold zlen. intros Hn Hm Ho Hl. unfold splice, read_into.
  set (c := content_of stored h) in *.
  assert (length (take (Z.to_nat n) (drop (Z.to_nat offset) c)) = Z.to_nat n) as HP
    by (rewrite length_take, length_drop; lia).
  rewrite take_app_length' by done.
  rewrite drop_app_ge by lia. rewrite HP, length_take, length_drop, drop_drop.
  replace (Z.to_nat (offset + n)) with (Z.to_nat offset + Z.to_nat n)%nat by lia.
  rewrite (assoc_L (++)), take_drop_split.
  replace (Z.to_nat (n + m)) with (Z.to_nat n + Z.to_nat m)%nat by lia.
  do 2 f_equal. lia.
Qed.

Lemma read_into_length h offset n dst :
  0 ≤ n ≤ zlen dst → (0 < n → 0 ≤ offset ∧ offset + n ≤ zlen (content_of stored h)) →
  zlen (read_into stored h offset n dst) = zlen dst.
Proof.
  unfold zlen, read_into. intros Hn Ho. rewrite length_app, length_take, !length_drop.
  destruct (decide (0 < n)); lia.
Qed.

Section get.
Context (D : disk → Prop) (h : string) (miss : Z → Prop) (Hh : valid_hash h).
Context (Hopen : ∀ i, triple D (OpenFile (chunk_path cfg h i)) (λ _, D) (λ _ d, D d ∧ miss i)).
Context (Hread : ∀ i, triple D (ReadFile (chunk_path cfg h i))
                        (λ data d, D d ∧ file_ok (chunk_path cfg h i) data)
                        (λ _ d, D d ∧ miss i)).
Context (offset len : Z) (dst : list byte) (Hoff : int64_range offset) (Hlen64 : int64_range len).
Context (Hlen : len ≤ zlen dst).
Abbreviation content := (content_of stored h).

(** The first [n] bytes from [offset] are read. *)
Definition did_read (n : Z) (dst' : list byte) : Prop :=
  0 ≤ n ≤ Z.max 0 len ∧ dst' = read_into stored h offset n dst ∧
  (0 < n → 0 ≤ offset ∧ offset + n ≤ zlen content).

Definition read_ok (x : read_state) : Prop :=
  did_read (dstOffset x) (dst_ x) ∧
  o x = offset + dstOffset x ∧ remainingLength x = len - dstOffset x.

(** How the loop ends. *)
Definition end_ok (r : read_end) : Prop :=
  did_read (r_n r) (r_dst r) ∧
  match r_err r with
  | None =>
      (0 < len → 0 ≤ offset) ∧
      (r_n r < len →
        Z.quot (offset + r_n r) (page cfg) * page cfg < zlen content ∧
        (cut = false → zlen content ≤ offset + r_n r))
  | Some e =>
      r_n r < len ∧
      (e = ErrContentNotFound ∧ miss (Z.quot (offset + r_n r) (page cfg)) ∨
       offset < 0 ∧ e = invalid_boundaries)
  end.

Lemma content_small : zlen content < 2 ^ 62.
Proof.
  unfold content_of. destruct (stored !! h) as [c|] eqn:E; [|unfold zlen; simpl; lia].
  by apply (Hstored _ _ E).
Qed.

(** What [fetch] may answer for the page that the loop is at. *)
Definition got_ok (x : read_state) (got : option (cache_item * bool)) : Prop :=
  let i := Z.quot (o x) (page cfg) in
  match got with
  | None => miss i
  | Some (it, _) => ∃ data, it = Chunk (mkValue h data) ∧ page_of h i data
  end.

(** The next loop variables, or how the loop ends. *)
Definition turn_ok (x : read_state) (r : read_state + read_end) : Prop :=
  match r with
  | inl x' => read_ok x' ∧ 0 ≤ Z.max 0 (remainingLength x') < Z.max 0 (remainingLength x)
  | inr r => end_ok r
  end.

Lemma Get_page_ok x got E :
  read_ok x → 0 < remainingLength x → got_ok x got →
  triple (InvD D) (Get_page cfg x got) (λ r st, InvD D st ∧ turn_ok x r) E.
Proof.
  intros (Hdid & Ho & Hrem) Hpos Hgot. pose proof Hdid as (Hn & Hdst & Hin).
  unfold got_ok in Hgot. destruct Hcfg as [Hpg _].
  pose proof (Z.quot_rem' (o x) (page cfg)) as Hqr.
  set (i := Z.quot (o x) (page cfg)) in *. unfold Get_page.
  set (start := Z.rem (o x) (page cfg)) in *.
  destruct got as [[it fromMemory]|].
  2: { apply triple_ret. intros st HI. split; [done|]. split; [done|]. simpl.
       split; [lia|]. left. by rewrite <-Ho. }
  destruct Hgot as (data & -> & (c & Hc & Hi & Hin_c & Hpre & Hfull)). simpl.
  assert (content = c) as Ec by (unfold content_of; by rewrite Hc).
  pose proof content_small as Hsmall. rewrite Ec in *.
  pose proof (zlen_nonneg data). pose proof (zlen_nonneg c).
  pose proof (page_prefix_length c i data Hpre) as Hdp.
  assert (- page cfg < start < page cfg ∧ (0 ≤ o x → 0 ≤ start) ∧ (o x < 0 → i = 0 ∧ start < 0))
    as (Hst & Hst0 & Hneg).
  { destruct (decide (0 ≤ o x)).
    - pose proof (Z.rem_bound_pos (o x) (page cfg)) as Hb. fold start in Hb. lia.
    - pose proof (Z.rem_bound_pos_neg (o x) (page cfg)) as Hb. fold start in Hb.
      split_and!; [lia..|nia]. }
  rewrite (wrap64_id (zlen data - start)) by (unfold int64_range; lia).
  case_bool_decide as Hrest.
  { apply triple_ret. intros st HI. split; [done|]. split; [done|]. simpl.
    split; [lia|]. intros Hlt. rewrite <-Ho, Ec. split; [done|]. intros Hcut. specialize (Hfull Hcut). rewrite Hfull in Hrest.
    unfold nth_page, zlen in *. rewrite length_take, length_drop in Hrest.
    rewrite Z.mul_comm in Hqr. assert (0 ≤ i * page cfg) by nia. lia. }
  set (rl := min (remainingLength x) (zlen data - start)).
  assert (0 < rl ∧ rl ≤ remainingLength x ∧ rl ≤ zlen data - start) as (Hr1 & Hr2 & Hr3)
    by (unfold rl, min; case_bool_decide; lia).
  rewrite (wrap64_id (start + rl)) by (unfold int64_range; lia).
  case_bool_decide as Hbd.
  { apply triple_ret. intros st HI. split; [done|]. split; [done|]. simpl.
    split; [lia|]. right. split; [lia|done]. }
  destruct (page_slice c i data start rl) as [Hsl Hin']; [done|lia..|].
  eapply (triple_bind_pure _ (InvD D) _ _
            (eq (take (Z.to_nat rl) (drop (Z.to_nat (o x)) c)))).
  { apply triple_or_panic. intros st HI. eexists. rewrite slice_Some by lia. split; [done|].
    split; [done|]. replace (start + rl - start) with rl by lia. rewrite Hsl. do 3 f_equal. lia. }
  intros src <-. assert (0 ≤ o x ∧ 0 ≤ start) as [Ho0 Hs0] by lia.
  rewrite (wrap64_id (dstOffset x + rl)) by (unfold int64_range; lia).
  eapply triple_bind.
  { apply (triple_or_panic _ _ _ (λ _, InvD D)). intros st HI. eexists. split; [|done].
    apply slice_Some; [lia|]. rewrite Hdst, read_into_length; [lia|lia|by rewrite Ec]. }
  intros ?. eapply triple_bind; [apply on_metrics_ok|]. intros ?. apply triple_ret.
  intros st HI. split; [done|]. unfold turn_ok, read_ok. simpl.
  rewrite (wrap64_id (remainingLength x - rl)), (wrap64_id (o x + rl))
    by (unfold int64_range in *; lia).
  repeat split; simpl; rewrite ?Ec; try lia.
  rewrite Hdst, Ho, <-Ec. apply read_into_step; rewrite ?Ec; lia.
Qed.

(** Nothing is left to read. *)
Lemma read_all_ok x : read_ok x → ¬ 0 < remainingLength x → end_ok (mkEnd None (dstOffset x) (dst_ x)).
Proof. intros (Hdid & Ho & Hrem) Hpos. split; [done|]. destruct Hdid. simpl. split; lia. Qed.

Lemma Get_body_ok x E :
  read_ok x → triple (InvD D) (Get_body cfg h x) (λ r st, InvD D st ∧ turn_ok x r) E.
Proof.
  intros Hx. unfold Get_body. case_bool_decide as Hpos.
  - eapply triple_bind_pure; [by apply fetch_ok|]. intros got Hgot. by apply Get_page_ok.
  - apply triple_ret. intros st HI. split; [done|]. by apply read_all_ok.
Qed.

(** What [Get] returns. *)
Lemma Get_ok now us :
  triple (InvD D) (Get cfg now us h offset len dst)
    (λ r st, InvD D st ∧ end_ok (mkEnd None r.1 r.2))
    (λ e st, InvD D st ∧ ∃ n dst', end_ok (mkEnd (Some e) n dst')).
Proof.
  unfold Get. eapply triple_bind; [apply on_metrics_ok|]. intros ?.
  apply (triple_bind _ _ _ (λ _, InvD D)).
  { intros st HI. unfold zoom. destruct (OnRead_Ok now h offset len (prefetcher st)) as [pf ->].
    exact HI. }
  intros ?. apply (triple_bind _ _ _ (λ _, InvD D)).
  { apply triple_modify. intros st [HI HD]. split; [|done]. simpl.
    eapply items_ok_sub; [apply rc_resetttl_sub|done]. }
  intros ?. eapply (triple_bind_pure _ (InvD D) _ _ end_ok).
  { apply (triple_loopM _ _ _ (λ x st, InvD D st ∧ read_ok x)
             (λ x, Z.max 0 (remainingLength x))).
    - intros x. apply triple_pure. intros Hx.
      intros st HI. pose proof (Get_body_ok x (λ _ _, False) Hx st HI) as Hb.
      destruct (Get_body cfg h x st) as [[[x'|r]|e|p] st']; naive_solver.
    - intros st HI. split; [done|]. repeat split; simpl in *; try lia; done.
    - simpl. lia. }
  intros r Hr. apply (triple_bind _ _ _ (λ _, InvD D)).
  { case_bool_decide; [apply on_metrics_ok|by apply triple_ret]. }
  intros ?. eapply triple_bind; [apply on_metrics_ok|]. intros ?.
  destruct r as [[e|] n d]; simpl.
  - apply triple_throw. eauto.
  - by apply triple_ret.
Qed.

End get.

(** ** Add *)

Lemma num_pages_spec content k :
  0 ≤ k → (k = 0 ∨ (k - 1) * page cfg < zlen content) → zlen content ≤ k * page cfg →
  k = num_pages cfg content.
Proof.
  destruct Hcfg as [Hpg _]. pose proof (zlen_nonneg content). intros Hk Hlo Hhi.
  unfold num_pages. apply (Z.div_unique_pos _ _ k (zlen content + page cfg - 1 - k * page cfg)); nia.
Qed.

Lemma num_pages_lt content i :
  0 ≤ i → i < num_pages cfg content ↔ i * page cfg < zlen content.
Proof.
  destruct Hcfg as [Hpg _]. intros Hi. unfold num_pages.
  pose proof (Z.div_mod (zlen content + page cfg - 1) (page cfg)) as Hd.
  pose proof (Z.mod_pos_bound (zlen content + page cfg - 1) (page cfg)). nia.
Qed.

(** The page that a turn of the loop of [Add] cuts out, and the keys so far. *)
Lemma add_slice content k :
  zlen content < 2 ^ 62 → 0 ≤ k → k * page cfg < zlen content →
  slice content (k * page cfg)
    (if bool_decide ((k * page cfg +! page cfg)%go > zlen content) then zlen content
     else (k * page cfg +! page cfg)%go) = Some (nth_page cfg content k).
Proof.
  destruct Hcfg as [Hpg _]. intros Hsz Hk Hlt. rewrite wrap64_id by (unfold int64_range; nia).
  rewrite slice_Some by (case_bool_decide; nia). f_equal. unfold nth_page.
  case_bool_decide; [|do 2 f_equal; lia].
  rewrite !(take_ge (drop _ content)) by (rewrite length_drop; unfold zlen in *; lia). done.
Qed.

Lemma keys_snoc h k :
  0 ≤ k → map (mkChunkKey h) (seqZ 0 k) ++ [mkChunkKey h k] = map (mkChunkKey h) (seqZ 0 (k + 1)).
Proof. intros Hk. rewrite seqZ_app, map_app by lia. by rewrite (seqZ_cons (0 + k) 1). Qed.

Section add.
Context (D : Z → disk → Prop) (Dpre Dend : disk → Prop) (h : string) (content : list byte).
Context (ex : bool) (Hh : stored !! h = Some content).
Context (Hend : ∀ k d, D k d → Dend d).
Context (Hskip : ex = true → (∀ d, Dpre d → D 0 d) ∧ ∀ k d, D k d → D (k + 1) d).
Context (Hdir : ex = false → ∀ p, triple Dpre (MkdirAll p) (λ _, D 0) (λ _, Dend)).
Context (Hwrite : ex = false → ∀ k, 0 ≤ k → k * page cfg < zlen content →
  triple (D k) (WriteFile (chunk_path cfg h k) (nth_page cfg content k))
    (λ _, D (k + 1)) (λ _, Dend)).

Definition InvX (D : disk → Prop) (st : CAS C) : Prop :=
  InvD D st ∧ diskCachedUsageExceeded st = ex.

Lemma on_cache_X {A} D0 (f : C → A * C) (P : disk → Prop) :
  triple (InvD D0) (on_cache f) (λ _, InvD D0) (λ _ _, False) →
  triple (InvX D0) (on_cache f) (λ _, InvX D0) (λ _, InvD P).
Proof.
  intros Hf st [HI Hex]. specialize (Hf st HI). unfold on_cache, zoom in *.
  by destruct (f (cache st)).
Qed.

Lemma on_disk_X {A} msg (m : M disk A) D0 D1 :
  triple D0 m (λ _, D1) (λ _, Dend) →
  triple (InvX D0) (wrap_err msg (on_disk m)) (λ _, InvX D1) (λ _, InvD Dend).
Proof.
  intros Hm st [[HI HD] Hex]. specialize (Hm (disk_ st) HD).
  unfold wrap_err, attempt, mbind, M_bind, on_disk, zoom.
  by destruct (m (disk_ st)) as [[a|e|p] d].
Qed.

Lemma InvX_end k st : InvX (D k) st → InvD Dend st.
Proof. intros [[HI HD] _]. split; [done|]. by eapply Hend. Qed.

Lemma Add_body_ok k keys :
  keys = map (mkChunkKey h) (seqZ 0 k) → 0 ≤ k →
  (k = 0 ∨ (k - 1) * page cfg < zlen content) →
  triple (InvX (D k)) (Add_body cfg h (Join [diskCacheDir cfg; h]) content (k * page cfg, keys))
    (λ r st,
       match r with
       | inl (off', keys') =>
           InvX (D (k + 1)) st ∧ off' = (k + 1) * page cfg ∧
           keys' = map (mkChunkKey h) (seqZ 0 (k + 1)) ∧ k * page cfg < zlen content
       | inr keys' => InvX (D k) st ∧ k = num_pages cfg content ∧ keys' = keys
       end) (λ _, InvD Dend).
Proof.
  intros Hkeys Hk Hk1. destruct Hcfg as [Hpg Hdne]. destruct (Hstored _ _ Hh) as [Hvh Hsz].
  unfold Add_body. case_bool_decide as Hlt.
  2: { apply triple_ret. intros st HI. split_and!; [done| |done].
       apply num_pages_spec; [done..|lia]. }
  rewrite Z.quot_mul by lia.
  eapply (triple_bind_pure _ (InvX (D k)) _ _ (eq (nth_page cfg content k))).
  { apply triple_or_panic. intros st HI. exists (nth_page cfg content k).
    split; [by apply add_slice|done]. }
  intros chunk <-.
  eapply (triple_bind_pure _ (InvX (D k)) _ _ (eq ex)).
  { apply triple_gets. intros st HI. split; [done|]. by destruct HI. }
  intros exceeded <-. rewrite wrap64_id by (unfold int64_range; nia).
  apply (triple_bind _ _ _ (λ _, InvX (D (k + 1)))).
  { destruct ex eqn:Eex.
    - apply triple_ret. intros st [[HI HD] E]. repeat split; [done|by apply Hskip|congruence].
    - rewrite Join_dir_key by done. apply on_disk_X. by apply Hwrite. }
  intros ?.
  assert (keys ++ [mkChunkKey h k] = map (mkChunkKey h) (seqZ 0 (k + 1))) as Hkeys'.
  { rewrite Hkeys. by apply keys_snoc. }
  assert ((k + 1) * page cfg = k * page cfg + page cfg) as Ho by lia.
  eapply triple_bind; [apply on_cache_X, rc_getttl_ok|]. intros [].
  { apply triple_ret. by rewrite Hkeys', Ho. }
  eapply triple_bind.
  { apply on_cache_X, rc_set_ok. exists k. split; [done|]. exists content.
    split_and!; [done..| |done]. exists []. by rewrite app_nil_r. }
  intros [].
  - apply triple_ret. by rewrite Hkeys', Ho.
  - apply triple_throw. intros st. apply InvX_end.
Qed.

Lemma Add_ok :
  triple (InvX Dpre) (Add cfg h content) (λ _, InvX (D (num_pages cfg content)))
    (λ _, InvD Dend).
Proof.
  destruct Hcfg as [Hpg _].
  unfold Add. eapply (triple_bind_pure _ (InvX Dpre) _ _ (eq ex)).
  { apply triple_gets. intros st HI. split; [done|]. by destruct HI. }
  intros exceeded <-. apply (triple_bind _ _ _ (λ _, InvX (D 0))).
  { destruct ex eqn:Eex.
    - apply triple_ret. intros st [[HI HD] E]. repeat split; [done|by apply Hskip|congruence].
    - apply on_disk_X. by apply Hdir. }
  intros ?. set (J := λ (x : Z * list string) st, ∃ k,
    x = (k * page cfg, map (mkChunkKey h) (seqZ 0 k)) ∧ 0 ≤ k ∧
    (k = 0 ∨ (k - 1) * page cfg < zlen content) ∧ InvX (D k) st).
  eapply (triple_bind_pure _ (InvX (D (num_pages cfg content))) _ _
    (eq (map (mkChunkKey h) (seqZ 0 (num_pages cfg content))))).
  { apply (triple_loopM _ _ _ J (λ x, Z.max 0 (zlen content - x.1))).
    - intros x st (k & -> & Hk & Hk1 & HI).
      pose proof (Add_body_ok k _ eq_refl Hk Hk1 st HI) as Hb.
      destruct (Add_body _ _ _ _ _ st) as [[[[off keys]|keys]|e|p] st']; [| |done..].
      + destruct Hb as (HI' & -> & -> & Hlt). split; [|simpl; nia].
        exists (k + 1). split_and!; [done|lia| |done]. right. by replace (k + 1 - 1) with k by lia.
      + by destruct Hb as (HI' & <- & ->).
    - intros st HI. exists 0. by split_and!; [|lia|left|].
    - simpl. pose proof (zlen_nonneg content). lia. }
  intros chunkKeys <-. eapply triple_bind.
  { apply on_cache_X, rc_setttl_ok. exists content. by split. }
  intros []; [by apply triple_ret|]. apply triple_throw. intros st. apply InvX_end.
Qed.

End add.

(** ** Exists, eviction *)

Lemma Exists_ok D E h :
  (∀ p, triple D (StatIsDir p) (λ _, D) (λ _, D)) →
  triple (InvD D) (Exists cfg h) (λ _, InvD D) E.
Proof.
  intros Hstat. unfold Exists. eapply triple_bind; [apply rc_getttl_ok|].
  intros []; [by apply triple_ret|].
  apply (triple_bind_attempt _ (InvD D) _ _ (λ _, True) (λ _, True)).
  - eapply triple_conseq; [apply on_disk_ok, Hstat|done|..]; by intros.
  - intros b _. by apply triple_ret.
  - intros e _. by apply triple_ret.
Qed.

Lemma onEvict_ok D E item k :
  item_ok cfg stored cut k item → triple (InvD D) (onEvict item) (λ _, InvD D) E.
Proof.
  intros Hit. unfold onEvict. apply (triple_bind _ _ _ (λ _, InvD D)).
  2: { intros keys. apply triple_forM. intros x _. apply rc_del_ok. }
  destruct item as [v|s]; [|by apply triple_ret].
  destruct Hit as (i & -> & Hp%page_of_valid). eapply triple_bind_pure; [apply rc_get_ok|].
  intros [[v'|s]|] Hit; [|by apply triple_ret..].
  destruct (Hit _ eq_refl) as (j & E' & _). exfalso.
  destruct Hp as (_ & Hd & _). by rewrite E', mkChunkKey_dash in Hd.
Qed.

End ops.
