(* ===== verification/StorageRuns.v ===== *)
(** * Runs of the storage

    The storage of a cache server as a transition system: reads, writes,
    prefetch workers, evictions and expiry of the memory cache, the disk
    monitor, restarts over the same disk, failing system calls, in any order.
    The properties of the storage hold in every state that a run reaches. *)

From S2P Require Import Prelude GoStrings GoPath FsID GoFloat Types Disk BufferPool Prefetcher.
From S2P Require Import Storage StorageCorrect.
Local Open Scope Z_scope.

(** ** Definitions *)

Section runs.
Context {C : Type} `{RC : Ristretto C}.
Context (cfg : BlobCacheServerConfig) (stored : gmap string (list byte)) (cut : bool).

(** The storage, and the buffer pool its prefetch workers use. *)
Definition node : Type := CAS C * BufferPool.

Definition no_metrics : metrics := mkMetrics 0 0 0 0 0 0 [].

Inductive step : node → node → Prop :=
  | step_Add hash content st bp :
      stored !! hash = Some content →
      step (st, bp) ((Add cfg hash content st).2, bp)
  | step_Get now us hash offset length dst st bp :
      valid_hash hash → int64_range offset → int64_range length → length ≤ zlen dst →
      step (st, bp) ((Get cfg now us hash offset length dst st).2, bp)
  | step_Exists hash st bp : step (st, bp) ((Exists cfg hash st).2, bp)
  | step_worker now us pick s : step s (worker cfg now us pick s).2
  | step_prefetch ev st bp :
      (∃ d i, ev = EvRun d i) ∨ (∃ now, ev = EvCleanup now) →
      step (st, bp) (set_prefetcher (exec ev (prefetcher st)) st, bp)
  | step_evict k item c st bp :
      contents (cache st) !! k = Some item → contents c ⊆ delete k (contents (cache st)) →
      step (st, bp) ((onEvict item (set_cache c st)).2, bp)
  | step_expire c st bp :
      contents c ⊆ contents (cache st) → step (st, bp) (set_cache c st, bp)
  | step_monitor walk_err statfs available total st bp :
      (∀ p, statfs ≠ Panic p) →
      step (st, bp) ((monitor_tick cfg walk_err statfs available total st).2, bp)
  | step_faults os st bp :
      Forall (fault_ok cut) os →
      step (st, bp) (set_disk (mkDisk (files (disk_ st)) (dirs (disk_ st)) os) st, bp)
  | step_restart c n st bp :
      contents c = ∅ →
      step (st, bp) (mkCAS c (disk_ st) false NewPrefetcher no_metrics, NewBufferPool n).

(** A first start: nothing in memory, an empty cache directory. *)
Inductive reachable : node → Prop :=
  | reach_init c ds n :
      contents c = ∅ →
      reachable (mkCAS c (mkDisk ∅ ds []) false NewPrefetcher no_metrics, NewBufferPool n)
  | reach_step s s' : reachable s → step s s' → reachable s'.

(** The queues of the prefetcher name valid hashes, ask for one chunk. *)
Definition pf_ok (pf : Prefetcher) : Prop :=
  Forall (λ hs, valid_hash hs.1) (spawned pf) ∧
  Forall (λ t, valid_hash (t_hash t) ∧ int64_range (t_offset t) ∧
               t_length t = prefetchChunkSize) (workQueue pf).

Definition node_ok (s : node) : Prop :=
  Inv cfg stored cut s.1 ∧ pf_ok (prefetcher s.1) ∧ pool_wf s.2.

End runs.

(** A memory cache that keeps everything: the witnesses run on it. *)
#[export] Instance map_cache : Ristretto (gmap string cache_item) := {
  contents c := c;
  rc_get k c := (c !! k, c);
  rc_set k v _ c := (true, <[k := v]> c);
  rc_setttl k v _ _ c := (true, <[k := v]> c);
  rc_getttl k c := (bool_decide (is_Some (c !! k)), c);
  rc_resetttl _ _ c := c;
  rc_del k c := delete k c;
}.

#[export] Instance map_cache_laws : RistrettoLaws (gmap string cache_item).
Proof. split; try done. intros k c E. by apply bool_decide_eq_true in E. Qed.

(** ** The queues of the prefetcher *)

Section frame.
Context {C : Type} `{RC : Ristretto C}.
Context (cfg : BlobCacheServerConfig).

Abbreviation K := (λ st : CAS C, pf_ok (prefetcher st)).

Lemma on_cache_pf {A} (f : C → A * C) : keeps K (on_cache f).
Proof. by apply keeps_zoom_frame. Qed.
Lemma on_disk_pf {A} (m : M disk A) : keeps K (on_disk m).
Proof. by apply keeps_zoom_frame. Qed.
Lemma on_metrics_pf f : keeps K (on_metrics f).
Proof. by apply keeps_modify. Qed.
Lemma set_cache_pf f : keeps K (modify (λ s, set_cache (f (cache s)) s)).
Proof. by apply keeps_modify. Qed.
Lemma set_exceeded_pf b : keeps K (modify (set_exceeded b)).
Proof. by apply keeps_modify. Qed.
Hint Resolve on_cache_pf on_disk_pf on_metrics_pf set_cache_pf set_exceeded_pf : keeps.

Lemma Add_pf h content : keeps K (Add cfg h content).
Proof. unfold Add, Add_body, wrap_err. keeps_auto. Qed.

Lemma Exists_pf h : keeps K (Exists cfg h).
Proof. unfold Exists. keeps_auto. Qed.

Lemma onEvict_pf item : keeps K (onEvict item).
Proof. unfold onEvict. keeps_auto. Qed.

Lemma monitor_pf w sf a t : keeps K (monitor_tick cfg w sf a t).
Proof. unfold monitor_tick. keeps_auto. Qed.

Lemma OnRead_pf now h o l pf : valid_hash h → pf_ok pf → pf_ok (OnRead now h o l pf).2.
Proof.
  intros Hh [Hs Hq]. destruct (states pf !! h) as [s|] eqn:E.
  - rewrite (OnRead_seen _ _ _ _ _ s E). split; [|done]. simpl. apply Forall_app. split; [done|].
    destruct (starts s o); [by apply Forall_singleton|by constructor].
  - by rewrite (OnRead_new _ _ _ _ _ E).
Qed.

Lemma Get_pf now us h o l dst : valid_hash h → keeps K (Get cfg now us h o l dst).
Proof.
  intros Hh. unfold Get. keeps_step; [keeps_auto|]. keeps_step.
  { apply (keeps_zoom _ pf_ok); [|done..]. intros pf. by apply OnRead_pf. }
  unfold Get_body, Get_page, fetch, getFromDiskCache, updateHitRatios. keeps_auto.
Qed.

Lemma exec_pf ev pf :
  (∃ d i, ev = EvRun d i) ∨ (∃ now, ev = EvCleanup now) → pf_ok pf → pf_ok (exec ev pf).
Proof.
  intros [(d & i & ->)|(now & ->)] [Hs Hq]; [|by split].
  simpl. unfold run_spawned. destruct (spawned pf !! i) as [[h o]|] eqn:E; [|by split].
  split; simpl; [by apply Forall_delete|].
  pose proof (Forall_lookup_1 _ _ _ _ Hs E) as Hh. simpl in Hh.
  by apply enqueue_Forall.
Qed.

End frame.

(** ** The invariant *)

Section invariant.
Context {C : Type} `{RC : Ristretto C} {RL : RistrettoLaws C}.
Context (cfg : BlobCacheServerConfig) (stored : gmap string (list byte)) (cut : bool).
Context (Hcfg : valid_config cfg) (Hstored : valid_stored stored).
Abbreviation I := (Inv cfg stored cut).
Abbreviation D := (disk_ok (file_ok cfg stored cut) (fault_ok cut)).

(** [Inv] keeps any program that keeps the disk condition. *)
Lemma Inv_open i h : triple D (OpenFile (chunk_path cfg h i)) (λ _, D) (λ _ d, D d ∧ True).
Proof. eapply triple_conseq; [apply OpenFile_ok|done..]. Qed.

Lemma Inv_read i h :
  triple D (ReadFile (chunk_path cfg h i))
    (λ data d, D d ∧ file_ok cfg stored cut (chunk_path cfg h i) data) (λ _ d, D d ∧ True).
Proof. eapply triple_conseq; [apply ReadFile_ok|done..]. Qed.

Lemma Inv_Get now us h o l dst :
  valid_hash h → int64_range o → int64_range l → l ≤ zlen dst →
  triple I (Get cfg now us h o l dst)
    (λ r st, I st ∧ end_ok cfg stored cut h (λ _, True) o l dst (mkEnd None r.1 r.2))
    (λ e st, I st ∧ ∃ n dst', end_ok cfg stored cut h (λ _, True) o l dst (mkEnd (Some e) n dst')).
Proof. intros. apply Get_ok; auto using Inv_open, Inv_read. Qed.

Lemma nth_page_file h content k :
  stored !! h = Some content → 0 ≤ k → k * page cfg < zlen content →
  file_ok cfg stored cut (chunk_path cfg h k) (nth_page cfg content k).
Proof.
  intros Hh Hk Hlt. exists h, k. split; [done|]. exists content. split_and!; [done..| |done].
  exists []. by rewrite app_nil_r.
Qed.

Lemma cut_page_file h content k n :
  stored !! h = Some content → 0 ≤ k → k * page cfg < zlen content →
  fault_ok cut (IoPartial n) →
  file_ok cfg stored cut (chunk_path cfg h k) (take n (nth_page cfg content k)).
Proof.
  intros Hh Hk Hlt Hcut. exists h, k. split; [done|]. exists content.
  split_and!; [done..| |simpl in Hcut; congruence]. apply prefix_take.
Qed.

Lemma write_page h content k :
  stored !! h = Some content → 0 ≤ k → k * page cfg < zlen content →
  triple D (WriteFile (chunk_path cfg h k) (nth_page cfg content k)) (λ _, D) (λ _, D).
Proof.
  intros Hh Hk Hlt. eapply triple_conseq.
  - apply WriteFile_ok; [by apply nth_page_file|]. intros n. by apply cut_page_file.
  - done.
  - by intros ?? [].
  - done.
Qed.

Lemma Inv_Add h content :
  stored !! h = Some content → triple I (Add cfg h content) (λ _, I) (λ _, I).
Proof.
  intros Hh st HI.
  pose proof (Add_ok cfg stored cut Hcfg Hstored (λ _, D) D D h content
    (diskCachedUsageExceeded st) Hh) as H.
  specialize (H ltac:(done) ltac:(done)).
  specialize (H ltac:(intros _ p; apply MkdirAll_ok)).
  specialize (H (λ _ k Hk Hlt, write_page h content k Hh Hk Hlt)).
  specialize (H st (conj HI eq_refl)).
  destruct (Add cfg h content st) as [[a|e|p] st']; [by destruct H|done..].
Qed.

Lemma Inv_on_cache {A} (f : C → A * C) :
  (∀ c, items_ok cfg stored cut c → items_ok cfg stored cut (f c).2) → keeps I (on_cache f).
Proof.
  intros Hf st [Hc Hd]. unfold on_cache, zoom. specialize (Hf _ Hc).
  by destruct (f (cache st)).
Qed.

Lemma Inv_Exists h : triple I (Exists cfg h) (λ _, I) (λ _, I).
Proof. apply Exists_ok; [done..|]. intros p. apply StatIsDir_ok. Qed.

Lemma Inv_monitor w sf a t :
  (∀ p, sf ≠ Panic p) → triple I (monitor_tick cfg w sf a t) (λ _, I) (λ _, I).
Proof.
  intros Hp st HI. unfold monitor_tick, mbind, M_bind, get. simpl.
  unfold GetDiskCacheMetrics, getDiskUsageMb, getTotalDiskSpaceMb.
  destruct w; [done|]. destruct sf as [[? ?]|e|p]; [done..|by destruct (Hp p)].
Qed.

#[local] Arguments BufferPool.Get : simpl never.
#[local] Arguments BufferPool.Put : simpl never.

(** The worker: its buffer is as long as its task. *)
Lemma Inv_worker now us pick s :
  node_ok cfg stored cut s →
  match worker cfg now us pick s with
  | (Panic _, _) => False
  | (_, s') => node_ok cfg stored cut s'
  end.
Proof.
  intros (HI & [Hsp Hq] & Hwf). destruct s as [st bp]. simpl in *.
  unfold worker, mbind, M_bind, dequeue. simpl.
  destruct (workQueue (prefetcher st)) as [|task q] eqn:Eq; simpl.
  { split_and!; [done| |done]. split; simpl; [done|by rewrite Eq]. }
  apply Forall_cons in Hq as [(Hh & Ho & Hl) Hq].
  set (st1 := set_prefetcher _ st). assert (I st1) as HI1 by done.
  assert (pf_ok (prefetcher st1)) as Hpf1 by done.
  unfold zoom. simpl. pose proof (Inv_Exists (t_hash task) st1 HI1) as He.
  pose proof (Exists_pf cfg (t_hash task) st1 Hpf1) as Hep.
  destruct (Exists cfg (t_hash task) st1) as [[known|e|p] st2]; simpl in *; [|done..].
  destruct known; [|done]. cbn [fst snd].
  destruct (Get_fits bp pick (t_length task) Hwf) as (b & bp2 & -> & Hlen & Hcap & Hwf2);
    [rewrite Hl; by unfold prefetchChunkSize, BufferSize16MB|]. simpl.
  set (dst := replicate _ _).
  assert (zlen dst = cap b) as Hdst.
  { unfold dst, zlen. rewrite length_replicate, Hcap.
    pose proof (selectPoolSize_pos (t_length task)). lia. }
  pose proof (Inv_Get now us (t_hash task) (t_offset task) (t_length task) dst) as Hg.
  pose proof (Get_pf cfg now us (t_hash task) (t_offset task) (t_length task) dst Hh st2 Hep) as Hgp.
  specialize (Hg Hh Ho). rewrite Hdst, Hl, Hcap, Hl in Hg.
  specialize (Hg ltac:(by unfold int64_range, prefetchChunkSize)).
  specialize (Hg ltac:(by apply selectPoolSize_fits) st2 He). rewrite Hl in Hgp |- *.
  unfold ignore, attempt, mbind, M_bind. simpl.
  destruct (Get cfg now us (t_hash task) (t_offset task) prefetchChunkSize dst st2) as [[r|e|p] st3]; simpl in *; [..|done];
    destruct Hg as [Hg _]; pose proof (Put_wf bp2 b Hwf2) as Hput;
    destruct (Put_Ok b bp2) as [bp3 E3]; rewrite E3 in Hput |- *; by split_and!.
Qed.

Lemma triple_state {A} (m : M (CAS C) A) (P : CAS C → Prop) (E : error → CAS C → Prop) Q st :
  triple P m Q E → (∀ a st, Q a st → I st) → (∀ e st, E e st → I st) → P st → I (m st).2.
Proof.
  intros Hm HQ HE Hst. specialize (Hm st Hst). destruct (m st) as [[a|e|p] st']; simpl; eauto.
  done.
Qed.

Lemma step_ok s s' : node_ok cfg stored cut s → step cfg stored cut s s' → node_ok cfg stored cut s'.
Proof.
  intros Hs Hst.
  destruct Hst as [h content st bp Hh|now us h o l dst st bp Hh Ho Hl Hd|h st bp|now us pick s
    |ev st bp Hev|k item c st bp Hk Hc|c st bp Hc|w sf a t st bp Hsf|os st bp Hos|c n st bp Hc];
    try (destruct Hs as (HI & Hpf & Hwf)); simpl in *.
  - split_and!; [|by apply Add_pf|done].
    by apply (triple_state _ _ _ _ _ (Inv_Add h content Hh)).
  - split_and!; [|by apply Get_pf|done].
    apply (triple_state _ _ _ _ _ (Inv_Get now us h o l dst Hh Ho Hl Hd)); naive_solver.
  - split_and!; [|by apply Exists_pf|done].
    by apply (triple_state _ _ _ _ _ (Inv_Exists h)).
  - pose proof (Inv_worker now us pick s (conj HI (conj Hpf Hwf))) as Hw.
    by destruct (worker cfg now us pick s) as [[a|e|p] s'].
  - split_and!; [done|by apply exec_pf|done].
  - destruct HI as [Hi HD]. pose proof (Hi _ _ Hk) as Hit.
    assert (I (set_cache c st)) as HI'.
    { split; [|done]. eapply items_ok_sub; [|done]. etrans; [done|apply delete_subseteq]. }
    split_and!; [|by apply (onEvict_pf item (set_cache c st))|done].
    by apply (triple_state _ _ _ _ _ (onEvict_ok cfg stored cut Hstored D (λ _, I) item k Hit)).
  - split_and!; [|done..]. destruct HI as [Hi HD]. split; [|done]. by eapply items_ok_sub.
  - split_and!; [|by apply monitor_pf|done].
    by apply (triple_state _ _ _ _ _ (Inv_monitor w sf a t Hsf)).
  - split_and!; [|done..]. destruct HI as [Hi [HD _]]. by split; [|split].
  - split_and!; [|by split|apply NewBufferPool_wf]. destruct HI as [_ HD]. split; [|done].
    unfold items_ok, StorageCorrect.items_ok. simpl. rewrite Hc. apply map_Forall_empty.
Qed.

Lemma reachable_ok s : reachable cfg stored cut s → node_ok cfg stored cut s.
Proof.
  induction 1 as [c ds n Hc|s s' _ IH Hst]; [|by eapply step_ok].
  split_and!; [|by split|apply NewBufferPool_wf]. split.
  - unfold items_ok, StorageCorrect.items_ok. simpl. rewrite Hc. apply map_Forall_empty.
  - split; [apply map_Forall_empty|by constructor].
Qed.

End invariant.

(** ** A content whose pages are all on disk *)

Section on_disk.
Context {C : Type} `{RC : Ristretto C} {RL : RistrettoLaws C}.
Context (cfg : BlobCacheServerConfig) (stored : gmap string (list byte)) (cut : bool).
Context (Hcfg : valid_config cfg) (Hstored : valid_stored stored).
Context (h : string) (content : list byte) (Hh : stored !! h = Some content).
Abbreviation I := (Inv cfg stored cut).
Abbreviation D := (disk_ok (file_ok cfg stored cut) (fault_ok cut)).

(** The first [k] pages are on disk, and no system call fails. *)
Definition has_pages (k : Z) (d : disk) : Prop :=
  D d ∧ io d = [] ∧
  ∀ i, 0 ≤ i < k → files d !! chunk_path cfg h i = Some (nth_page cfg content i).

Definition missing (i : Z) : Prop := ¬ (0 ≤ i < num_pages cfg content).

Lemma pages_open i :
  triple (has_pages (num_pages cfg content)) (OpenFile (chunk_path cfg h i))
    (λ _, has_pages (num_pages cfg content))
    (λ _ d, has_pages (num_pages cfg content) d ∧ missing i).
Proof.
  intros d Hd. pose proof Hd as (_ & Hio & Hf).
  destruct (OpenFile_nofault (chunk_path cfg h i) d Hio) as (E2 & E1 & Ep).
  destruct (OpenFile _ d) as [[a|e|p] d']; simpl in *; subst; [done| |by destruct (Ep p)].
  split; [done|]. intros Hi. specialize (Hf i Hi).
  by discriminate (E1 (mk_is_Some _ _ Hf)).
Qed.

Lemma pages_read i :
  triple (has_pages (num_pages cfg content)) (ReadFile (chunk_path cfg h i))
    (λ data d, has_pages (num_pages cfg content) d ∧
       file_ok cfg stored cut (chunk_path cfg h i) data)
    (λ _ d, has_pages (num_pages cfg content) d ∧ missing i).
Proof.
  intros d Hd. pose proof Hd as ([Hfs _] & Hio & Hf). rewrite ReadFile_nofault by done.
  destruct (files d !! chunk_path cfg h i) as [data|] eqn:E.
  - split; [done|]. by apply (Hfs _ _ E).
  - split; [done|]. intros Hi. rewrite (Hf i Hi) in E. done.
Qed.

Lemma pages_mkdir p : triple (has_pages 0) (MkdirAll p) (λ _, has_pages 0) (λ _, D).
Proof.
  intros d (HD & Hio & _). pose proof (MkdirAll_ok _ _ p d HD) as Hm.
  destruct (MkdirAll_nofault p d Hio) as (_ & Hio' & _).
  destruct (MkdirAll p d) as [[a|e|q] d']; simpl in *; [|done..].
  split_and!; [done..|]. intros i ?. lia.
Qed.

Lemma pages_write k :
  0 ≤ k → k * page cfg < zlen content →
  triple (has_pages k) (WriteFile (chunk_path cfg h k) (nth_page cfg content k))
    (λ _, has_pages (k + 1)) (λ _, D).
Proof.
  intros Hk Hlt d (HD & Hio & Hf).
  pose proof (write_page cfg stored cut h content k Hh Hk Hlt d HD) as Hw.
  destruct (WriteFile_nofault (chunk_path cfg h k) (nth_page cfg content k) d Hio) as [E|E];
    rewrite E in *; [|done].
  split_and!; [done..|]. intros i Hi. simpl.
  destruct (decide (i = k)) as [->|]; [by rewrite lookup_insert_eq|].
  rewrite lookup_insert_ne; [apply Hf; lia|]. intros Ep.
  destruct (Hstored _ _ Hh) as [Hvh _]. by apply chunk_path_inj in Ep as [_ Ep]; [|apply Hcfg|..].
Qed.

(** [Add] puts them there. *)
Lemma Add_pages st st' :
  I st → io (disk_ st) = [] → diskCachedUsageExceeded st = false →
  Add cfg h content st = (Ok tt, st') →
  InvD cfg stored cut (has_pages (num_pages cfg content)) st'.
Proof.
  intros [HI HD] Hio Hex E.
  pose proof (Add_ok cfg stored cut Hcfg Hstored has_pages (has_pages 0) D h content false Hh
    (λ k d H, proj1 H) (λ E, ltac:(done)) (λ _, pages_mkdir) (λ _, pages_write) st) as H.
  rewrite E in H. apply H. split; [|done]. split; [done|]. split_and!; [done..|]. intros i ?. lia.
Qed.

(** And they can be read whatever the memory cache forgot. *)
Lemma pages_Get now us o l dst st :
  cut = false →
  InvD cfg stored cut (has_pages (num_pages cfg content)) st →
  0 ≤ o → 0 ≤ l → o + l ≤ zlen content → l ≤ zlen dst →
  (Get cfg now us h o l dst st).1 = Ok (l, read_into stored h o l dst).
Proof.
  intros Hcut HI Ho Hl Hol Hd. destruct (Hstored _ _ Hh) as [Hvh Hsz].
  assert (content_of stored h = content) as Ec by (unfold content_of; by rewrite Hh).
  pose proof (Get_ok cfg stored cut Hcfg Hstored _ h missing Hvh pages_open pages_read o l dst
    ltac:(unfold int64_range; lia) Hd now us st HI) as Hg.
  destruct Hcfg as [Hpg _].
  destruct (Get cfg now us h o l dst st) as [[[n dst']|e|p] st']; simpl in *; [..|done].
  - destruct Hg as (_ & (Hn & Hdst & _) & _ & Hshort). simpl in *. rewrite Ec in *.
    destruct (decide (n < l)) as [Hlt|]; [destruct (Hshort Hlt) as [_ Hs]; specialize (Hs Hcut); lia|].
    assert (n = l) as -> by lia. by rewrite Hdst.
  - destruct Hg as (_ & n & dst' & (Hn & _) & Hlt & Hor). simpl in *.
    destruct Hor as [[_ Hm]|[? _]]; [|lia]. destruct Hm.
    rewrite Z.quot_div_nonneg by lia.
    assert (0 ≤ (o + n) / page cfg) by (apply Z.div_pos; lia).
    split; [done|]. apply num_pages_lt; [done..|].
    pose proof (Z.div_mod (o + n) (page cfg)). pose proof (Z.mod_pos_bound (o + n) (page cfg)). nia.
Qed.

End on_disk.
