(* ===== verification/StorageProps.v ===== *)
(** * Properties of the storage

    What a client of the storage can rely on, and where it cannot. *)

From S2P Require Import Prelude GoStrings GoPath FsID GoFloat Types Disk BufferPool Prefetcher.
From S2P Require Import Storage StorageCorrect StorageRuns.
Local Open Scope Z_scope.

(** ** A small instance for the witnesses *)

Definition small_config (pageSize : Z) (maxPct : float64) : BlobCacheServerConfig :=
  {| CMode := ""; DiskCacheDir := "/cache"; DiskCacheMaxUsagePct := maxPct;
     EnableMemoryCache := true; Token := ""; PrettyLogs := false; ObjectTtlS := 60;
     MaxCachePct := 50; PageSizeBytes := pageSize; Metadata := zeroMetadataConfig;
     Sources := []; S3DownloadConcurrency := 1; S3DownloadChunkSize := 1; Regions := [] |}.

Definition abc : list byte := bytes_of_string "abcdefghij".
Definition small_stored : gmap string (list byte) := {[ "a1" := abc ]}.

(** An empty storage over an empty cache directory. *)
Definition fresh_node : node (C:=gmap string cache_item) :=
  (mkCAS ∅ (mkDisk ∅ {[ "/cache" ]} []) false NewPrefetcher no_metrics, NewBufferPool 0).
Definition fresh : CAS (gmap string cache_item) := fresh_node.1.

(** The storage after [abc] was added over pages of [p] bytes. *)
Definition after_add (p : Z) : CAS (gmap string cache_item) :=
  (Add (small_config p f_zero) "a1" abc fresh).2.

Lemma small_config_valid p x : 0 < p < 2 ^ 62 → valid_config (small_config p x).
Proof. by split. Qed.

Lemma small_stored_valid : valid_stored small_stored.
Proof.
  unfold valid_stored, small_stored. apply map_Forall_singleton.
  split; [|done]. unfold valid_hash, plain_name. by vm_compute.
Qed.

Lemma fresh_reachable p cut : reachable (small_config p f_zero) small_stored cut fresh_node.
Proof. by apply (reach_init _ _ _ ∅ {[ "/cache" ]} 0). Qed.

Lemma add_abc : (Add (small_config 4 f_zero) "a1" abc fresh).1 = Ok tt.
Proof. by vm_compute. Qed.

Lemma after_add_reachable p cut :
  reachable (small_config p f_zero) small_stored cut (after_add p, NewBufferPool 0).
Proof.
  eapply reach_step; [apply fresh_reachable|].
  by apply (step_Add _ _ _ "a1" abc).
Qed.

(** ** Reading *)

Section properties.
Context {C : Type} `{RC : Ristretto C} {RL : RistrettoLaws C}.
Context (cfg : BlobCacheServerConfig) (stored : gmap string (list byte)) (cut : bool).
Context (Hcfg : valid_config cfg) (Hstored : valid_stored stored).

(** C4: a read never serves wrong bytes and never panics.  Whatever run of adds,
    reads, prefetches, evictions, expiries, restarts and system-call faults (cut
    writes included) led to the state, [Get] of a hash either fails with
    [ErrContentNotFound] (or for a negative offset with the boundaries error),
    or returns [n] bytes that are the bytes of the content from the offset,
    leaving the rest of the destination as it was. *)
Theorem Get_serves_content s now us h offset length dst :
  reachable cfg stored cut s → valid_hash h →
  int64_range offset → int64_range length → length ≤ zlen dst →
  match (Get cfg now us h offset length dst s.1).1 with
  | Ok (n, dst') =>
      0 ≤ n ≤ Z.max 0 length ∧
      dst' = take (Z.to_nat n) (drop (Z.to_nat offset) (content_of stored h)) ++
             drop (Z.to_nat n) dst ∧
      (0 < n → 0 ≤ offset ∧ offset + n ≤ zlen (content_of stored h))
  | Err e => 0 < length ∧ (e = ErrContentNotFound ∨ offset < 0 ∧ e = invalid_boundaries)
  | Panic _ => False
  end.
Proof.
  intros Hr Hh Ho Hl Hd.
  destruct (reachable_ok cfg stored cut Hcfg Hstored s Hr) as (HI & _).
  pose proof (Inv_Get cfg stored cut Hcfg Hstored now us h offset length dst Hh Ho Hl Hd s.1 HI) as Hg.
  destruct (Get cfg now us h offset length dst s.1) as [[[n dst']|e|p] st']; simpl; [..|done].
  - by destruct Hg as [_ [Hg _]].
  - destruct Hg as (_ & n & dst' & ((Hn & _) & Hlt & Hor)). simpl in *.
    split; [lia|]. naive_solver.
Qed.

(** C26: without cut writes a read that succeeds is never silently short: it returns
    exactly the bytes that remain of the content from the offset, at most as many as
    were asked, at the beginning of the destination, whose rest is as it was. *)
Theorem Get_full_length s now us h offset length dst n dst' st' :
  cut = false → reachable cfg stored cut s → valid_hash h → 0 ≤ offset →
  int64_range offset → int64_range length → length ≤ zlen dst →
  Get cfg now us h offset length dst s.1 = (Ok (n, dst'), st') →
  n = Z.max 0 (Z.min length (zlen (content_of stored h) - offset)) ∧
  dst' = take (Z.to_nat n) (drop (Z.to_nat offset) (content_of stored h)) ++ drop (Z.to_nat n) dst.
Proof.
  intros Hcut Hr Hh Ho0 Ho Hl Hd E.
  destruct (reachable_ok cfg stored cut Hcfg Hstored s Hr) as (HI & _).
  pose proof (Inv_Get cfg stored cut Hcfg Hstored now us h offset length dst Hh Ho Hl Hd s.1 HI) as Hg.
  rewrite E in Hg. destruct Hg as (_ & (Hn & Hdst & Hin) & _ & Hshort). simpl in *.
  split; [|exact Hdst]. pose proof (zlen_nonneg (content_of stored h)).
  destruct (decide (n < length)) as [Hlt|].
  - destruct (Hshort Hlt) as [_ Hs]. specialize (Hs Hcut). lia.
  - destruct (decide (0 < n)); lia.
Qed.

(** C27: when no write was ever cut short, a read that crosses the end of a content
    whose size is a multiple of the page size fails, where the same read of any other size returns the bytes up
    to the end: the page after the last one is looked up and not found. *)
Theorem Get_aligned_eof s now us h offset length dst :
  cut = false → reachable cfg stored cut s → valid_hash h →
  0 ≤ offset → offset + length < 2 ^ 62 → length ≤ zlen dst →
  Z.rem (zlen (content_of stored h)) (page cfg) = 0 →
  0 < length → zlen (content_of stored h) < offset + length →
  (Get cfg now us h offset length dst s.1).1 = Err ErrContentNotFound.
Proof.
  intros Hcut Hr Hh Ho Hsum Hd Hmult Hl Hpast.
  destruct (reachable_ok cfg stored cut Hcfg Hstored s Hr) as (HI & _).
  assert (int64_range offset ∧ int64_range length) as [Ho64 Hl64] by (unfold int64_range; lia).
  pose proof (Inv_Get cfg stored cut Hcfg Hstored now us h offset length dst Hh Ho64 Hl64 Hd s.1 HI) as Hg.
  destruct Hcfg as [Hpg _]. pose proof (zlen_nonneg (content_of stored h)) as Hz.
  destruct (Get cfg now us h offset length dst s.1) as [[[n dst']|e|p] st']; simpl; [..|done].
  - exfalso. destruct Hg as (_ & (Hn & _ & Hin) & _ & Hshort). simpl in *.
    assert (n < length) as Hlt by (destruct (decide (0 < n)); lia).
    destruct (Hshort Hlt) as [Hq Hs]. specialize (Hs Hcut).
    rewrite Z.quot_div_nonneg in Hq by lia. rewrite Z.rem_mod_nonneg in Hmult by lia.
    pose proof (Z.div_mod (zlen (content_of stored h)) (page cfg)) as Hdm.
    pose proof (Z.div_le_mono _ (offset + n) (page cfg) ltac:(lia) Hs). nia.
  - destruct Hg as (_ & n & dst'' & (_ & _ & [[-> _]|[? _]])); [done|lia].
Qed.

(** C12: what was added can be read back.  Once [Add] succeeded with the disk tier
    on, and no write was ever cut short, every range of the content is read in full
    from the disk, even after the memory cache forgot everything it held. *)
Theorem Add_then_Get s h content c' st' now us offset length dst :
  cut = false → reachable cfg stored cut s → stored !! h = Some content →
  io (disk_ s.1) = [] → diskCachedUsageExceeded s.1 = false →
  Add cfg h content s.1 = (Ok tt, st') → contents c' ⊆ contents (cache st') →
  0 ≤ offset → 0 ≤ length → offset + length ≤ zlen content → length ≤ zlen dst →
  (Get cfg now us h offset length dst (set_cache c' st')).1 =
    Ok (length, take (Z.to_nat length) (drop (Z.to_nat offset) content) ++
                drop (Z.to_nat length) dst).
Proof.
  intros Hcut Hr Hh Hio Hex E Hsub Ho Hl Hol Hd.
  destruct (reachable_ok cfg stored cut Hcfg Hstored s Hr) as (HI & _).
  pose proof (Add_pages cfg stored cut Hcfg Hstored h content Hh s.1 st' HI Hio Hex E) as [Hc Hp].
  rewrite (pages_Get cfg stored cut Hcfg Hstored h content Hh now us offset length dst
    (set_cache c' st')); [|done|split; [by eapply items_ok_sub|done]|done..].
  unfold read_into, content_of. by rewrite Hh.
Qed.

End properties.

Lemma hash_a1 : valid_hash "a1".
Proof. by apply small_stored_valid with (x := abc). Qed.

(** Three bytes across the pages of four bytes. *)
Lemma Get_serves_content_witness :
  match (Get (small_config 4 f_zero) 0 0 "a1" 3 3 (replicate 5 x00) (after_add 4)).1 with
  | Ok (n, dst') =>
      0 ≤ n ≤ Z.max 0 3 ∧
      dst' = take (Z.to_nat n) (drop (Z.to_nat 3) (content_of small_stored "a1")) ++
             drop (Z.to_nat n) (replicate 5 x00) ∧
      (0 < n → 0 ≤ 3 ∧ 3 + n ≤ zlen (content_of small_stored "a1"))
  | Err e => 0 < 3 ∧ (e = ErrContentNotFound ∨ 3 < 0 ∧ e = invalid_boundaries)
  | Panic _ => False
  end.
Proof.
  exact (Get_serves_content (small_config 4 f_zero) small_stored true
    (small_config_valid 4 f_zero ltac:(lia)) small_stored_valid
    (after_add 4, NewBufferPool 0) 0 0 "a1" 3 3 (replicate 5 x00)
    (after_add_reachable 4 true) hash_a1 ltac:(by unfold int64_range)
    ltac:(by unfold int64_range) ltac:(done)).
Defined.

Lemma read_3_of_9 :
  (Get (small_config 4 f_zero) 0 0 "a1" 7 9 (replicate 9 x00) (after_add 4)).1 =
    Ok (3, drop 7 abc ++ replicate 6 x00).
Proof. by vm_compute. Qed.

Lemma Get_full_length_witness :
  3 = Z.max 0 (Z.min 9 (zlen (content_of small_stored "a1") - 7)) ∧
  drop 7 abc ++ replicate 6 x00 =
    take (Z.to_nat 3) (drop (Z.to_nat 7) (content_of small_stored "a1")) ++
    drop (Z.to_nat 3) (replicate 9 x00).
Proof.
  refine (Get_full_length (small_config 4 f_zero) small_stored false
    (small_config_valid 4 f_zero _) small_stored_valid
    (after_add 4, NewBufferPool 0) 0 0 "a1" 7 9 (replicate 9 x00) 3 _ _ eq_refl
    (after_add_reachable 4 false) hash_a1 _ _ _ _ (pair_fst_eq _ _ read_3_of_9));
    try done; by unfold int64_range.
Defined.

(** Ten bytes over pages of five: reading nine bytes from seven fails. *)
Lemma Get_aligned_eof_witness :
  (Get (small_config 5 f_zero) 0 0 "a1" 7 9 (replicate 9 x00) (after_add 5)).1 =
    Err ErrContentNotFound.
Proof.
  apply (Get_aligned_eof (small_config 5 f_zero) small_stored false
    (small_config_valid 5 f_zero ltac:(lia)) small_stored_valid
    (after_add 5, NewBufferPool 0) 0 0 "a1" 7 9 (replicate 9 x00) eq_refl
    (after_add_reachable 5 false) hash_a1); by vm_compute.
Defined.

Lemma Add_then_Get_witness :
  (Get (small_config 4 f_zero) 0 0 "a1" 2 7 (replicate 8 x00) (set_cache ∅ (after_add 4))).1 =
    Ok (7, take 7 (drop 2 abc) ++ drop 7 (replicate 8 x00)).
Proof.
  refine (Add_then_Get (small_config 4 f_zero) small_stored false
    (small_config_valid 4 f_zero _) small_stored_valid
    fresh_node "a1" abc (∅ : gmap string cache_item) (after_add 4) 0 0 2 7 (replicate 8 x00)
    eq_refl (fresh_reachable 4 false) eq_refl eq_refl eq_refl (pair_fst_eq _ _ add_abc)
    (map_empty_subseteq _) _ _ _ _); by vm_compute.
Defined.

(** ** Evicting *)

Section evict.
Context {C : Type} `{RC : Ristretto C} {RL : RistrettoLaws C}.

Lemma del_all (keys : list string) (st : CAS C) :
  ∃ st', forM keys (λ k, on_cache (λ c, (tt, rc_del k c))) st = (Ok tt, st') ∧
    contents (cache st') ⊆ contents (cache st) ∧
    disk_ st' = disk_ st ∧
    ∀ k, k ∈ keys → contents (cache st') !! k = None.
Proof.
  revert st. induction keys as [|k keys IH]; intros st.
  { exists st. split_and!; [done..|]. by intros k ?%elem_of_nil. }
  simpl. unfold mbind, M_bind, on_cache at 1, zoom. simpl.
  destruct (IH (set_cache (rc_del k (cache st)) st)) as (st' & -> & Hsub & Hd & Hn).
  pose proof (rc_del_sub k (cache st)) as Hk. exists st'. split_and!; [done| |done|].
  - etrans; [done|]. etrans; [done|apply delete_subseteq].
  - intros j [->|Hj]%elem_of_cons; [|by apply Hn].
    destruct (contents (cache st') !! k) as [it|] eqn:E; [|done].
    eapply lookup_weaken in E; [|done]. eapply lookup_weaken in E; [|done].
    by rewrite lookup_delete_eq in E.
Qed.

End evict.

(** The eviction of one page of a content whose index is found in memory takes every
    page of the content out of memory, and touches nothing on disk; the same
    goes for the eviction of the index itself. *)
Theorem onEvict_takes_all {C} `{RC : Ristretto C} {RL : RistrettoLaws C} cfg stored cut
    s h content item st' :
  valid_config cfg → valid_stored stored → reachable (C:=C) cfg stored cut s →
  (rc_get h (cache s.1)).1 = Some (Index (index_of cfg h content)) →
  stored !! h = Some content →
  item = Index (index_of cfg h content) ∨ (∃ data, item = Chunk (mkValue h data)) →
  onEvict item s.1 = (Ok tt, st') →
  disk_ st' = disk_ s.1 ∧
  ∀ i, 0 ≤ i < num_pages cfg content → contents (cache st') !! mkChunkKey h i = None.
Proof.
  intros Hcfg Hstored Hr Hidx Hst Hitem E.
  destruct (reachable_ok cfg stored cut Hcfg Hstored s Hr) as (HI & _).
  destruct (Hstored _ _ Hst) as [Hh _].
  assert (∃ st1, disk_ st1 = disk_ s.1 ∧
    onEvict item s.1 =
      forM (split_on "," (index_of cfg h content)) (λ k, on_cache (λ c, (tt, rc_del k c))) st1)
    as (st1 & Hd1 & E1).
  { destruct Hitem as [->|[data ->]]; [by exists s.1|].
    exists (set_cache (rc_get h (cache s.1)).2 s.1). split; [done|].
    unfold onEvict, mbind, M_bind, on_cache at 1, zoom. simpl.
    by destruct (rc_get h (cache s.1)) as [? c']; simpl in *; subst. }
  rewrite E1 in E. destruct (del_all (split_on "," (index_of cfg h content)) st1)
    as (st2 & E2 & _ & Hd & Hgone).
  rewrite E2 in E. injection E as <-. split; [congruence|].
  intros i Hi. apply Hgone. unfold index_of. rewrite split_on_join.
  - apply list_elem_of_In, in_map, list_elem_of_In, elem_of_seqZ. lia.
  - destruct (seqZ 0 (num_pages cfg content)) eqn:Es; [|done].
    apply (f_equal length) in Es. rewrite length_seqZ in Es. simpl in Es. lia.
  - apply Forall_forall. intros k (j & -> & _)%list_elem_of_fmap.
    by apply mkChunkKey_char; [apply Hh|..].
Qed.

Lemma onEvict_takes_all_witness :
  let st' := (onEvict (Chunk (mkValue "a1" [])) (after_add 4)).2 in
  disk_ st' = disk_ (after_add 4) ∧
  ∀ i, 0 ≤ i < num_pages (small_config 4 f_zero) abc →
       contents (cache st') !! mkChunkKey "a1" i = None.
Proof.
  refine (onEvict_takes_all (small_config 4 f_zero) small_stored true
    (after_add 4, NewBufferPool 0) "a1" abc (Chunk (mkValue "a1" [])) _
    (small_config_valid 4 f_zero _) small_stored_valid (after_add_reachable 4 true)
    _ eq_refl (or_intror (ex_intro _ [] eq_refl)) (pair_fst_eq _ _ _)); by vm_compute.
Defined.

(** ** Where the storage falls short *)

(** The disk monitor compares a percentage between 0 and 100 with the limit
    [DiskCacheMaxUsagePct]: with the default 0.95 of the configuration, a cache
    directory that fills one hundredth of its disk turns the disk tier off. *)
Theorem monitor_limit_unit {C} `{RC : Ristretto C} cfg dirs0 c b pf m data available total :
  DiskCacheDir cfg = "/cache" →
  DiskCacheMaxUsagePct cfg = f64_div (f64_of_Z 95) (f64_of_Z 100) →
  zlen data = 1024 * 1024 →
  diskCachedUsageExceeded (monitor_tick (C:=C) cfg None (Ok (100, 1024 * 1024)) available total
    (mkCAS c (mkDisk {[ "/cache/x/x-0" := data ]} dirs0 []) b pf m)).2 = true.
Proof.
  intros Hdir Hpct Hlen. unfold monitor_tick, mbind, M_bind, get. simpl.
  unfold GetDiskCacheMetrics, getDiskUsageMb, getTotalDiskSpaceMb, walk_bytes, diskCacheDir. simpl.
  rewrite map_fold_singleton, Hdir. simpl. rewrite Hlen, Hpct. by vm_compute.
Qed.

Definition one_mb : list byte := replicate (Z.to_nat (1024 * 1024)) x00.

Lemma one_mb_length : zlen one_mb = 1024 * 1024.
Proof. unfold zlen, one_mb. rewrite length_replicate. lia. Qed.

Lemma monitor_limit_unit_witness :
  diskCachedUsageExceeded
    (monitor_tick (small_config 4 (f64_div (f64_of_Z 95) (f64_of_Z 100))) None
       (Ok (100, 1024 * 1024)) 1 2
       (mkCAS (∅ : gmap string cache_item) (mkDisk {[ "/cache/x/x-0" := one_mb ]} ∅ []) false
          NewPrefetcher no_metrics)).2 = true.
Proof.
  apply (monitor_limit_unit (small_config 4 (f64_div (f64_of_Z 95) (f64_of_Z 100))));
    [reflexivity|reflexivity|apply one_mb_length].
Defined.

(** A write cut short, a read that loads the short page, and a second [Add] that
    succeeds: the page in memory is not refreshed, and reads stay short. *)
Example retry_keeps_short_page :
  let cfg := small_config 4 f_zero in
  let s0 := set_disk (mkDisk ∅ {[ "/cache" ]} [IoOk; IoPartial 2]) fresh in
  let s1 := (Add cfg "a1" abc s0).2 in
  let s2 := (Get cfg 0 0 "a1" 0 4 (replicate 4 x00) s1).2 in
  let '(r3, s3) := Add cfg "a1" abc s2 in
  (Add cfg "a1" abc s0).1 = Err (ErrWrap "failed to write to disk cache" io_error) ∧
  r3 = Ok tt ∧
  (Get cfg 0 0 "a1" 0 10 (replicate 10 x00) s3).1 = Ok (2, take 2 abc ++ replicate 8 x00).
Proof. by vm_compute. Qed.

(** Pages of four bytes left on disk, read after a restart with pages of two:
    the bytes are not those of the content, and there is no error. *)
Example page_size_change_corrupts :
  let s := mkCAS (∅ : gmap string cache_item) (disk_ (after_add 4)) false NewPrefetcher no_metrics in
  (Get (small_config 2 f_zero) 0 0 "a1" 0 6 (replicate 6 x00) s).1 =
    Ok (6, bytes_of_string "abcdij").
Proof. by vm_compute. Qed.

(** After an eviction the index is still there, and the content still exists. *)
Example evicted_still_exists :
  let s := (onEvict (Chunk (mkValue "a1" [])) (after_add 4)).2 in
  (Exists (small_config 4 f_zero) "a1" (set_disk (mkDisk ∅ ∅ []) s)).1 = Ok true ∧
  (Get (small_config 4 f_zero) 0 0 "a1" 0 6 (replicate 6 x00) (set_disk (mkDisk ∅ ∅ []) s)).1 =
    Err ErrContentNotFound.
Proof. by vm_compute. Qed.

(** The hash of a request is not checked: one with dots leaves the cache
    directory, and serves a file of the host whose name ends in a number. *)
Example hash_leaves_cache_dir :
  let s := set_disk (mkDisk {[ "/etc/x-0" := abc ]} ∅ []) fresh in
  (Get (small_config 4 f_zero) 0 0 "../../etc/x" 0 3 (replicate 3 x00) s).1 =
    Ok (3, take 3 abc).
Proof. by vm_compute. Qed.
