(* ===== verification/StorageThreads.v ===== *)
(** * The storage under concurrent calls

    The operations of [Storage.v] as threads: one step per access to the memory
    cache, the disk, the metrics or the prefetcher, and two per written file, since
    [os.WriteFile] truncates before it writes.  [Storage.v] is what a thread does
    when it runs alone; here any number of gRPC handlers, prefetch workers, eviction
    callbacks and monitor ticks interleave.  The mutex of [getFromDiskCache] is left
    out, which only allows more interleavings. *)

From S2P Require Import Prelude GoStrings Threads GoPath FsID GoFloat Types Disk BufferPool Prefetcher.
From S2P Require Import Storage StorageCorrect StorageRuns StorageProps.
Local Open Scope Z_scope.

(** ** [os.WriteFile] in two steps *)

(** The file is created or truncated; the outcome is the one of the write to come. *)
Definition WriteFile_open (p : string) : M disk io_outcome :=
  o ← next_io;
  d ← get;
  if bool_decide (parent p ∈ dirs d ∧ p ∉ dirs d) then
    match o with
    | IoErr => throw io_error
    | _ => modify (λ d, mkDisk (<[p := []]> (files d)) (dirs d) (io d)) ≫= λ _, mret o
    end
  else throw not_exist.

(** Data written from the start of a file that another thread may have written. *)
Definition overwrite (data old : list byte) : list byte := data ++ drop (length data) old.

Definition WriteFile_write (p : string) (data : list byte) (o : io_outcome) : M disk () :=
  let put data := modify (λ d,
    mkDisk (<[p := overwrite data (default [] (files d !! p))]> (files d)) (dirs d) (io d)) in
  match o with
  | IoOk => put data
  | IoPartial n => put (take n data) ≫= λ _, throw io_error
  | IoErr => throw io_error
  end.

(** ** The operations *)

Section threads.
Context {C : Type} `{Ristretto C}.
Context (serverConfig : BlobCacheServerConfig).
Abbreviation T := (thread (CAS C)).
Abbreviation page := (page serverConfig).
Abbreviation diskCacheDir := (diskCacheDir serverConfig).
Abbreviation ttl := (ttl serverConfig).

Definition or_panicT {A} (p : panic) (o : option A) : T A :=
  match o with Some a => mret a | None => Done (Panic p) end.

Definition wrap_errT {A} (msg : string) (t : T A) : T A :=
  r ← attemptT t;
  match r with inl a => mret a | inr e => throwT (ErrWrap msg e) end.

Definition WriteFileT (p : string) (data : list byte) : T () :=
  o ← lift (on_disk (WriteFile_open p));
  lift (on_disk (WriteFile_write p data o)).

Definition Add_bodyT (hash dirPath : string) (content : list byte) (x : Z * list string) :
    T (Z * list string + list string) :=
  let '(offset, chunkKeys) := x in
  let size := zlen content in
  if bool_decide (offset < size) then
    let chunkIdx := (offset / page)%go in
    let end0 := (offset +! page)%go in
    let end_ := if bool_decide (end0 > size) then size else end0 in
    chunk ← or_panicT PanicSlice (slice content offset end_);
    let chunkKey := mkChunkKey hash chunkIdx in
    exceeded ← lift (gets diskCachedUsageExceeded);
    (if exceeded : bool then mret tt
     else wrap_errT "failed to write to disk cache"
            (WriteFileT (Join [dirPath; chunkKey]) chunk)) ≫= λ _,
    let next := ((offset +! page)%go, chunkKeys ++ [chunkKey]) in
    exists_ ← lift (on_cache (rc_getttl chunkKey));
    if exists_ : bool then mret (inl next)
    else
      added ← lift (on_cache (rc_set chunkKey (Chunk (mkValue hash chunk)) (zlen chunk)));
      if added : bool then mret (inl next) else throwT (ErrNew "unable to cache: set dropped")
  else mret (inr chunkKeys).

Definition AddT (hash : string) (content : list byte) : T () :=
  let dirPath := Join [diskCacheDir; hash] in
  exceeded ← lift (gets diskCachedUsageExceeded);
  (if exceeded : bool then mret tt
   else wrap_errT "failed to create cache directory" (lift (on_disk (MkdirAll dirPath)))) ≫= λ _,
  chunkKeys ← loopT (Pos.to_nat (Z.to_pos (zlen content + 2))) (Add_bodyT hash dirPath content) (0, []);
  let chunks := join "," chunkKeys in
  added ← lift (on_cache (rc_setttl hash (Index chunks) (Z.of_nat (String.length chunks)) ttl));
  if added : bool then mret tt else throwT (ErrNew "unable to cache: set dropped").

Definition ExistsT (hash : string) : T bool :=
  exists_ ← lift (on_cache (rc_getttl hash));
  if exists_ : bool then mret true
  else
    r ← attemptT (lift (on_disk (StatIsDir (Join [diskCacheDir; hash]))));
    match r with inl isDir => mret isDir | inr _ => mret false end.

Definition getFromDiskCacheT (hash chunkKey : string) : T cacheValue :=
  rawValue ← lift (on_cache (rc_get chunkKey));
  match rawValue with
  | Some (Chunk v) => mret v
  | Some (Index _) => Done (Panic PanicType)
  | None =>
      let chunkPath := Join [diskCacheDir; hash; chunkKey] in
      opened ← attemptT (lift (on_disk (OpenFile chunkPath)));
      match opened with
      | inr _ => throwT ErrContentNotFound
      | inl _ =>
          read ← attemptT (lift (on_disk (ReadFile chunkPath)));
          match read with
          | inr _ => throwT ErrContentNotFound
          | inl chunkBytes =>
              let value := mkValue hash chunkBytes in
              lift (on_cache (rc_set chunkKey (Chunk value) (zlen chunkBytes))) ≫= λ _,
              mret value
          end
      end
  end.

Definition fetchT (hash chunkKey : string) : T (option (cache_item * bool)) :=
  value ← lift (on_cache (rc_get chunkKey));
  match value with
  | Some it => lift (on_metrics inc_l0) ≫= λ _, mret (Some (it, true))
  | None =>
      r ← attemptT (getFromDiskCacheT hash chunkKey);
      match r with
      | inr _ => lift (on_metrics inc_l2) ≫= λ _, mret None
      | inl v => lift (on_metrics inc_l1) ≫= λ _, mret (Some (Chunk v, false))
      end
  end.

Definition Get_bodyT (hash : string) (x : read_state) : T (read_state + read_end) :=
  if bool_decide (0 < remainingLength x) then
    got ← fetchT hash (mkChunkKey hash (o x / page)%go);
    lift (Get_page serverConfig x got)
  else mret (inr (mkEnd None (dstOffset x) (dst_ x))).

Definition GetT (now us : Z) (hash : string) (offset length : Z) (dst : list byte) :
    T (Z * list byte) :=
  lift (on_metrics inc_total) ≫= λ _,
  lift (zoom prefetcher set_prefetcher (OnRead now hash offset length)) ≫= λ _,
  lift (modify (λ s, set_cache (rc_resetttl hash ttl (cache s)) s)) ≫= λ _,
  r ← loopT (Pos.to_nat (Z.to_pos (length + 1))) (Get_bodyT hash) (mkRead length offset 0 dst);
  (if bool_decide (r_n r > 0)
   then lift (on_metrics (observe "blobcache_read_throughput_mbps" (throughput (r_n r) us)))
   else mret tt) ≫= λ _,
  lift updateHitRatios ≫= λ _,
  match r_err r with
  | None => mret (r_n r, r_dst r)
  | Some e => throwT e
  end.

Definition onEvictT (item : cache_item) : T () :=
  chunkKeys ←
    match item with
    | Chunk v =>
        chunks ← lift (on_cache (rc_get (v_Hash v)));
        match chunks with
        | None => mret []
        | Some (Index s) => mret (split_on "," s)
        | Some (Chunk _) => Done (Panic PanicType)
        end
    | Index s => mret (split_on "," s)
    end;
  forT chunkKeys (λ k, lift (on_cache (λ c, (tt, rc_del k c)))).

(** On the storage of a node. *)
Definition on_node {A} (t : T A) : thread (CAS C * BufferPool) A := zoomT fst (λ c s, (c, s.2)) t.

Definition workerT (now us : Z) (pick : option nat) : thread (CAS C * BufferPool) () :=
  t ← lift (λ s, let '(t, pf) := dequeue (prefetcher s.1) in (Ok t, (set_prefetcher pf s.1, s.2)));
  match t with
  | None => mret tt
  | Some task =>
      known ← on_node (ExistsT (t_hash task));
      if known : bool then
        dst ← lift (zoom snd (λ b s, (s.1, b)) (BufferPool.Get pick (t_length task)));
        ignoreT (on_node (GetT now us (t_hash task) (t_offset task) (t_length task)
                     (replicate (Z.to_nat (cap dst)) x00))) ≫= λ _,
        lift (zoom snd (λ b s, (s.1, b)) (BufferPool.Put (Some dst)))
      else mret tt
  end.

End threads.

(** ** A thread that runs alone is the operation *)

Section alone.
Context {C : Type} `{Ristretto C}.
Context (cfg : BlobCacheServerConfig).

Lemma run_bind_eq {S A B} (t : thread S A) (f : A → thread S B) (m : M S A) (g : A → M S B) :
  (∀ s, run t s = m s) → (∀ a s, run (f a) s = g a s) → ∀ s, run (t ≫= f) s = (m ≫= g) s.
Proof.
  intros Ht Hf s. rewrite run_bind. unfold mbind, M_bind. rewrite Ht.
  by destruct (m s) as [[a|e|p] s'].
Qed.

Lemma run_attempt_eq {S A} (t : thread S A) (m : M S A) :
  (∀ s, run t s = m s) → ∀ s, run (attemptT t) s = attempt m s.
Proof. intros Ht s. rewrite run_attempt. unfold attempt. by rewrite Ht. Qed.

Lemma run_for_eq {S X} (l : list X) (body : X → thread S ()) (bodyM : X → M S ()) :
  (∀ x s, run (body x) s = bodyM x s) → ∀ s, run (forT l body) s = forM l bodyM s.
Proof. intros Hb. induction l as [|x l IH]; [done|]. by apply run_bind_eq. Qed.

Lemma run_on_node {A} (t : thread (CAS C) A) (m : M (CAS C) A) :
  (∀ s, run t s = m s) →
  ∀ s : CAS C * BufferPool, run (on_node t) s = zoom fst (λ c s, (c, s.2)) m s.
Proof.
  intros Ht s. unfold on_node. rewrite run_zoom; [|done..|by intros []].
  unfold zoom. by rewrite Ht.
Qed.

(** The steps of an equation between a thread and a computation. *)
Ltac run_step :=
  match goal with
  | |- ∀ _, _ => intro
  | |- run (_ ≫= _) ?s = (_ ≫= _) ?s => apply run_bind_eq
  | |- run (attemptT _) ?s = attempt _ ?s => apply run_attempt_eq
  | |- run (forT _ _) ?s = forM _ _ ?s => apply run_for_eq
  | |- run (on_node _) ?s = _ => apply run_on_node
  | |- run (lift _) ?s = _ => apply run_lift
  | |- run (match ?x with _ => _ end) ?s = (match ?x with _ => _ end) ?s => destruct x
  | |- run (loopT (Pos.to_nat _) _ _) ?s = loopM _ _ _ ?s => apply run_loop
  | |- _ = _ => reflexivity
  end.
Ltac run_auto := repeat run_step.

Lemma run_WriteFile p data s : run (WriteFileT p data) s = on_disk (C:=C) (WriteFile p data) s.
Proof.
  unfold WriteFileT. rewrite run_bind. unfold mbind at 1, M_bind. rewrite run_lift.
  unfold on_disk, zoom, WriteFile_open, WriteFile, mbind, M_bind, next_io, get.
  destruct s as [c [fs ds os] ex pf m]. simpl. destruct os as [|o os]; simpl;
    (case_bool_decide; [|done]); [|destruct o]; try done;
    unfold run, lift, WriteFile_write, modify, overwrite; simpl;
    rewrite lookup_insert_eq, insert_insert_eq; simpl; by rewrite drop_nil, app_nil_r.
Qed.

Lemma run_wrap_eq {A} msg (t : thread (CAS C) A) m :
  (∀ s, run t s = m s) → ∀ s, run (wrap_errT msg t) s = wrap_err msg m s.
Proof. intros Ht. unfold wrap_errT, wrap_err. run_auto. apply Ht. Qed.

Lemma run_or_panic {A} p (o : option A) (s : CAS C) : run (or_panicT p o) s = or_panic p o s.
Proof. by destruct o. Qed.

Lemma run_Add hash content s : run (AddT cfg hash content) s = Add cfg hash content s.
Proof.
  unfold AddT, Add. run_auto; [apply run_wrap_eq; run_auto|].
  unfold Add_bodyT, Add_body. run_auto; [apply run_or_panic|].
  apply run_wrap_eq. apply run_WriteFile.
Qed.

Lemma run_Exists hash s : run (ExistsT cfg hash) s = Exists cfg hash s.
Proof. unfold ExistsT, Exists. run_auto. Qed.

Lemma run_fetch hash k s : run (fetchT cfg hash k) s = fetch cfg hash k s.
Proof. unfold fetchT, fetch, getFromDiskCacheT, getFromDiskCache. run_auto. Qed.

Lemma run_Get now us hash offset length dst s :
  run (GetT cfg now us hash offset length dst) s = Get cfg now us hash offset length dst s.
Proof.
  unfold GetT, Get. run_auto. unfold Get_bodyT, Get_body. run_auto. apply run_fetch.
Qed.

Lemma run_onEvict item (s : CAS C) : run (onEvictT item) s = onEvict item s.
Proof. unfold onEvictT, onEvict. run_auto. Qed.

(** The concurrent definitions refine the sequential ones: a call that nothing
    interrupts does what the operation of the storage does, on every state, errors,
    panics and failing system calls included. *)
Theorem alone_is_sequential hash content now us offset length dst item pick
    (s : CAS C) (n : CAS C * BufferPool) :
  run (AddT cfg hash content) s = Add cfg hash content s ∧
  run (GetT cfg now us hash offset length dst) s = Get cfg now us hash offset length dst s ∧
  run (ExistsT cfg hash) s = Exists cfg hash s ∧
  run (onEvictT item) s = onEvict item s ∧
  run (workerT cfg now us pick) n = worker cfg now us pick n.
Proof.
  split_and!; [apply run_Add|apply run_Get|apply run_Exists|apply run_onEvict|].
  unfold workerT, worker. run_auto; [apply run_Exists|].
  unfold ignoreT, ignore. run_auto. apply run_Get.
Qed.

End alone.

(** ** Safety of the operations *)

Section safety.
Context {C : Type} `{RC : Ristretto C} {RL : RistrettoLaws C}.
Context (cfg : BlobCacheServerConfig) (stored : gmap string (list byte)).
Context (Hcfg : valid_config cfg) (Hstored : valid_stored stored).
(** A page can be seen while it is written: writes count as cut. *)
Abbreviation I := (Inv cfg stored true).
Abbreviation D := (disk_ok (file_ok cfg stored true) (fault_ok true)).

Definition store_ok (st : CAS C) : Prop := I st ∧ pf_ok (prefetcher st).
Abbreviation safeS := (safe store_ok).

Lemma safe_action {A} (m : M (CAS C) A) (Q : A → Prop) (E : error → Prop) :
  triple I m (λ a st, I st ∧ Q a) (λ e st, I st ∧ E e) →
  keeps (λ st, pf_ok (prefetcher st)) m → safeS Q E (lift m).
Proof.
  intros Hm Hk. apply safe_lift. intros st [HI Hpf]. specialize (Hm st HI). specialize (Hk st Hpf).
  unfold store_ok. destruct (m st) as [[a|e|p] st']; simpl in *; naive_solver.
Qed.

Lemma safe_action_any {A} (m : M (CAS C) A) :
  triple I m (λ _, I) (λ _, I) → keeps (λ st, pf_ok (prefetcher st)) m →
  safeS (λ _, True) (λ _, True) (lift m).
Proof. intros Hm. apply safe_action. eapply triple_conseq; [done..| |]; by intros. Qed.

(** The accesses to the memory cache, the metrics and the prefetcher, which do not
    fail. *)
Abbreviation ID := (InvD cfg stored true D).
Lemma safe_access {A} (m : M (CAS C) A) E :
  (∀ E', triple ID m (λ _, ID) E') → keeps (λ st, pf_ok (prefetcher st)) m →
  safeS (λ _, True) E (lift m).
Proof.
  intros Hm. apply safe_action.
  eapply triple_conseq; [apply (Hm (λ _ _, False))|done|by intros|done].
Qed.

Lemma safe_rc_get k E :
  safeS (λ o, ∀ it, o = Some it → item_ok cfg stored true k it) E (lift (on_cache (rc_get k))).
Proof. apply safe_action; [by apply rc_get_ok|apply on_cache_pf]. Qed.

Lemma safe_rc_getttl k E : safeS (λ _, True) E (lift (on_cache (rc_getttl k))).
Proof. apply safe_access; [intros; by apply rc_getttl_ok|apply on_cache_pf]. Qed.

Lemma safe_rc_set k it n E :
  item_ok cfg stored true k it → safeS (λ _, True) E (lift (on_cache (rc_set k it n))).
Proof. intros Hit. apply safe_access; [intros; by apply rc_set_ok|apply on_cache_pf]. Qed.

Lemma safe_rc_setttl k it n t E :
  item_ok cfg stored true k it → safeS (λ _, True) E (lift (on_cache (rc_setttl k it n t))).
Proof. intros Hit. apply safe_access; [intros; by apply rc_setttl_ok|apply on_cache_pf]. Qed.

Lemma safe_rc_del k E : safeS (λ _, True) E (lift (on_cache (λ c, (tt, rc_del k c)))).
Proof. apply safe_access; [intros; by apply rc_del_ok|apply on_cache_pf]. Qed.

Lemma safe_metrics f E : safeS (λ _, True) E (lift (on_metrics f)).
Proof. apply safe_access; [intros; by apply on_metrics_ok|apply on_metrics_pf]. Qed.

Lemma safe_gets {A} (f : CAS C → A) E : safeS (λ _, True) E (lift (gets f)).
Proof. apply safe_lift, triple_gets. by intros. Qed.

(** The system calls. *)
Lemma safe_disk {A} (m : M disk A) (Q : A → Prop) :
  triple D m (λ a d, D d ∧ Q a) (λ _, D) → safeS Q (λ _, True) (lift (on_disk m)).
Proof.
  intros Hm. apply safe_action; [|apply on_disk_pf].
  eapply triple_conseq; [apply (on_disk_ok cfg stored true D _ _ _ Hm)|done|..];
    unfold Inv, InvD; naive_solver.
Qed.

Lemma safe_disk_any {A} (m : M disk A) :
  triple D m (λ _, D) (λ _, D) → safeS (λ _, True) (λ _, True) (lift (on_disk m)).
Proof. intros Hm. apply safe_disk. eapply triple_conseq; [done..| |]; by intros. Qed.

(** A page that is written over a part of itself. *)
Lemma overwrite_prefix (data old whole : list byte) :
  data `prefix_of` whole → old `prefix_of` whole → overwrite data old `prefix_of` whole.
Proof.
  intros [k ->] Ho. unfold overwrite. destruct (decide (length old ≤ length data)%nat).
  - rewrite drop_ge by done. rewrite app_nil_r. by eexists.
  - apply prefix_app. destruct Ho as [k' E].
    assert (old = data ++ drop (length data) old) as E'.
    { rewrite <-(take_drop (length data) old) at 1. f_equal.
      apply (f_equal (take (length data))) in E.
      rewrite take_app_length, take_app_le in E by lia. done. }
    rewrite E', <-(assoc_L (++)) in E. apply app_inv_head in E. by eexists.
Qed.

Lemma prefix_file h content k data :
  stored !! h = Some content → 0 ≤ k → k * page cfg < zlen content →
  data `prefix_of` nth_page cfg content k → file_ok cfg stored true (chunk_path cfg h k) data.
Proof. intros Hh Hk Hlt Hp. exists h, k. split; [done|]. by exists content. Qed.

Section write.
Context (h : string) (content : list byte) (k : Z).
Context (Hh : stored !! h = Some content) (Hk : 0 ≤ k) (Hlt : k * page cfg < zlen content).
Abbreviation path := (chunk_path cfg h k).

Lemma open_ok : triple D (WriteFile_open path) (λ _, D) (λ _, D).
Proof.
  unfold WriteFile_open. eapply triple_bind; [apply next_io_ok|].
  intros o d [[Hf Hq] _]. unfold mbind, M_bind, get. simpl. case_bool_decide; [|by split].
  destruct o; simpl; (split; [|done]); try done;
    (apply map_Forall_insert_2; [apply (prefix_file h content); [done..|apply prefix_nil]|done]).
Qed.

Lemma old_prefix d : D d → default [] (files d !! path) `prefix_of` nth_page cfg content k.
Proof.
  intros [Hf _]. destruct (files d !! path) as [old|] eqn:E; [|apply prefix_nil]. simpl.
  destruct (file_ok_page cfg stored true Hcfg Hstored h k old) as (c & Hc & _ & _ & Hp & _).
  { by apply (Hstored _ _ Hh). } { by apply (Hf _ _ E). } by simplify_eq.
Qed.

Lemma put_ok o : triple D (WriteFile_write path (nth_page cfg content k) o) (λ _, D) (λ _, D).
Proof.
  intros d HD. pose proof (old_prefix d HD) as Ho. destruct HD as [Hf Hq].
  assert (∀ data, data `prefix_of` nth_page cfg content k →
    D (mkDisk (<[path := overwrite data (default [] (files d !! path))]> (files d)) (dirs d) (io d))) as Hput.
  { intros data Hp. split; [|done]. apply map_Forall_insert_2; [|done].
    apply (prefix_file h content); [done..|]. by apply overwrite_prefix. }
  destruct o as [| |n]; [by apply Hput|by split|]. apply Hput, prefix_take.
Qed.

Lemma safe_WriteFile :
  safeS (λ _, True) (λ _, True) (WriteFileT path (nth_page cfg content k)).
Proof.
  eapply safe_bind; [apply safe_disk_any, open_ok|]. intros o _. apply safe_disk_any, put_ok.
Qed.

End write.

(** *** Reading *)

Abbreviation any := (λ _ : Z, True).

Lemma safe_getFromDiskCache h i :
  valid_hash h →
  safeS (λ v, v_Hash v = h ∧ page_of cfg stored true h i (v_Content v)) (λ _, True)
    (getFromDiskCacheT cfg h (mkChunkKey h i)).
Proof.
  intros Hh. unfold getFromDiskCacheT. eapply safe_bind; [apply safe_rc_get|]. intros [it|] Hit.
  { destruct (item_ok_key cfg stored true Hstored h i it Hh (Hit it eq_refl)) as (data & -> & Hp).
    by split. }
  eapply safe_bind_attempt; [apply safe_disk_any, OpenFile_ok| |by intros]. intros _ _.
  eapply safe_bind_attempt; [apply safe_disk, ReadFile_ok| |by intros].
  intros data Hf%(file_ok_page cfg stored true Hcfg Hstored); [|done].
  eapply safe_bind; [apply safe_rc_set; by exists i|]. by intros _ _.
Qed.

Lemma safe_fetch h x E :
  valid_hash h →
  safeS (got_ok cfg stored true h any x) E (fetchT cfg h (mkChunkKey h (Z.quot (o x) (page cfg)))).
Proof.
  intros Hh. unfold fetchT. eapply safe_bind; [apply safe_rc_get|]. intros [it|] Hit.
  { destruct (item_ok_key cfg stored true Hstored h _ it Hh (Hit it eq_refl)) as (data & -> & Hp).
    eapply safe_bind; [apply safe_metrics|]. intros _ _. simpl. eauto. }
  eapply safe_bind_attempt; [by apply safe_getFromDiskCache|..].
  - intros [h' data] [Hv Hp]. simpl in Hv, Hp. subst h'.
    eapply safe_bind; [apply safe_metrics|]. intros _ _. simpl. eauto.
  - intros e _. eapply safe_bind; [apply safe_metrics|]. by intros _ _.
Qed.

Lemma Get_page_pf x got : keeps (λ st : CAS C, pf_ok (prefetcher st)) (Get_page cfg x got).
Proof. pose proof (on_metrics_pf (C:=C)). unfold Get_page. keeps_auto. Qed.

Lemma safe_Get now us h offset len dst :
  valid_hash h → int64_range offset → int64_range len → len ≤ zlen dst →
  safeS (λ r, end_ok cfg stored true h any offset len dst (mkEnd None r.1 r.2))
    (λ e, ∃ n dst', end_ok cfg stored true h any offset len dst (mkEnd (Some e) n dst'))
    (GetT cfg now us h offset len dst).
Proof.
  intros Hh Ho Hl Hd. unfold GetT. eapply safe_bind; [apply safe_metrics|]. intros _ _.
  eapply (safe_bind _ _ _ (λ _, True)).
  { apply safe_lift. intros st [HI Hpf]. unfold zoom, store_ok.
    destruct (OnRead_Ok now h offset len (prefetcher st)) as [pf Epf].
    pose proof (OnRead_pf now h offset len (prefetcher st) Hh Hpf) as Hpf'.
    rewrite Epf in *. by split_and!. }
  intros _ _. eapply (safe_bind _ _ _ (λ _, True)).
  { apply safe_lift, triple_modify. intros st [[HI HD] Hpf]. split; [|done]. split; [|done].
    split; [|done]. simpl. eapply items_ok_sub; [apply rc_resetttl_sub|done]. }
  intros _ _. eapply (safe_bind _ _ _ (end_ok cfg stored true h any offset len dst)).
  { apply (safe_loop _ _ _ (read_ok stored h offset len dst) (λ x, Z.max 0 (remainingLength x)));
      [|repeat split; simpl in *; try lia; done|lia|simpl; lia].
    intros x Hx. unfold Get_bodyT. case_bool_decide as Hpos; [|by apply read_all_ok].
    eapply safe_bind; [by apply safe_fetch|]. intros got Hgot.
    apply safe_action; [|apply Get_page_pf].
    eapply triple_conseq;
      [by apply (Get_page_ok cfg stored true Hcfg Hstored D h any offset len dst Hl Hd x got (λ _ _, False))
      |done|by intros|done]. }
  intros r Hr. eapply (safe_bind _ _ _ (λ _, True)).
  { case_bool_decide; [apply safe_metrics|done]. }
  intros _ _. eapply safe_bind; [apply safe_metrics|]. intros _ _.
  destruct r as [[e|] n d]; simpl; eauto.
Qed.

(** *** Writing, eviction, existence *)

Lemma safe_Exists h E : safeS (λ _, True) E (ExistsT cfg h).
Proof.
  unfold ExistsT. eapply safe_bind; [apply safe_rc_getttl|]. intros [] _; [done|].
  eapply safe_bind_attempt; [apply safe_disk_any, StatIsDir_ok|by intros|by intros].
Qed.

Lemma safe_wrap {A} msg (t : thread (CAS C) A) (Q : A → Prop) :
  safeS Q (λ _, True) t → safeS Q (λ _, True) (wrap_errT msg t).
Proof. intros Ht. unfold wrap_errT. by eapply safe_bind_attempt. Qed.

Lemma safe_onEvict k item :
  item_ok cfg stored true k item → safeS (λ _, True) (λ _, True) (onEvictT item).
Proof.
  intros Hit. unfold onEvictT. eapply (safe_bind _ _ _ (λ _, True)).
  2: { intros keys _. apply safe_for. intros x _. apply safe_rc_del. }
  destruct item as [v|s]; [|done].
  destruct Hit as (i & -> & Hp%(page_of_valid cfg stored true Hstored)).
  eapply safe_bind; [apply safe_rc_get|]. intros [[v'|s]|] Hit; [|done..].
  destruct (Hit _ eq_refl) as (j & E' & _). exfalso.
  destruct Hp as (_ & Hd & _). by rewrite E', mkChunkKey_dash in Hd.
Qed.

(** The loop variables of [Add] at page [k]. *)
Definition add_at (h : string) (content : list byte) (x : Z * list string) : Prop :=
  ∃ k, x = (k * page cfg, map (mkChunkKey h) (seqZ 0 k)) ∧ 0 ≤ k ∧
       (k = 0 ∨ (k - 1) * page cfg < zlen content).

Lemma safe_Add h content :
  stored !! h = Some content → safeS (λ _, True) (λ _, True) (AddT cfg h content).
Proof.
  intros Hh. destruct Hcfg as [Hpg Hdne]. destruct (Hstored _ _ Hh) as [Hvh Hsz].
  unfold AddT. eapply safe_bind; [apply safe_gets|]. intros exceeded _.
  eapply (safe_bind _ _ _ (λ _, True)).
  { destruct exceeded; [done|]. apply safe_wrap, safe_disk_any, MkdirAll_ok. }
  intros _ _. eapply (safe_bind _ _ _ (eq (map (mkChunkKey h) (seqZ 0 (num_pages cfg content))))).
  { apply (safe_loop _ _ _ (add_at h content) (λ x, Z.max 0 (zlen content - x.1)));
      [|by exists 0; split_and!; [|lia|left]|lia|pose proof (zlen_nonneg content); simpl; lia].
    intros x (k & -> & Hk & Hk1). unfold Add_bodyT. case_bool_decide as Hlt.
    2: { simpl. by rewrite <-(num_pages_spec cfg Hcfg content k Hk Hk1 ltac:(lia)). }
    rewrite Z.quot_mul by lia. rewrite (add_slice cfg Hcfg content k Hsz Hk Hlt).
    rewrite wrap64_id by (unfold int64_range; nia). cbn [or_panicT].
    eapply (safe_bind _ _ _ (eq (nth_page cfg content k))); [done|]. intros chunk <-.
    eapply safe_bind; [apply safe_gets|]. intros ex _.
    eapply (safe_bind _ _ _ (λ _, True)).
    { destruct ex; [done|]. apply safe_wrap. rewrite (Join_dir_key cfg) by done.
      by apply safe_WriteFile. }
    intros _ _. rewrite keys_snoc by done.
    assert (add_at h content (k * page cfg + page cfg, map (mkChunkKey h) (seqZ 0 (k + 1))) ∧
      0 ≤ Z.max 0 (zlen content - (k * page cfg + page cfg)) < Z.max 0 (zlen content - k * page cfg))
      as Hnext.
    { split; [|nia]. exists (k + 1). split_and!; [f_equal; lia|lia|right].
      by replace (k + 1 - 1) with k by lia. }
    eapply safe_bind; [apply safe_rc_getttl|]. intros [] _; [done|].
    eapply safe_bind; [apply safe_rc_set|by intros [] _].
    exists k. split; [done|]. exists content. split_and!; [done..| |done]. exists [].
    by rewrite app_nil_r. }
  intros keys <-. eapply safe_bind; [apply safe_rc_setttl; by exists content|].
  by intros [] _.
Qed.

(** *** The workers, and the calls of a node *)

Abbreviation nodeS := (CAS C * BufferPool)%type.
Abbreviation J := (node_ok cfg stored true : nodeS → Prop).

Lemma safe_on_node {A} (t : thread (CAS C) A) Q E : safeS Q E t → safe J Q E (on_node t).
Proof.
  apply safe_zoom; [by intros s (HI & Hpf & _)|]. intros s x (_ & _ & Hwf) [HI Hpf]. done.
Qed.

#[local] Arguments BufferPool.Get : simpl never.
#[local] Arguments BufferPool.Put : simpl never.

Definition task_ok (t : prefetchTask) : Prop :=
  valid_hash (t_hash t) ∧ int64_range (t_offset t) ∧ t_length t = prefetchChunkSize.

Lemma safe_dequeue :
  safe J (λ t, from_option task_ok True t) (λ _, False)
    (lift (λ s : nodeS, let '(t, pf) := dequeue (prefetcher s.1) in
                        (Ok t, (set_prefetcher pf s.1, s.2)))).
Proof.
  apply safe_lift. intros [st bp] (HI & [Hsp Hq] & Hwf). simpl in *. unfold dequeue.
  destruct (workQueue (prefetcher st)) as [|task q] eqn:Eq; simpl.
  { split; [|done]. split_and!; [done| |done]. split; simpl; [done|by rewrite Eq]. }
  apply Forall_cons in Hq as [Ht Hq]. by split_and!.
Qed.

Lemma safe_buffer_Get pick len :
  0 ≤ len ≤ BufferSize16MB →
  safe J (λ b, cap b = selectPoolSize len) (λ _, False)
    (lift (zoom snd (λ b (s : nodeS), (s.1, b)) (BufferPool.Get pick len))).
Proof.
  intros Hlen. apply safe_lift. intros [st bp] (HI & Hpf & Hwf). unfold zoom. simpl in *.
  destruct (Get_fits bp pick len Hwf Hlen) as (b & bp2 & -> & _ & Hcap & Hwf2). by split_and!.
Qed.

Lemma safe_buffer_Put b :
  safe J (λ _, True) (λ _, False)
    (lift (zoom snd (λ bp (s : nodeS), (s.1, bp)) (BufferPool.Put (Some b)))).
Proof.
  apply safe_lift. intros [st bp] (HI & Hpf & Hwf). unfold zoom. simpl in *.
  pose proof (Put_wf bp b Hwf) as Hput. destruct (Put_Ok b bp) as [bp3 E]. rewrite E in *.
  by split_and!.
Qed.

Lemma safe_worker now us pick : safe J (λ _, True) (λ _, False) (workerT cfg now us pick).
Proof.
  unfold workerT. eapply safe_bind; [apply safe_dequeue|]. intros [task|] Ht; [|done].
  destruct Ht as (Hh & Ho & Hl).
  eapply safe_bind; [apply safe_on_node, safe_Exists|]. intros [] _; [|done].
  assert (0 ≤ prefetchChunkSize ≤ BufferSize16MB) as Hfit by by unfold prefetchChunkSize, BufferSize16MB.
  eapply safe_bind; [apply safe_buffer_Get; by rewrite Hl|]. intros b Hcap.
  eapply (safe_bind _ _ _ (λ _, True)); [|intros _ _; apply safe_buffer_Put].
  apply safe_ignore. eapply safe_conseq; [apply safe_on_node, safe_Get| |]; [done..| | |by intros|by intros].
  - rewrite Hl. by unfold int64_range, prefetchChunkSize.
  - rewrite Hcap, Hl. unfold zlen. rewrite length_replicate.
    pose proof (selectPoolSize_pos prefetchChunkSize). pose proof (selectPoolSize_fits prefetchChunkSize (proj2 Hfit)).
    lia.
Qed.

End safety.

(** ** A storage with concurrent calls *)

Section concurrent.
Context {C : Type} `{RC : Ristretto C}.
Context (cfg : BlobCacheServerConfig) (stored : gmap string (list byte)).

(** A call of a handler or of a goroutine, and what it returns. *)
Inductive call : Type :=
  | CallAdd (hash : string) (content : list byte)
  | CallGet (now us : Z) (hash : string) (offset length : Z) (dst : list byte)
  | CallExists (hash : string)
  | CallEvict (k : string) (item : cache_item)
  | CallMonitor (walk_err : option error) (statfs : res (Z * Z)) (available total : Z)
  | CallWorker (now us : Z) (pick : option nat).

Inductive answer : Type :=
  | ANone
  | ARead (n : Z) (dst : list byte)
  | ABool (b : bool).

Definition spawn (c : call) : thread (CAS C * BufferPool) answer :=
  let unit {A} (t : thread (CAS C * BufferPool) A) := t ≫= λ _, mret ANone in
  match c with
  | CallAdd h content => unit (on_node (AddT cfg h content))
  | CallGet now us h o l dst => r ← on_node (GetT cfg now us h o l dst); mret (ARead r.1 r.2)
  | CallExists h => b ← on_node (ExistsT cfg h); mret (ABool b)
  | CallEvict _ item => unit (on_node (onEvictT item))
  | CallMonitor w sf a t => unit (on_node (lift (monitor_tick cfg w sf a t)))
  | CallWorker now us pick => unit (workerT cfg now us pick)
  end.

(** When a call may begin; the memory cache has already dropped the item that it
    hands to [onEvict]. *)
Inductive begin : call → CAS C * BufferPool → CAS C * BufferPool → Prop :=
  | begin_Add h content s : stored !! h = Some content → begin (CallAdd h content) s s
  | begin_Get now us h o l dst s :
      valid_hash h → int64_range o → int64_range l → l ≤ zlen dst →
      begin (CallGet now us h o l dst) s s
  | begin_Exists h s : begin (CallExists h) s s
  | begin_Evict k item c st bp :
      contents (cache st) !! k = Some item → contents c ⊆ delete k (contents (cache st)) →
      begin (CallEvict k item) (st, bp) (set_cache c st, bp)
  | begin_Monitor w sf a t s : (∀ p, sf ≠ Panic p) → begin (CallMonitor w sf a t) s s
  | begin_Worker now us pick s : begin (CallWorker now us pick) s s.

(** Between the steps: the goroutines of the prefetcher, the expiry of items, the
    outcomes of the system calls to come. *)
Inductive around : CAS C * BufferPool → CAS C * BufferPool → Prop :=
  | around_prefetch ev st bp :
      (∃ d i, ev = EvRun d i) ∨ (∃ now, ev = EvCleanup now) →
      around (st, bp) (set_prefetcher (exec ev (prefetcher st)) st, bp)
  | around_expire c st bp : contents c ⊆ contents (cache st) → around (st, bp) (set_cache c st, bp)
  | around_faults os st bp :
      around (st, bp) (set_disk (mkDisk (files (disk_ st)) (dirs (disk_ st)) os) st, bp).

(** A restart over the same disk ends all calls, wherever they are. *)
Inductive restart : CAS C * BufferPool → CAS C * BufferPool → Prop :=
  | restarts c n st bp :
      contents c = ∅ →
      restart (st, bp) (mkCAS c (disk_ st) false NewPrefetcher no_metrics, NewBufferPool n).

Abbreviation step := (pool_step begin spawn around restart).

(** A first start without calls. *)
Definition starts_empty (s : CAS C * BufferPool) : Prop :=
  ∃ c ds n, contents c = ∅ ∧
    s = (mkCAS c (mkDisk ∅ ds []) false NewPrefetcher no_metrics, NewBufferPool n).
End concurrent.

(** ** What the calls return *)

Section answers.
Context {C : Type} `{RC : Ristretto C} {RL : RistrettoLaws C}.
Context (cfg : BlobCacheServerConfig) (stored : gmap string (list byte)).
Context (Hcfg : valid_config cfg) (Hstored : valid_stored stored).
Abbreviation J := (node_ok cfg stored true).
Abbreviation step := (pool_step (begin (C:=C) stored) (spawn cfg) around restart).

Definition answer_ok (c : call) (a : answer) : Prop :=
  match c, a with
  | CallGet _ _ h o len dst, ARead n dst' => did_read stored h o len dst n dst'
  | CallGet _ _ _ _ _ _, _ => False
  | _, _ => True
  end.

Definition error_ok (c : call) (e : error) : Prop :=
  match c with
  | CallGet _ _ _ o len _ => 0 < len ∧ (e = ErrContentNotFound ∨ o < 0 ∧ e = invalid_boundaries)
  | _ => True
  end.

Lemma safe_spawn c s s' :
  begin stored c s s' → J s → J s' ∧ safe J (answer_ok c) (error_ok c) (spawn cfg c).
Proof.
  intros Hb Hs. destruct Hb as [h content s Hh|now us h o l dst s Hh Ho Hl Hd|h s
    |k item c st bp Hk Hc|w sf a t s Hsf|now us pick s].
  - split; [done|]. eapply safe_bind; [by apply safe_on_node, safe_Add|done].
  - split; [done|]. eapply safe_bind.
    { eapply safe_conseq; [by apply safe_on_node, safe_Get|intros a Ha; exact Ha|].
      intros e (n & dst' & Hdid & Hlt & Hor). destruct Hdid as [Hn _]. simpl in *.
      split; [lia|]. naive_solver. }
    intros [n dst'] [Hdid _]. exact Hdid.
  - split; [done|]. eapply safe_bind; [by apply safe_on_node, safe_Exists|done].
  - destruct Hs as ([Hi HD] & Hpf & Hwf). pose proof (Hi _ _ Hk) as Hit. split.
    + split_and!; [|done..]. split; [|done].
      eapply items_ok_sub; [|done]. etrans; [done|apply delete_subseteq].
    + eapply safe_bind; [by eapply safe_on_node, safe_onEvict|done].
  - split; [done|]. eapply safe_bind; [|done].
    apply safe_on_node, safe_action_any; [by apply Inv_monitor|apply monitor_pf].
  - split; [done|]. eapply safe_bind; [|done].
    eapply safe_conseq; [by apply safe_worker|done|done].
Qed.

Lemma around_ok s s' : around s s' → J s → J s'.
Proof.
  intros Ha ([Hi [HD Hio]] & Hpf & Hwf). destruct Ha as [ev st bp Hev|c st bp Hc|os st bp]; simpl in *.
  - split_and!; [done|by apply exec_pf|done].
  - split_and!; [|done..]. split; [by eapply items_ok_sub|done].
  - split_and!; [|done..]. split; [done|]. split; [done|]. simpl. apply Forall_true. by intros [].
Qed.

Lemma restart_ok s s' : restart s s' → J s → J s'.
Proof.
  intros Hr ([_ HD] & _). destruct Hr as [c n st bp Hc].
  split_and!; [|by split|apply NewBufferPool_wf]. split; [|done].
  unfold items_ok. simpl. rewrite Hc. apply map_Forall_empty.
Qed.

Lemma starts_empty_ok s : starts_empty s → J s.
Proof.
  intros (c & ds & n & Hc & ->). split_and!; [|by split|apply NewBufferPool_wf]. split.
  - unfold items_ok. simpl. rewrite Hc. apply map_Forall_empty.
  - split; [apply map_Forall_empty|by constructor].
Qed.

(** C3: however adds, reads, existence checks, prefetch workers, eviction callbacks,
    monitor ticks and restarts interleave, access by access and with failing and
    half-done writes, no call panics, and a read that returned gave the first bytes of
    the content from its offset, and nothing else, or one of its two errors. *)
Theorem concurrent_reads s0 s l c r :
  starts_empty s0 → rtc step (s0, []) (s, l) → (c, Done r) ∈ l →
  match r with
  | Panic _ => False
  | Err e => match c with
             | CallGet _ _ _ offset length _ =>
                 0 < length ∧ (e = ErrContentNotFound ∨ offset < 0 ∧ e = invalid_boundaries)
             | _ => True
             end
  | Ok a =>
      match c with
      | CallGet _ _ h offset length dst =>
          ∃ n, 0 ≤ n ≤ Z.max 0 length ∧
            a = ARead n (take (Z.to_nat n) (drop (Z.to_nat offset) (content_of stored h)) ++
                         drop (Z.to_nat n) dst) ∧
            (0 < n → 0 ≤ offset ∧ offset + n ≤ zlen (content_of stored h))
      | _ => True
      end
  end.
Proof.
  intros Hs Hrun Hin.
  pose proof (pool_run_ok _ _ _ _ J answer_ok error_ok safe_spawn around_ok restart_ok (s0, []) (s, l)
    (conj (starts_empty_ok s0 Hs) (Forall_nil_2 _)) Hrun) as Hok.
  pose proof (pool_done _ _ _ _ _ _ Hok Hin) as Hr. destruct r as [a|e|p]; [|by destruct c|done].
  destruct c as [|now us h o len dst| | | |]; [done| |done..].
  destruct a as [|n dst'|]; [done| |done]. destruct Hr as (Hn & -> & Hb). by exists n.
Qed.

(** And the calls that run come to an end: their steps cannot go on for ever. *)
Theorem concurrent_calls_end (l : list (call * thread (CAS C * BufferPool) answer)) :
  Acc (flip act_step) l.
Proof. apply act_step_wf. Qed.

End answers.

(** ** At concrete inputs *)

Abbreviation small := (small_config 4 f_zero).
Abbreviation small_step := (pool_step (begin (C:=gmap string cache_item) small_stored) (spawn small)
  around restart).

Definition add_abc_call : call := CallAdd "a1" abc.
Definition read_call : call := CallGet 0 1 "a1" 2 4 (replicate 4 x00).

(** One add and two reads of the same content, on an empty storage. *)
Definition add_and_reads : pool (S:=CAS (gmap string cache_item) * BufferPool) :=
  (fresh_node, [(add_abc_call, spawn small add_abc_call); (read_call, spawn small read_call);
                (read_call, spawn small read_call)]).

Lemma add_and_reads_run sched :
  rtc small_step (fresh_node, []) (foldl turn add_and_reads sched).
Proof.
  assert (begin small_stored add_abc_call fresh_node fresh_node) as Ha by by constructor.
  assert (begin small_stored read_call fresh_node fresh_node) as Hr.
  { constructor; [|by unfold int64_range..|done]. by apply (small_stored_valid "a1" abc). }
  eapply rtc_l; [apply (pool_spawn _ _ _ _ _ _ _ _ Ha)|].
  eapply rtc_l; [apply (pool_spawn _ _ _ _ _ _ _ _ Hr)|].
  eapply rtc_l; [apply (pool_spawn _ _ _ _ _ _ _ _ Hr)|]. apply turns_run.
Qed.

Lemma fresh_starts_empty : starts_empty fresh_node.
Proof. by exists ∅, {[ "/cache" ]}, 0%nat. Qed.

Definition result_of (x : pool (S:=CAS (gmap string cache_item) * BufferPool) (C:=call) (A:=answer))
    (i : nat) : option (res answer) :=
  match x.2 !! i with Some (_, Done r) => Some r | _ => None end.

Lemma result_of_done x i c r :
  (x.2 !! i) ≫= (λ ct, Some ct.1) = Some c → result_of x i = Some r → (c, Done r) ∈ x.2.
Proof.
  unfold result_of. intros Hc Hr. apply list_elem_of_lookup. exists i.
  destruct (x.2 !! i) as [[c' [r'|next k]]|]; simplify_eq/=; done.
Qed.

(** The first read runs when the add has truncated the file of the second page: it
    gets the two bytes of the first one.  Then the add goes on, and the second read
    runs when the add is over. *)
Definition during_write : list nat := replicate 9 0%nat ++ replicate 30 1%nat.
Definition after_write : list nat := during_write ++ replicate 30 0%nat ++ replicate 30 2%nat.

Lemma concurrent_reads_witness :
  ∃ n, 0 ≤ n ≤ Z.max 0 4 ∧
    ARead 2 (bytes_of_string "cd" ++ replicate 2 x00) =
      ARead n (take (Z.to_nat n) (drop (Z.to_nat 2) (content_of small_stored "a1")) ++
               drop (Z.to_nat n) (replicate 4 x00)) ∧
    (0 < n → 0 ≤ 2 ∧ 2 + n ≤ zlen (content_of small_stored "a1")).
Proof.
  pose (x := foldl turn add_and_reads during_write).
  refine (concurrent_reads small small_stored (small_config_valid 4 f_zero ltac:(done))
    small_stored_valid fresh_node x.1 x.2 read_call
    (Ok (ARead 2 (bytes_of_string "cd" ++ replicate 2 x00))) fresh_starts_empty _ _).
  - unfold x. rewrite <-surjective_pairing. apply add_and_reads_run.
  - apply (result_of_done x 1); by vm_compute.
Defined.

(** The read has put the truncated page into the memory cache, where the add leaves
    it: the add reports success, and later reads of four bytes get two. *)
Example truncated_page_stays :
  let x := foldl turn add_and_reads after_write in
  result_of x 0 = Some (Ok ANone) ∧
  result_of x 2 = Some (Ok (ARead 2 (bytes_of_string "cd" ++ replicate 2 x00))).
Proof. by vm_compute. Qed.
