(* ===== verification/ContentStore.v ===== *)
(** * What the storage promises to the server

    The three calls of the storage that the server makes, as a class; what they
    promise, as another; and the storage of [Storage.v] as an instance. *)

From S2P Require Import Prelude GoStrings GoPath FsID GoFloat Types Disk BufferPool Prefetcher.
From S2P Require Import Storage StorageCorrect StorageRuns.
Local Open Scope Z_scope.

Class ContentStore (S : Type) : Type := {
  cs_Add : string → list byte → M S ();
  cs_Get : string → Z → Z → list byte → M S (Z * list byte);
  cs_Exists : string → M S bool;
}.

(** The answer of a read: the first bytes from the offset, the rest of the
    destination untouched; when no write is ever cut short ([complete]), a short
    answer ends at the end of the content. *)
Definition read_of (complete : Prop) (content : list byte) (offset len : Z) (dst : list byte)
    (r : Z * list byte) : Prop :=
  0 ≤ r.1 ≤ Z.max 0 len ∧
  r.2 = take (Z.to_nat r.1) (drop (Z.to_nat offset) content) ++ drop (Z.to_nat r.1) dst ∧
  (0 < r.1 → 0 ≤ offset ∧ offset + r.1 ≤ zlen content) ∧
  (complete → r.1 < len → zlen content ≤ offset + r.1).

(** [stored]: the contents that are ever added, by hash. *)
Class ContentStoreLaws (S : Type) `{ContentStore S} (stored : gmap string (list byte)) : Type := {
  cs_inv : S → Prop;
  cs_complete : Prop;
  (** the disk answers and has room *)
  cs_ready : S → Prop;
  (** every page of the content can be read *)
  cs_has : string → S → Prop;
  cs_Add_inv h content :
    stored !! h = Some content → triple cs_inv (cs_Add h content) (λ _, cs_inv) (λ _, cs_inv);
  cs_Get_inv h offset len dst :
    valid_hash h → int64_range offset → int64_range len → len ≤ zlen dst →
    triple cs_inv (cs_Get h offset len dst)
      (λ r s, cs_inv s ∧ read_of cs_complete (content_of stored h) offset len dst r)
      (λ _, cs_inv);
  cs_Exists_inv h : triple cs_inv (cs_Exists h) (λ _, cs_inv) (λ _, cs_inv);
  cs_Add_has h content s s' :
    stored !! h = Some content → cs_inv s → cs_ready s →
    cs_Add h content s = (Ok tt, s') → cs_has h s';
  cs_has_Get h content offset len dst s :
    stored !! h = Some content → cs_has h s →
    0 ≤ offset → 0 ≤ len → offset + len ≤ zlen content → len ≤ zlen dst →
    (cs_Get h offset len dst s).1 =
      Ok (len, take (Z.to_nat len) (drop (Z.to_nat offset) content) ++ drop (Z.to_nat len) dst);
}.

(** ** The storage *)

(** The storage with the readings of the clock to come: the time of a read, in
    the prefetcher's unit, and the microseconds it takes. *)
Definition clocked (C : Type) : Type := list (Z * Z) * CAS C.

Definition on_cas {C A} (m : M (CAS C) A) : M (clocked C) A := zoom snd (λ c s, (s.1, c)) m.

Definition next_time {C} : M (clocked C) (Z * Z) :=
  λ s, (Ok (hd (0, 0) s.1), (tl s.1, s.2)).

Definition cas_store {C} `{Ristretto C} (cfg : BlobCacheServerConfig) : ContentStore (clocked C) := {|
  cs_Add h content := on_cas (Add cfg h content);
  cs_Get h offset len dst := t ← next_time; on_cas (Get cfg t.1 t.2 h offset len dst);
  cs_Exists h := on_cas (Exists cfg h);
|}.

Section cas_laws.
Context {C : Type} `{RC : Ristretto C} {RL : RistrettoLaws C}.
Context (cfg : BlobCacheServerConfig) (stored : gmap string (list byte)) (cut : bool).
Context (Hcfg : valid_config cfg) (Hstored : valid_stored stored).

(** The invariant of the storage, and the queues of the prefetcher. *)
Definition cas_ok (st : CAS C) : Prop := Inv cfg stored cut st ∧ pf_ok (prefetcher st).
Definition cas_inv (s : clocked C) : Prop := cas_ok s.2.

(** What else a storage does: the steps of [StorageRuns.v] (the worker, the
    prefetcher's goroutines, evictions, the disk monitor, faults, a restart). *)
Definition evolves (s s' : clocked C) : Prop :=
  ∃ bp bp', pool_wf bp ∧ step cfg stored cut (s.2, bp) (s'.2, bp').

Lemma evolves_inv s s' : evolves s s' → cas_inv s → cas_inv s'.
Proof.
  intros (bp & bp' & Hbp & Hst) [Hi Hp].
  by destruct (step_ok cfg stored cut Hcfg Hstored (s.2, bp) (s'.2, bp')) as (? & ? & ?).
Qed.

Lemma reachable_inv ts s : reachable cfg stored cut s → cas_inv (ts, s.1).
Proof. intros Hr. by destruct (reachable_ok cfg stored cut Hcfg Hstored s Hr) as (? & ? & ?). Qed.

Lemma on_cas_triple {A} (m : M (CAS C) A) P Q E :
  triple P m Q E → triple (λ s, P s.2) (on_cas m) (λ a s, Q a s.2) (λ e s, E e s.2).
Proof. intros Hm. by eapply triple_zoom; [exact Hm|..]. Qed.

(** A call that keeps the invariant of the pages and the queues. *)
Lemma triple_pf {A} (m : M (CAS C) A) (φ : A → Prop) :
  triple (Inv cfg stored cut) m (λ a s, Inv cfg stored cut s ∧ φ a) (λ _, Inv cfg stored cut) →
  keeps (λ st, pf_ok (prefetcher st)) m →
  triple cas_ok m (λ a s, cas_ok s ∧ φ a) (λ _, cas_ok).
Proof.
  intros Hm Hk st [Hi Hp]. specialize (Hm st Hi). specialize (Hk st Hp).
  destruct (m st) as [[a|e|p] st']; simpl in *; [|by split|done]. by destruct Hm.
Qed.

Lemma triple_pf_inv {A} (m : M (CAS C) A) :
  triple (Inv cfg stored cut) m (λ _, Inv cfg stored cut) (λ _, Inv cfg stored cut) →
  keeps (λ st, pf_ok (prefetcher st)) m → triple cas_ok m (λ _, cas_ok) (λ _, cas_ok).
Proof.
  intros Hm Hk. eapply triple_conseq; [apply (triple_pf m (λ _, True))|..]; eauto.
  - eapply triple_conseq; [exact Hm|..]; eauto.
  - by intros a s [? _].
Qed.

Lemma Inv_Get_read_of now us h offset len dst :
  valid_hash h → int64_range offset → int64_range len → len ≤ zlen dst →
  triple (Inv cfg stored cut) (Get cfg now us h offset len dst)
    (λ r s, Inv cfg stored cut s ∧ read_of (cut = false) (content_of stored h) offset len dst r)
    (λ _, Inv cfg stored cut).
Proof.
  intros Hh Ho Hl Hd. eapply triple_conseq; [by apply (Inv_Get cfg stored cut Hcfg Hstored)|done| |].
  - intros [n dst'] s [Hi ((Hn & Hdst & Hin) & _ & Hshort)]. split; [done|]. simpl in *.
    split_and!; [apply Hn..|done|done|]. intros Hcut Hlt. by apply Hshort.
  - by intros e s [Hi _].
Qed.

Definition cas_laws : @ContentStoreLaws (clocked C) (cas_store cfg) stored.
Proof.
  unshelve refine (Build_ContentStoreLaws _ (cas_store cfg) stored cas_inv (cut = false)
    (λ s, cut = false ∧ io (disk_ s.2) = [] ∧ diskCachedUsageExceeded s.2 = false)
    (λ h s, ∃ content, stored !! h = Some content ∧ cut = false ∧
       InvD cfg stored cut (has_pages cfg stored cut h content (num_pages cfg content)) s.2) _ _ _ _ _).
  - intros h content Hh.
    apply (on_cas_triple _ _ _ _ (triple_pf_inv _ (Inv_Add cfg stored cut Hcfg Hstored h content Hh)
             (Add_pf cfg h content))).
  - intros h offset len dst Hh Ho Hl Hd. simpl. apply (triple_bind _ _ _ (λ _, cas_inv)).
    + intros s Hs. exact Hs.
    + intros [now us].
      apply (on_cas_triple _ _ _ _ (triple_pf _ _ (Inv_Get_read_of now us h offset len dst Hh Ho Hl Hd)
               (Get_pf cfg now us h offset len dst Hh))).
  - intros h. apply (on_cas_triple _ _ _ _ (triple_pf_inv _ (Inv_Exists cfg stored cut h) (Exists_pf cfg h))).
  - intros h content [ts s] s' Hh [Hs _] (Hcut & Hio & Hex). simpl in *.
    unfold on_cas, zoom. simpl. destruct (Add cfg h content s) as [r t] eqn:E.
    intros [= -> <-]. exists content. split_and!; [done..|].
    by apply (Add_pages cfg stored cut Hcfg Hstored h content Hh s).
  - intros h content offset len dst [ts s] Hh (content' & Hh' & Hcut & Hs) Ho Hl Hol Hd.
    assert (content' = content) as -> by congruence. simpl in *. unfold mbind, M_bind, next_time, on_cas, zoom. simpl.
    pose proof (pages_Get cfg stored cut Hcfg Hstored h content Hh (hd (0, 0) ts).1 (hd (0, 0) ts).2
      offset len dst s Hcut Hs Ho Hl Hol Hd) as Hg.
    destruct (Get cfg _ _ h offset len dst s) as [r t]. simpl in *. subst r.
    unfold read_into, content_of. by rewrite Hh.
Defined.

End cas_laws.
