(* ===== verification/S3Client.v ===== *)
(** * The S3 downloads of [pkg/s3_client.go]

    An object is read in ranges by concurrent requests whose results arrive in
    any order.  The store is an argument: the answer of [HeadObject], the answer
    of each [GetObject] and what its body yields. *)

From S2P Require Import Prelude GoStrings FsID Types.
Local Open Scope Z_scope.

(** ** Definitions *)

Definition defaultDownloadConcurrency : Z := 16.
Definition defaultDownloadChunkSize : Z := 64 * 1024 * 1024.

Record S3SourceConfig : Type := mkS3Source {
  S3BucketName : string; S3Region : string; S3EndpointURL : string;
  S3AccessKey : string; S3SecretKey : string;
}.

Record S3Client : Type := mkS3Client {
  Source : S3SourceConfig; DownloadConcurrency : Z; DownloadChunkSize : Z;
}.

(** [NewS3Client], given whether the SDK's configuration loads. *)
Definition NewS3Client (load_err : option error) (sourceConfig : S3SourceConfig)
    (serverConfig : BlobCacheServerConfig) : res S3Client :=
  match load_err with
  | Some e => Err (ErrWrap "failed to load AWS config" e)
  | None =>
      let conc := S3DownloadConcurrency serverConfig in
      let size := S3DownloadChunkSize serverConfig in
      Ok (mkS3Client sourceConfig
            (if bool_decide (conc ≤ 0) then defaultDownloadConcurrency else conc)
            (if bool_decide (size ≤ 0) then defaultDownloadChunkSize else size))
  end.

(** The answer to a range request: an error, or a body: the bytes it yields
    before the end of the stream, or before the error [read_err]. *)
Inductive range_answer : Type :=
  | RangeErr (e : error)
  | RangeBody (bytes : list byte) (read_err : option error).

Record chunkResult : Type := mkChunkResult {
  c_index : nat; c_data : list byte; c_err : option error;
}.

(** [io.ReadFull(body, part)]: the bytes read, and the error if it is neither
    [io.EOF] nor [io.ErrUnexpectedEOF]. *)
Definition ReadFull (bytes : list byte) (read_err : option error) (want : Z) :
    list byte * option error :=
  if bool_decide (want ≤ zlen bytes) then (take (Z.to_nat want) bytes, None)
  else (bytes, read_err).

Section download.
Context (c : S3Client).

Definition numChunks (size : Z) : Z :=
  (((size +! DownloadChunkSize c) -! 1) / DownloadChunkSize c)%go.

(** The first and last byte of the [i]-th range. *)
Definition chunk_range (size : Z) (i : nat) : Z * Z :=
  let start := (Z.of_nat i *! DownloadChunkSize c)%go in
  let end_ := ((start +! DownloadChunkSize c) -! 1)%go in
  (start, if bool_decide (size ≤ end_) then (size -! 1)%go else end_).

Definition rangeHeader (r : Z * Z) : string :=
  "bytes=" +:+ pretty r.1 +:+ "-" +:+ pretty r.2.

(** The goroutine of the [i]-th range; [GetObject] answers by range. *)
Definition fetch_chunk (GetObject : Z * Z → range_answer) (size : Z) (i : nat) : chunkResult :=
  let r := chunk_range size i in
  match GetObject r with
  | RangeErr e =>
      mkChunkResult i [] (Some (ErrWrap ("range request failed for " +:+ rangeHeader r) e))
  | RangeBody bytes read_err =>
      let '(data, err) := ReadFull bytes read_err (r.2 -! r.1 +! 1)%go in
      match err with
      | Some e => mkChunkResult i [] (Some (ErrWrap ("error reading range " +:+ rangeHeader r) e))
      | None => mkChunkResult i data None
      end
  end.

(** The loop over the results, in the order they arrive. *)
Fixpoint collect (results : list chunkResult) (chunks : list (list byte)) (errs : list error) :
    list (list byte) * list error :=
  match results with
  | [] => (chunks, errs)
  | r :: results =>
      collect results (<[c_index r := c_data r]> chunks)
        (match c_err r with Some e => errs ++ [e] | None => errs end)
  end.

Definition download_errors : error := ErrNew "download errors".
Definition invalid_size : error := ErrNew "invalid object size".

(** [DownloadIntoBuffer]: [head] is the answer of [HeadObject], [order] the order
    in which the results arrive. *)
Definition DownloadIntoBuffer (head : res Z) (GetObject : Z * Z → range_answer)
    (order : list nat) : M (list byte) () :=
  match head with
  | Err e => throw e
  | Panic p => gopanic p
  | Ok size =>
      if bool_decide (size ≤ 0) then throw invalid_size
      else
        let n := Z.to_nat (numChunks size) in
        let '(chunks, errs) :=
          collect (map (fetch_chunk GetObject size) order) (replicate n []) [] in
        if bool_decide (0 < length errs)%nat then throw download_errors
        else modify (λ _, concat chunks)
  end.

End download.

(** A store that serves the ranges of an object in full. *)
Definition serves (object : list byte) (GetObject : Z * Z → range_answer) : Prop :=
  ∀ a b, 0 ≤ a ≤ b → b < zlen object →
  ∃ rest err, GetObject (a, b) =
    RangeBody (take (Z.to_nat (b - a + 1)) (drop (Z.to_nat a) object) ++ rest) err.

(** The store that keeps one object. *)
Definition one_object (object : list byte) (r : Z * Z) : range_answer :=
  RangeBody (take (Z.to_nat (r.2 - r.1 + 1)) (drop (Z.to_nat r.1) object)) None.

(** ** Lemmas *)

(** Whatever the order of arrival, chunk [i] is the data of result [i]. *)
Lemma collect_length rs chunks errs : length (collect rs chunks errs).1 = length chunks.
Proof.
  revert chunks errs. induction rs as [|r rs IH]; intros chunks errs; simpl; [done|].
  by rewrite IH, length_insert.
Qed.

Lemma collect_lookup_other (f : nat → chunkResult) order chunks errs i :
  (∀ j, c_index (f j) = j) → i ∉ order →
  (collect (map f order) chunks errs).1 !! i = chunks !! i.
Proof.
  intros Hf. revert chunks errs. induction order as [|j order IH]; intros chunks errs; simpl; [done|].
  intros [Hne Hi]%not_elem_of_cons. rewrite IH by done. by rewrite Hf, list_lookup_insert_ne.
Qed.

Lemma collect_lookup (f : nat → chunkResult) order chunks errs i :
  (∀ j, c_index (f j) = j) → (i < length chunks)%nat → i ∈ order →
  (collect (map f order) chunks errs).1 !! i = Some (c_data (f i)).
Proof.
  intros Hf. revert chunks errs. induction order as [|j order IH]; intros chunks errs Hi Hin; simpl.
  { by apply elem_of_nil in Hin. }
  destruct (decide (i ∈ order)) as [Hin'|Hout].
  - apply IH; [|done]. by rewrite length_insert.
  - apply elem_of_cons in Hin as [->|]; [|done].
    rewrite collect_lookup_other by done. by rewrite Hf, list_lookup_insert_eq.
Qed.

Lemma collect_errs (f : nat → chunkResult) order chunks errs :
  (collect (map f order) chunks errs).2 = errs ++ omap (λ i, c_err (f i)) order.
Proof.
  revert chunks errs. induction order as [|j order IH]; intros chunks errs; simpl.
  - by rewrite app_nil_r.
  - rewrite IH. destruct (c_err (f j)); simpl; [by rewrite <-(assoc_L (++))|done].
Qed.

Lemma collect_all (f : nat → chunkResult) n order errs :
  (∀ j, c_index (f j) = j) → order ≡ₚ seq 0 n →
  (collect (map f order) (replicate n []) errs).1 = map (λ i, c_data (f i)) (seq 0 n).
Proof.
  intros Hf Hp. apply list_eq. intros i.
  destruct (decide (i < n)%nat) as [Hi|Hi].
  - rewrite collect_lookup;
      [|done|by rewrite length_replicate|rewrite Hp; apply elem_of_seq; lia].
    by rewrite list_lookup_fmap, lookup_seq_lt by lia.
  - rewrite !lookup_ge_None_2; [done| |].
    + rewrite length_map, length_seq. lia.
    + rewrite collect_length, length_replicate. lia.
Qed.

Lemma fetch_chunk_index c GetObject size i : c_index (fetch_chunk c GetObject size i) = i.
Proof.
  unfold fetch_chunk. destruct (GetObject _) as [|bytes err]; [done|].
  by destruct (ReadFull _ _ _) as [? []].
Qed.

(** The pages of a list, in order, are the list. *)
Lemma concat_pages {A} (l : list A) k n :
  concat (map (λ i, take k (drop (i * k) l)) (seq 0 n)) = take (n * k) l.
Proof.
  induction n as [|n IH]; [by rewrite take_0|].
  rewrite seq_S, map_app, concat_app, IH. simpl. rewrite app_nil_r.
  replace (k + n * k)%nat with (n * k + k)%nat by lia.
  pose proof (take_drop_split l 0 (n * k) k) as E. by rewrite drop_0 in E.
Qed.

Section download_lemmas.
Context (c : S3Client) (Hc : 0 < DownloadChunkSize c < 2 ^ 62).
Abbreviation cs := (DownloadChunkSize c).

Lemma numChunks_spec size :
  0 < size < 2 ^ 62 →
  0 < numChunks c size ∧ (numChunks c size - 1) * cs < size ≤ numChunks c size * cs.
Proof.
  intros Hs. unfold numChunks. rewrite (wrap64_id (size + cs)) by (unfold int64_range; lia).
  rewrite wrap64_id by (unfold int64_range; lia). rewrite Z.quot_div_nonneg by lia.
  pose proof (Z.div_mod (size + cs - 1) cs). pose proof (Z.mod_pos_bound (size + cs - 1) cs). nia.
Qed.

Lemma chunk_range_spec size i :
  0 < size < 2 ^ 62 → Z.of_nat i < numChunks c size →
  let r := chunk_range c size i in
  r.1 = Z.of_nat i * cs ∧ r.2 = Z.min (r.1 + cs) size - 1 ∧ 0 ≤ r.1 ≤ r.2 ∧ r.2 < size.
Proof.
  intros Hs Hi. destruct (numChunks_spec size Hs) as (Hn & Hlo & Hhi).
  assert (0 ≤ Z.of_nat i * cs < size) by nia.
  unfold chunk_range. rewrite (wrap64_id (Z.of_nat i * cs)) by (unfold int64_range; lia).
  rewrite (wrap64_id (_ + cs)) by (unfold int64_range; lia).
  rewrite (wrap64_id (_ - 1)) by (unfold int64_range; lia).
  rewrite (wrap64_id (size - 1)) by (unfold int64_range; lia).
  simpl. case_bool_decide; lia.
Qed.

Lemma fetch_chunk_serves object GetObject i :
  serves object GetObject → 0 < zlen object < 2 ^ 62 → Z.of_nat i < numChunks c (zlen object) →
  fetch_chunk c GetObject (zlen object) i =
    mkChunkResult i (take (Z.to_nat cs) (drop (i * Z.to_nat cs) object)) None.
Proof.
  intros Hserv Hs Hi. destruct (chunk_range_spec (zlen object) i Hs Hi) as (E1 & E2 & Hr & Hr2).
  unfold fetch_chunk. destruct (chunk_range c (zlen object) i) as [a b]. simpl in *.
  destruct (Hserv a b Hr Hr2) as (rest & err & ->).
  rewrite (wrap64_id (b - a)) by (unfold int64_range; lia).
  rewrite wrap64_id by (unfold int64_range; lia).
  set (part := take _ _).
  assert (zlen part = b - a + 1) as Hp.
  { unfold part, zlen in *. rewrite length_take, length_drop. lia. }
  unfold ReadFull. rewrite bool_decide_eq_true_2 by (rewrite zlen_app; pose proof (zlen_nonneg rest); lia).
  f_equal. replace (Z.to_nat (b - a + 1)) with (length part) by (unfold zlen in Hp; lia).
  rewrite take_app_length. unfold part.
  replace (Z.to_nat a) with (i * Z.to_nat cs)%nat by nia.
  destruct (decide (a + cs ≤ zlen object)).
  - f_equal. lia.
  - unfold zlen in *. rewrite !take_ge; [done|rewrite length_drop; nia..].
Qed.

End download_lemmas.

(** The download in closed form, for results that arrive in any order. *)
Lemma Download_closed c size GetObject order buffer :
  0 < size → order ≡ₚ seq 0 (Z.to_nat (numChunks c size)) →
  let f := fetch_chunk c GetObject size in
  let l := seq 0 (Z.to_nat (numChunks c size)) in
  DownloadIntoBuffer c (Ok size) GetObject order buffer =
    if decide (Exists (λ i, c_err (f i) ≠ None) l) then (Err download_errors, buffer)
    else (Ok tt, concat (map (λ i, c_data (f i)) l)).
Proof.
  intros Hs Hp f l. unfold DownloadIntoBuffer. rewrite bool_decide_eq_false_2 by lia.
  pose proof (collect_all f (Z.to_nat (numChunks c size)) order []
    (fetch_chunk_index c GetObject size) Hp) as E1.
  pose proof (collect_errs f order (replicate (Z.to_nat (numChunks c size)) []) []) as E2.
  fold f. destruct (collect _ _ _) as [chunks errs]. simpl in E1, E2. subst chunks errs.
  case_decide as Hex.
  - apply Exists_exists in Hex as (i & Hi & Herr). rewrite bool_decide_eq_true_2; [done|].
    destruct (omap _ _) eqn:Eo; [|simpl; lia]. destruct (c_err (f i)) as [e|] eqn:Ee; [|done].
    assert (e ∈ omap (λ i, c_err (f i)) order) as Hin
      by (apply list_elem_of_omap; exists i; by rewrite Hp).
    rewrite Eo in Hin. by apply elem_of_nil in Hin.
  - rewrite bool_decide_eq_false_2; [done|]. destruct (omap _ _) as [|e es] eqn:Eo; [simpl; lia|].
    assert (e ∈ omap (λ i, c_err (f i)) order) as Hin by (rewrite Eo; left).
    apply list_elem_of_omap in Hin as (i & Hi & Ee). destruct Hex.
    apply Exists_exists. exists i. rewrite Hp in Hi. by rewrite Ee.
Qed.

(** ** Properties *)

(** C22: an object served in full is downloaded as it is: the ranges tile it, and
    whatever the order in which the concurrent requests complete, the buffer
    ends up holding exactly the object. *)
Theorem Download_any_order c object GetObject order buffer :
  0 < DownloadChunkSize c < 2 ^ 62 → 0 < zlen object < 2 ^ 62 → serves object GetObject →
  order ≡ₚ seq 0 (Z.to_nat (numChunks c (zlen object))) →
  DownloadIntoBuffer c (Ok (zlen object)) GetObject order buffer = (Ok tt, object).
Proof.
  intros Hc Hs Hserv Hp. destruct (numChunks_spec c Hc (zlen object) Hs) as (Hn & _ & Hhi).
  assert (∀ i, i ∈ seq 0 (Z.to_nat (numChunks c (zlen object))) →
    fetch_chunk c GetObject (zlen object) i =
      mkChunkResult i (take (Z.to_nat (DownloadChunkSize c))
                         (drop (i * Z.to_nat (DownloadChunkSize c)) object)) None) as Hf.
  { intros i Hi%elem_of_seq. apply fetch_chunk_serves; [done..|lia]. }
  rewrite Download_closed by (done || lia). rewrite decide_False.
  2: { intros (i & Hi & Herr)%Exists_exists. by rewrite Hf in Herr. }
  f_equal. trans (take (Z.to_nat (numChunks c (zlen object)) *
    Z.to_nat (DownloadChunkSize c)) object); [|apply take_ge; unfold zlen in *; nia].
  rewrite <-concat_pages. f_equal. apply map_ext_in. intros i Hi%list_elem_of_In. by rewrite Hf.
Qed.

Lemma one_object_serves object : serves object (one_object object).
Proof. intros a b Ha Hb. exists [], None. by rewrite app_nil_r. Qed.

Definition ten : list byte := bytes_of_string "0123456789".
Definition client4 : S3Client := mkS3Client (mkS3Source "" "" "" "" "") 2 4.

Lemma Download_any_order_witness :
  DownloadIntoBuffer client4 (Ok (zlen ten)) (one_object ten) [2; 0; 1]%nat [] = (Ok tt, ten).
Proof.
  apply Download_any_order; [done|done|apply one_object_serves|].
  change (Z.to_nat _) with 3%nat. simpl. solve_Permutation.
Defined.



(** A body that stops early is not an error: [io.ErrUnexpectedEOF] is dropped,
    and the download succeeds without the missing bytes. *)
Example short_body_accepted :
  let g r := if bool_decide (r.1 = 4) then RangeBody (bytes_of_string "4") None
             else one_object ten r in
  DownloadIntoBuffer client4 (Ok 10) g [0; 1; 2]%nat [] = (Ok tt, bytes_of_string "0123489").
Proof. by vm_compute. Qed.
