(* ===== verification/RedisClient.v ===== *)
(** * The Redis client of [pkg/redis.go]

    The choice of the client by mode, the client's name, the connection of
    [NewBlobCacheMetadata], and [Scan], whose goroutine hands the keys to its
    caller over two unbuffered channels.  The library's clients are parameters:
    whether the server answers a ping, what a scan yields. *)

From S2P Require Import Prelude GoStrings FsID GoFloat Types.
Local Open Scope Z_scope.

(** ** Connecting *)

Definition RedisModeSingle : string := "single".
Definition RedisModeCluster : string := "cluster".
Definition RedisModeSentinel : string := "sentinel".

(** The settings of [RedisConfig] that the repository sets; the others are zero. *)
Record RedisConfig : Type := mkRedisConfig {
  Addrs : list string; RMode : string; RClientName : string; EnableTLS : bool;
  InsecureSkipVerify : bool; RPassword : string; SentinelPassword : string; RMasterName : string;
  RouteByLatency : bool;
}.

(** [a-zA-Z0-9] *)
Definition is_alnum (a : ascii) : bool :=
  let n := N_of_ascii a in
  bool_decide ((48 ≤ n ∧ n ≤ 57) ∨ (65 ≤ n ∧ n ≤ 90) ∨ (97 ≤ n ∧ n ≤ 122))%N.
Fixpoint keep_chars (P : ascii → bool) (s : string) : string :=
  match s with
  | "" => ""
  | String a s => if P a then String a (keep_chars P s) else keep_chars P s
  end.

(** [WithClientName]: the spaces, the new lines, then the rest. *)
Definition client_name (name : string) : string :=
  keep_chars is_alnum
    (keep_chars (λ a, negb (bool_decide (a = "010"%char)))
       (keep_chars (λ a, negb (bool_decide (a = " "%char))) name)).

(** The kinds of client of the library, with [TLSConfig] ([None] for nil, else
    [InsecureSkipVerify]) and [RouteByLatency]. *)
Inductive redis_kind : Type := RedisSingle | RedisCluster | RedisFailover.
#[export] Instance redis_kind_eq_dec : EqDecision redis_kind.
Proof. solve_decision. Defined.
Record redis_client : Type := mkRedisClient {
  rc_kind : redis_kind; rc_addrs : list string; rc_tls : option bool; rc_latency : bool;
  rc_password : string; rc_name : string; rc_master : string;
}.

Definition tls_of (c : RedisConfig) : option bool :=
  if EnableTLS c then Some (InsecureSkipVerify c) else None.

(** [NewRedisClient]: [ping] is the error of the first [Ping]. *)
Definition NewRedisClient (ping : redis_client → option error) (c : RedisConfig)
    (names : list string) : res redis_client :=
  let name := foldl (λ _ n, client_name n) (RClientName c) names in
  let mk kind latency :=
    mkRedisClient kind (Addrs c) (tls_of c) latency (RPassword c) name (RMasterName c) in
  let connect client :=
    match ping client with
    | None => Ok client
    | Some err => Err (ErrWrap "redis: connection issue" err)
    end in
  if decide (RMode c = RedisModeSingle) then connect (mk RedisSingle (RouteByLatency c))
  else if decide (RMode c = RedisModeCluster) then connect (mk RedisCluster (RouteByLatency c))
  else if decide (RMode c = RedisModeSentinel) then connect (mk RedisFailover true)
  else Err ErrUnknownRedisMode.

(** [NewBlobCacheMetadata]: its configuration of Redis. *)
Definition metadata_redis (cfg : MetadataConfig) : RedisConfig :=
  mkRedisConfig [RedisAddr cfg]
    (if decide (MdRedisMode cfg = "") then RedisModeSingle else MdRedisMode cfg) ""
    (RedisTLSEnabled cfg) true (RedisPasswd cfg) (RedisPasswd cfg) (RedisMasterName cfg) false.
Definition NewBlobCacheMetadata (ping : redis_client → option error) (cfg : MetadataConfig) :
    res redis_client := NewRedisClient ping (metadata_redis cfg) [].

Lemma keep_chars_all P s : all_chars P (keep_chars P s) = true.
Proof. induction s as [|a s IH]; [done|]. simpl. destruct (P a) eqn:E; simpl; by rewrite ?E. Qed.

Lemma keep_chars_id P s : all_chars P s = true → keep_chars P s = s.
Proof.
  induction s as [|a s IH]; [done|]. simpl. intros [Ha Hs]%andb_true_iff. by rewrite Ha, IH.
Qed.

(** A client name has letters and digits only, and cleaning it again changes
    nothing. *)
Theorem client_name_clean name :
  all_chars is_alnum (client_name name) = true ∧ client_name (client_name name) = client_name name.
Proof.
  assert (∀ s, all_chars is_alnum s = true → client_name s = s) as Hid.
  { intros s Hs. unfold client_name.
    assert (∀ c : ascii, is_alnum c = false →
      all_chars (λ a, negb (bool_decide (a = c))) s = true) as Hc.
    { intros c Hc. clear -Hs Hc. induction s as [|a s IH]; [done|]. simpl in *.
      apply andb_true_iff in Hs as [Ha Hs]. rewrite IH by done.
      by rewrite bool_decide_eq_false_2 by congruence. }
    rewrite (keep_chars_id _ s) by by apply Hc.
    rewrite (keep_chars_id _ s) by by apply Hc. by apply keep_chars_id. }
  split; [apply keep_chars_all|]. apply Hid, keep_chars_all.
Qed.

(** An empty mode of the metadata store is the single mode; a failover client always
    routes by latency. *)
Theorem NewBlobCacheMetadata_kind ping cfg client :
  NewBlobCacheMetadata ping cfg = Ok client →
  rc_addrs client = [RedisAddr cfg] ∧ ping client = None ∧
  (rc_kind client = RedisSingle ↔ MdRedisMode cfg = "" ∨ MdRedisMode cfg = RedisModeSingle) ∧
  (rc_kind client = RedisFailover → rc_latency client = true) ∧
  (rc_tls client = if RedisTLSEnabled cfg then Some true else None).
Proof.
  unfold NewBlobCacheMetadata, NewRedisClient, metadata_redis. simpl.
  destruct (decide (MdRedisMode cfg = "")) as [E|E]; simpl.
  - destruct (ping _) eqn:Ep; [done|]. intros [= <-]. split_and!; try done. split; [by left|done].
  - destruct (decide (MdRedisMode cfg = RedisModeSingle)) as [Es|Es].
    { destruct (ping _) eqn:Ep; [done|]. intros [= <-]. split_and!; try done. split; [by right|done]. }
    destruct (decide (MdRedisMode cfg = RedisModeCluster)) as [Ec|Ec];
      [|destruct (decide (MdRedisMode cfg = RedisModeSentinel)); [|done]];
      destruct (ping _) eqn:Ep; try done; intros [= <-]; split_and!; try done;
      (split; [done|by intros [?|?]]).
Qed.

(** ** [Scan] *)

(** What the library's scan yields: by master, the keys (which may repeat) and the
    error that ends the iteration.  A single client has one, whose error is
    dropped; [ForEachMaster] of a cluster gives an error of one of them. *)
Record scan_env : Type := mkScan {
  scan_cluster : bool; scan_keys : list string; scan_err : option error;
}.

(** The keys in the order they are sent: each once. *)
Fixpoint first_seen (seen l : list string) : list string :=
  match l with
  | [] => []
  | k :: l => if decide (k ∈ seen) then first_seen seen l else k :: first_seen (k :: seen) l
  end.

(** The goroutine: it sends the keys, then the error of a cluster, then closes
    [errCh] and [outCh] (the deferred calls run last in, first out). *)
Inductive sender : Type :=
  | Sending (keys : list string)
  | SendingErr (e : error)
  | Closing (err_closed : bool)
  | SenderDone.

(** The caller: it takes keys until [outCh] is closed, then one error. *)
Inductive receiver : Type :=
  | Draining (keys : list string)
  | AwaitErr (keys : list string)
  | Returned (r : list string + error).

Record scan_state : Type := mkScanState {
  sc_sender : sender; sc_receiver : receiver; out_closed : bool; err_closed : bool;
}.

Definition scan_start (env : scan_env) : scan_state :=
  mkScanState (Sending (first_seen [] (scan_keys env))) (Draining []) false false.

(** After the last key. *)
Definition after_keys (env : scan_env) : sender :=
  match scan_err env with
  | Some e => if scan_cluster env then SendingErr e else Closing false
  | None => Closing false
  end.

Inductive scan_step (env : scan_env) : scan_state → scan_state → Prop :=
  | scan_key k ks l : scan_step env
      (mkScanState (Sending (k :: ks)) (Draining l) false false)
      (mkScanState (Sending ks) (Draining (l ++ [k])) false false)
  | scan_last r : scan_step env
      (mkScanState (Sending []) r false false) (mkScanState (after_keys env) r false false)
  | scan_send_err e l : scan_step env
      (mkScanState (SendingErr e) (AwaitErr l) false false)
      (mkScanState (Closing false) (Returned (inr e)) false false)
  | scan_close_err r o : scan_step env
      (mkScanState (Closing false) r o false) (mkScanState (Closing true) r o true)
  | scan_close_out r e : scan_step env
      (mkScanState (Closing true) r false e) (mkScanState SenderDone r true e)
  | scan_drained s l e : scan_step env
      (mkScanState s (Draining l) true e) (mkScanState s (AwaitErr l) true e)
  | scan_no_err s l o : scan_step env
      (mkScanState s (AwaitErr l) o true) (mkScanState s (Returned (inl l)) o true).

(** Where a run can be: the keys taken and left make up the keys, and the caller is
    past the keys only when [outCh] is closed. *)
Definition scan_inv (env : scan_env) (s : scan_state) : Prop :=
  let keys := first_seen [] (scan_keys env) in
  match s with
  | mkScanState (Sending ks) (Draining l) false false => keys = l ++ ks
  | mkScanState (SendingErr e) (Draining l) false false =>
      l = keys ∧ scan_cluster env = true ∧ scan_err env = Some e
  | mkScanState (Closing b) (Draining l) false b' =>
      l = keys ∧ b = b' ∧ (scan_cluster env = false ∨ scan_err env = None)
  | mkScanState SenderDone (Draining l) true true
  | mkScanState SenderDone (AwaitErr l) true true
  | mkScanState SenderDone (Returned (inl l)) true true =>
      l = keys ∧ (scan_cluster env = false ∨ scan_err env = None)
  | _ => False
  end.

Lemma scan_inv_step env s s' : scan_inv env s → scan_step env s s' → scan_inv env s'.
Proof.
  intros Hs Hst. destruct Hst as [k ks l|r|e l|r o|r e|s l e|s l o]; simpl in *.
  - rewrite Hs. by rewrite <-(assoc_L (++)).
  - destruct r as [l|l|[l|e]]; try done. rewrite app_nil_r in Hs. unfold after_keys.
    destruct (scan_err env) as [e|] eqn:E; [destruct (scan_cluster env) eqn:Ec|]; auto.
  - done.
  - destruct o; [by destruct r as [l|l|[l|e]]|]. destruct r as [l|l|[l|e]]; try done. tauto.
  - destruct r as [l|l|[l|e']]; try done. destruct Hs as (-> & <- & H). auto.
  - destruct s as [ks|e'|b|]; try done; by destruct b.
  - destruct s as [ks|e'|b|]; try done; destruct o; done.
Qed.

Lemma scan_inv_run env s : rtc (scan_step env) (scan_start env) s → scan_inv env s.
Proof.
  intros Hrun. refine (rtc_keeps _ _ _ _ _ Hrun _); [|done]. intros a b Hst Ha. by eapply scan_inv_step.
Qed.

(** A measure of the steps left. *)
Definition scan_left (s : scan_state) : nat :=
  (match sc_sender s with
   | Sending ks => 4 + length ks | SendingErr _ => 3 | Closing false => 2 | Closing true => 1
   | SenderDone => 0 end +
   match sc_receiver s with Draining _ => 2 | AwaitErr _ => 1 | Returned _ => 0 end)%nat.

Lemma scan_step_less env s s' : scan_step env s s' → (scan_left s' < scan_left s)%nat.
Proof.
  destruct 1; unfold scan_left; simpl; try lia. unfold after_keys.
  destruct (scan_err env); [destruct (scan_cluster env)|]; simpl; lia.
Qed.

(** [Scan] never reports the error of a scan.  With a single client, or without an
    error, every run ends and returns the keys, each once.  With an error of a
    cluster no run returns: the goroutine waits to send the error while its caller
    waits for keys. *)
Theorem Scan_outcome env s :
  rtc (scan_step env) (scan_start env) s → (∀ s', ¬ scan_step env s s') →
  match scan_err env with
  | Some e => if scan_cluster env then sc_receiver s = Draining (first_seen [] (scan_keys env))
                                       ∧ sc_sender s = SendingErr e
              else sc_receiver s = Returned (inl (first_seen [] (scan_keys env)))
  | None => sc_receiver s = Returned (inl (first_seen [] (scan_keys env)))
  end.
Proof.
  intros Hs%scan_inv_run Hend. unfold scan_inv in Hs.
  destruct s as [[[|k ks]|e|[]|] [l|l|[l|e']] [] []]; try done;
    try (exfalso; by destruct Hs as (_ & ? & _));
    try (exfalso; eapply Hend; constructor).
  - destruct Hs as (-> & -> & ->). done.
  - destruct Hs as [-> H]. simpl.
    destruct (scan_err env); [|done]. destruct (scan_cluster env); [|done]. by destruct H.
Qed.

(** Every run of it ends. *)
Theorem Scan_terminates env : well_founded (flip (scan_step env)).
Proof.
  assert (∀ n s, (scan_left s < n)%nat → Acc (flip (scan_step env)) s) as H.
  { induction n as [|n IH]; intros s Hs; [lia|]. constructor. intros s' Hst. apply IH.
    pose proof (scan_step_less env s s' Hst). lia. }
  intros s. apply (H (S (scan_left s))). lia.
Qed.

Lemma Scan_outcome_witness :
  let env := mkScan false ["a"; "b"; "a"] (Some (ErrLib "io")) in
  sc_receiver (mkScanState SenderDone (Returned (inl ["a"; "b"])) true true)
  = Returned (inl (first_seen [] (scan_keys env))).
Proof.
  apply (Scan_outcome (mkScan false ["a"; "b"; "a"] (Some (ErrLib "io")))
    (mkScanState SenderDone (Returned (inl ["a"; "b"])) true true)).
  - do 2 (eapply rtc_l; [apply scan_key|]). eapply rtc_l; [apply scan_last|].
    eapply rtc_l; [apply scan_close_err|]. eapply rtc_l; [apply scan_close_out|].
    eapply rtc_l; [apply scan_drained|]. apply rtc_once, scan_no_err.
  - intros s' Hst. inversion Hst.
Defined.
