(* ===== verification/Subscriptions.v ===== *)
(** * Publish and subscribe in [pkg/redis.go]

    A subscription is a goroutine that hands the messages of the library to its
    reader over unbuffered channels.  What the library yields to each goroutine is
    an argument; the steps of the goroutines, of the caller and of the reader
    interleave.  The reader takes from both channels. *)

From S2P Require Import Prelude FsID GoFloat Types RedisClient.

Definition message : Type := string * string.

(** [Publish]: the command for a message, by the kind of the client; a failover
    client is a cluster client. *)
Inductive pubsub_command : Type := PUBLISH | SPUBLISH | SUBSCRIBE | SSUBSCRIBE | PSUBSCRIBE.
#[export] Instance pubsub_command_eq_dec : EqDecision pubsub_command.
Proof. solve_decision. Defined.

Definition Publish (k : redis_kind) : pubsub_command :=
  match k with RedisSingle => PUBLISH | _ => SPUBLISH end.

(** [Subscribe] runs one subscription; [PSubscribe] of a cluster one per master. *)
Inductive sub_mode : Type := Subscribe | PSubscribe.
Definition subscribe_command (mode : sub_mode) (k : redis_kind) : pubsub_command :=
  match mode, k with
  | Subscribe, RedisSingle => SUBSCRIBE
  | Subscribe, _ => SSUBSCRIBE
  | PSubscribe, _ => PSUBSCRIBE
  end.

(** What Redis delivers: sharded messages reach sharded subscriptions only. *)
Definition delivers (p s : pubsub_command) : bool :=
  match p, s with
  | PUBLISH, (SUBSCRIBE | PSUBSCRIBE) | SPUBLISH, SSUBSCRIBE => true
  | _, _ => false
  end.

(** [handleChannelSubs], by what it does next: it sends on [onSubscribe], selects,
    sends a message or an error, or has returned.  The list is what the library has
    yet to yield. *)
Inductive subscriber : Type :=
  | Notifying (feed : list message)
  | Selecting (feed : list message)
  | SendingMessage (m : message) (feed : list message)
  | SendingError (e : error)
  | Finished.
#[export] Instance subscriber_eq_dec : EqDecision subscriber.
Proof. solve_decision. Defined.

(** The goroutines; the value in the buffer of [onSubscribe]; whether the caller is
    still at [<-onSubscribe]; the context; the two channels; what the reader has
    taken. *)
Record pubsub : Type := mkPubSub {
  subs : list subscriber; buffered : bool; waiting : bool; cancelled : bool;
  errCh_closed : bool; outCh_closed : bool; messages : list message; errors : list error;
}.

Definition start (l : list subscriber) : pubsub := mkPubSub l false true false false false [] [].

(** What the goroutine of [PSubscribe] starts.  For a cluster, [ForEachMaster] runs
    a subscription per master at the same time, or fails. *)
Inductive sub_client : Type :=
  | SingleClient (feed : list message)
  | ClusterClient (masters : list (list message) + error).

Definition PSubscribe_start (client : sub_client) : pubsub :=
  match client with
  | SingleClient feed => start [Notifying feed]
  | ClusterClient (inl feeds) => start (Notifying <$> feeds)
  | ClusterClient (inr err) => start [SendingError err]
  end.
Definition Subscribe_start (feed : list message) : pubsub := start [Notifying feed].

(** The channels are closed by the goroutine of [Subscribe] at its end, and by the
    function that [PSubscribe] returns; [errCh] first, as the deferred calls run
    last in, first out. *)
Definition may_close (mode : sub_mode) (s : pubsub) : Prop :=
  match mode with
  | Subscribe => Forall (eq Finished) (subs s)
  | PSubscribe => waiting s = false
  end.

Inductive pubsub_step (mode : sub_mode) : pubsub → pubsub → Prop :=
  | ps_notify i feed l c ec oc ms es w :
      l !! i = Some (Notifying feed) →
      pubsub_step mode (mkPubSub l false w c ec oc ms es)
        (mkPubSub (<[i := Selecting feed]> l) true w c ec oc ms es)
  | ps_return l c ec oc ms es :
      pubsub_step mode (mkPubSub l true true c ec oc ms es) (mkPubSub l false false c ec oc ms es)
  | ps_message i m feed l b w c ec oc ms es :
      l !! i = Some (Selecting (m :: feed)) →
      pubsub_step mode (mkPubSub l b w c ec oc ms es)
        (mkPubSub (<[i := SendingMessage m feed]> l) b w c ec oc ms es)
  | ps_library_closed i l b w c ec oc ms es :
      l !! i = Some (Selecting []) →
      pubsub_step mode (mkPubSub l b w c ec oc ms es)
        (mkPubSub (<[i := SendingError ErrChannelClosed]> l) b w c ec oc ms es)
  | ps_done i feed l b w ec oc ms es :
      l !! i = Some (Selecting feed) →
      pubsub_step mode (mkPubSub l b w true ec oc ms es)
        (mkPubSub (<[i := Finished]> l) b w true ec oc ms es)
  | ps_cancel l b w ec oc ms es :
      pubsub_step mode (mkPubSub l b w false ec oc ms es) (mkPubSub l b w true ec oc ms es)
  | ps_deliver i m feed l b c ec ms es :
      l !! i = Some (SendingMessage m feed) →
      pubsub_step mode (mkPubSub l b false c ec false ms es)
        (mkPubSub (<[i := Selecting feed]> l) b false c ec false (ms ++ [m]) es)
  | ps_deliver_error i e l b c oc ms es :
      l !! i = Some (SendingError e) →
      pubsub_step mode (mkPubSub l b false c false oc ms es)
        (mkPubSub (<[i := Finished]> l) b false c false oc ms (es ++ [e]))
  | ps_close_err l b w c ms es :
      may_close mode (mkPubSub l b w c false false ms es) →
      pubsub_step mode (mkPubSub l b w c false false ms es) (mkPubSub l b w c true false ms es)
  | ps_close_out l b w c ms es :
      may_close mode (mkPubSub l b w c true false ms es) →
      pubsub_step mode (mkPubSub l b w c true false ms es) (mkPubSub l b w c true true ms es).

(** A send on a closed channel panics. *)
Definition sends_on_closed (s : pubsub) : Prop :=
  ∃ i u, subs s !! i = Some u ∧
    match u with
    | SendingMessage _ _ => outCh_closed s = true
    | SendingError _ => errCh_closed s = true
    | _ => False
    end.

(** ** One subscription *)

Lemma one_sub (u v : subscriber) i : [u] !! i = Some v → i = 0%nat ∧ v = u.
Proof. destruct i; [|done]. by intros [= ->]. Qed.

(** The messages taken and the ones to come make up the feed; nothing is closed
    before the goroutine has returned. *)
Definition sub_inv (feed : list message) (s : pubsub) : Prop :=
  ∃ u, subs s = [u] ∧
  (u ≠ Finished → errors s = [] ∧ errCh_closed s = false ∧ outCh_closed s = false) ∧
  (outCh_closed s = true → errCh_closed s = true) ∧
  match u with
  | Notifying f => f = feed ∧ messages s = [] ∧ buffered s = false ∧ waiting s = true
  | Selecting f => feed = messages s ++ f ∧ (buffered s = true ∨ waiting s = false)
  | SendingMessage m f => feed = messages s ++ m :: f ∧ (buffered s = true ∨ waiting s = false)
  | SendingError e => e = ErrChannelClosed ∧ messages s = feed ∧ (buffered s = true ∨ waiting s = false)
  | Finished => (errors s = [] ∧ (∃ rest, feed = messages s ++ rest) ∨
                 errors s = [ErrChannelClosed] ∧ messages s = feed)
  end.

Lemma sub_inv_step feed s s' :
  sub_inv feed s → pubsub_step Subscribe s s' → sub_inv feed s'.
Proof.
  intros (u & Hu & Hopen & Hoc & Hm) Hst.
  destruct Hst; simpl in *; subst;
    repeat match goal with
    | H : [_] !! _ = Some _ |- _ => apply one_sub in H as [-> <-]
    | H : Forall _ [_] |- _ => apply Forall_singleton in H as <-
    end; simpl in *; eexists; (split; [reflexivity|]); simpl in *;
    try (destruct Hopen as (-> & ? & ?); [done|]); simplify_eq/=; try rewrite app_nil_r in *.
  all: try (destruct u; naive_solver).
  all: split; [done|]; rewrite <-?(assoc_L (++)); simpl; naive_solver.
Qed.

Lemma sub_inv_run feed s :
  rtc (pubsub_step Subscribe) (Subscribe_start feed) s → sub_inv feed s.
Proof.
  intros Hrun. refine (rtc_keeps _ _ _ _ _ Hrun _); [|by eexists].
  intros a b Hst Ha. by eapply sub_inv_step.
Qed.

(** The messages that the reader of [Subscribe] gets are the first ones that the
    library yields, in order; [ErrChannelClosed] comes after the last one, and no
    send finds its channel closed. *)
Theorem Subscribe_delivers feed s :
  rtc (pubsub_step Subscribe) (Subscribe_start feed) s →
  (∃ rest, feed = messages s ++ rest) ∧ ¬ sends_on_closed s ∧
  (errors s = [] ∨ errors s = [ErrChannelClosed] ∧ messages s = feed).
Proof.
  intros (u & Hu & Hopen & Hoc & Hm)%sub_inv_run. split_and!.
  - destruct u as [f|f|m f|e|];
      [exists f|exists f|exists (m :: f)|exists []|destruct Hm as [[_ ?]|[_ <-]]; [done|exists []]];
      rewrite ?app_nil_r; destruct_and?; simplify_eq; try done.
    by match goal with H : messages s = [] |- _ => rewrite H end.
  - intros (i & v & Hi & Hv). rewrite Hu in Hi. apply one_sub in Hi as [-> ->].
    destruct Hopen as (_ & ? & ?); [by intros ->|]. destruct u; congruence.
  - destruct (decide (u = Finished)) as [->|Hne].
    + destruct Hm as [[? _]|?]; [by left|by right].
    + left. by apply Hopen.
Qed.

(** A run ends: a measure of the steps left. *)
Definition sub_left (u : subscriber) : nat :=
  match u with
  | Notifying f => 4 + 2 * length f
  | Selecting f => 2 + 2 * length f
  | SendingMessage _ f => 3 + 2 * length f
  | SendingError _ => 1
  | Finished => 0
  end.
Definition flag (b : bool) : nat := if b then 0 else 1.
Definition pubsub_left (s : pubsub) : nat :=
  sum_list_with sub_left (subs s) + flag (negb (waiting s)) + flag (cancelled s) +
  flag (errCh_closed s) + flag (outCh_closed s).

Lemma sum_list_with_insert {A} (f : A → nat) l i x y :
  l !! i = Some x → sum_list_with f (<[i := y]> l) + f x = sum_list_with f l + f y.
Proof.
  revert i. induction l as [|z l IH]; intros i; [done|]. destruct i as [|i]; simpl.
  - intros [= ->]. lia.
  - intros Hi. specialize (IH i Hi). lia.
Qed.

Lemma pubsub_step_less mode s s' : pubsub_step mode s s' → pubsub_left s' < pubsub_left s.
Proof.
  destruct 1; unfold pubsub_left; simpl;
    try match goal with
    | |- context [<[?i := ?y]> ?l] =>
        let H' := fresh in
        match goal with H : l !! i = Some ?x |- _ =>
          pose proof (sum_list_with_insert sub_left l i x y H) as H' end; simpl in H'
    end; lia.
Qed.

(** Every run of a subscription ends, whatever its mode. *)
Theorem pubsub_terminates mode : well_founded (flip (pubsub_step mode)).
Proof.
  apply (wf_projected (<) pubsub_left); [|apply lt_wf].
  intros s s' Hst. by eapply pubsub_step_less.
Qed.

(** ** Many subscriptions *)

Definition started (u : subscriber) : bool := match u with Notifying _ => false | _ => true end.
Definition started_count (l : list subscriber) : nat :=
  sum_list_with (λ u, if started u then 1 else 0) l.

(** A value in the buffer and the one that the caller has taken: no more goroutines
    than these get past [onSubscribe]. *)
Lemma pubsub_step_count mode s s' :
  pubsub_step mode s s' →
  started_count (subs s) = (if buffered s then 1 else 0) + flag (waiting s) →
  started_count (subs s') = (if buffered s' then 1 else 0) + flag (waiting s').
Proof.
  destruct 1; unfold started_count; simpl; try done;
    try match goal with
    | |- context [<[?i := ?y]> ?l] =>
        let H' := fresh in
        match goal with H : l !! i = Some ?x |- _ =>
          pose proof (sum_list_with_insert (λ u, if started u then 1 else 0) l i x y H) as H' end;
        simpl in H'
    end; lia.
Qed.

Lemma count_all_started l : started_count l < length l → ∃ i f, l !! i = Some (Notifying f).
Proof.
  induction l as [|u l IH]; simpl; [lia|]. unfold started_count in *. simpl.
  destruct u as [f| | | |]; [by exists 0%nat, f|..]; simpl; intros Hl;
    (destruct IH as (i & f & ?); [lia|]; by exists (S i), f).
Qed.

(** What a run keeps of the start: the number of goroutines, the feeds of those that
    have not got past [onSubscribe], and the count of those that have. *)
Definition pubsub_inv (l : list subscriber) (s : pubsub) : Prop :=
  length (subs s) = length l ∧
  (∀ i f, subs s !! i = Some (Notifying f) → l !! i = Some (Notifying f)) ∧
  started_count (subs s) = (if buffered s then 1 else 0) + flag (waiting s).

Lemma pubsub_inv_step mode l s s' :
  pubsub_inv l s → pubsub_step mode s s' → pubsub_inv l s'.
Proof.
  intros (Hl & Hf & Hc) Hst. split; [|split; [|by eapply pubsub_step_count]].
  - destruct Hst; simpl in *; by rewrite ?length_insert.
  - destruct Hst; simpl in *; try done;
      intros j f [(-> & ? & _)|[_ ?]]%list_lookup_insert_Some; by auto.
Qed.

Lemma pubsub_inv_run mode l s :
  started_count l = 0 → rtc (pubsub_step mode) (start l) s → pubsub_inv l s.
Proof.
  intros Hl Hrun. refine (rtc_keeps _ _ _ _ _ Hrun _); [|done].
  intros a b Hst Ha. by eapply pubsub_inv_step.
Qed.

Lemma started_count_notifying feeds : started_count (Notifying <$> feeds) = 0.
Proof. induction feeds as [|f l IH]; [done|]. exact IH. Qed.

(** [PSubscribe] of a cluster with three masters or more: whatever the interleaving,
    a goroutine is left at its send on [onSubscribe], so the messages of its master
    are never read, and [ForEachMaster] does not return even if the context is
    cancelled. *)
Theorem PSubscribe_two_masters feeds s :
  2 < length feeds →
  rtc (pubsub_step PSubscribe) (PSubscribe_start (ClusterClient (inl feeds))) s →
  ∃ i f, feeds !! i = Some f ∧ subs s !! i = Some (Notifying f).
Proof.
  intros Hn (Hl & Hf & Hc)%pubsub_inv_run; [|apply started_count_notifying].
  rewrite length_fmap in Hl.
  destruct (count_all_started (subs s)) as (i & f & Hi).
  { rewrite Hc, Hl. destruct (buffered s), (waiting s); simpl; lia. }
  exists i, f. split; [|done]. apply Hf, list_lookup_fmap_Some in Hi as (f' & [= ->] & ?).
  done.
Qed.

(** Once its context is cancelled and its reader goes on taking, [Subscribe] returns
    and closes both channels: no other state is final. *)
Theorem Subscribe_closes feed s :
  rtc (pubsub_step Subscribe) (Subscribe_start feed) s →
  (∀ s', ¬ pubsub_step Subscribe s s') →
  cancelled s = true ∧ waiting s = false ∧ errCh_closed s = true ∧ outCh_closed s = true.
Proof.
  intros Hrun Hend. pose proof (sub_inv_run _ _ Hrun) as (u & Hu & Hopen & Hoc & Hm).
  apply pubsub_inv_run in Hrun as (_ & _ & Hc); [|done].
  destruct s as [l b w c ec oc ms es]. simpl in *. subst l. unfold started_count in Hc.
  destruct c; [|exfalso; eapply Hend; apply ps_cancel]. split; [done|].
  destruct u as [f|f|m f|e|].
  - destruct Hm as (-> & -> & -> & ->). exfalso. eapply Hend. by apply (ps_notify _ 0).
  - exfalso. eapply Hend. by eapply (ps_done _ 0).
  - destruct Hopen as (-> & -> & ->); [done|]. exfalso. destruct w.
    + destruct Hm as (_ & [->|?]); [|done]. eapply Hend, ps_return.
    + eapply Hend. by eapply (ps_deliver _ 0).
  - destruct Hopen as (-> & -> & ->); [done|]. exfalso. destruct w.
    + destruct Hm as (_ & _ & [->|?]); [|done]. eapply Hend, ps_return.
    + eapply Hend. by eapply (ps_deliver_error _ 0).
  - destruct w; [destruct b; [exfalso; eapply Hend, ps_return|done]|]. split; [done|].
    destruct ec; [|destruct oc; [by specialize (Hoc eq_refl)|exfalso]].
    + destruct oc; [done|]. exfalso. eapply Hend, ps_close_out. by constructor.
    + eapply Hend, ps_close_err. by constructor.
Qed.

(** *** At concrete inputs *)

Lemma Subscribe_delivers_witness :
  let s := mkPubSub [SendingMessage ("c", "2") []] false false false false false [("c", "1")] [] in
  (∃ rest, [("c", "1"); ("c", "2")] = messages s ++ rest) ∧ ¬ sends_on_closed s ∧
  (errors s = [] ∨ errors s = [ErrChannelClosed] ∧ messages s = [("c", "1"); ("c", "2")]).
Proof.
  apply Subscribe_delivers. unfold Subscribe_start, start.
  eapply rtc_l; [by apply (ps_notify _ 0)|]; simpl. eapply rtc_l; [apply ps_return|]; simpl.
  eapply rtc_l; [by apply (ps_message _ 0)|]; simpl. eapply rtc_l; [by apply (ps_deliver _ 0)|]; simpl.
  by apply rtc_once, (ps_message _ 0 ("c", "2") [] [Selecting [("c", "2")]]).
Defined.

Lemma PSubscribe_two_masters_witness :
  let s := mkPubSub [Selecting []; Notifying []; Selecting [("c", "1")]] true false false false false [] [] in
  ∃ i f, [[]; []; [("c", "1")]] !! i = Some f ∧ subs s !! i = Some (Notifying f).
Proof.
  apply PSubscribe_two_masters; [simpl; lia|]. unfold PSubscribe_start, start.
  eapply rtc_l; [by apply (ps_notify _ 0)|]; simpl. eapply rtc_l; [apply ps_return|]; simpl.
  by apply rtc_once, (ps_notify _ 2 [("c", "1")] [Selecting []; Notifying []; Notifying [("c", "1")]]).
Defined.

(** Publishing goes to sharded channels in a cluster, where pattern subscriptions do
    not listen. *)
Theorem Publish_reaches mode k :
  delivers (Publish k) (subscribe_command mode k) = false ↔ mode = PSubscribe ∧ k ≠ RedisSingle.
Proof. destruct mode, k; simpl; naive_solver. Qed.

(** Closing a pattern subscription while a message is on its way panics. *)
Example PSubscribe_close_panics :
  ∃ s, rtc (pubsub_step PSubscribe) (PSubscribe_start (SingleClient [("c", "1")])) s ∧
       sends_on_closed s.
Proof.
  exists (mkPubSub [SendingMessage ("c", "1") []] false false false true true [] []).
  split; [|by exists 0%nat, (SendingMessage ("c", "1") [])]. unfold PSubscribe_start, start.
  eapply rtc_l; [by apply (ps_notify _ 0)|]; simpl. eapply rtc_l; [apply ps_return|]; simpl.
  eapply rtc_l; [by apply (ps_message _ 0)|]; simpl. eapply rtc_l; [by apply ps_close_err|]; simpl.
  apply rtc_once. by apply ps_close_out.
Qed.

(** When [ForEachMaster] fails, [PSubscribe] does not return. *)
Example PSubscribe_no_masters err s :
  rtc (pubsub_step PSubscribe) (PSubscribe_start (ClusterClient (inr err))) s →
  waiting s = true ∧ errors s = [].
Proof.
  intros Hrun. set (P s := subs s = [SendingError err] ∧ buffered s = false ∧ waiting s = true ∧
    errors s = []).
  enough (P s) by (unfold P in *; tauto).
  refine (rtc_keeps _ P _ _ _ Hrun _); [|done]. intros x y Hst (Hs & Hb & Hw & He).
  destruct Hst; simpl in *; subst; try done;
    match goal with H : [_] !! _ = Some _ |- _ => apply one_sub in H as [_ H]; done end.
Qed.
