(* ===== verification/Redis.v ===== *)
(** * The Redis layer of [pkg/redis.go]

    The conversion of a struct to and from a Redis hash, over the fields that
    reflection sees; the operations of the Redis server that the metadata uses,
    as the class [Redis] with the laws of their documentation; [RedisLock] over
    the [redislock] package.  [time.Duration] and float fields are left out: no
    struct that is stored in Redis has them. *)

From S2P Require Import Prelude GoStrings FsID Types.
Local Open Scope Z_scope.

(** ** Structs and hashes *)

Inductive field_value : Type :=
  | VString (s : string)
  | VInt (bits : N) (z : Z)
  | VUint (bits : N) (z : Z)
  | VBool (b : bool).

(** A settable field: its [redis] tag and its value. *)
Definition field : Type := string * field_value.

(** [strconv.ParseBool] *)
Definition ParseBool (s : string) : option bool :=
  if bool_decide (s ∈ ["1"; "t"; "T"; "TRUE"; "true"; "True"]) then Some true
  else if bool_decide (s ∈ ["0"; "f"; "F"; "FALSE"; "false"; "False"]) then Some false
  else None.

(** [fmt.Sprintf("%v", value)] *)
Definition Sprint (v : field_value) : string :=
  match v with
  | VString s => s
  | VInt _ z | VUint _ z => pretty z
  | VBool b => if b then "true" else "false"
  end.

(** The value a field takes from the text of the hash: by its kind, the default
    when the text does not parse. *)
Definition parse_field (v : field_value) (text : string) : field_value :=
  match v with
  | VString _ => VString text
  | VInt bits _ => VInt bits (default 0 (ParseInt bits text))
  | VUint bits _ => VUint bits (default 0 (ParseUint bits text))
  | VBool _ => VBool (default false (ParseBool text))
  end.

Definition tagged (f : field) : bool := bool_decide (f.1 ≠ "" ∧ f.1 ≠ "-").

Definition ToStruct (m : gmap string string) (out : list field) : list field :=
  map (λ f, if tagged f then
              match m !! f.1 with
              | Some v => (f.1, parse_field f.2 v)
              | None => f
              end
            else f) out.

Definition ToSlice (v : list field) : list string :=
  concat (map (λ f, if tagged f then [f.1; Sprint f.2] else []) v).

(** The hash after [HSet] of alternating names and values. *)
Fixpoint hset (values : list string) (m : gmap string string) : gmap string string :=
  match values with
  | k :: v :: values => hset values (<[k := v]> m)
  | _ => m
  end.

(** The fields of [BlobFsMetadata]. *)
Definition metadata_fields (m : BlobFsMetadata) : list field :=
  [("pid", VString (PID m)); ("id", VString (ID m)); ("name", VString (Name m));
   ("path", VString (Path m)); ("hash", VString (Hash m)); ("ino", VUint 64 (Ino m));
   ("size", VUint 64 (Size m)); ("blocks", VUint 64 (Blocks m)); ("atime", VUint 64 (Atime m));
   ("mtime", VUint 64 (Mtime m)); ("ctime", VUint 64 (Ctime m));
   ("atimensec", VUint 32 (Atimensec m)); ("mtimensec", VUint 32 (Mtimensec m));
   ("ctimensec", VUint 32 (Ctimensec m)); ("mode", VUint 32 (Mode m));
   ("nlink", VUint 32 (Nlink m)); ("rdev", VUint 32 (Rdev m)); ("blksize", VUint 32 (Blksize m));
   ("padding", VUint 32 (Padding m)); ("uid", VUint 32 (Uid m)); ("gid", VUint 32 (Gid m));
   ("gen", VUint 64 (Gen m))].

Definition str_of (v : field_value) : string := match v with VString s => s | _ => "" end.
Definition num_of (v : field_value) : Z := match v with VInt _ z | VUint _ z => z | _ => 0 end.

(** The struct whose fields are these, in the order of the declaration. *)
Definition metadata_of_fields (fs : list field) : BlobFsMetadata :=
  let s i := str_of (default ("", VString "") (fs !! i)).2 in
  let n i := num_of (default ("", VString "") (fs !! i)).2 in
  mkMetadata (s 0%nat) (s 1%nat) (s 2%nat) (s 3%nat) (s 4%nat) (n 5%nat) (n 6%nat) (n 7%nat)
    (n 8%nat) (n 9%nat) (n 10%nat) (n 11%nat) (n 12%nat) (n 13%nat) (n 14%nat) (n 15%nat)
    (n 16%nat) (n 17%nat) (n 18%nat) (n 19%nat) (n 20%nat) (n 21%nat).

(** [ToStruct(m, metadata)] and [ToSlice(metadata)]. *)
Definition metadata_ToStruct (m : gmap string string) (out : BlobFsMetadata) : BlobFsMetadata :=
  metadata_of_fields (ToStruct m (metadata_fields out)).
Definition metadata_ToSlice (m : BlobFsMetadata) : list string := ToSlice (metadata_fields m).

(** ** The server *)

(** What the server stores: hashes, sets of strings, strings, and the tokens of
    the locks held, with all the tokens it ever gave out. *)
Record db : Type := mkDb {
  hashes : gmap string (gmap string string);
  sets : gmap string (gset string);
  strings : gmap string (list byte);
  lock_tokens : gmap string nat;
  issued : gset nat;
}.

Definition redis_Nil : error := ErrLib "redis: nil".
Definition ErrNotObtained : error := ErrLib "redislock: not obtained".
Definition ErrLockNotHeld : error := ErrLib "redislock: lock not held".

(** The calls: [Obtain], [LockRelease] and [LockRefresh] are those of the
    [redislock] package. *)
Class Redis (R : Type) : Type := {
  view : R → db;
  HGetAll : string → M R (gmap string string);
  HSet : string → list string → M R ();
  SMembers : string → M R (list string);
  SAdd : string → string → M R ();
  SRem : string → string → M R ();
  RGet : string → M R (list byte);
  RSet : string → list byte → Z → M R ();
  Del : string → M R ();
  Obtain : string → Z → Z → M R nat;
  LockRelease : string → nat → M R ();
  LockRefresh : string → nat → Z → Z → M R ();
}.

Definition members (d : db) (k : string) : gset string := default ∅ (sets d !! k).
Definition hash_of (d : db) (k : string) : gmap string string := default ∅ (hashes d !! k).

Definition set_hashes (f : gmap string (gmap string string) → gmap string (gmap string string))
    (d : db) : db := mkDb (f (hashes d)) (sets d) (strings d) (lock_tokens d) (issued d).
Definition set_sets (f : gmap string (gset string) → gmap string (gset string)) (d : db) : db :=
  mkDb (hashes d) (f (sets d)) (strings d) (lock_tokens d) (issued d).
Definition set_strings (f : gmap string (list byte) → gmap string (list byte)) (d : db) : db :=
  mkDb (hashes d) (sets d) (f (strings d)) (lock_tokens d) (issued d).
Definition set_tokens (f : gmap string nat → gmap string nat) (d : db) : db :=
  mkDb (hashes d) (sets d) (strings d) (f (lock_tokens d)) (issued d).

Definition issue (k : string) (tok : nat) (d : db) : db :=
  mkDb (hashes d) (sets d) (strings d) (<[k := tok]> (lock_tokens d)) ({[tok]} ∪ issued d).

(** An empty set is no key. *)
Definition put_set (k : string) (s : gset string) (d : db) : db :=
  set_sets (λ m, if decide (s = ∅) then delete k m else <[k := s]> m) d.

(** A call on the server: it never panics; on success it answers [v] and leaves
    [d']; on failure the command may or may not have been applied. *)
Definition does {R A} `{Redis R} (m : M R A) (r : R) (Q : A → Prop) (d' : db) : Prop :=
  match m r with
  | (Ok a, r') => Q a ∧ view r' = d'
  | (Err _, r') => view r' = view r ∨ view r' = d'
  | (Panic _, _) => False
  end.

Class RedisLaws (R : Type) `{Redis R} : Prop := {
  HGetAll_law k r : does (HGetAll k) r (λ h, h = hash_of (view r) k) (view r);
  (** a missing key is an empty hash, not [redis.Nil] *)
  HGetAll_not_nil k r : (HGetAll k r).1 ≠ Err redis_Nil;
  HSet_law k vs r :
    does (HSet k vs) r (λ _, True)
      (set_hashes (insert k (hset vs (hash_of (view r) k))) (view r));
  SMembers_law k r :
    does (SMembers k) r (λ l, NoDup l ∧ list_to_set l = members (view r) k) (view r);
  SAdd_law k x r :
    does (SAdd k x) r (λ _, True)
      (put_set k (members (view r) k ∪ {[x]}) (view r));
  SRem_law k x r :
    does (SRem k x) r (λ _, True)
      (put_set k (members (view r) k ∖ {[x]}) (view r));
  RGet_law k r :
    match RGet k r with
    | (Ok v, r') => strings (view r) !! k = Some v ∧ view r' = view r
    | (Err e, r') => (e = redis_Nil → strings (view r) !! k = None) ∧ view r' = view r
    | (Panic _, _) => False
    end;
  RSet_law k v t r :
    does (RSet k v t) r (λ _, True) (set_strings (insert k v) (view r));
  Del_law k r :
    does (Del k) r (λ _, True)
      (set_tokens (delete k) (set_strings (delete k) (set_sets (delete k)
        (set_hashes (delete k) (view r)))));
  (** the token of a lock is set if there was none, and is new; an error may
      come after the token was set, but not [ErrNotObtained] *)
  Obtain_law k t n r :
    let obtained tok r' :=
      lock_tokens (view r) !! k = None ∧ (tok ∉ issued (view r)) ∧
      view r' = issue k tok (view r) in
    match Obtain k t n r with
    | (Ok tok, r') => obtained tok r'
    | (Err e, r') =>
        view r' = view r ∨ e ≠ ErrNotObtained ∧ ∃ tok, obtained tok r'
    | (Panic _, _) => False
    end;
  (** the token is compared before the key is deleted *)
  LockRelease_law k tok r :
    let released r' :=
      lock_tokens (view r) !! k = Some tok ∧ view r' = set_tokens (delete k) (view r) in
    match LockRelease k tok r with
    | (Ok _, r') => released r'
    | (Err _, r') => view r' = view r ∨ released r'
    | (Panic _, _) => False
    end;
  LockRefresh_law k tok t n r :
    match LockRefresh k tok t n r with
    | (Ok _, r') => lock_tokens (view r) !! k = Some tok ∧ view r' = view r
    | (Err _, r') => view r' = view r
    | (Panic _, _) => False
    end;
}.

(** ** RedisLock *)

Record RedisLockOptions : Type := mkLockOptions { TtlS : Z; Retries : Z }.

(** The locks a process holds, by key, over the server. *)
Record RedisLock (R : Type) : Type := mkRedisLock { rdb : R; locks : gmap string nat }.
Arguments mkRedisLock {R} _ _.
Arguments rdb {R} _.
Arguments locks {R} _.

Section lock.
Context {R : Type} `{Redis R}.

Definition on_rdb {A} (m : M R A) : M (RedisLock R) A :=
  zoom rdb (λ r l, mkRedisLock r (locks l)) m.
Definition set_locks (f : gmap string nat → gmap string nat) : M (RedisLock R) () :=
  modify (λ l, mkRedisLock (rdb l) (f (locks l))).

(** [Acquire]: both error returns give back the error of [Obtain]. *)
Definition Acquire (key : string) (opts : RedisLockOptions) : M (RedisLock R) () :=
  r ← attempt (on_rdb (Obtain key (wrap64 (TtlS opts * Second)) (Retries opts)));
  match r with
  | inr err => if decide (err ≠ ErrNotObtained) then throw err else throw ErrNotObtained
  | inl lock => set_locks (insert key lock)
  end.

Definition Release (key : string) : M (RedisLock R) () :=
  ls ← gets locks;
  match ls !! key with
  | Some lock =>
      ignore (on_rdb (LockRelease key lock)) ≫= λ _,
      set_locks (delete key)
  | None => throw ErrLockNotHeld
  end.

Definition Refresh (key : string) (opts : RedisLockOptions) : M (RedisLock R) () :=
  ls ← gets locks;
  match ls !! key with
  | Some lock => on_rdb (LockRefresh key lock (wrap64 (TtlS opts * Second)) (Retries opts))
  | None => throw ErrLockNotHeld
  end.

End lock.

(** ** Structs and hashes: lemmas *)

(** A value that its text gives back. *)
Definition field_ok (v : field_value) : Prop :=
  match v with
  | VString _ | VBool _ => True
  | VInt bits z => ParseInt bits (pretty z) = Some z
  | VUint bits z => 0 ≤ z < 2 ^ Z.of_N bits
  end.

Definition same_kind (v w : field_value) : Prop :=
  match v, w with
  | VString _, VString _ | VBool _, VBool _ => True
  | VInt b _, VInt b' _ | VUint b _, VUint b' _ => b = b'
  | _, _ => False
  end.

Lemma parse_Sprint v w : same_kind v w → field_ok w → parse_field v (Sprint w) = w.
Proof.
  destruct v, w; simpl; try done.
  - by intros <- ->.
  - intros <- Hz. by rewrite ParseUint_pretty.
  - by destruct b0.
Qed.

(** The hash holds the text of every field, under its tag. *)
Lemma hset_ToSlice fs m :
  NoDup fs.*1 → Forall (λ f, tagged f = true) fs →
  (∀ f, f ∈ fs → hset (ToSlice fs) m !! f.1 = Some (Sprint f.2)) ∧
  (∀ k, k ∉ fs.*1 → hset (ToSlice fs) m !! k = m !! k).
Proof.
  revert m. induction fs as [|f fs IH]; intros m Hn Ht.
  { split; [by intros f ?%elem_of_nil|done]. }
  apply Forall_cons in Ht as [Hf Ht]. apply NoDup_cons in Hn as [Hk Hn].
  unfold ToSlice. simpl. rewrite Hf. simpl. fold (ToSlice fs).
  destruct (IH (<[f.1 := Sprint f.2]> m) Hn Ht) as [H1 H2]. split.
  - intros g [->|Hg]%elem_of_cons; [|by apply H1].
    rewrite H2 by done. apply lookup_insert_eq.
  - intros k [Hne Hk']%not_elem_of_cons. rewrite H2 by done. by rewrite lookup_insert_ne.
Qed.

(** A struct written over any hash and read into any struct of its type comes
    back. *)
Lemma ToStruct_ToSlice fs out m :
  NoDup fs.*1 → Forall (λ f, tagged f = true) fs → Forall (λ f, field_ok f.2) fs →
  Forall2 (λ o f, o.1 = f.1 ∧ same_kind o.2 f.2) out fs →
  ToStruct (hset (ToSlice fs) m) out = fs.
Proof.
  intros Hn Ht Hok Hout. destruct (hset_ToSlice fs m Hn Ht) as [Hl _].
  unfold ToStruct. revert Hl. generalize (hset (ToSlice fs) m) as h. intros h.
  clear Hn m. induction Hout as [|[k v] f out fs [Ek Hv] Hout IH]; intros Hl; [done|].
  apply Forall_cons in Ht as [Hft Ht]. apply Forall_cons in Hok as [Hf Hok]. simpl in *.
  rewrite IH by (done || (intros; apply Hl; by right)). f_equal. subst k.
  assert (tagged (f.1, v) = tagged f) as -> by done. rewrite Hft.
  rewrite (Hl f) by left. rewrite parse_Sprint by done. by destruct f.
Qed.

(** The ranges of the numeric fields. *)
Definition metadata_ok (m : BlobFsMetadata) : Prop :=
  Forall (λ f, field_ok f.2) (metadata_fields m).

Lemma metadata_ok_Ino i m : 0 ≤ i < 2 ^ 64 → metadata_ok m → metadata_ok (set_Ino i m).
Proof.
  unfold metadata_ok, metadata_fields. intros Hi Hm. destruct m. simpl in *.
  repeat (apply Forall_cons in Hm as [? Hm]).
  repeat (apply Forall_cons_2; [first [done|simpl; lia]|]). constructor.
Qed.

Lemma metadata_of_fields_fields m : metadata_of_fields (metadata_fields m) = m.
Proof. by destruct m. Qed.

Lemma metadata_tags m : (metadata_fields m).*1 = (metadata_fields zeroMetadata).*1.
Proof. done. Qed.

Lemma metadata_ToStruct_ToSlice m out h :
  metadata_ok m → metadata_ToStruct (hset (metadata_ToSlice m) h) out = m.
Proof.
  intros Hok. unfold metadata_ToStruct, metadata_ToSlice.
  rewrite ToStruct_ToSlice; [apply metadata_of_fields_fields| | |done|].
  - rewrite metadata_tags. by apply (bool_decide_unpack _).
  - by repeat constructor.
  - by repeat constructor.
Qed.

(** ** A reference server *)

Definition db_reply {A} (f : db → A * db) : M db A := λ d, let '(a, d') := f d in (Ok a, d').

(** A server that never fails and keeps everything. *)
#[export] Instance db_redis : Redis db := {
  view d := d;
  HGetAll k := gets (λ d, hash_of d k);
  HSet k vs := modify (λ d, set_hashes (insert k (hset vs (hash_of d k))) d);
  SMembers k := gets (λ d, elements (members d k));
  SAdd k x := modify (λ d, put_set k (members d k ∪ {[x]}) d);
  SRem k x := modify (λ d, put_set k (members d k ∖ {[x]}) d);
  RGet k d := (match strings d !! k with Some v => Ok v | None => Err redis_Nil end, d);
  RSet k v _ := modify (set_strings (insert k v));
  Del k := modify (λ d, set_tokens (delete k) (set_strings (delete k) (set_sets (delete k)
             (set_hashes (delete k) d))));
  Obtain k _ _ d :=
    match lock_tokens d !! k with
    | Some _ => (Err ErrNotObtained, d)
    | None => (Ok (fresh (issued d)), issue k (fresh (issued d)) d)
    end;
  LockRelease k tok d :=
    if decide (lock_tokens d !! k = Some tok) then (Ok tt, set_tokens (delete k) d)
    else (Err ErrLockNotHeld, d);
  LockRefresh k tok _ _ d :=
    if decide (lock_tokens d !! k = Some tok) then (Ok tt, d) else (Err ErrNotObtained, d);
}.

#[export] Instance db_redis_laws : RedisLaws db.
Proof.
  split; try done.
  - intros k r. split; [|done]. split; [apply NoDup_elements|apply list_to_set_elements_L].
  - intros k r. simpl. by destruct (strings r !! k) eqn:E.
  - intros k t n r. simpl. destruct (lock_tokens r !! k) eqn:E; [by left|].
    split_and!; [done| |done]. apply is_fresh.
  - intros k tok r. simpl. case_decide; [done|by left].
  - intros k tok t n r. simpl. by case_decide.
Qed.

(** ** What the locks leave alone *)

Section tables.
Context {R : Type} `{RE : Redis R} {RLaws : RedisLaws R}.

(** The hashes and the sets of the server. *)
Definition tables (st : RedisLock R) := (hashes (view (rdb st)), sets (view (rdb st))).

Lemma Acquire_tables key opts (st : RedisLock R) : tables (Acquire key opts st).2 = tables st.
Proof.
  unfold Acquire, attempt, mbind, M_bind, on_rdb, zoom.
  pose proof (Obtain_law key (wrap64 (TtlS opts * Second)) (Retries opts) (rdb st)) as Ho.
  assert (∀ tok, tables st = (hashes (issue key tok (view (rdb st))), sets (issue key tok (view (rdb st))))) as Hi
    by done.
  destruct (Obtain _ _ _ (rdb st)) as [[tok|e|p] r]; simpl in *; [| |done].
  - destruct Ho as (_ & _ & Hv). unfold tables. simpl. by rewrite Hv.
  - assert (tables (mkRedisLock r (locks st)) = tables st) as E.
    { unfold tables. simpl. destruct Ho as [->|(_ & tok & _ & _ & ->)]; done. }
    by case_decide.
Qed.

Lemma Release_tables key (st : RedisLock R) : tables (Release key st).2 = tables st.
Proof.
  unfold Release, ignore, attempt, mbind, M_bind, gets, on_rdb, zoom. simpl.
  destruct (locks st !! key) as [tok|]; [|done].
  pose proof (LockRelease_law key tok (rdb st)) as Hl.
  destruct (LockRelease key tok (rdb st)) as [[[]|e|p] r]; simpl in *; [| |done]; unfold tables; simpl.
  - by destruct Hl as [_ ->].
  - by destruct Hl as [->|[_ ->]].
Qed.

Lemma Refresh_tables key opts (st : RedisLock R) : tables (Refresh key opts st).2 = tables st.
Proof.
  unfold Refresh, mbind, M_bind, gets, on_rdb, zoom. simpl.
  destruct (locks st !! key) as [tok|]; [|done].
  pose proof (LockRefresh_law key tok (wrap64 (TtlS opts * Second)) (Retries opts) (rdb st)) as Hl.
  destruct (LockRefresh _ _ _ _ (rdb st)) as [[[]|e|p] r]; simpl in *; [| |done]; unfold tables; simpl.
  - by destruct Hl as [_ ->].
  - by rewrite Hl.
Qed.

End tables.

(** ** Locks *)

(** Processes, each with its table of locks, over one server. *)
Section exclusion.
Context {R : Type} `{RE : Redis R} {RLaws : RedisLaws R}.

Definition procs : Type := R * list (gmap string nat).

(** The operation [m] of process [i]. *)
Definition proc_run {A} (i : nat) (m : M (RedisLock R) A) (s : procs) : procs :=
  match s.2 !! i with
  | None => s
  | Some t => let l := (m (mkRedisLock s.1 t)).2 in (rdb l, <[i := locks l]> s.2)
  end.

Inductive lock_step : procs → procs → Prop :=
  | step_Acquire i key opts s : lock_step s (proc_run i (Acquire key opts) s)
  | step_Release i key s : lock_step s (proc_run i (Release key) s)
  | step_Refresh i key opts s : lock_step s (proc_run i (Refresh key opts) s)
  (** a lock expires, or the server is used for something else *)
  | step_server r s :
      lock_tokens (view r) ⊆ lock_tokens (view s.1) → issued (view r) = issued (view s.1) →
      lock_step s (r, s.2)
  (** a process starts with no lock *)
  | step_spawn s : lock_step s (s.1, s.2 ++ [∅]).

Inductive lock_reachable : procs → Prop :=
  | lock_init r : lock_tokens (view r) = ∅ → lock_reachable (r, [])
  | lock_next s s' : lock_reachable s → lock_step s s' → lock_reachable s'.

(** Process [i] holds [key]: the server has the token of its lock. *)
Definition holds (s : procs) (i : nat) (key : string) : Prop :=
  ∃ t tok, s.2 !! i = Some t ∧ t !! key = Some tok ∧ lock_tokens (view s.1) !! key = Some tok.

(** No token is in two places, and all were issued. *)
Definition tokens_ok (s : procs) : Prop :=
  (∀ i j t t' k k' tok, s.2 !! i = Some t → s.2 !! j = Some t' →
     t !! k = Some tok → t' !! k' = Some tok → i = j ∧ k = k') ∧
  (∀ i t k tok, s.2 !! i = Some t → t !! k = Some tok → tok ∈ issued (view s.1)).

(** What an operation does to the table of its process: it adds at most one
    entry, with a new token. *)
Definition grows (r : R) (t : gmap string nat) (l : RedisLock R) : Prop :=
  issued (view r) ⊆ issued (view (rdb l)) ∧
  ∃ key tok0, ∀ k tok, locks l !! k = Some tok →
    t !! k = Some tok ∨
    (k = key ∧ tok = tok0 ∧ (tok ∉ issued (view r)) ∧ tok ∈ issued (view (rdb l))).

Lemma grows_same r t r' : issued (view r) ⊆ issued (view r') → grows r t (mkRedisLock r' t).
Proof. intros Hi. split; [done|]. exists "", 0%nat. by left. Qed.

Lemma Acquire_grows key opts r t : grows r t (Acquire key opts (mkRedisLock r t)).2.
Proof.
  unfold Acquire, attempt, mbind, M_bind, on_rdb, zoom. simpl.
  pose proof (Obtain_law key (wrap64 (TtlS opts * Second)) (Retries opts) r) as Ho.
  destruct (Obtain key _ _ r) as [[tok|e|p] r']; [| |done].
  - destruct Ho as (_ & Hnew & Hv). split; simpl; [rewrite Hv; set_solver|].
    exists key, tok. intros k tok' Hk. apply lookup_insert_Some in Hk as [[<- <-]|[_ Hk]]; [right|by left].
    split_and!; [done..|]. rewrite Hv. set_solver.
  - assert (issued (view r) ⊆ issued (view r')) as Hi.
    { destruct Ho as [->|(_ & tok & _ & _ & ->)]; set_solver. }
    case_decide; by apply grows_same.
Qed.

Lemma Release_grows key r t : grows r t (Release key (mkRedisLock r t)).2.
Proof.
  unfold Release, ignore, attempt, mbind, M_bind, on_rdb, zoom, gets. simpl.
  destruct (t !! key) as [lock|] eqn:E; simpl; [|by apply grows_same].
  pose proof (LockRelease_law key lock r) as Hr.
  assert (∀ r', issued (view r) ⊆ issued (view r') → grows r t (mkRedisLock r' (delete key t))) as Hd.
  { intros r' Hi. split; [done|]. exists "", 0%nat. simpl. intros k tok Hk. left.
    by apply lookup_delete_Some in Hk as [_ Hk]. }
  destruct (LockRelease key lock r) as [[[]|e|p] r']; [| |done]; simpl; apply Hd.
  - by destruct Hr as [_ ->].
  - by destruct Hr as [->|[_ ->]].
Qed.

Lemma Refresh_grows key opts r t : grows r t (Refresh key opts (mkRedisLock r t)).2.
Proof.
  unfold Refresh, mbind, M_bind, on_rdb, zoom, gets. simpl.
  destruct (t !! key) as [lock|] eqn:E; simpl; [|by apply grows_same].
  pose proof (LockRefresh_law key lock (wrap64 (TtlS opts * Second)) (Retries opts) r) as Hr.
  destruct (LockRefresh key lock _ _ r) as [[[]|e|p] r']; [| |done]; apply grows_same;
    [destruct Hr as [_ ->]|rewrite Hr]; done.
Qed.

Lemma proc_run_ok {A} i (m : M (RedisLock R) A) s :
  (∀ r t, grows r t (m (mkRedisLock r t)).2) → tokens_ok s → tokens_ok (proc_run i m s).
Proof.
  intros Hm [Hu Hi]. destruct s as [r ts]. unfold proc_run. simpl in *.
  destruct (ts !! i) as [t|] eqn:Et; [|done].
  destruct (Hm r t) as [Hsub (key & tok0 & Hnew)].
  destruct (m _) as [res [r' t']]. simpl in *.
  (* an entry of the new state is old, or it is the new entry of process [i] *)
  assert (∀ j u k tok, <[i:=t']> ts !! j = Some u → u !! k = Some tok →
    (∃ u0, ts !! j = Some u0 ∧ u0 !! k = Some tok) ∨
    (j = i ∧ k = key ∧ tok = tok0 ∧ (tok ∉ issued (view r)) ∧ tok ∈ issued (view r'))) as Hcase.
  { intros j u k tok Hj Hk. apply list_lookup_insert_Some in Hj as [(<- & <- & _)|[Hne Hj]]; [|eauto].
    destruct (Hnew k tok Hk) as [Ho|Ho]; [eauto|]. right. naive_solver. }
  split.
  - intros j1 j2 u1 u2 k1 k2 tok H1 H2 E1 E2.
    destruct (Hcase _ _ _ _ H1 E1) as [(v1 & V1 & W1)|(-> & -> & -> & N1 & _)];
      destruct (Hcase _ _ _ _ H2 E2) as [(v2 & V2 & W2)|(-> & -> & N & N2 & _)]; subst.
    + by eapply Hu.
    + by destruct N2; eapply Hi.
    + by destruct N1; eapply Hi.
    + done.
  - intros j u k tok Hj Hk. destruct (Hcase _ _ _ _ Hj Hk) as [(v & V & W)|(_&_&_&_&?)]; [|done].
    apply Hsub. by eapply Hi.
Qed.

Lemma lock_reachable_ok s : lock_reachable s → tokens_ok s.
Proof.
  induction 1 as [r Hr|s s' _ IH Hst].
  - split; intros i; intros; simpl in *; by rewrite lookup_nil in *.
  - destruct Hst as [i key opts s|i key s|i key opts s|r s Hsub Hi|s].
    + apply proc_run_ok; [|done]. intros. apply Acquire_grows.
    + apply proc_run_ok; [|done]. intros. apply Release_grows.
    + apply proc_run_ok; [|done]. intros. apply Refresh_grows.
    + destruct IH as [Hu Hiss]. split; [done|]. simpl. rewrite Hi. exact Hiss.
    + destruct IH as [Hu Hiss]. split.
      * intros i j t t' k k' tok [Hi|[_ Hi]]%lookup_app_Some [Hj|[_ Hj]]%lookup_app_Some Ek Ek';
          simpl in *; try (apply list_lookup_singleton_Some in Hi as [_ <-]);
          try (apply list_lookup_singleton_Some in Hj as [_ <-]); try done. by eapply Hu.
      * intros i t k tok [Hi|[_ Hi]]%lookup_app_Some Ek; simpl in *; [by eapply Hiss|].
        apply list_lookup_singleton_Some in Hi as [_ <-]. done.
Qed.

(** C16: at most one process holds a lock at a time, through any acquisitions,
    releases, refreshes, expiries and failed calls; and a process whose lock
    expired and was taken by another cannot release it or refresh it: the holder
    keeps it. *)
Theorem lock_mutual_exclusion s i j key opts :
  lock_reachable s → holds s j key → i ≠ j →
  ¬ holds s i key ∧
  holds (proc_run i (Release key) s) j key ∧
  holds (proc_run i (Refresh key opts) s) j key ∧
  holds (proc_run i (Acquire key opts) s) j key.
Proof.
  intros Hr Hj Hij. destruct (lock_reachable_ok s Hr) as [Hu _]. destruct s as [r ts].
  pose proof Hj as (t & tok & Et & Ek & Ev). simpl in *.
  assert (∀ t' tok', ts !! i = Some t' → t' !! key = Some tok' → tok' ≠ tok) as Hne.
  { intros t' tok' Et' Ek' ->. by destruct (Hu i j t' t key key tok) as [? _]. }
  (* an operation of [i] that leaves the lock of [key] on the server *)
  assert (∀ A (m : M (RedisLock R) A),
    (∀ t', ts !! i = Some t' →
       lock_tokens (view (rdb (m (mkRedisLock r t')).2)) !! key = Some tok) →
    holds (proc_run i m (r, ts)) j key) as Hkeep.
  { intros A m Hm. unfold proc_run. simpl. destruct (ts !! i) as [t'|] eqn:Ei; [|done].
    exists t, tok. simpl. split_and!; [by rewrite list_lookup_insert_ne|done|by apply Hm]. }
  split_and!.
  - intros (t' & tok' & Et' & Ek' & Ev'). simpl in *. apply (Hne t' tok'); [done..|congruence].
  - apply Hkeep. intros t' Et'.
    unfold Release, ignore, attempt, mbind, M_bind, on_rdb, zoom, gets. simpl.
    destruct (t' !! key) as [lock|] eqn:El; [|done]. simpl.
    pose proof (LockRelease_law key lock r) as Hl. specialize (Hne t' lock Et' El).
    destruct (LockRelease key lock r) as [[[]|e|p] r']; [| |done]; simpl; [naive_solver|].
    destruct Hl as [->|[? _]]; [done|congruence].
  - apply Hkeep. intros t' Et'. unfold Refresh, mbind, M_bind, on_rdb, zoom, gets. simpl.
    destruct (t' !! key) as [lock|] eqn:El; [|done].
    pose proof (LockRefresh_law key lock (wrap64 (TtlS opts * Second)) (Retries opts) r) as Hl. simpl.
    destruct (LockRefresh key lock _ _ r) as [[[]|e|p] r']; [| |done]; simpl.
    + by destruct Hl as [_ ->].
    + by rewrite Hl.
  - apply Hkeep. intros t' Et'. unfold Acquire, attempt, mbind, M_bind, on_rdb, zoom. simpl.
    pose proof (Obtain_law key (wrap64 (TtlS opts * Second)) (Retries opts) r) as Ho.
    destruct (Obtain key _ _ r) as [[tk|e|p] r']; [| |done].
    + destruct Ho as [? _]. congruence.
    + destruct Ho as [E|(_ & tk & ? & _)]; [|congruence]. case_decide; simpl; by rewrite E.
Qed.

End exclusion.

(** Two processes; the second took the lock after the first one's expired. *)
Definition no_db : db := mkDb ∅ ∅ ∅ ∅ ∅.
Definition stale_holder : procs (R:=db) :=
  let s1 := proc_run 0 (Acquire "k" (mkLockOptions 5 0)) (no_db, [∅; ∅]) in
  proc_run 1 (Acquire "k" (mkLockOptions 5 0)) (set_tokens (λ _, ∅) s1.1, s1.2).

Lemma stale_holder_reachable : lock_reachable stale_holder.
Proof.
  unfold stale_holder. eapply lock_next; [|apply step_Acquire].
  eapply lock_next; [|apply step_server; [apply map_empty_subseteq|done]].
  eapply lock_next; [|apply step_Acquire].
  eapply lock_next; [|apply (step_spawn (no_db, [∅]))].
  eapply lock_next; [|apply (step_spawn (no_db, []))]. by apply lock_init.
Qed.

Lemma stale_holder_holds : holds stale_holder 1 "k".
Proof. exists {[ "k" := 1%nat ]}, 1%nat. by vm_compute. Qed.

Lemma lock_mutual_exclusion_witness :
  ¬ holds stale_holder 0 "k" ∧
  holds (proc_run 0 (Release "k") stale_holder) 1 "k" ∧
  holds (proc_run 0 (Refresh "k" (mkLockOptions 5 0)) stale_holder) 1 "k" ∧
  holds (proc_run 0 (Acquire "k" (mkLockOptions 5 0)) stale_holder) 1 "k".
Proof.
  exact (lock_mutual_exclusion stale_holder 0 1 "k" (mkLockOptions 5 0)
    stale_holder_reachable stale_holder_holds ltac:(done)).
Defined.

(** A struct of node metadata written to a Redis hash, over whatever the hash
    held, and read back into any struct is the struct that was written. *)
Theorem metadata_redis_roundtrip m out h :
  metadata_ok m → metadata_ToStruct (hset (metadata_ToSlice m) h) out = m.
Proof. apply metadata_ToStruct_ToSlice. Qed.

Definition small_metadata : BlobFsMetadata :=
  mkMetadata "p" "i" "n" "/n" "h" 7 (2 ^ 64 - 1) 0 0 0 0 (2 ^ 32 - 1) 0 0 420 1 0 4096 0 0 0 3.

Lemma metadata_redis_roundtrip_witness :
  metadata_ToStruct (hset (metadata_ToSlice small_metadata) {[ "x" := "y" ]}) zeroMetadata =
  small_metadata.
Proof. apply metadata_redis_roundtrip. repeat constructor; simpl; lia. Defined.
