(* ===== verification/Metadata.v ===== *)
(** * The metadata store of [pkg/metadata.go]

    Hosts, locks and file-system nodes under their Redis keys.  The operations
    run over a [RedisLock]: the server and the locks this process holds.  The
    JSON text of a host is the codec [HostCodec]. *)

From S2P Require Import Prelude GoStrings FsID GoFloat Types Redis.
Local Open Scope Z_scope.

(** ** Keys *)

Definition storeFromContentLockTtlS : Z := 5.

Definition MetadataPrefix : string := "blobcache".
Definition MetadataHostIndex (locality : string) : string := "blobcache:host_index:" +:+ locality.

(** The format has one verb for two arguments: [fmt] appends the other. *)
Definition MetadataHostKeepAlive (locality hostId : string) : string :=
  "blobcache:host:keepalive:" +:+ locality +:+ "%!(EXTRA string=" +:+ hostId +:+ ")".
Definition MetadataLocation (hash : string) : string := "blobcache:location:" +:+ hash.
Definition MetadataFsNode (id : string) : string := "blobcache:fs:node:" +:+ id.
Definition MetadataFsNodeChildren (id : string) : string :=
  "blobcache:fs:node:" +:+ id +:+ ":children".
Definition MetadataClientLock (hostId hash : string) : string :=
  "blobcache:client_lock:" +:+ hostId +:+ ":" +:+ hash.
Definition MetadataStoreFromContentLock (locality sourcePath : string) : string :=
  "blobcache:store_from_content_lock:" +:+ locality +:+ ":" +:+ replace_char "/" "_" sourcePath.

(** ** The text of a host *)

(** [encoding/json] on a [BlobCacheHost]; it refuses a usage that is not
    finite. *)
Class HostCodec : Type := {
  Marshal : BlobCacheHost → res (list byte);
  Unmarshal : list byte → option BlobCacheHost;
}.

(** ** Operations *)

Section metadata.
Context {R : Type} `{Redis R} `{HostCodec}.
Abbreviation Md := (M (RedisLock R)).

Definition SetClientLock (clientId hash : string) : Md () :=
  Acquire (MetadataClientLock clientId hash) (mkLockOptions 300 0).

Definition RemoveClientLock (clientId hash : string) : Md () :=
  Release (MetadataClientLock clientId hash).

(** [GetFsNode]; [redis.Nil] is not an error of [HGETALL] here. *)
Definition HGetAll_nil (key : string) : Md (gmap string string) :=
  r ← attempt (on_rdb (HGetAll key));
  match r with
  | inl res => mret res
  | inr err => if decide (err ≠ redis_Nil) then throw err else mret ∅
  end.

Definition GetFsNode (id : string) : Md BlobFsMetadata :=
  res ← HGetAll_nil (MetadataFsNode id);
  if decide (res = ∅) then throw (ErrNodeNotFound id)
  else mret (metadata_ToStruct res zeroMetadata).

(** [SetFsNode] writes [metadata.Gen] through the pointer: the struct as it is
    after the call is the result. *)
Definition SetFsNode (id : string) (metadata : BlobFsMetadata) : Md BlobFsMetadata :=
  let key := MetadataFsNode id in
  res ← HGetAll_nil key;
  let metadata :=
    if decide (res = ∅) then metadata
    else set_Gen (wrapU64 (Gen (metadata_ToStruct res zeroMetadata) + 1)) metadata in
  r ← attempt (on_rdb (HSet key (metadata_ToSlice metadata)));
  match r with
  | inl _ => mret metadata
  | inr err => throw (ErrWrap "failed to set blobfs node metadata" err)
  end.

(** The loop over the children: a node that cannot be read is skipped. *)
Fixpoint get_nodes (nodeIds : list string) : Md (list BlobFsMetadata) :=
  match nodeIds with
  | [] => mret []
  | nodeId :: nodeIds =>
      node ← attempt (GetFsNode nodeId);
      entries ← get_nodes nodeIds;
      mret (match node with inl n => n :: entries | inr _ => entries end)
  end.

Definition GetFsNodeChildren (id : string) : Md (list BlobFsMetadata) :=
  nodeIds ← on_rdb (SMembers (MetadataFsNodeChildren id));
  get_nodes nodeIds.

Definition AddHostToIndex (locality : string) (host : BlobCacheHost) : Md () :=
  on_rdb (SAdd (MetadataHostIndex locality) (HostId host)).

Definition RemoveHostFromIndex (locality : string) (host : BlobCacheHost) : Md () :=
  on_rdb (SRem (MetadataHostIndex locality) (HostId host)).

Definition host_of_id (hostId : string) : BlobCacheHost := mkHost 0 hostId "" "" f_zero.

(** The loop over the ids of the index, with [removeHostCallback]. *)
Fixpoint get_hosts (removeHostCallback : BlobCacheHost → Md ()) (locality : string)
    (hostIds : list string) : Md (list BlobCacheHost) :=
  match hostIds with
  | [] => mret []
  | hostId :: hostIds =>
      r ← attempt (on_rdb (RGet (MetadataHostKeepAlive locality hostId)));
      match r with
      | inr err =>
          (if decide (err = redis_Nil) then
             ignore (RemoveHostFromIndex locality (host_of_id hostId)) ≫= λ _,
             removeHostCallback (host_of_id hostId)
           else mret tt) ≫= λ _,
          get_hosts removeHostCallback locality hostIds
      | inl hostBytes =>
          hosts ← get_hosts removeHostCallback locality hostIds;
          mret (match Unmarshal hostBytes with Some host => host :: hosts | None => hosts end)
      end
  end.

Definition no_hosts : error := ErrNew "no available hosts".

Definition GetAvailableHosts (locality : string) (removeHostCallback : BlobCacheHost → Md ()) :
    Md (list BlobCacheHost) :=
  hostIds ← on_rdb (SMembers (MetadataHostIndex locality));
  hosts ← get_hosts removeHostCallback locality hostIds;
  match hosts with
  | [] => throw no_hosts
  | _ => mret hosts
  end.

Definition SetHostKeepAlive (locality : string) (host : BlobCacheHost) : Md () :=
  match Marshal host with
  | Ok hostBytes =>
      on_rdb (RSet (MetadataHostKeepAlive locality (HostId host)) hostBytes
                (defaultHostKeepAliveTimeoutS * Second))
  | Err e => throw e
  | Panic p => gopanic p
  end.

Definition GetHostIndex (locality : string) : Md (list BlobCacheHost) :=
  hostIds ← on_rdb (SMembers (MetadataHostIndex locality));
  mret (map host_of_id hostIds).

Definition AddFsNodeChild (pid id : string) : Md () :=
  on_rdb (SAdd (MetadataFsNodeChildren pid) id).
Definition RemoveFsNode (id : string) : Md () := on_rdb (Del (MetadataFsNode id)).
Definition RemoveFsNodeChild (pid id : string) : Md () :=
  on_rdb (SRem (MetadataFsNodeChildren pid) id).

Definition SetStoreFromContentLock (locality sourcePath : string) : Md () :=
  Acquire (MetadataStoreFromContentLock locality sourcePath)
    (mkLockOptions storeFromContentLockTtlS 0).
Definition RefreshStoreFromContentLock (locality sourcePath : string) : Md () :=
  Refresh (MetadataStoreFromContentLock locality sourcePath)
    (mkLockOptions storeFromContentLockTtlS 0).
Definition RemoveStoreFromContentLock (locality sourcePath : string) : Md () :=
  Release (MetadataStoreFromContentLock locality sourcePath).

End metadata.

(** ** Keys: lemmas *)

Lemma MetadataFsNode_inj id id' : MetadataFsNode id = MetadataFsNode id' → id = id'.
Proof. apply string_app_inj_l. Qed.

(** Two source paths share a lock when they differ by [/] and [_] only. *)
Example lock_key_collision :
  MetadataStoreFromContentLock "l" "/a/b" = MetadataStoreFromContentLock "l" "/a_b".
Proof. done. Qed.

(** The keepalive key as [fmt] prints it. *)
Example keepalive_key_text :
  MetadataHostKeepAlive "us" "h1" = "blobcache:host:keepalive:us%!(EXTRA string=h1)".
Proof. done. Qed.

(** ** Operations: lemmas *)

Section lemmas.
Context {R : Type} `{RE : Redis R} {RLaws : RedisLaws R} `{HC : HostCodec}.
Abbreviation RL := (RedisLock R).
Abbreviation V st := (view (rdb st)).

(** A call on the server, seen from the process. *)
Lemma on_rdb_does {A} (m : M R A) (st : RL) Q d :
  does m (rdb st) Q d →
  match on_rdb m st with
  | (Ok a, st') => Q a ∧ V st' = d ∧ locks st' = locks st
  | (Err _, st') => (V st' = V st ∨ V st' = d) ∧ locks st' = locks st
  | (Panic _, _) => False
  end.
Proof. unfold does, on_rdb, zoom. destruct (m (rdb st)) as [[a|e|p] r']; simpl; naive_solver. Qed.

Lemma HGetAll_nil_spec key (st : RL) :
  match HGetAll_nil key st with
  | (Ok h, st') => h = hash_of (V st) key ∧ V st' = V st ∧ locks st' = locks st
  | (Err _, st') => V st' = V st ∧ locks st' = locks st
  | (Panic _, _) => False
  end.
Proof.
  unfold HGetAll_nil, attempt, mbind, M_bind.
  pose proof (on_rdb_does (HGetAll key) st _ _ (HGetAll_law key (rdb st))) as Hd.
  pose proof (HGetAll_not_nil key (rdb st)) as Hnil.
  assert ((on_rdb (HGetAll key) st).1 = (HGetAll key (rdb st)).1) as E
    by (unfold on_rdb, zoom; by destruct (HGetAll key (rdb st))).
  rewrite <-E in Hnil. destruct (on_rdb (HGetAll key) st) as [[h|e|p] st']; simpl in *; [done| |done].
  destruct Hd as [Hv Hl]. assert (V st' = V st) as Hv' by naive_solver.
  rewrite decide_True by congruence. done.
Qed.

Lemma metadata_ToSlice_ne m h : hset (metadata_ToSlice m) h ≠ ∅.
Proof.
  intros E. destruct (hset_ToSlice (metadata_fields m) h) as [Hl _].
  - rewrite metadata_tags. by apply (bool_decide_unpack _).
  - by repeat constructor.
  - specialize (Hl ("pid", VString (PID m)) ltac:(by left)).
    change (ToSlice (metadata_fields m)) with (metadata_ToSlice m) in Hl. by rewrite E in Hl.
Qed.

Lemma hash_of_insert d k k' h :
  hash_of (set_hashes (insert k h) d) k' = if decide (k = k') then h else hash_of d k'.
Proof. unfold hash_of, set_hashes. simpl. rewrite lookup_insert. by case_decide. Qed.

Lemma metadata_ok_Gen m g : metadata_ok m → metadata_ok (set_Gen (wrapU64 g) m).
Proof.
  unfold metadata_ok, metadata_fields. intros Hm. destruct m. simpl in *.
  repeat (apply Forall_cons in Hm as [? Hm]). repeat constructor; try done; simpl in *; try lia.
  all: unfold wrapU64; pose proof (Z.mod_pos_bound g (2 ^ 64)); lia.
Qed.

(** The node under an id. *)
Definition node_of (d : db) (id : string) : option BlobFsMetadata :=
  let h := hash_of d (MetadataFsNode id) in
  if decide (h = ∅) then None else Some (metadata_ToStruct h zeroMetadata).

(** What [SetFsNode] makes of a struct: the generation after the one stored. *)
Definition next_gen (old : option BlobFsMetadata) (m : BlobFsMetadata) : BlobFsMetadata :=
  match old with None => m | Some o => set_Gen (wrapU64 (Gen o + 1)) m end.

Lemma node_of_hash d d' id :
  hash_of d (MetadataFsNode id) = hash_of d' (MetadataFsNode id) → node_of d id = node_of d' id.
Proof. unfold node_of. by intros ->. Qed.

Lemma GetFsNode_spec id (st : RL) :
  match GetFsNode id st with
  | (Ok n, st') => node_of (V st) id = Some n ∧ V st' = V st ∧ locks st' = locks st
  | (Err e, st') => V st' = V st ∧ locks st' = locks st
  | (Panic _, _) => False
  end.
Proof.
  unfold GetFsNode, mbind, M_bind. pose proof (HGetAll_nil_spec (MetadataFsNode id) st) as Hg.
  destruct (HGetAll_nil _ st) as [[h|e|p] st']; [|done..]. destruct Hg as (-> & Hv & Hl).
  unfold node_of. by case_decide.
Qed.

(** What [SetFsNode] does, on success and on failure. *)
Lemma SetFsNode_spec id m (st : RL) :
  let m' := next_gen (node_of (V st) id) m in
  let d' := set_hashes (insert (MetadataFsNode id)
              (hset (metadata_ToSlice m') (hash_of (V st) (MetadataFsNode id)))) (V st) in
  match SetFsNode id m st with
  | (Ok n, st') => n = m' ∧ V st' = d' ∧ locks st' = locks st
  | (Err _, st') => (V st' = V st ∨ V st' = d') ∧ locks st' = locks st
  | (Panic _, _) => False
  end.
Proof.
  intros m' d'. unfold SetFsNode, mbind, M_bind, attempt.
  pose proof (HGetAll_nil_spec (MetadataFsNode id) st) as Hg.
  destruct (HGetAll_nil (MetadataFsNode id) st) as [[h|e|p] st0]; [| |done].
  2: { destruct Hg as [Hv Hl]. by split; [left|]. }
  destruct Hg as (-> & Hv & Hl). set (m2 := if decide _ then m else _).
  assert (m2 = m') as -> by (unfold m2, m', node_of; by case_decide).
  pose proof (on_rdb_does (HSet (MetadataFsNode id) (metadata_ToSlice m')) st0 _ _
    (HSet_law _ _ (rdb st0))) as Hs. rewrite Hv in Hs. fold d' in Hs.
  destruct (on_rdb _ st0) as [[[]|e|p] st1]; [| |done]; cbn [mret M_ret throw].
  - destruct Hs as (_ & Hv1 & Hl1). split_and!; [done..|congruence].
  - destruct Hs as [Hs Hl1]. split; [|congruence]. destruct Hs; [left|right]; congruence.
Qed.

Lemma node_of_set d id m h id' :
  metadata_ok m →
  node_of (set_hashes (insert (MetadataFsNode id) (hset (metadata_ToSlice m) h)) d) id' =
    if decide (id = id') then Some m else node_of d id'.
Proof.
  intros Hm. unfold node_of at 1. rewrite hash_of_insert.
  destruct (decide (MetadataFsNode id = MetadataFsNode id')) as [E|E].
  - apply MetadataFsNode_inj in E as ->. rewrite (decide_True (P:=id' = id')) by done.
    rewrite decide_False by apply metadata_ToSlice_ne. by rewrite metadata_ToStruct_ToSlice.
  - rewrite (decide_False (P:=id = id')) by (intros ->; done). done.
Qed.

Lemma next_gen_ok old m : metadata_ok m → metadata_ok (next_gen old m).
Proof. destruct old; [apply metadata_ok_Gen|done]. Qed.

(** C33: what [SetFsNode] stores is what [GetFsNode] reads: every field, with the
    generation one above the stored one when the id was taken; the other nodes
    and the locks are untouched.  A failed call leaves either the old node or
    the new one. *)
Theorem SetFsNode_GetFsNode id m st :
  metadata_ok m →
  let new := next_gen (node_of (V st) id) m in
  match SetFsNode id m st with
  | (Ok m', st1) =>
      m' = new ∧ node_of (V st1) id = Some new ∧ locks st1 = locks st ∧
      (∀ id', id' ≠ id → node_of (V st1) id' = node_of (V st) id') ∧
      ∀ n, (GetFsNode id st1).1 = Ok n → n = new
  | (Err _, st1) =>
      (node_of (V st1) id = node_of (V st) id ∨ node_of (V st1) id = Some new) ∧
      ∀ id', id' ≠ id → node_of (V st1) id' = node_of (V st) id'
  | (Panic _, _) => False
  end.
Proof.
  intros Hm new. pose proof (next_gen_ok (node_of (V st) id) m Hm) as Hok. fold new in Hok.
  pose proof (SetFsNode_spec id m st) as Hs. cbv zeta in Hs. fold new in Hs.
  pose proof (node_of_set (V st) id new (hash_of (V st) (MetadataFsNode id))) as Hn.
  destruct (SetFsNode id m st) as [[m'|e|p] st1]; [| |done].
  - destruct Hs as (-> & Hv & Hl). rewrite Hv.
    split_and!; [done|by rewrite Hn, decide_True|done| |].
    + intros id' Hne. by rewrite Hn, decide_False.
    + intros n Hget. pose proof (GetFsNode_spec id st1) as Hg.
      destruct (GetFsNode id st1) as [r st2]. change (r = Ok n) in Hget. subst r.
      rewrite Hv, Hn, decide_True in Hg by done. by destruct Hg as [[= ->] _].
  - destruct Hs as [[->| ->] _]; [by split; [left|]|].
    split; [right; by rewrite Hn, decide_True|]. intros id' Hne. by rewrite Hn, decide_False.
Qed.

(** ** Hosts *)

(** A host whose keepalive the store holds, in its own text. *)
Definition alive (d : db) (locality hostId : string) (host : BlobCacheHost) : Prop :=
  ∃ text, strings d !! MetadataHostKeepAlive locality hostId = Some text ∧
          Unmarshal text = Some host.

Definition index_of_hosts (d : db) (locality : string) : gset string :=
  members d (MetadataHostIndex locality).

(** What the loop may change: ids without a keepalive leave the index. *)
Definition pruned (locality : string) (d d' : db) : Prop :=
  strings d' = strings d ∧ hashes d' = hashes d ∧ lock_tokens d' = lock_tokens d ∧
  index_of_hosts d' locality ⊆ index_of_hosts d locality ∧
  ∀ id, id ∈ index_of_hosts d locality → id ∉ index_of_hosts d' locality →
        strings d !! MetadataHostKeepAlive locality id = None.

Lemma pruned_refl locality d : pruned locality d d.
Proof. by split_and!. Qed.

Lemma pruned_trans locality d1 d2 d3 :
  pruned locality d1 d2 → pruned locality d2 d3 → pruned locality d1 d3.
Proof.
  intros (A1 & A2 & A3 & A4 & A5) (B1 & B2 & B3 & B4 & B5).
  split_and!; [congruence..|set_solver|]. intros id Hin Hout.
  destruct (decide (id ∈ index_of_hosts d2 locality)); [rewrite <-A1; auto|auto].
Qed.

Lemma members_put_set k s d k' :
  members (put_set k s d) k' = if decide (k = k') then s else members d k'.
Proof.
  unfold members, put_set, set_sets. simpl.
  destruct (decide (s = ∅)) as [->|]; destruct (decide (k = k')) as [->|];
    by rewrite ?lookup_delete_eq, ?lookup_insert_eq, ?lookup_delete_ne, ?lookup_insert_ne by done.
Qed.

(** [SRem] of an id without a keepalive prunes. *)
Lemma RemoveHost_pruned locality id (st : RL) :
  strings (V st) !! MetadataHostKeepAlive locality id = None →
  match RemoveHostFromIndex locality (host_of_id id) st with
  | (Panic _, _) => False
  | (_, st') => pruned locality (V st) (V st')
  end.
Proof.
  intros Hnone. unfold RemoveHostFromIndex.
  pose proof (on_rdb_does (SRem (MetadataHostIndex locality) id) st _ _
    (SRem_law (MetadataHostIndex locality) id (rdb st))) as Hs.
  set (d' := put_set _ _ _) in Hs.
  assert (pruned locality (V st) d') as Hp.
  { split_and!; [done..| |].
    - unfold index_of_hosts, d'. rewrite members_put_set, decide_True by done. set_solver.
    - intros k Hin Hout. unfold index_of_hosts, d' in *.
      rewrite members_put_set, decide_True in Hout by done.
      destruct (decide (k = id)) as [->|]; [done|]. destruct Hout.
      rewrite elem_of_difference, elem_of_singleton. done. }
  simpl. destruct (on_rdb _ st) as [[[]|e|p] st']; [| |done].
  - by destruct Hs as (_ & -> & _).
  - destruct Hs as [[->| ->] _]; [apply pruned_refl|done].
Qed.

(** A callback on a host without a keepalive does not fail, and prunes. *)
Definition prunes (locality : string) (callback : BlobCacheHost → M RL ()) : Prop :=
  ∀ id st, strings (V st) !! MetadataHostKeepAlive locality id = None →
    ∃ st', callback (host_of_id id) st = (Ok tt, st') ∧ pruned locality (V st) (V st').

Lemma ignore_RemoveHost_prunes locality :
  prunes locality (λ h, ignore (RemoveHostFromIndex locality h)).
Proof.
  intros id st Hnone. pose proof (RemoveHost_pruned locality id st Hnone) as Hr.
  unfold ignore, attempt, mbind, M_bind.
  destruct (RemoveHostFromIndex _ _ st) as [[[]|e|p] st']; [| |done]; by exists st'.
Qed.

Lemma get_hosts_spec callback locality ids (st : RL) :
  prunes locality callback →
  match get_hosts callback locality ids st with
  | (Ok hs, st') =>
      pruned locality (V st) (V st') ∧
      ∀ h, h ∈ hs → ∃ id, id ∈ ids ∧ alive (V st) locality id h
  | _ => False
  end.
Proof.
  intros Hcb. revert st. induction ids as [|id ids IH]; intros st; simpl.
  { split; [apply pruned_refl|]. by intros h ?%elem_of_nil. }
  unfold mbind, M_bind, attempt.
  pose proof (RGet_law (MetadataHostKeepAlive locality id) (rdb st)) as Hg.
  unfold on_rdb, zoom. destruct (RGet _ (rdb st)) as [[text|e|p] r1]; [| |done].
  - destruct Hg as [Ht Hv]. specialize (IH (mkRedisLock r1 (locks st))). simpl in IH.
    rewrite Hv in IH.
    destruct (get_hosts callback locality ids _) as [[hs|e|p] st2]; [|done..].
    destruct IH as [Hp Hh]. split; [done|]. destruct (Unmarshal text) as [host|] eqn:Eu.
    + intros h [->|Hin]%elem_of_cons; [exists id; split; [left|by exists text]|].
      destruct (Hh h Hin) as (i & Hi & Ha). exists i. split; [by right|done].
    + intros h Hin. destruct (Hh h Hin) as (i & Hi & Ha). exists i. split; [by right|done].
  - destruct Hg as [Hnil Hv]. set (st1 := mkRedisLock r1 (locks st)).
    assert (V st1 = V st) as Hv1 by done.
    (* the state in which the loop goes on *)
    assert (∃ st2, pruned locality (V st) (V st2) ∧
      (if decide (e = redis_Nil) then
         ignore (RemoveHostFromIndex locality (host_of_id id)) ≫= λ _, callback (host_of_id id)
       else mret tt) st1 = (Ok tt, st2)) as (st2 & Hp2 & E2).
    { rewrite <-Hv1. case_decide as He; [|exists st1; split; [apply pruned_refl|done]].
      specialize (Hnil He). rewrite <-Hv in Hnil. change (view r1) with (V st1) in Hnil.
      destruct (ignore_RemoveHost_prunes locality id st1 Hnil) as (st2 & E2 & Hp2).
      assert (strings (V st2) !! MetadataHostKeepAlive locality id = None) as Hn2
        by (destruct Hp2 as (-> & _); done).
      destruct (Hcb id st2 Hn2) as (st3 & E3 & Hp3). exists st3.
      split; [by eapply pruned_trans|]. unfold mbind, M_bind. by rewrite E2. }
    unfold mbind, M_bind in E2. rewrite E2. specialize (IH st2).
    destruct (get_hosts callback locality ids st2) as [[hs|e'|p] st3]; [|done..].
    destruct IH as [Hp Hh]. split; [by eapply pruned_trans|]. intros h Hin.
    destruct (Hh h Hin) as (i & Hi & (text & Ht & Hu)). exists i. split; [by right|].
    exists text. destruct Hp2 as (Hs & _). by rewrite <-Hs.
Qed.

(** [GetAvailableHosts] of the store, for any such callback. *)
Lemma GetAvailableHosts_spec locality callback (st : RL) :
  prunes locality callback →
  match GetAvailableHosts locality callback st with
  | (Ok hs, st') =>
      hs ≠ [] ∧ pruned locality (V st) (V st') ∧
      ∀ h, h ∈ hs → ∃ id, id ∈ index_of_hosts (V st) locality ∧ alive (V st) locality id h
  | (Err _, st') => pruned locality (V st) (V st')
  | (Panic _, _) => False
  end.
Proof.
  intros Hcb.
  unfold GetAvailableHosts, mbind, M_bind.
  pose proof (on_rdb_does (SMembers (MetadataHostIndex locality)) st _ _ (SMembers_law _ (rdb st))) as Hm.
  destruct (on_rdb _ st) as [[ids|e|p] st1]; [| |done].
  - destruct Hm as ((_ & Hids) & Hv & _). pose proof (get_hosts_spec callback locality ids st1 Hcb) as Hg.
    destruct (get_hosts _ _ _ st1) as [[hs|e|p] st2]; [|done..]. rewrite Hv in Hg.
    destruct Hg as [Hp Hh]. destruct hs as [|h0 hs]; [exact Hp|].
    split_and!; [done..|]. intros h Hin. destruct (Hh h Hin) as (id & Hid & Ha).
    exists id. split; [|done]. unfold index_of_hosts. rewrite <-Hids. by apply elem_of_list_to_set.
  - destruct Hm as [[->| ->] _]; apply pruned_refl.
Qed.

End lemmas.

(** A node stored over an older generation, on the reference server. *)
Definition with_node : RedisLock db :=
  mkRedisLock (mkDb {[ MetadataFsNode "i" := hset (metadata_ToSlice small_metadata) ∅ ]} ∅ ∅ ∅ ∅) ∅.

Lemma SetFsNode_GetFsNode_witness :
  let m := set_Name_Path "n2" "/n2" small_metadata in
  let new := next_gen (node_of (view (rdb with_node)) "i") m in
  match SetFsNode "i" m with_node with
  | (Ok m', st1) =>
      m' = new ∧ node_of (view (rdb st1)) "i" = Some new ∧ locks st1 = locks with_node ∧
      (∀ id', id' ≠ "i" → node_of (view (rdb st1)) id' = node_of (view (rdb with_node)) id') ∧
      ∀ n, (GetFsNode "i" st1).1 = Ok n → n = new
  | (Err _, st1) =>
      (node_of (view (rdb st1)) "i" = node_of (view (rdb with_node)) "i" ∨
       node_of (view (rdb st1)) "i" = Some new) ∧
      ∀ id', id' ≠ "i" → node_of (view (rdb st1)) id' = node_of (view (rdb with_node)) id'
  | (Panic _, _) => False
  end.
Proof.
  apply (SetFsNode_GetFsNode (R:=db) "i" (set_Name_Path "n2" "/n2" small_metadata) with_node).
  repeat constructor; simpl; lia.
Defined.
