(* ===== verification/Coordinator.v ===== *)
(** * The coordinator and its three implementations

    [CoordinatorClient] is the interface of [pkg/coordinator_local.go].  The
    local coordinator works on the metadata store, the mock of
    [pkg/coordinator_mock.go] on maps in memory, the remote one of
    [pkg/coordinator_remote.go] calls the handlers of
    [pkg/server_coordinator.go] over a network that can lose a request or a
    reply. *)

From S2P Require Import Prelude GoStrings FsID GoFloat Types Redis Metadata.
Local Open Scope Z_scope.

(** ** The interface *)

(** [SetFsNode] gives back the struct as the call leaves it: the local
    coordinator writes the generation through the pointer. *)
Class CoordinatorClient (S : Type) : Type := {
  c_AddHostToIndex : string → BlobCacheHost → M S ();
  c_SetHostKeepAlive : string → BlobCacheHost → M S ();
  c_GetAvailableHosts : string → M S (list BlobCacheHost);
  c_GetRegionConfig : string → M S BlobCacheServerConfig;
  c_SetClientLock : string → string → M S ();
  c_RemoveClientLock : string → string → M S ();
  c_SetStoreFromContentLock : string → string → M S ();
  c_RemoveStoreFromContentLock : string → string → M S ();
  c_RefreshStoreFromContentLock : string → string → M S ();
  c_SetFsNode : string → BlobFsMetadata → M S BlobFsMetadata;
  c_GetFsNode : string → M S BlobFsMetadata;
  c_RemoveFsNode : string → M S ();
  c_RemoveFsNodeChild : string → string → M S ();
  c_GetFsNodeChildren : string → M S (list BlobFsMetadata);
  c_AddFsNodeChild : string → string → M S ();
}.

(** A coordinator that is a part of a larger state. *)
Definition zoom_coordinator {S R} (proj : S → R) (inj : R → S → S) (CC : CoordinatorClient R) :
    CoordinatorClient S :=
  let on {A} (m : M R A) : M S A := zoom proj inj m in {|
  c_AddHostToIndex l h := on (c_AddHostToIndex l h);
  c_SetHostKeepAlive l h := on (c_SetHostKeepAlive l h);
  c_GetAvailableHosts l := on (c_GetAvailableHosts l);
  c_GetRegionConfig l := on (c_GetRegionConfig l);
  c_SetClientLock a b := on (c_SetClientLock a b);
  c_RemoveClientLock a b := on (c_RemoveClientLock a b);
  c_SetStoreFromContentLock a b := on (c_SetStoreFromContentLock a b);
  c_RemoveStoreFromContentLock a b := on (c_RemoveStoreFromContentLock a b);
  c_RefreshStoreFromContentLock a b := on (c_RefreshStoreFromContentLock a b);
  c_SetFsNode id m := on (c_SetFsNode id m);
  c_GetFsNode id := on (c_GetFsNode id);
  c_RemoveFsNode id := on (c_RemoveFsNode id);
  c_RemoveFsNodeChild a b := on (c_RemoveFsNodeChild a b);
  c_GetFsNodeChildren id := on (c_GetFsNodeChildren id);
  c_AddFsNodeChild a b := on (c_AddFsNodeChild a b);
|}.

(** ** The local coordinator *)

Section local.
Context {R : Type} `{Redis R} `{HostCodec} (serverConfig : BlobCacheServerConfig).

(** The callback of [GetAvailableHosts]: the result of the removal is dropped. *)
Definition remove_host (locality : string) (host : BlobCacheHost) : M (RedisLock R) () :=
  ignore (RemoveHostFromIndex locality host).

Definition local_GetAvailableHosts (locality : string) : M (RedisLock R) (list BlobCacheHost) :=
  GetAvailableHosts locality (remove_host locality).

Definition CoordinatorClientLocal : CoordinatorClient (RedisLock R) := {|
  c_AddHostToIndex := AddHostToIndex;
  c_SetHostKeepAlive := SetHostKeepAlive;
  c_GetAvailableHosts := local_GetAvailableHosts;
  c_GetRegionConfig _ := mret serverConfig;
  c_SetClientLock hash host := SetClientLock hash host;
  c_RemoveClientLock hash host := RemoveClientLock hash host;
  c_SetStoreFromContentLock := SetStoreFromContentLock;
  c_RemoveStoreFromContentLock := RemoveStoreFromContentLock;
  c_RefreshStoreFromContentLock := RefreshStoreFromContentLock;
  c_SetFsNode := SetFsNode;
  c_GetFsNode := GetFsNode;
  c_RemoveFsNode := RemoveFsNode;
  c_RemoveFsNodeChild := RemoveFsNodeChild;
  c_GetFsNodeChildren := GetFsNodeChildren;
  c_AddFsNodeChild := AddFsNodeChild;
|}.

(** C34: the hosts that [GetAvailableHosts] returns are hosts of the index whose
    keepalive has not expired, read back from the text they stored; there is at
    least one, or the call is an error; an id leaves the index only when it has
    no keepalive. *)
Theorem GetAvailableHosts_alive {RLaws : RedisLaws R} locality (st : RedisLock R) :
  let d := view (rdb st) in
  match local_GetAvailableHosts locality st with
  | (Ok hs, st') =>
      hs ≠ [] ∧ pruned locality d (view (rdb st')) ∧
      ∀ h, h ∈ hs → ∃ id, id ∈ index_of_hosts d locality ∧ alive d locality id h
  | (Err _, st') => pruned locality d (view (rdb st'))
  | (Panic _, _) => False
  end.
Proof. apply GetAvailableHosts_spec, ignore_RemoveHost_prunes. Qed.

End local.

(** A codec of one host, for the examples. *)
#[export] Instance one_host_codec : HostCodec := {
  Marshal h := if decide (h = host_of_id "h") then Ok [x00] else Err (ErrLib "json");
  Unmarshal b := if decide (b = [x00]) then Some (host_of_id "h") else None;
}.

(** An index of two hosts, one of them alive. *)
Definition two_hosts : RedisLock db :=
  (SetHostKeepAlive "l" (host_of_id "h")
    (mkRedisLock (put_set (MetadataHostIndex "l") {["h"; "g"]} no_db) ∅)).2.

Lemma GetAvailableHosts_alive_witness :
  (local_GetAvailableHosts "l" two_hosts).1 = Ok [host_of_id "h"] ∧
  let d := view (rdb two_hosts) in
  match local_GetAvailableHosts "l" two_hosts with
  | (Ok hs, st') =>
      hs ≠ [] ∧ pruned "l" d (view (rdb st')) ∧
      ∀ h, h ∈ hs → ∃ id, id ∈ index_of_hosts d "l" ∧ alive d "l" id h
  | (Err _, st') => pruned "l" d (view (rdb st'))
  | (Panic _, _) => False
  end.
Proof.
  split; [by vm_compute|]. exact (GetAvailableHosts_alive (RLaws := db_redis_laws) "l" two_hosts).
Defined.

(** ** The mock *)

Module Mock.

Record MockCoordinator : Type := mkMock {
  hosts : gmap string (gmap string BlobCacheHost);
  fsNodes : gmap string BlobFsMetadata;
  fsChildren : gmap string (list string);
  locks : gset string;
}.

Definition NewMockCoordinator : MockCoordinator := mkMock ∅ ∅ ∅ ∅.

Definition set_hosts f (m : MockCoordinator) := mkMock (f (hosts m)) (fsNodes m) (fsChildren m) (locks m).
Definition set_fsNodes f (m : MockCoordinator) := mkMock (hosts m) (f (fsNodes m)) (fsChildren m) (locks m).
Definition set_fsChildren f (m : MockCoordinator) := mkMock (hosts m) (fsNodes m) (f (fsChildren m)) (locks m).
Definition set_lock_set f (m : MockCoordinator) := mkMock (hosts m) (fsNodes m) (fsChildren m) (f (locks m)).

Definition AddHostToIndex (locality : string) (host : BlobCacheHost) : M MockCoordinator () :=
  modify (set_hosts (λ hs,
    <[locality := <[HostId host := host]> (default ∅ (hs !! locality))]> hs)).

(** In some order of the map. *)
Definition GetAvailableHosts (locality : string) : M MockCoordinator (list BlobCacheHost) :=
  gets (λ m, map snd (map_to_list (default ∅ (hosts m !! locality)))).

Definition lock_held : error := ErrNew "lock already held".

Definition set_lock (key : string) : M MockCoordinator () :=
  ls ← gets locks;
  if decide (key ∈ ls) then throw lock_held
  else modify (set_lock_set (λ ls, {[key]} ∪ ls)).
Definition remove_lock (key : string) : M MockCoordinator () :=
  modify (set_lock_set (λ ls, ls ∖ {[key]})).

Definition client_key (hash : string) : string := "client-lock:" +:+ hash.
Definition store_key (locality sourcePath : string) : string :=
  "store-lock:" +:+ locality +:+ ":" +:+ sourcePath.

Definition node_not_found : error := ErrNew "fs node not found".

Definition GetFsNode (id : string) : M MockCoordinator BlobFsMetadata :=
  m ← get;
  match fsNodes m !! id with
  | Some n => mret n
  | None => throw node_not_found
  end.

Definition RemoveFsNodeChild (pid id : string) : M MockCoordinator () :=
  modify (set_fsChildren (alter (filter (λ childId, childId ≠ id)) pid)).

Definition GetFsNodeChildren (id : string) : M MockCoordinator (list BlobFsMetadata) :=
  gets (λ m, omap (λ childId, fsNodes m !! childId) (default [] (fsChildren m !! id))).

Definition AddFsNodeChild (pid id : string) : M MockCoordinator () :=
  modify (set_fsChildren (λ cs,
    let l := default [] (cs !! pid) in
    <[pid := if decide (id ∈ l) then l else l ++ [id]]> cs)).

Definition coordinator : CoordinatorClient MockCoordinator := {|
  c_AddHostToIndex := AddHostToIndex;
  c_SetHostKeepAlive := AddHostToIndex;
  c_GetAvailableHosts := GetAvailableHosts;
  c_GetRegionConfig _ := throw (ErrNew "region config not found");
  c_SetClientLock hash host := set_lock (client_key hash);
  c_RemoveClientLock hash host := remove_lock (client_key hash);
  c_SetStoreFromContentLock locality path := set_lock (store_key locality path);
  c_RemoveStoreFromContentLock locality path := remove_lock (store_key locality path);
  c_RefreshStoreFromContentLock _ _ := mret tt;
  c_SetFsNode id metadata := modify (set_fsNodes (insert id metadata)) ≫= λ _, mret metadata;
  c_GetFsNode := GetFsNode;
  c_RemoveFsNode id := modify (set_fsNodes (delete id));
  c_RemoveFsNodeChild := RemoveFsNodeChild;
  c_GetFsNodeChildren := GetFsNodeChildren;
  c_AddFsNodeChild := AddFsNodeChild;
|}.

End Mock.

(** ** The handlers of the coordinator server *)

(** The body of a handler that only reports success. *)
Definition reply_ok {S} (m : M S ()) : M S bool :=
  r ← attempt m;
  match r with inl _ => mret true | inr _ => mret false end.

(** The struct the server and the client make of a node message: the same field
    list, without [Ino]. *)
Definition metadata_of_proto (p : Proto.BlobFsMetadata) : BlobFsMetadata :=
  {| PID := Proto.Pid p; ID := Proto.Id p; Name := Proto.Name p; Path := Proto.Path p;
     Hash := Proto.Hash p; Ino := 0; Size := Proto.Size p; Blocks := Proto.Blocks p;
     Atime := Proto.Atime p; Mtime := Proto.Mtime p; Ctime := Proto.Ctime p;
     Atimensec := Proto.Atimensec p; Mtimensec := Proto.Mtimensec p;
     Ctimensec := Proto.Ctimensec p; Mode := Proto.Mode p; Nlink := Proto.Nlink p;
     Rdev := Proto.Rdev p; Blksize := Proto.Blksize p; Padding := Proto.Padding p;
     Uid := Proto.Uid p; Gid := Proto.Gid p; Gen := Proto.Gen p |}.

(** The message of a host that the requests and answers are filled with: its
    id and its addresses. *)
Definition host_to_proto (h : BlobCacheHost) : Proto.BlobCacheHost :=
  {| Proto.HostId := HostId h; Proto.Addr := Addr h; Proto.PrivateIpAddr := PrivateAddr h;
     Proto.CapacityUsagePct := f_zero |}.
Definition host_of_proto (p : Proto.BlobCacheHost) : BlobCacheHost :=
  mkHost 0 (Proto.HostId p) (Proto.Addr p) (Proto.PrivateIpAddr p) f_zero.

Module Handler.
Section handlers.
Context {S : Type} `{CoordinatorClient S} (serverConfig : BlobCacheServerConfig).

Definition GetAvailableHosts (locality : string) : M S (list Proto.BlobCacheHost * bool) :=
  r ← attempt (c_GetAvailableHosts locality);
  match r with
  | inr _ => mret ([], false)
  | inl hosts => mret (map host_to_proto hosts, true)
  end.

Definition region (locality : string) : option BlobCacheServerConfig :=
  snd <$> list_find (λ kv, kv.1 = locality) (Regions serverConfig) ≫= λ p, Some p.2.

Definition GetRegionConfig (locality : string) : M S (option Proto.BlobCacheServerConfig * bool) :=
  match region locality with
  | None => mret (None, false)
  | Some config => mret (Some (BlobCacheServerConfig_ToProto config), true)
  end.

Definition SetClientLock (hash hostId : string) : M S bool := reply_ok (c_SetClientLock hash hostId).
Definition RemoveClientLock (hash hostId : string) : M S bool :=
  reply_ok (c_RemoveClientLock hash hostId).
Definition SetStoreFromContentLock (locality sourcePath : string) : M S bool :=
  reply_ok (c_SetStoreFromContentLock locality sourcePath).
Definition RemoveStoreFromContentLock (locality sourcePath : string) : M S bool :=
  reply_ok (c_RemoveStoreFromContentLock locality sourcePath).
Definition RefreshStoreFromContentLock (locality sourcePath : string) : M S bool :=
  reply_ok (c_RefreshStoreFromContentLock locality sourcePath).

Definition SetFsNode (id : string) (p : Proto.BlobFsMetadata) : M S bool :=
  reply_ok (c_SetFsNode id (metadata_of_proto p) ≫= λ _, mret tt).

Definition GetFsNode (id : string) : M S (option Proto.BlobFsMetadata * bool) :=
  r ← attempt (c_GetFsNode id);
  match r with
  | inr _ => mret (None, false)
  | inl metadata => mret (Some (BlobFsMetadata_ToProto metadata), true)
  end.

Definition RemoveFsNode (id : string) : M S bool := reply_ok (c_RemoveFsNode id).
Definition RemoveFsNodeChild (pid id : string) : M S bool := reply_ok (c_RemoveFsNodeChild pid id).

Definition GetFsNodeChildren (id : string) : M S (list Proto.BlobFsMetadata * bool) :=
  r ← attempt (c_GetFsNodeChildren id);
  match r with
  | inr _ => mret ([], false)
  | inl children => mret (map BlobFsMetadata_ToProto children, true)
  end.

Definition AddFsNodeChild (pid id : string) : M S bool := reply_ok (c_AddFsNodeChild pid id).

Definition AddHostToIndex (locality : string) (p : Proto.BlobCacheHost) : M S bool :=
  reply_ok (c_AddHostToIndex locality (host_of_proto p)).
Definition SetHostKeepAlive (locality : string) (p : Proto.BlobCacheHost) : M S bool :=
  reply_ok (c_SetHostKeepAlive locality (host_of_proto p)).

End handlers.
End Handler.

(** ** The remote coordinator *)

(** What happens to a call: delivered, or lost before or after the handler ran. *)
Inductive rpc_outcome : Type :=
  | Delivered
  | LostRequest (e : error)
  | LostReply (e : error).

(** The server's state, and the fate of the calls to come ([[]]: all are
    delivered). *)
Definition net (S : Type) : Type := S * list rpc_outcome.

Definition rpc {S A} (handler : M S A) : M (net S) A := λ s,
  match s.2 with
  | [] => let '(r, t) := handler s.1 in (r, (t, []))
  | Delivered :: os => let '(r, t) := handler s.1 in (r, (t, os))
  | LostRequest e :: os => (Err e, (s.1, os))
  | LostReply e :: os =>
      match handler s.1 with
      | (Panic p, t) => (Panic p, (t, os))
      | (_, t) => (Err e, (t, os))
      end
  end.

(** [if !r.Ok { return errors.New(msg) }] *)
Definition ok_or {S} (msg : string) (handler : M S bool) : M (net S) () :=
  r ← rpc handler;
  if r : bool then mret tt else throw (ErrNew msg).

Module Remote.
Section remote.
Context {S : Type} `{CoordinatorClient S} (serverConfig : BlobCacheServerConfig).

Definition AddHostToIndex (locality : string) (host : BlobCacheHost) : M (net S) () :=
  ok_or "failed to add host to index" (Handler.AddHostToIndex locality (host_to_proto host)).
Definition SetHostKeepAlive (locality : string) (host : BlobCacheHost) : M (net S) () :=
  ok_or "failed to set host keep alive" (Handler.SetHostKeepAlive locality (host_to_proto host)).
Definition SetStoreFromContentLock (locality sourcePath : string) : M (net S) () :=
  ok_or "failed to set store from content lock"
    (Handler.SetStoreFromContentLock locality sourcePath).
Definition RemoveStoreFromContentLock (locality sourcePath : string) : M (net S) () :=
  ok_or "failed to remove store from content lock"
    (Handler.RemoveStoreFromContentLock locality sourcePath).
Definition RefreshStoreFromContentLock (locality sourcePath : string) : M (net S) () :=
  ok_or "failed to refresh store from content lock"
    (Handler.RefreshStoreFromContentLock locality sourcePath).

(** The flag of the answer is not read. *)
Definition GetAvailableHosts (locality : string) : M (net S) (list BlobCacheHost) :=
  response ← rpc (Handler.GetAvailableHosts locality);
  mret (map host_of_proto response.1).

Definition GetRegionConfig (locality : string) : M (net S) BlobCacheServerConfig :=
  response ← rpc (Handler.GetRegionConfig serverConfig locality);
  if response.2 : bool then
    match response.1 with
    | Some p =>
        match BlobCacheServerConfigFromProto p with
        | Ok cfg => mret cfg
        | Err e => throw e
        | Panic p => gopanic p
        end
    | None => gopanic PanicNil
    end
  else throw (ErrNew "failed to get region config").

Definition SetClientLock (hash hostId : string) : M (net S) () :=
  ok_or "failed to set client lock" (Handler.SetClientLock hash hostId).
Definition RemoveClientLock (hash hostId : string) : M (net S) () :=
  ok_or "failed to remove client lock" (Handler.RemoveClientLock hash hostId).

Definition SetFsNode (id : string) (metadata : BlobFsMetadata) : M (net S) BlobFsMetadata :=
  ok_or "failed to set fs node" (Handler.SetFsNode id (BlobFsMetadata_ToProto metadata)) ≫= λ _,
  mret metadata.

Definition GetFsNode (id : string) : M (net S) BlobFsMetadata :=
  response ← rpc (Handler.GetFsNode id);
  if response.2 : bool then
    match response.1 with
    | Some p => mret (metadata_of_proto p)
    | None => gopanic PanicNil
    end
  else throw (ErrNew "failed to get fs node").

Definition AddFsNodeChild (pid id : string) : M (net S) () :=
  ok_or "failed to add fs node child" (Handler.AddFsNodeChild pid id).
Definition RemoveFsNode (id : string) : M (net S) () :=
  ok_or "failed to remove fs node" (Handler.RemoveFsNode id).
Definition RemoveFsNodeChild (pid id : string) : M (net S) () :=
  ok_or "failed to remove fs node child" (Handler.RemoveFsNodeChild pid id).

Definition GetFsNodeChildren (id : string) : M (net S) (list BlobFsMetadata) :=
  response ← rpc (Handler.GetFsNodeChildren id);
  if response.2 : bool then mret (map metadata_of_proto response.1)
  else throw (ErrNew "failed to get fs node children").

Definition CoordinatorClientRemote : CoordinatorClient (net S) := {|
  c_AddHostToIndex := AddHostToIndex;
  c_SetHostKeepAlive := SetHostKeepAlive;
  c_GetAvailableHosts := GetAvailableHosts;
  c_GetRegionConfig := GetRegionConfig;
  c_SetClientLock := SetClientLock;
  c_RemoveClientLock := RemoveClientLock;
  c_SetStoreFromContentLock := SetStoreFromContentLock;
  c_RemoveStoreFromContentLock := RemoveStoreFromContentLock;
  c_RefreshStoreFromContentLock := RefreshStoreFromContentLock;
  c_SetFsNode := SetFsNode;
  c_GetFsNode := GetFsNode;
  c_RemoveFsNode := RemoveFsNode;
  c_RemoveFsNodeChild := RemoveFsNodeChild;
  c_GetFsNodeChildren := GetFsNodeChildren;
  c_AddFsNodeChild := AddFsNodeChild;
|}.

End remote.
End Remote.
