(* ===== verification/CoordinatorLaws.v ===== *)
(** * What the coordinators promise

    The remote coordinator against the one it reaches, call by call; and the
    contract of the file-system nodes that clients rely on, [NodeStore], which
    the local coordinator, the mock and the remote one implement. *)

From S2P Require Import Prelude GoStrings FsID GoFloat Types Redis Metadata Coordinator.
Local Open Scope Z_scope.

(** ** The contract of the nodes *)

(** Identifiers without the separator of the keys (the file system's are
    hexadecimal). *)
Definition valid_id (id : string) : Prop := has_char ":" id = false.

(** Nodes by id and children by parent.  A coordinator may choose the
    generation of a stored node from the generation of the old one, and may drop
    the inode number on the way. *)
Class NodeStore (S : Type) `{CoordinatorClient S} : Type := {
  node : S → string → option BlobFsMetadata;
  child : S → string → gset string;
  next_Gen : option Z → Z → Z;
  keeps_Ino : bool;
}.

(** How a struct is stored over the old node. *)
Definition stored_as {S} `{NodeStore S} (old : option BlobFsMetadata) (m : BlobFsMetadata) :
    BlobFsMetadata :=
  set_Gen (next_Gen (Gen <$> old) (Gen m)) (if keeps_Ino then m else set_Ino 0 m).

(** The nodes and children after an update; a failed call may have been applied
    or not. *)
Definition updates {S A} `{NodeStore S} (s : S) (r : res A * S)
    (node' : string → option BlobFsMetadata) (child' : string → gset string) : Prop :=
  match r with
  | (Ok _, s') =>
      (∀ id, valid_id id → node s' id = node' id) ∧ (∀ id, valid_id id → child s' id = child' id)
  | (Err _, s') =>
      ((∀ id, valid_id id → node s' id = node s id) ∨ (∀ id, valid_id id → node s' id = node' id)) ∧
      ((∀ id, valid_id id → child s' id = child s id) ∨
       (∀ id, valid_id id → child s' id = child' id))
  | (Panic _, _) => False
  end.

(** A read: it changes nothing, and answers [Q]. *)
Definition reads {S A} `{NodeStore S} (s : S) (r : res A * S) (Q : A → Prop) : Prop :=
  (∀ id, node r.2 id = node s id) ∧ (∀ id, child r.2 id = child s id) ∧
  match r.1 with Ok a => Q a | Err _ => True | Panic _ => False end.

Definition upd {A} (k : string) (v : A) (f : string → A) (k' : string) : A :=
  if decide (k' = k) then v else f k'.

Class NodeStoreLaws (S : Type) `{NodeStore S} : Prop := {
  SetFsNode_law id m s :
    valid_id id → metadata_ok m →
    updates s (c_SetFsNode id m s) (upd id (Some (stored_as (node s id) m)) (node s)) (child s);
  (** a generation is a [uint64] *)
  next_Gen_range old g : 0 ≤ g < 2 ^ 64 → 0 ≤ next_Gen old g < 2 ^ 64;
  (** the call may write the generation through the pointer *)
  SetFsNode_result id m s m' s' : c_SetFsNode id m s = (Ok m', s') → ∃ g, m' = set_Gen g m;
  GetFsNode_law id s :
    valid_id id → reads s (c_GetFsNode id s) (λ n, node s id = Some n);
  RemoveFsNode_law id s :
    valid_id id → updates s (c_RemoveFsNode id s) (upd id None (node s)) (child s);
  AddFsNodeChild_law pid id s :
    valid_id pid → valid_id id →
    updates s (c_AddFsNodeChild pid id s) (node s) (upd pid (child s pid ∪ {[id]}) (child s));
  RemoveFsNodeChild_law pid id s :
    valid_id pid → valid_id id →
    updates s (c_RemoveFsNodeChild pid id s) (node s) (upd pid (child s pid ∖ {[id]}) (child s));
  GetFsNodeChildren_law pid s :
    valid_id pid →
    reads s (c_GetFsNodeChildren pid s)
      (λ l, ∀ n, n ∈ l → ∃ id, id ∈ child s pid ∧ node s id = Some n);
}.

(** ** The mock *)

Module MockStore.

#[export] Existing Instance Mock.coordinator.

#[export] Instance node_store : NodeStore Mock.MockCoordinator := {
  node m id := Mock.fsNodes m !! id;
  child m id := list_to_set (default [] (Mock.fsChildren m !! id));
  next_Gen _ g := g;
  keeps_Ino := true;
}.

Lemma set_Gen_same m : set_Gen (Gen m) m = m.
Proof. by destruct m. Qed.

#[export] Instance laws : NodeStoreLaws Mock.MockCoordinator.
Proof.
  split; simpl.
  - intros id m s Hid Hm. unfold updates, stored_as. simpl. split; [|done].
    intros id' _. rewrite lookup_insert, set_Gen_same. unfold upd.
    destruct (decide (id' = id)) as [->|]; [by rewrite decide_True|by rewrite decide_False].
  - by intros old g Hg.
  - intros id m s m' s' [= <- _]. exists (Gen m). by rewrite set_Gen_same.
  - intros id s Hid. unfold reads, Mock.GetFsNode, mbind, M_bind, get. simpl.
    by destruct (Mock.fsNodes s !! id) eqn:E.
  - intros id s Hid. unfold updates. simpl. split; [|done]. intros id' _. rewrite lookup_delete.
    unfold upd. destruct (decide (id' = id)) as [->|]; [by rewrite decide_True|by rewrite decide_False].
  - intros pid id s Hp Hid. unfold updates. simpl. split; [done|]. intros id' _.
    rewrite lookup_insert. unfold upd.
    destruct (decide (id' = pid)) as [->|]; [|by rewrite decide_False].
    rewrite decide_True by done. simpl. case_decide; set_solver.
  - intros pid id s Hp Hid. unfold updates. simpl. split; [done|]. intros id' _.
    rewrite lookup_alter. unfold upd.
    destruct (decide (id' = pid)) as [->|]; [|by rewrite decide_False].
    rewrite decide_True by done. destruct (Mock.fsChildren s !! pid) as [l|]; simpl; [|set_solver].
    apply set_eq. intros x. rewrite elem_of_difference, !elem_of_list_to_set, list_elem_of_filter.
    set_solver.
  - intros pid s Hp. unfold reads. simpl. split_and!; [done..|].
    intros n (id & Hin & Hn)%list_elem_of_omap. exists id. by rewrite elem_of_list_to_set.
Qed.

End MockStore.

(** ** The local coordinator *)

Section local_store.
Context {R : Type} `{RE : Redis R} {RLaws : RedisLaws R} `{HC : HostCodec}.
Context (serverConfig : BlobCacheServerConfig).

Definition local_coordinator : CoordinatorClient (RedisLock R) :=
  CoordinatorClientLocal serverConfig.
Existing Instance local_coordinator.

Abbreviation V st := (view (rdb st)).

Definition local_store : NodeStore (RedisLock R) := {|
  node st id := node_of (V st) id;
  child st id := members (V st) (MetadataFsNodeChildren id);
  next_Gen old g := match old with None => g | Some o => wrapU64 (o + 1) end;
  keeps_Ino := true;
|}.
Existing Instance local_store.

Lemma stored_next_gen old m : stored_as old m = next_gen old m.
Proof. unfold stored_as, next_gen. destruct old; simpl; [done|]. by destruct m. Qed.

Lemma children_key_inj p q : MetadataFsNodeChildren p = MetadataFsNodeChildren q → p = q.
Proof.
  unfold MetadataFsNodeChildren. intros E%string_app_inj_l. by apply string_app_inj_r in E.
Qed.

Lemma node_key_ne_children id p : valid_id id → MetadataFsNode id ≠ MetadataFsNodeChildren p.
Proof.
  unfold valid_id, MetadataFsNode, MetadataFsNodeChildren. intros Hid E%string_app_inj_l.
  rewrite E, has_char_app in Hid. simpl in Hid. by rewrite orb_true_r in Hid.
Qed.

Lemma members_set_hashes f d k : members (set_hashes f d) k = members d k.
Proof. done. Qed.

Lemma node_of_put_set k s d id : node_of (put_set k s d) id = node_of d id.
Proof. done. Qed.

(** A command of the server as an update of the nodes. *)
Lemma on_rdb_updates {A} (m : M R A) (st : RedisLock R) Q d node' child' :
  does m (rdb st) Q d →
  (∀ id, valid_id id → node_of d id = node' id) →
  (∀ id, valid_id id → members d (MetadataFsNodeChildren id) = child' id) →
  updates st (on_rdb m st) node' child'.
Proof.
  intros Hd Hn Hc. pose proof (on_rdb_does m st Q d Hd) as H. unfold updates. simpl.
  destruct (on_rdb m st) as [[a|e|p] st']; [| |done].
  - destruct H as (_ & -> & _). split; auto.
  - destruct H as [[->| ->] _]; split; auto.
Qed.

Lemma get_nodes_spec ids (st : RedisLock R) :
  match get_nodes ids st with
  | (Ok l, st') => V st' = V st ∧ ∀ n, n ∈ l → ∃ id, id ∈ ids ∧ node_of (V st) id = Some n
  | _ => False
  end.
Proof.
  revert st. induction ids as [|id ids IH]; intros st; simpl.
  { split; [done|]. by intros n ?%elem_of_nil. }
  unfold mbind, M_bind, attempt. pose proof (GetFsNode_spec id st) as Hg.
  destruct (GetFsNode id st) as [[n|e|p] st1]; [| |done]; specialize (IH st1);
    (destruct (get_nodes ids st1) as [[l|e'|p'] st2]; [|done..]); destruct IH as [Hv Hl].
  - destruct Hg as (Hn & Hv1 & _). split; [congruence|]. rewrite Hv1 in Hl.
    intros x [->|Hx]%elem_of_cons; [exists id; split; [left|done]|].
    destruct (Hl x Hx) as (i & Hi & Hni). exists i. split; [by right|done].
  - destruct Hg as (Hv1 & _). split; [congruence|]. rewrite Hv1 in Hl. intros x Hx.
    destruct (Hl x Hx) as (i & Hi & Hni). exists i. split; [by right|done].
Qed.

Lemma upd_key {A} (k k' : string) (v : A) f :
  upd k v f k' = if decide (k = k') then v else f k'.
Proof. unfold upd. destruct (decide (k' = k)) as [->|]; [by rewrite decide_True|by rewrite decide_False]. Qed.

#[local] Instance local_laws : NodeStoreLaws (RedisLock R).
Proof.
  split; simpl.
  - intros id m st Hid Hm. rewrite stored_next_gen.
    set (new := next_gen (node_of (V st) id) m).
    assert (metadata_ok new) as Hok by by apply next_gen_ok.
    pose proof (SetFsNode_spec id m st) as Hs. cbv zeta in Hs. fold new in Hs.
    unfold updates. simpl. destruct (SetFsNode id m st) as [[n|e|p] st']; [| |done].
    + destruct Hs as (_ & -> & _). split; [|done]. intros id' _.
      by rewrite node_of_set, upd_key.
    + destruct Hs as [[->| ->] _]; [by split; left|]. split; [right|by left].
      intros id' _. by rewrite node_of_set, upd_key.
  - intros [o|] g Hg; [apply Z.mod_pos_bound; lia|done].
  - intros id m st m' st' E. pose proof (SetFsNode_spec id m st) as Hs. cbv zeta in Hs.
    rewrite E in Hs. destruct Hs as (-> & _). unfold next_gen.
    destruct (node_of _ id); [by eexists|]. exists (Gen m). by destruct m.
  - intros id st Hid. pose proof (GetFsNode_spec id st) as Hg. unfold reads. simpl.
    destruct (GetFsNode id st) as [[n|e|p] st']; simpl; [| |done].
    + by destruct Hg as (? & -> & _).
    + by destruct Hg as (-> & _).
  - intros id st Hid. apply (on_rdb_updates _ _ _ _ _ _ (Del_law _ _)).
    + intros id' Hid'. rewrite upd_key. unfold node_of, hash_of. simpl.
      destruct (decide (id = id')) as [->|Hne]; [by rewrite lookup_delete_eq|].
      rewrite lookup_delete_ne; [done|]. by intros ?%MetadataFsNode_inj.
    + intros p Hp. unfold members. simpl. rewrite lookup_delete_ne; [done|].
      by apply node_key_ne_children.
  - intros pid id st Hp Hid. apply (on_rdb_updates _ _ _ _ _ _ (SAdd_law _ _ _)); [done|].
    intros p _. rewrite members_put_set, upd_key.
    destruct (decide (pid = p)) as [->|Hne]; [by rewrite decide_True|].
    by rewrite decide_False by (intros ?%children_key_inj; done).
  - intros pid id st Hp Hid. apply (on_rdb_updates _ _ _ _ _ _ (SRem_law _ _ _)); [done|].
    intros p _. rewrite members_put_set, upd_key.
    destruct (decide (pid = p)) as [->|Hne]; [by rewrite decide_True|].
    by rewrite decide_False by (intros ?%children_key_inj; done).
  - intros pid st Hp. unfold GetFsNodeChildren, mbind, M_bind.
    pose proof (on_rdb_does (SMembers (MetadataFsNodeChildren pid)) st _ _ (SMembers_law _ _)) as Hm.
    destruct (on_rdb _ st) as [[ids|e|p] st1]; [| |done].
    + destruct Hm as ((_ & Hids) & Hv & _). pose proof (get_nodes_spec ids st1) as Hg.
      destruct (get_nodes ids st1) as [[l|e|p] st2]; [|done..]. destruct Hg as [Hv2 Hl].
      unfold reads. simpl. rewrite Hv2, Hv. split_and!; [done..|].
      intros n Hn. destruct (Hl n Hn) as (i & Hi & Hni). exists i. rewrite <-Hids, <-Hv.
      by rewrite elem_of_list_to_set.
    + destruct Hm as [Hm _]. assert (V st1 = V st) as E by naive_solver.
      unfold reads. simpl. by rewrite E.
Qed.

End local_store.

(** ** The remote coordinator *)

(** A result as the remote client reports it: the value through [f], any error
    as [msg]. *)
Definition remotely {S A B} (msg : string) (f : A → B) (r : res A * S) : res B * net S :=
  match r with
  | (Ok a, t) => (Ok (f a), (t, []))
  | (Err _, t) => (Err (ErrNew msg), (t, []))
  | (Panic p, t) => (Panic p, (t, []))
  end.

(** What the wire keeps of a host. *)
Definition wire_host (h : BlobCacheHost) : BlobCacheHost :=
  mkHost 0 (HostId h) (Addr h) (PrivateAddr h) f_zero.

Section remote.
Context {S : Type} `{CC : CoordinatorClient S} (serverConfig : BlobCacheServerConfig).

Lemma ok_or_delivered {A} msg (m : M S A) (s : S) :
  ok_or msg (reply_ok (m ≫= λ _, mret tt)) (s, []) = remotely msg (λ _, tt) (m s).
Proof.
  unfold ok_or, rpc, reply_ok, attempt, mbind, M_bind. simpl.
  by destruct (m s) as [[a|e|p] t].
Qed.

Lemma ok_or_delivered_unit msg (m : M S ()) (s : S) :
  ok_or msg (reply_ok m) (s, []) = remotely msg (λ _, tt) (m s).
Proof.
  unfold ok_or, rpc, reply_ok, attempt, mbind, M_bind. simpl.
  by destruct (m s) as [[[]|e|p] t].
Qed.

Lemma metadata_over_wire m : metadata_of_proto (BlobFsMetadata_ToProto m) = set_Ino 0 m.
Proof. by destruct m. Qed.

Lemma SetFsNode_delivered id m (s : S) :
  Remote.SetFsNode id m (s, []) =
  remotely "failed to set fs node" (λ _, m) (c_SetFsNode id (set_Ino 0 m) s).
Proof.
  unfold Remote.SetFsNode, Handler.SetFsNode. rewrite metadata_over_wire.
  unfold mbind at 1, M_bind at 1. rewrite ok_or_delivered.
  by destruct (c_SetFsNode id (set_Ino 0 m) s) as [[a|e|p] t].
Qed.

Lemma GetFsNode_delivered id (s : S) :
  Remote.GetFsNode id (s, []) = remotely "failed to get fs node" (set_Ino 0) (c_GetFsNode id s).
Proof.
  unfold Remote.GetFsNode, Handler.GetFsNode, rpc, attempt, mbind, M_bind. simpl.
  destruct (c_GetFsNode id s) as [[a|e|p] t]; simpl; [by rewrite metadata_over_wire|done..].
Qed.

Lemma GetFsNodeChildren_delivered id (s : S) :
  Remote.GetFsNodeChildren id (s, []) =
  remotely "failed to get fs node children" (map (set_Ino 0)) (c_GetFsNodeChildren id s).
Proof.
  unfold Remote.GetFsNodeChildren, Handler.GetFsNodeChildren, rpc, attempt, mbind, M_bind. simpl.
  destruct (c_GetFsNodeChildren id s) as [[a|e|p] t]; simpl; [|done..]. by rewrite map_map.
Qed.

Lemma config_over_wire cfg :
  BlobCacheServerConfigFromProto (BlobCacheServerConfig_ToProto cfg) = Ok (wire_config cfg).
Proof. unfold BlobCacheServerConfigFromProto. simpl. by rewrite sources_FromProto_ToProto. Qed.

Lemma GetRegionConfig_delivered l (s : S) :
  Remote.GetRegionConfig serverConfig l (s, []) =
  match Handler.region serverConfig l with
  | Some cfg => (Ok (wire_config cfg), (s, []))
  | None => (Err (ErrNew "failed to get region config"), (s, []))
  end.
Proof.
  unfold Remote.GetRegionConfig, Handler.GetRegionConfig, rpc, mbind, M_bind.
  destruct (Handler.region serverConfig l) as [cfg|]; simpl; [|done].
  by rewrite config_over_wire.
Qed.

Lemma GetAvailableHosts_delivered l (s : S) :
  Remote.GetAvailableHosts l (s, []) =
  match c_GetAvailableHosts l s with
  | (Ok hs, t) => (Ok (map wire_host hs), (t, []))
  | (Err _, t) => (Ok [], (t, []))
  | (Panic p, t) => (Panic p, (t, []))
  end.
Proof.
  unfold Remote.GetAvailableHosts, Handler.GetAvailableHosts, rpc, attempt, mbind, M_bind. simpl.
  destruct (c_GetAvailableHosts l s) as [[a|e|p] t]; simpl; [|done..].
  by rewrite map_map.
Qed.

(** C14: on a network that delivers, each of the fifteen calls of the remote
    coordinator is the call of the coordinator behind the server, up to what the
    messages lose: the inode number of a node, the round-trip time and usage of a
    host, the text of an error.  An error of [GetAvailableHosts] is not one for the
    caller: it gets an empty list.  [GetRegionConfig] is answered from the server's
    own configuration: the region's, as its message carries it. *)
Theorem remote_refines (s : S) :
  (∀ id m, Remote.SetFsNode id m (s, []) =
     remotely "failed to set fs node" (λ _, m) (c_SetFsNode id (set_Ino 0 m) s)) ∧
  (∀ id, Remote.GetFsNode id (s, []) =
     remotely "failed to get fs node" (set_Ino 0) (c_GetFsNode id s)) ∧
  (∀ id, Remote.GetFsNodeChildren id (s, []) =
     remotely "failed to get fs node children" (map (set_Ino 0)) (c_GetFsNodeChildren id s)) ∧
  (∀ pid id, Remote.AddFsNodeChild pid id (s, []) =
     remotely "failed to add fs node child" (λ _, tt) (c_AddFsNodeChild pid id s)) ∧
  (∀ pid id, Remote.RemoveFsNodeChild pid id (s, []) =
     remotely "failed to remove fs node child" (λ _, tt) (c_RemoveFsNodeChild pid id s)) ∧
  (∀ id, Remote.RemoveFsNode id (s, []) =
     remotely "failed to remove fs node" (λ _, tt) (c_RemoveFsNode id s)) ∧
  (∀ l h, Remote.AddHostToIndex l h (s, []) =
     remotely "failed to add host to index" (λ _, tt) (c_AddHostToIndex l (wire_host h) s)) ∧
  (∀ l h, Remote.SetHostKeepAlive l h (s, []) =
     remotely "failed to set host keep alive" (λ _, tt) (c_SetHostKeepAlive l (wire_host h) s)) ∧
  (∀ l p, Remote.SetStoreFromContentLock l p (s, []) =
     remotely "failed to set store from content lock" (λ _, tt) (c_SetStoreFromContentLock l p s)) ∧
  (∀ l p, Remote.RemoveStoreFromContentLock l p (s, []) =
     remotely "failed to remove store from content lock" (λ _, tt)
       (c_RemoveStoreFromContentLock l p s)) ∧
  (∀ l p, Remote.RefreshStoreFromContentLock l p (s, []) =
     remotely "failed to refresh store from content lock" (λ _, tt)
       (c_RefreshStoreFromContentLock l p s)) ∧
  (∀ h i, Remote.SetClientLock h i (s, []) =
     remotely "failed to set client lock" (λ _, tt) (c_SetClientLock h i s)) ∧
  (∀ h i, Remote.RemoveClientLock h i (s, []) =
     remotely "failed to remove client lock" (λ _, tt) (c_RemoveClientLock h i s)) ∧
  (∀ l, Remote.GetAvailableHosts l (s, []) =
     match c_GetAvailableHosts l s with
     | (Ok hs, t) => (Ok (map wire_host hs), (t, []))
     | (Err _, t) => (Ok [], (t, []))
     | (Panic p, t) => (Panic p, (t, []))
     end) ∧
  (∀ l, Remote.GetRegionConfig serverConfig l (s, []) =
     match Handler.region serverConfig l with
     | Some cfg => (Ok (wire_config cfg), (s, []))
     | None => (Err (ErrNew "failed to get region config"), (s, []))
     end).
Proof.
  split_and!; intros; [apply SetFsNode_delivered|apply GetFsNode_delivered
    |apply GetFsNodeChildren_delivered|apply ok_or_delivered_unit..
    |apply GetAvailableHosts_delivered|apply GetRegionConfig_delivered].
Qed.

End remote.

(** The contract of the nodes goes through the network: over any coordinator
    that keeps it, with calls lost on the way. *)
Section remote_store.
Context {S : Type} `{NS : NodeStore S} {NL : NodeStoreLaws S}.
Context (serverConfig : BlobCacheServerConfig).

Definition remote_coordinator : CoordinatorClient (net S) :=
  Remote.CoordinatorClientRemote serverConfig.
Existing Instance remote_coordinator.

Definition remote_store : NodeStore (net S) := {|
  node s id := set_Ino 0 <$> node s.1 id;
  child s id := child s.1 id;
  next_Gen := next_Gen;
  keeps_Ino := false;
|}.
Existing Instance remote_store.

Lemma rpc_cases {A} (m : M S A) (s : net S) :
  (rpc m s = let '(r, t) := m s.1 in (r, (t, tail s.2))) ∨
  (∃ e, rpc m s = (Err e, (s.1, tail s.2))) ∨
  (∃ e, rpc m s = match m s.1 with
                  | (Panic p, t) => (Panic p, (t, tail s.2))
                  | (_, t) => (Err e, (t, tail s.2))
                  end).
Proof. destruct s as [t [|[|e|e] os]]; simpl; eauto. Qed.

(** An update through the network. *)
Lemma ok_or_updates {A} msg (m : M S A) (s : net S) node' child' :
  updates s.1 (m s.1) node' child' →
  updates s (ok_or msg (reply_ok (m ≫= λ _, mret tt)) s) (λ id, set_Ino 0 <$> node' id) child'.
Proof.
  intros Hu. unfold ok_or, mbind at 1, M_bind at 1.
  assert (∀ t, (reply_ok (m ≫= λ _, mret tt)) t =
    match m t with
    | (Ok _, t') => (Ok true, t') | (Err _, t') => (Ok false, t') | (Panic p, t') => (Panic p, t')
    end) as Er.
  { intros t. unfold reply_ok, attempt, mbind, M_bind. by destruct (m t) as [[a|e|p] t']. }
  unfold updates in *. simpl in *.
  destruct (rpc_cases (reply_ok (m ≫= λ _, mret tt)) s) as [->|[[e ->]|[e ->]]];
    rewrite ?Er; [| by split; left |];
    destruct (m s.1) as [[a|e'|p] t]; simpl; try done.
  all: try (destruct Hu as [Hn Hc]); try (split; [right|right]; intros; rewrite ?Hn, ?Hc; auto; fail).
  - split; intros; [by rewrite Hn|by rewrite Hc].
  - destruct Hn as [Hn|Hn], Hc as [Hc|Hc]; split;
      first [left; intros; rewrite ?Hn, ?Hc by done; done|right; intros; rewrite ?Hn, ?Hc by done; done].
  - destruct Hn as [Hn|Hn], Hc as [Hc|Hc]; split;
      first [left; intros; rewrite ?Hn, ?Hc by done; done|right; intros; rewrite ?Hn, ?Hc by done; done].
Qed.

Lemma reply_ok_unit (m : M S ()) t : reply_ok (m ≫= λ _, mret tt) t = reply_ok m t.
Proof. unfold reply_ok, attempt, mbind, M_bind. by destruct (m t) as [[[]|e|p] t']. Qed.

Lemma ok_or_ext msg (f g : M S bool) s : (∀ t, f t = g t) → ok_or msg f s = ok_or msg g s.
Proof.
  intros E. assert (rpc f s = rpc g s) as Er.
  { unfold rpc. destruct s as [t [|[] os]]; simpl; by rewrite ?E. }
  unfold ok_or, mbind, M_bind. by rewrite Er.
Qed.

Lemma ok_or_updates_unit msg (m : M S ()) (s : net S) node' child' :
  updates s.1 (m s.1) node' child' →
  updates s (ok_or msg (reply_ok m) s) (λ id, set_Ino 0 <$> node' id) child'.
Proof.
  intros Hu. rewrite <-(ok_or_ext msg (reply_ok (m ≫= λ _, mret tt))) by apply reply_ok_unit.
  by apply ok_or_updates.
Qed.

Lemma updates_ext {A} (s : net S) (r : res A * net S) n1 n2 c1 c2 :
  updates s r n1 c1 → (∀ id, n1 id = n2 id) → (∀ id, c1 id = c2 id) → updates s r n2 c2.
Proof.
  unfold updates. intros Hu Hn Hc. destruct r as [[a|e|p] s']; [| |done].
  - destruct Hu as [H1 H2]. split; intros; [rewrite <-Hn|rewrite <-Hc]; auto.
  - destruct Hu as [H1 H2]. split; [destruct H1 as [H1|H1]|destruct H2 as [H2|H2]];
      first [left; done|right; intros; first [rewrite <-Hn|rewrite <-Hc]; auto].
Qed.

Lemma upd_fmap id (v : option BlobFsMetadata) (f : string → option BlobFsMetadata) k :
  set_Ino 0 <$> upd id v f k = upd id (set_Ino 0 <$> v) (λ k, set_Ino 0 <$> f k) k.
Proof. unfold upd. by case_decide. Qed.

Lemma stored_wire old m :
  set_Ino 0 (stored_as (S:=S) old (set_Ino 0 m)) = stored_as (S:=net S) (set_Ino 0 <$> old) m.
Proof. unfold stored_as. simpl. destruct old as [o|]; simpl; [destruct o|]; destruct m, keeps_Ino; done. Qed.

(** A read through the network. *)
Lemma rpc_reads {A B} (m : M S A) (s : net S) (k : A → M (net S) B) (P : A → Prop) (Q : B → Prop) :
  (∀ id, node (m s.1).2 id = node s.1 id) → (∀ id, child (m s.1).2 id = child s.1 id) →
  match (m s.1).1 with Ok a => P a | Err _ => False | Panic _ => False end →
  (∀ a t, P a → (k a t).2 = t ∧
     match (k a t).1 with Ok b => Q b | Err _ => True | Panic _ => False end) →
  reads s ((rpc m ≫= k) s) Q.
Proof.
  intros Hn Hc Hm Hk. unfold reads, mbind, M_bind. simpl.
  destruct (rpc_cases m s) as [->|[[e ->]|[e ->]]]; [|done|];
    destruct (m s.1) as [[a|e'|p] t]; simpl in *; try done.
  - destruct (Hk a (t, tail s.2) Hm) as [E Hq]. rewrite E. simpl.
    split_and!; [intros id; by rewrite Hn|intros id; by rewrite Hc|done].
  - split_and!; [intros id; by rewrite Hn|intros id; by rewrite Hc|done].
Qed.

#[local] Instance remote_laws : NodeStoreLaws (net S).
Proof.
  split; simpl.
  - intros id m s Hid Hm. unfold Remote.SetFsNode, Handler.SetFsNode.
    assert (metadata_ok (set_Ino 0 m)) as Hm0.
    { by apply metadata_ok_Ino. }
    pose proof (SetFsNode_law id (set_Ino 0 m) s.1 Hid Hm0) as Hu.
    change (metadata_of_proto (BlobFsMetadata_ToProto m)) with (set_Ino 0 m).
    pose proof (ok_or_updates "failed to set fs node" _ s _ _ Hu) as Hr.
    eapply updates_ext in Hr; [|intros k; cbv beta; rewrite upd_fmap; simpl; by rewrite stored_wire|done].
    unfold mbind at 1, M_bind at 1.
    by destruct (ok_or _ _ s) as [[[]|e|p] s'].
  - apply next_Gen_range.
  - intros id m s m' s'. unfold Remote.SetFsNode, mbind at 1, M_bind at 1.
    destruct (ok_or _ _ s) as [[[]|e|p] s1]; [|done..]. intros [= <- _].
    exists (Gen m). by destruct m.
  - intros id s Hid. pose proof (GetFsNode_law id s.1 Hid) as (Hn & Hc & Hq).
    apply (rpc_reads _ s _ (λ r, match r with
      | (Some p, true) => ∃ n, p = BlobFsMetadata_ToProto n ∧ node s.1 id = Some n
      | (None, false) => True | _ => False end)).
    + unfold Handler.GetFsNode, attempt, mbind, M_bind. by destruct (c_GetFsNode id s.1) as [[n|e|p] t].
    + unfold Handler.GetFsNode, attempt, mbind, M_bind. by destruct (c_GetFsNode id s.1) as [[n|e|p] t].
    + unfold Handler.GetFsNode, attempt, mbind, M_bind.
      destruct (c_GetFsNode id s.1) as [[n|e|p] t]; simpl; [by exists n|done..].
    + intros [[p|] []] t Hr; try done. destruct Hr as (n & -> & ->). simpl.
      by rewrite metadata_over_wire.
  - intros id s Hid. eapply updates_ext; [apply ok_or_updates_unit, RemoveFsNode_law, Hid| |done].
    intros k. cbv beta. by rewrite upd_fmap.
  - intros pid id s Hp Hid. by apply ok_or_updates_unit, AddFsNodeChild_law.
  - intros pid id s Hp Hid. by apply ok_or_updates_unit, RemoveFsNodeChild_law.
  - intros pid s Hp. pose proof (GetFsNodeChildren_law pid s.1 Hp) as (Hn & Hc & Hq).
    apply (rpc_reads _ s _ (λ r, if r.2 : bool then
      ∀ p, p ∈ r.1 → ∃ n id, p = BlobFsMetadata_ToProto n ∧ id ∈ child s.1 pid ∧ node s.1 id = Some n
      else True)).
    + unfold Handler.GetFsNodeChildren, attempt, mbind, M_bind.
      by destruct (c_GetFsNodeChildren pid s.1) as [[n|e|p] t].
    + unfold Handler.GetFsNodeChildren, attempt, mbind, M_bind.
      by destruct (c_GetFsNodeChildren pid s.1) as [[n|e|p] t].
    + unfold Handler.GetFsNodeChildren, attempt, mbind, M_bind.
      destruct (c_GetFsNodeChildren pid s.1) as [[l|e|p] t]; simpl in *; [|done..].
      intros p (n & -> & Hin)%list_elem_of_fmap. destruct (Hq n Hin) as (id & Hi & Hni).
      by exists n, id.
    + intros [l []] t Hr; simpl in *; [|done]. split; [done|].
      intros x (p & -> & Hp')%list_elem_of_fmap. destruct (Hr p Hp') as (n & id & -> & Hi & Hni).
      exists id. split; [done|]. by rewrite Hni, metadata_over_wire.
Qed.

End remote_store.

(** ** Properties *)

(** C15: the three coordinators keep the contract of the nodes, over any Redis
    server and any pattern of failed calls and lost messages: a read returns what
    is stored and changes nothing, an update changes its own entry and no other,
    a failed update left the old entry or the new one. *)
Theorem coordinators_keep_contract {R} `{RE : Redis R} {RLaws : RedisLaws R} `{HC : HostCodec}
    (cfg : BlobCacheServerConfig) :
  @NodeStoreLaws Mock.MockCoordinator Mock.coordinator MockStore.node_store ∧
  @NodeStoreLaws (RedisLock R) (local_coordinator cfg) (local_store cfg) ∧
  @NodeStoreLaws (net (RedisLock R))
    (@remote_coordinator _ (local_coordinator cfg) cfg)
    (@remote_store _ (local_coordinator cfg) (local_store cfg) cfg).
Proof.
  split_and!; [apply MockStore.laws|apply local_laws|].
  apply (remote_laws (NL := local_laws cfg)).
Qed.

Definition empty_config : BlobCacheServerConfig :=
  {| CMode := ""; DiskCacheDir := "/c"; DiskCacheMaxUsagePct := f_zero;
     EnableMemoryCache := true; Token := ""; PrettyLogs := false; ObjectTtlS := 60;
     MaxCachePct := 50; PageSizeBytes := 4; Metadata := zeroMetadataConfig;
     Sources := []; S3DownloadConcurrency := 1; S3DownloadChunkSize := 1; Regions := [] |}.

Lemma coordinators_keep_contract_witness :
  @NodeStoreLaws Mock.MockCoordinator Mock.coordinator MockStore.node_store ∧
  @NodeStoreLaws (RedisLock db) (local_coordinator empty_config) (local_store empty_config) ∧
  @NodeStoreLaws (net (RedisLock db))
    (@remote_coordinator _ (local_coordinator empty_config) empty_config)
    (@remote_store _ (local_coordinator empty_config) (local_store empty_config) empty_config).
Proof. exact (coordinators_keep_contract (RLaws := db_redis_laws) empty_config). Defined.
