(* ===== verification/NodeStore.v ===== *)
(** * Reasoning about the nodes of a coordinator

    The contract of [CoordinatorLaws] as triples over the whole store of nodes,
    so that the operations of the file system and of the server compose; and
    the coordinators that answer every call ([ReliableStore]). *)

From S2P Require Import Prelude GoStrings FsID GoFloat Types Redis Metadata Coordinator CoordinatorLaws.
Local Open Scope Z_scope.

Lemma GenerateFsID_valid p : valid_id (GenerateFsID p).
Proof. unfold valid_id. by apply (all_chars_has_char is_hex); [apply EncodeToString_hex|]. Qed.

#[export] Hint Resolve GenerateFsID_valid : core.

(** The nodes and the children that a store holds, on the identifiers. *)
Definition store_is {S} `{NodeStore S} (f : string → option BlobFsMetadata)
    (g : string → gset string) (s : S) : Prop :=
  (∀ id, valid_id id → node s id = f id) ∧ (∀ id, valid_id id → child s id = g id).

Lemma upd_eq {A} k (v : A) f : upd k v f k = v.
Proof. unfold upd. by rewrite decide_True. Qed.
Lemma upd_ne {A} k (v : A) f k' : k' ≠ k → upd k v f k' = f k'.
Proof. intros. unfold upd. by rewrite decide_False. Qed.

(** ** The operations as triples *)

Section triples.
Context {S : Type} `{NL : NodeStoreLaws S}.
Implicit Types f : string → option BlobFsMetadata.
Implicit Types g : string → gset string.

Lemma store_is_self (s : S) : store_is (node s) (child s) s.
Proof. done. Qed.

(** The contract of an update, from any description of the store. *)
Lemma updates_store_is {A} (m : M S A) f g node' child' (s : S) :
  store_is f g s →
  updates s (m s) node' child' →
  ((∀ id, valid_id id → f id = node' id) ∨ (∀ id, valid_id id → g id = child' id)) →
  match m s with
  | (Ok _, s') => store_is node' child' s'
  | (Err _, s') => store_is f g s' ∨ store_is node' child' s'
  | (Panic _, _) => False
  end.
Proof.
  intros [Hf Hg] Hu Hone. unfold updates in Hu.
  destruct (m s) as [[a|e|p] s']; [done| |done]. unfold store_is.
  assert (∀ P Q : string → Prop, (∀ id, valid_id id → P id) → (∀ id, P id → Q id) →
    ∀ id, valid_id id → Q id) as Himp by naive_solver.
  destruct Hu as [[Hn|Hn] [Hc|Hc]].
  - left. split; intros id Hid; [rewrite Hn|rewrite Hc]; auto.
  - destruct Hone as [Ho|Ho].
    + right. split; intros id Hid; [rewrite Hn, Hf, Ho|rewrite Hc]; auto.
    + left. split; intros id Hid; [rewrite Hn, Hf|rewrite Hc, Ho]; auto.
  - destruct Hone as [Ho|Ho].
    + left. split; intros id Hid; [rewrite Hn, Ho|rewrite Hc, Hg]; auto.
    + right. split; intros id Hid; [rewrite Hn|rewrite Hc, Hg, Ho]; auto.
  - by right.
Qed.

Lemma SetFsNode_triple f g id m :
  valid_id id → metadata_ok m →
  let f' := upd id (Some (stored_as (f id) m)) f in
  triple (store_is f g) (c_SetFsNode id m) (λ _, store_is f' g)
    (λ _ s, store_is f g s ∨ store_is f' g s).
Proof.
  intros Hid Hm f' s Hs. pose proof (SetFsNode_law id m s Hid Hm) as Hu.
  apply (updates_store_is _ f g f' g s Hs); [|by right].
  destruct Hs as [Hf Hg]. unfold updates, f' in *.
  assert (∀ k, valid_id k → upd id (Some (stored_as (node s id) m)) (node s) k =
    upd id (Some (stored_as (f id) m)) f k) as E.
  { intros k Hk. rewrite (Hf id Hid). unfold upd. case_decide; auto. }
  destruct (c_SetFsNode id m s) as [[a|e|p] s']; [| |done].
  - destruct Hu as [Hn Hc]. split; intros k Hk; [rewrite <-E|rewrite <-Hg]; auto.
  - destruct Hu as [Hn Hc]. split.
    + destruct Hn as [Hn|Hn]; [by left|right]. intros k Hk. rewrite <-E; auto.
    + destruct Hc as [Hc|Hc]; left; done.
Qed.

Lemma RemoveFsNode_triple f g id :
  valid_id id →
  let f' := upd id None f in
  triple (store_is f g) (c_RemoveFsNode id) (λ _, store_is f' g)
    (λ _ s, store_is f g s ∨ store_is f' g s).
Proof.
  intros Hid f' s Hs. pose proof (RemoveFsNode_law id s Hid) as Hu.
  apply (updates_store_is _ f g f' g s Hs); [|by right].
  destruct Hs as [Hf Hg]. unfold updates, f' in *.
  assert (∀ k, valid_id k → upd id None (node s) k = upd id None f k) as E.
  { intros k Hk. unfold upd. case_decide; auto. }
  destruct (c_RemoveFsNode id s) as [[a|e|p] s']; [| |done]; destruct Hu as [Hn Hc].
  - split; intros k Hk; [rewrite <-E|rewrite <-Hg]; auto.
  - split; [|by destruct Hc; left]. destruct Hn as [Hn|Hn]; [by left|right].
    intros k Hk. rewrite <-E; auto.
Qed.

(** Both updates of the children. *)
Lemma child_triple f g pid (op : gset string → gset string) (m : M S ()) :
  valid_id pid →
  (∀ s, updates s (m s) (node s) (upd pid (op (child s pid)) (child s))) →
  let g' := upd pid (op (g pid)) g in
  triple (store_is f g) m (λ _, store_is f g') (λ _ s, store_is f g s ∨ store_is f g' s).
Proof.
  intros Hid Hm g' s Hs. pose proof (Hm s) as Hu.
  apply (updates_store_is _ f g f g' s Hs); [|by left].
  destruct Hs as [Hf Hg]. unfold updates, g' in *.
  assert (∀ k, valid_id k → upd pid (op (child s pid)) (child s) k = upd pid (op (g pid)) g k) as E.
  { intros k Hk. rewrite (Hg pid Hid). unfold upd. case_decide; auto. }
  destruct (m s) as [[a|e|p] s']; [| |done]; destruct Hu as [Hn Hc].
  - split; intros k Hk; [rewrite <-Hf|rewrite <-E]; auto.
  - split; [by destruct Hn; left|]. destruct Hc as [Hc|Hc]; [by left|right].
    intros k Hk. rewrite <-E; auto.
Qed.

Lemma AddFsNodeChild_triple f g pid id :
  valid_id pid → valid_id id →
  let g' := upd pid (g pid ∪ {[id]}) g in
  triple (store_is f g) (c_AddFsNodeChild pid id) (λ _, store_is f g')
    (λ _ s, store_is f g s ∨ store_is f g' s).
Proof. intros Hp Hid. apply (child_triple f g pid (λ x, x ∪ {[id]})); [done|]. intros s. by apply AddFsNodeChild_law. Qed.

Lemma RemoveFsNodeChild_triple f g pid id :
  valid_id pid → valid_id id →
  let g' := upd pid (g pid ∖ {[id]}) g in
  triple (store_is f g) (c_RemoveFsNodeChild pid id) (λ _, store_is f g')
    (λ _ s, store_is f g s ∨ store_is f g' s).
Proof. intros Hp Hid. apply (child_triple f g pid (λ x, x ∖ {[id]})); [done|]. intros s. by apply RemoveFsNodeChild_law. Qed.

(** The reads. *)
Lemma GetFsNode_triple f g id :
  valid_id id →
  triple (store_is f g) (c_GetFsNode id) (λ n s, store_is f g s ∧ f id = Some n)
    (λ _, store_is f g).
Proof.
  intros Hid s [Hf Hg]. destruct (GetFsNode_law id s Hid) as (Hn & Hc & Hq).
  assert (store_is f g (c_GetFsNode id s).2) as Hs'
    by (split; intros k Hk; rewrite ?Hn, ?Hc; auto).
  destruct (c_GetFsNode id s) as [[n|e|p] s']; simpl in *; [|done..].
  split; [done|]. by rewrite <-Hf.
Qed.

Lemma GetFsNodeChildren_triple f g pid :
  valid_id pid → (∀ id, id ∈ g pid → valid_id id) →
  triple (store_is f g) (c_GetFsNodeChildren pid)
    (λ l s, store_is f g s ∧ ∀ n, n ∈ l → ∃ id, id ∈ g pid ∧ f id = Some n)
    (λ _, store_is f g).
Proof.
  intros Hid Hval s [Hf Hg]. destruct (GetFsNodeChildren_law pid s Hid) as (Hn & Hc & Hq).
  assert (store_is f g (c_GetFsNodeChildren pid s).2) as Hs'
    by (split; intros k Hk; rewrite ?Hn, ?Hc; auto).
  destruct (c_GetFsNodeChildren pid s) as [[l|e|p] s']; simpl in *; [|done..].
  split; [done|]. intros n Hin. destruct (Hq n Hin) as (id & Hi & Hni).
  rewrite Hg in Hi by done. exists id. split; [done|]. rewrite <-Hf; auto.
Qed.

End triples.

(** ** Coordinators that answer *)

(** A call that succeeds from the states of [up], and stays in them. *)
Definition answers {S A} (up : S → Prop) (m : M S A) : Prop :=
  ∀ s, up s → ∃ a s', m s = (Ok a, s') ∧ up s'.

Class ReliableStore (S : Type) `{NodeStore S} : Type := {
  up : S → Prop;
  up_SetFsNode id m : answers up (c_SetFsNode id m);
  up_RemoveFsNode id : answers up (c_RemoveFsNode id);
  up_AddFsNodeChild pid id : answers up (c_AddFsNodeChild pid id);
  up_RemoveFsNodeChild pid id : answers up (c_RemoveFsNodeChild pid id);
  (** a node that is stored is found, and the listing is complete *)
  up_GetFsNode id s :
    up s → ∃ s', up s' ∧
      match node s id with
      | Some n => c_GetFsNode id s = (Ok n, s')
      | None => ∃ e, c_GetFsNode id s = (Err e, s')
      end;
  up_GetFsNodeChildren pid s :
    up s → ∃ l s', c_GetFsNodeChildren pid s = (Ok l, s') ∧ up s' ∧
      ∀ id n, id ∈ child s pid → node s id = Some n → n ∈ l;
}.

(** The mock answers every call. *)
#[export] Instance mock_reliable : @ReliableStore Mock.MockCoordinator Mock.coordinator MockStore.node_store.
Proof.
  refine {| up := λ _, True |}; simpl.
  1-4: intros *; intros s _; eexists _, _; split; [reflexivity|done].
  - intros id s _. unfold Mock.GetFsNode, mbind, M_bind, get. simpl.
    destruct (Mock.fsNodes s !! id); eauto.
  - intros pid s _. unfold Mock.GetFsNodeChildren, gets. eexists _, _.
    split; [reflexivity|]. split; [done|]. intros id n Hin Hn.
    apply list_elem_of_omap. exists id. by rewrite elem_of_list_to_set in Hin.
Defined.

(** A Redis server that answers the commands of the nodes. *)
Class ReliableRedis (R : Type) `{Redis R} : Type := {
  server_up : R → Prop;
  up_HGetAll k : answers server_up (HGetAll k);
  up_HSet k vs : answers server_up (HSet k vs);
  up_SMembers k : answers server_up (SMembers k);
  up_SAdd k x : answers server_up (SAdd k x);
  up_SRem k x : answers server_up (SRem k x);
  up_Del k : answers server_up (Del k);
}.

#[export] Instance db_reliable : ReliableRedis db.
Proof. refine {| server_up := λ _, True |}; intros *; intros r _; by eexists _, _. Defined.

Section reliable_local.
Context {R : Type} `{RE : Redis R} {RLaws : RedisLaws R} {RR : ReliableRedis R} `{HC : HostCodec}.
Context (serverConfig : BlobCacheServerConfig).
Definition local_up (st : RedisLock R) : Prop := server_up (rdb st).

Lemma on_rdb_answers {A} (m : M R A) : answers server_up m → answers local_up (on_rdb m).
Proof.
  intros Hm st Hup. destruct (Hm (rdb st) Hup) as (a & r' & E & Hr).
  unfold on_rdb, zoom. rewrite E. by eexists _, _.
Qed.

Lemma answers_bind {S A B} (P : S → Prop) (m : M S A) (k : A → M S B) :
  answers P m → (∀ a, answers P (k a)) → answers P (m ≫= k).
Proof.
  intros Hm Hk s Hs. destruct (Hm s Hs) as (a & s1 & E & H1).
  destruct (Hk a s1 H1) as (b & s2 & E2 & H2). exists b, s2. unfold mbind, M_bind. by rewrite E.
Qed.

Lemma answers_ret {S A} (P : S → Prop) (a : A) : answers P (mret a).
Proof. intros s Hs. by eexists _, _. Qed.

Lemma answers_attempt {S A B} (P : S → Prop) (m : M S A) (k : A + error → M S B) :
  answers P m → (∀ a, answers P (k (inl a))) → answers P (attempt m ≫= k).
Proof.
  intros Hm Hk s Hs. destruct (Hm s Hs) as (a & s1 & E & H1).
  destruct (Hk a s1 H1) as (b & s2 & E2 & H2). exists b, s2.
  unfold attempt, mbind, M_bind. by rewrite E.
Qed.

Lemma HGetAll_nil_answers k : answers local_up (HGetAll_nil (R:=R) k).
Proof. apply answers_attempt; [apply on_rdb_answers, up_HGetAll|intros; apply answers_ret]. Qed.

(** A node is found when it is there. *)
Lemma GetFsNode_up id st :
  local_up st → ∃ st', local_up st' ∧ view (rdb st') = view (rdb st) ∧
    match node_of (view (rdb st)) id with
    | Some n => GetFsNode id st = (Ok n, st')
    | None => ∃ e, GetFsNode id st = (Err e, st')
    end.
Proof.
  intros Hup. unfold GetFsNode, mbind, M_bind.
  destruct (HGetAll_nil_answers (MetadataFsNode id) st Hup) as (h & st1 & E & Hup1).
  pose proof (HGetAll_nil_spec (MetadataFsNode id) st) as Hs. rewrite E in Hs |- *.
  destruct Hs as (-> & Hv & _). exists st1. split_and!; [done..|].
  unfold node_of. case_decide; [by eexists|done].
Qed.

Lemma get_nodes_up ids st :
  local_up st → ∃ l st', get_nodes ids st = (Ok l, st') ∧ local_up st' ∧
    view (rdb st') = view (rdb st) ∧
    ∀ id n, id ∈ ids → node_of (view (rdb st)) id = Some n → n ∈ l.
Proof.
  revert st. induction ids as [|id ids IH]; intros st Hup; simpl.
  { exists [], st. split_and!; [done..|]. by intros ? ? ?%elem_of_nil. }
  destruct (GetFsNode_up id st Hup) as (st1 & Hup1 & Hv1 & Hg).
  destruct (IH st1 Hup1) as (l & st2 & E2 & Hup2 & Hv2 & Hl).
  unfold mbind, M_bind, attempt. rewrite Hv1 in Hl.
  destruct (node_of (view (rdb st)) id) as [n|] eqn:En; [|destruct Hg as [e Hg]];
    rewrite Hg, E2; eexists _, st2; (split_and!; [reflexivity|done|congruence|]);
    intros k m [->|Hk]%elem_of_cons Hm.
  - assert (m = n) as -> by congruence. left.
  - right. eauto.
  - congruence.
  - eauto.
Qed.

Definition local_reliable :
  @ReliableStore (RedisLock R) (local_coordinator serverConfig) (local_store serverConfig).
Proof.
  unshelve refine (Build_ReliableStore _ _ _ local_up _ _ _ _ _ _); simpl.
  - intros id m. unfold SetFsNode. apply answers_bind; [apply HGetAll_nil_answers|]. intros h.
    apply answers_attempt; [apply on_rdb_answers, up_HSet|intros; apply answers_ret].
  - intros id. apply on_rdb_answers, up_Del.
  - intros pid id. apply on_rdb_answers, up_SAdd.
  - intros pid id. apply on_rdb_answers, up_SRem.
  - intros id st Hup. destruct (GetFsNode_up id st Hup) as (st' & Hup' & _ & Hg). by exists st'.
  - intros pid st Hup. unfold GetFsNodeChildren, mbind, M_bind.
    destruct (on_rdb_answers _ (up_SMembers (MetadataFsNodeChildren pid)) st Hup)
      as (ids & st1 & E & Hup1).
    pose proof (on_rdb_does (SMembers (MetadataFsNodeChildren pid)) st _ _ (SMembers_law _ _)) as Hm.
    rewrite E in Hm |- *. destruct Hm as ((_ & Hids) & Hv & _).
    destruct (get_nodes_up ids st1 Hup1) as (l & st2 & E2 & Hup2 & _ & Hl).
    exists l, st2. split_and!; [done..|]. intros id n Hin Hn. rewrite <-Hids in Hin.
    rewrite Hv in Hl. apply (Hl id); [by rewrite elem_of_list_to_set in Hin|done].
Defined.

End reliable_local.

(** A network that delivers is as reliable as the coordinator behind it. *)
Section reliable_remote.
Context {S : Type} `{NS : NodeStore S} {RS : ReliableStore S}.
Context (serverConfig : BlobCacheServerConfig).
Definition remote_up (s : net S) : Prop := up s.1 ∧ s.2 = [].

Lemma ok_or_answers msg (m : M S ()) : answers up m → answers remote_up (ok_or msg (reply_ok m)).
Proof.
  intros Hm [s os] [Hs Ho]. simpl in *. subst os. rewrite ok_or_delivered_unit.
  destruct (Hm s Hs) as ([] & s' & -> & Hs'). by exists tt, (s', []).
Qed.

Definition remote_reliable :
  @ReliableStore (net S) (remote_coordinator serverConfig) (remote_store serverConfig).
Proof.
  unshelve refine (Build_ReliableStore _ _ _ remote_up _ _ _ _ _ _); simpl.
  - intros id m [s os] [Hs Ho]. simpl in *. subst os.
    rewrite SetFsNode_delivered.
    destruct (up_SetFsNode id (set_Ino 0 m) s Hs) as (m' & s' & -> & Hs'). by exists m, (s', []).
  - intros id. apply ok_or_answers, up_RemoveFsNode.
  - intros pid id. apply ok_or_answers, up_AddFsNodeChild.
  - intros pid id. apply ok_or_answers, up_RemoveFsNodeChild.
  - intros id [s os] [Hs Ho]. simpl in *. subst os.
    destruct (up_GetFsNode id s Hs) as (s' & Hs' & Hg). exists (s', []). split; [done|].
    rewrite GetFsNode_delivered.
    simpl. destruct (node s id) as [n|]; [by rewrite Hg|]. destruct Hg as [e ->]. by eexists.
  - intros pid [s os] [Hs Ho]. simpl in *. subst os.
    destruct (up_GetFsNodeChildren pid s Hs) as (l & s' & E & Hs' & Hl).
    exists (map (set_Ino 0) l), (s', []).
    rewrite GetFsNodeChildren_delivered, E.
    split_and!; [done..|]. intros id n Hin (n0 & Hn & ->)%fmap_Some.
    apply list_elem_of_fmap. eauto.
Defined.

End reliable_remote.
