(* ===== verification/BlobFs.v ===== *)
(** * The file system of [pkg/blobfs_node.go] and [pkg/blobfs.go]

    The handlers of a node over any coordinator that keeps the contract of
    [CoordinatorLaws], with the client's two calls as the class [FsClient].
    Mounting, the FUSE server and the kernel are the go-fuse library's; what a
    handler passes to [NewInode] is its result here.  The mock coordinator hands
    out the pointer it stores; the model copies, which only [Rename] could
    tell.  [tree_at] is the shape of the tree: with renames the identifiers of some
    nodes are those of older paths, without them every node is in its place. *)

From S2P Require Import Prelude GoStrings GoPath FsID GoFloat Types Redis Metadata.
From S2P Require Import Coordinator CoordinatorLaws NodeStore.
Local Open Scope Z_scope.
#[local] Opaque GenerateFsID.

(** ** Data *)

(** Constants of the platform and of the fuse package. *)
Definition S_IFDIR : Z := 16384.
Definition FOPEN_DIRECT_IO : Z := 1.
Definition FOPEN_KEEP_CACHE : Z := 2.

(** [syscall.Errno] values are errors. *)
Definition ENOENT : error := ErrLib "ENOENT".
Definition EIO : error := ErrLib "EIO".
Definition EAGAIN : error := ErrLib "EAGAIN".
Definition EINVAL : error := ErrLib "EINVAL".
Definition ENOTEMPTY : error := ErrLib "ENOTEMPTY".
Definition ENOATTR : error := ErrLib "ENODATA".

Module Fuse.

Record Owner : Type := mkOwner { Uid : Z; Gid : Z }.

Record Attr : Type := mkAttr {
  Ino : Z; Size : Z; Blocks : Z; Atime : Z; Mtime : Z; Ctime : Z;
  Atimensec : Z; Mtimensec : Z; Ctimensec : Z; Mode : Z; Nlink : Z;
  FOwner : Owner; Rdev : Z; Blksize : Z; Padding : Z;
}.
Definition zeroAttr : Attr := mkAttr 0 0 0 0 0 0 0 0 0 0 0 (mkOwner 0 0) 0 0 0.

(** [Attr{Mode: mode, Ino: ino}] *)
Definition mode_attr (mode ino : Z) : Attr :=
  mkAttr ino 0 0 0 0 0 0 0 0 mode 0 (mkOwner 0 0) 0 0 0.

Record StableAttr : Type := mkStable { SMode : Z; SIno : Z; SGen : Z }.

Record DirEntry : Type := mkDirEntry { DMode : Z; DName : string; DIno : Z }.

End Fuse.

Record BlobFsNode : Type := mkNode {
  NPath : string; NID : string; NPID : string; NName : string; Target : string;
  NHash : string; Attr : Fuse.Attr; Prefetch : option bool;
}.

Record FSNode : Type := mkFSNode { bfsNode : BlobFsNode; attr : Fuse.Attr }.

(** An inode: the node behind it and its stable attributes. *)
Record Inode : Type := mkInode { operations : FSNode; stable : Fuse.StableAttr }.

(** The calls of the client that the file system makes. *)
Class FsClient (S : Type) : Type := {
  fs_GetContent : string → Z → Z → string → M S (list byte);
  fs_StoreContentFromFUSE : string → string → bool → M S string;
}.

(** [if err != nil { return errno }] *)
Definition or_errno {S A} (errno : error) (m : M S A) : M S A :=
  r ← attempt m;
  match r with inl a => mret a | inr _ => throw errno end.

(** ** Operations *)

Section operations.
Context {S : Type} `{CC : CoordinatorClient S} `{FC : FsClient S}.

(** [Getattr] leaves [Rdev], [Blksize] and [Padding] out. *)
Definition Getattr (n : FSNode) : Fuse.Attr :=
  let a := Attr (bfsNode n) in
  Fuse.mkAttr (Fuse.Ino a) (Fuse.Size a) (Fuse.Blocks a) (Fuse.Atime a) (Fuse.Mtime a)
    (Fuse.Ctime a) (Fuse.Atimensec a) (Fuse.Mtimensec a) (Fuse.Ctimensec a) (Fuse.Mode a)
    (Fuse.Nlink a) (Fuse.FOwner a) 0 0 0.

Definition metaToAttr (m : BlobFsMetadata) : Fuse.Attr :=
  {| Fuse.Ino := Ino m; Fuse.Size := Size m; Fuse.Blocks := Blocks m; Fuse.Atime := Atime m;
     Fuse.Mtime := Mtime m; Fuse.Ctime := Ctime m; Fuse.Atimensec := Atimensec m;
     Fuse.Mtimensec := Mtimensec m; Fuse.Ctimensec := Ctimensec m; Fuse.Mode := Mode m;
     Fuse.Nlink := Nlink m; Fuse.FOwner := Fuse.mkOwner (Uid m) (Gid m); Fuse.Rdev := Rdev m;
     Fuse.Blksize := Blksize m; Fuse.Padding := Padding m |}.

(** The inode made of a node's metadata. *)
Definition inode_of (m : BlobFsMetadata) : Inode * Fuse.Attr :=
  let a := metaToAttr m in
  (mkInode (mkFSNode (mkNode (Path m) (ID m) (PID m) (Name m) "" (Hash m) a None) a)
     (Fuse.mkStable (Mode m) (Ino m) (Gen m)), a).

Definition inodeFromFsId (fsId : string) : M S (Inode * Fuse.Attr) :=
  metadata ← or_errno ENOENT (c_GetFsNode fsId);
  mret (inode_of metadata).

Definition fullPath (n : FSNode) (name : string) : string := Join [NPath (bfsNode n); name].

Definition Lookup (n : FSNode) (name : string) : M S (Inode * Fuse.Attr) :=
  let fullPath := fullPath n name in
  if has_char "%" fullPath then
    let sourcePath := replace_char "%" "/" fullPath in
    or_errno ENOENT (fs_StoreContentFromFUSE sourcePath sourcePath true) ≫= λ _,
    or_errno ENOENT (inodeFromFsId (GenerateFsID sourcePath))
  else or_errno ENOENT (inodeFromFsId (GenerateFsID fullPath)).

Definition Opendir (n : FSNode) : M S () := mret tt.

Definition Open (directIO : bool) (n : FSNode) (flags : Z) : M S Z :=
  if directIO then
    let fuseFlags := Z.lor 0 FOPEN_DIRECT_IO in
    mret (Z.land fuseFlags (wrapU32 (Z.lnot FOPEN_KEEP_CACHE)))
  else mret 0.

(** [dest] is a buffer of [len] bytes. *)
Definition Read (n : FSNode) (len off : Z) : M S (list byte) :=
  let b := bfsNode n in
  if bool_decide (Fuse.Size (Attr b) = 0) then mret []
  else
    let sourcePath := NPath b in
    r ← attempt (fs_GetContent (NHash b) off len sourcePath);
    match r with
    | inl buffer => mret buffer
    | inr err =>
        (if decide (err = ErrContentNotFound) then
           r ← attempt (fs_StoreContentFromFUSE sourcePath sourcePath true);
           match r with
           | inr err => if decide (err = ErrUnableToAcquireLock) then throw EAGAIN else throw EIO
           | inl _ => or_errno EIO (fs_GetContent (NHash b) off len sourcePath) ≫= λ _, mret tt
           end
         else mret tt) ≫= λ _,
        throw EIO
    end.

Definition Readlink (n : FSNode) : M S string :=
  if bool_decide (Target (bfsNode n) = "") then throw EINVAL else mret (Target (bfsNode n)).

Definition Readdir (n : FSNode) : M S (list Fuse.DirEntry) :=
  children ← or_errno ENOATTR (c_GetFsNodeChildren (GenerateFsID (NPath (bfsNode n))));
  mret (map (λ child, Fuse.mkDirEntry (Mode child) (Name child) (Ino child)) children).

(** The metadata of a new file or directory; [now] is the time in seconds and
    nanoseconds. *)
Definition new_metadata (n : FSNode) (name : string) (mode : Z) (now : Z * Z) : BlobFsMetadata :=
  let path := fullPath n name in
  {| PID := NID (bfsNode n); ID := GenerateFsID path; Name := name; Path := path; Hash := "";
     Ino := 0; Size := 0; Blocks := 0; Atime := now.1; Mtime := now.1; Ctime := now.1;
     Atimensec := now.2; Mtimensec := now.2; Ctimensec := now.2; Mode := mode; Nlink := 0;
     Rdev := 0; Blksize := 0; Padding := 0; Uid := 0; Gid := 0; Gen := 0 |}.

(** The inode of a new file or directory. *)
Definition new_inode (n : FSNode) (name : string) (mode ino : Z) : Inode * Fuse.Attr :=
  let path := fullPath n name in
  (mkInode (mkFSNode (mkNode path (GenerateFsID path) "" name "" "" (Fuse.mode_attr mode 0) None)
              Fuse.zeroAttr)
     (Fuse.mkStable mode ino 0), Fuse.mode_attr mode ino).

Definition Create (n : FSNode) (name : string) (flags mode : Z) (now : Z * Z) :
    M S (Inode * Fuse.Attr) :=
  let newFsId := GenerateFsID (fullPath n name) in
  metadata ← or_errno EIO (c_SetFsNode newFsId (new_metadata n name mode now));
  or_errno EIO (c_AddFsNodeChild (NID (bfsNode n)) newFsId) ≫= λ _,
  mret (new_inode n name mode (Ino metadata)).

Definition Mkdir (n : FSNode) (name : string) (mode : Z) (now : Z * Z) : M S (Inode * Fuse.Attr) :=
  let newFsId := GenerateFsID (fullPath n name) in
  metadata ← or_errno EIO (c_SetFsNode newFsId (new_metadata n name (Z.lor S_IFDIR mode) now));
  or_errno EIO (c_AddFsNodeChild (NID (bfsNode n)) newFsId) ≫= λ _,
  mret (new_inode n name (Z.lor S_IFDIR mode) (Ino metadata)).

Definition Rmdir (n : FSNode) (name : string) : M S () :=
  let fsId := GenerateFsID (fullPath n name) in
  children ← or_errno EIO (c_GetFsNodeChildren fsId);
  if bool_decide (0 < length children)%nat then throw ENOTEMPTY
  else
    or_errno EIO (c_RemoveFsNode fsId) ≫= λ _,
    or_errno EIO (c_RemoveFsNodeChild (NID (bfsNode n)) fsId).

Definition Unlink (n : FSNode) (name : string) : M S () :=
  let fsId := GenerateFsID (fullPath n name) in
  or_errno EIO (c_RemoveFsNode fsId) ≫= λ _,
  or_errno EIO (c_RemoveFsNodeChild (NID (bfsNode n)) fsId).

Definition Rename (n : FSNode) (oldName : string) (newParent : FSNode) (newName : string)
    (flags : Z) : M S () :=
  let oldFsId := GenerateFsID (fullPath n oldName) in
  let newFsId := GenerateFsID (fullPath n newName) in
  metadata ← or_errno ENOENT (c_GetFsNode oldFsId);
  let metadata := set_Name_Path newName (fullPath n newName) metadata in
  or_errno EIO (c_SetFsNode newFsId metadata) ≫= λ _,
  or_errno EIO (c_RemoveFsNodeChild (NID (bfsNode n)) oldFsId) ≫= λ _,
  or_errno EIO (c_AddFsNodeChild (NID (bfsNode n)) newFsId).

(** [NewFileSystem]: the root node. *)
Definition root_metadata : BlobFsMetadata :=
  mkMetadata "" (GenerateFsID "/") "" "/" "" 1 0 0 0 0 0 0 0 0 (Z.lor S_IFDIR 493) 0 0 0 0 0 0 0.

Definition get_root : M S BlobFsMetadata :=
  let rootID := GenerateFsID "/" in
  r ← attempt (c_GetFsNode rootID);
  match r with
  | inl dirMeta => mret dirMeta
  | inr _ => c_SetFsNode rootID root_metadata
  end.

Definition NewFileSystem : M S FSNode :=
  dirMeta ← get_root;
  let attr := Fuse.mode_attr (Mode dirMeta) 1 in
  mret (mkFSNode (mkNode (Path dirMeta) (ID dirMeta) (PID dirMeta) "" "" "" attr None) attr).

End operations.

(** ** Lemmas *)

(** The ranges of what the kernel passes and the clock gives. *)
Definition mode_ok (mode : Z) : Prop := 0 ≤ mode < 2 ^ 32.
Definition time_ok (now : Z * Z) : Prop := 0 ≤ now.1 < 2 ^ 64 ∧ 0 ≤ now.2 < 2 ^ 32.

Lemma S_IFDIR_mode_ok mode : mode_ok mode → mode_ok (Z.lor S_IFDIR mode).
Proof.
  unfold mode_ok. intros [H0 H]. split; [by apply Z.lor_nonneg|].
  destruct (Z.eq_dec (Z.lor S_IFDIR mode) 0) as [->|Hne]; [done|].
  assert (0 ≤ Z.lor S_IFDIR mode) by by apply Z.lor_nonneg.
  apply Z.log2_lt_pow2; [lia|]. rewrite Z.log2_lor by (done || lia).
  apply Z.max_lub_lt; [done|]. destruct (Z.eq_dec mode 0) as [->|]; [done|].
  apply Z.log2_lt_pow2; lia.
Qed.

Lemma new_metadata_ok n name mode now :
  mode_ok mode → time_ok now → metadata_ok (new_metadata n name mode now).
Proof.
  intros Hm [Hs Hn]. unfold metadata_ok, metadata_fields, new_metadata. simpl.
  unfold mode_ok in *. repeat constructor; simpl; lia.
Qed.

Lemma triple_or_errno {S A} (P : S → Prop) errno (m : M S A) Q (E : error → S → Prop) :
  triple P m Q (λ _, E errno) → triple P (or_errno errno m) Q E.
Proof.
  intros Hm s Hs. specialize (Hm s Hs). unfold or_errno, attempt, mbind, M_bind.
  by destruct (m s) as [[a|e|p] s'].
Qed.

Lemma keeps_or_errno {S A} (I : S → Prop) errno (m : M S A) :
  keeps I m → keeps I (or_errno errno m).
Proof. intros Hm. unfold or_errno. keeps_auto. Qed.
#[export] Hint Resolve keeps_or_errno : keeps.

Lemma or_errno_ok {S A} errno (m : M S A) s a s' : m s = (Ok a, s') → or_errno errno m s = (Ok a, s').
Proof. intros E. unfold or_errno, attempt, mbind, M_bind. by rewrite E. Qed.

Lemma or_errno_err {S A} errno (m : M S A) s e s' :
  m s = (Err e, s') → or_errno errno m s = (Err errno, s').
Proof. intros E. unfold or_errno, attempt, mbind, M_bind. by rewrite E. Qed.

(** *** A new node *)

Section new_node.
Context {S : Type} `{NL : NodeStoreLaws S}.
Implicit Types f : string → option BlobFsMetadata.
Implicit Types g : string → gset string.

(** The store after a node was added below a directory. *)
Definition added f g (pid id : string) (m : BlobFsMetadata) (s : S) : Prop :=
  store_is (upd id (Some (stored_as (f id) m)) f) (upd pid (g pid ∪ {[id]}) g) s.

(** The node stored without its link: what a failed [AddFsNodeChild] leaves. *)
Definition half_added f g (id : string) (m : BlobFsMetadata) (s : S) : Prop :=
  store_is (upd id (Some (stored_as (f id) m)) f) g s.

Lemma add_node_triple f g pid id m (B : Type) (k : BlobFsMetadata → M S B) Q :
  valid_id pid → valid_id id → metadata_ok m →
  (∀ m', triple (added f g pid id m) (k m') Q (λ _ _, False)) →
  triple (store_is f g)
    (metadata ← or_errno EIO (c_SetFsNode id m);
     or_errno EIO (c_AddFsNodeChild pid id) ≫= λ _, k metadata) Q
    (λ e s, e = EIO ∧ (store_is f g s ∨ half_added f g id m s ∨ added f g pid id m s)).
Proof.
  intros Hp Hid Hm Hk. apply (triple_bind _ _ _ (λ _, half_added f g id m)).
  { apply triple_or_errno. eapply triple_conseq; [by apply SetFsNode_triple|done|done|].
    intros e s Hs. split; [done|]. destruct Hs as [Hs|Hs]; [by left|by right; left]. }
  intros m'. apply (triple_bind _ _ _ (λ _, added f g pid id m)).
  { apply triple_or_errno. eapply triple_conseq; [by apply AddFsNodeChild_triple|done|done|].
    intros e s Hs. split; [done|]. right. destruct Hs as [Hs|Hs]; [by left|by right]. }
  intros []. eapply triple_conseq; [apply Hk|done|done|done].
Qed.

Lemma remove_node_triple f g pid id (Q : () → S → Prop) :
  valid_id pid → valid_id id →
  let f' := upd id None f in let g' := upd pid (g pid ∖ {[id]}) g in
  triple (store_is f g)
    (or_errno EIO (c_RemoveFsNode id) ≫= λ _, or_errno EIO (c_RemoveFsNodeChild pid id))
    (λ _, store_is f' g')
    (λ e s, e = EIO ∧ (store_is f g s ∨ store_is f' g s ∨ store_is f' g' s)).
Proof.
  intros Hp Hid f' g'. apply (triple_bind _ _ _ (λ _, store_is f' g)).
  { apply triple_or_errno. eapply triple_conseq; [by apply RemoveFsNode_triple|done|done|].
    intros e s Hs. split; [done|]. destruct Hs as [Hs|Hs]; [by left|by right; left]. }
  intros _. apply triple_or_errno.
  eapply triple_conseq; [by apply RemoveFsNodeChild_triple|done|done|].
  intros e s Hs. split; [done|]. right. destruct Hs as [Hs|Hs]; [by left|by right].
Qed.

Lemma Create_triple f g n name flags mode now :
  valid_id (NID (bfsNode n)) → mode_ok mode → time_ok now →
  let pid := NID (bfsNode n) in
  let id := GenerateFsID (fullPath n name) in
  let m := new_metadata n name mode now in
  triple (store_is f g) (Create n name flags mode now)
    (λ _, added f g pid id m)
    (λ e s, e = EIO ∧ (store_is f g s ∨ half_added f g id m s ∨ added f g pid id m s)).
Proof.
  intros Hp Hm Hn. cbv zeta. apply add_node_triple; [done|auto|by apply new_metadata_ok|].
  intros m'. by apply triple_ret.
Qed.

Lemma Mkdir_triple f g n name mode now :
  valid_id (NID (bfsNode n)) → mode_ok mode → time_ok now →
  let pid := NID (bfsNode n) in
  let id := GenerateFsID (fullPath n name) in
  let m := new_metadata n name (Z.lor S_IFDIR mode) now in
  triple (store_is f g) (Mkdir n name mode now)
    (λ _, added f g pid id m)
    (λ e s, e = EIO ∧ (store_is f g s ∨ half_added f g id m s ∨ added f g pid id m s)).
Proof.
  intros Hp Hm Hn. cbv zeta. apply add_node_triple; [done|auto| |].
  - by apply new_metadata_ok; [apply S_IFDIR_mode_ok|].
  - intros m'. by apply triple_ret.
Qed.

(** What [inodeFromFsId] finds. *)
Lemma inodeFromFsId_triple f g id :
  valid_id id →
  triple (store_is f g) (inodeFromFsId id)
    (λ r s, store_is f g s ∧ ∃ m, f id = Some m ∧ r = inode_of m)
    (λ e s, e = ENOENT ∧ store_is f g s).
Proof.
  intros Hid. unfold inodeFromFsId.
  apply (triple_bind _ _ _ (λ m s, store_is f g s ∧ f id = Some m)).
  - apply triple_or_errno. eapply triple_conseq; [by apply GetFsNode_triple|done|done|done].
  - intros m. apply triple_ret. intros s [Hs Hm]. eauto.
Qed.

End new_node.

(** ** The tree *)

(** A node is the root, or lies under its name in the directory of its parent
    identifier. *)
Definition placed (m : BlobFsMetadata) : Prop :=
  (PID m = "" ∧ Path m = "/") ∨
  ∃ dir, PID m = GenerateFsID dir ∧ Path m = Join [dir; Name m].

(** What a stored node satisfies: it is stored under the identifier of its path,
    carries that identifier, and is in its place.  A [Rename] stores a node under
    its new path with the identifier and the parent of the old one: where the mounts
    rename ([renames]), the identifier is that of some path. *)
Definition named (renames : bool) (id : string) (m : BlobFsMetadata) : Prop :=
  if renames then id = GenerateFsID (Path m) ∧ (∃ p, ID m = GenerateFsID p) ∧ metadata_ok m
  else ID m = id ∧ id = GenerateFsID (Path m) ∧ placed m.

(** The children of a directory are identifiers of paths below it; with renames, of
    paths. *)
Definition linked (renames : bool) (pid id : string) : Prop :=
  if renames then ∃ path, id = GenerateFsID path
  else ∃ dir name, pid = GenerateFsID dir ∧ id = GenerateFsID (Join [dir; name]).

Record tree_at (renames : bool) (f : string → option BlobFsMetadata) (g : string → gset string) :
    Prop := {
  tree_node id m : valid_id id → f id = Some m → named renames id m;
  tree_child pid id : valid_id pid → id ∈ g pid → linked renames pid id;
}.
Arguments tree_node {renames f g} _ id m _ _.
Arguments tree_child {renames f g} _ pid id _ _.

(** An open node has the identifier of its path; with renames, of some path. *)
Definition node_at (renames : bool) (n : FSNode) : Prop :=
  if renames then ∃ p, NID (bfsNode n) = GenerateFsID p
  else NID (bfsNode n) = GenerateFsID (NPath (bfsNode n)).

Abbreviation tree_ok := (tree_at false).
Abbreviation node_ok := (node_at false).

Lemma node_at_path renames n :
  node_at renames n → ∃ p, NID (bfsNode n) = GenerateFsID p ∧ (renames = false → p = NPath (bfsNode n)).
Proof. destruct renames; [intros [p Hp]; by exists p|intros Hn; by eexists]. Qed.

Lemma node_at_valid renames n : node_at renames n → valid_id (NID (bfsNode n)).
Proof. intros (p & -> & _)%node_at_path. auto. Qed.

Lemma node_ok_valid n : node_ok n → valid_id (NID (bfsNode n)).
Proof. apply node_at_valid. Qed.

Lemma named_path renames id m : named renames id m → id = GenerateFsID (Path m).
Proof. destruct renames; [by intros [? _]|by intros (_ & ? & _)]. Qed.

Lemma named_new renames id m :
  ID m = id → id = GenerateFsID (Path m) → placed m → metadata_ok m → named renames id m.
Proof.
  intros HID Hp Hpl Hm. destruct renames; [|done]. split_and!; [done| |done].
  exists (Path m). congruence.
Qed.

Lemma linked_below renames dir name : linked renames (GenerateFsID dir) (GenerateFsID (Join [dir; name])).
Proof. destruct renames; [by eexists|by eexists _, _]. Qed.

Lemma linked_valid renames pid id : linked renames pid id → valid_id id.
Proof. destruct renames; [intros [p ->]|intros (d & nm & _ & ->)]; auto. Qed.

Lemma or_errno_inv {S A} errno (m : M S A) s a s' :
  or_errno errno m s = (Ok a, s') → m s = (Ok a, s').
Proof.
  unfold or_errno, attempt, mbind, M_bind. destruct (m s) as [[b|e|p] t]; simpl; naive_solver.
Qed.

Section tree.
Context {S : Type} `{NL : NodeStoreLaws S} (renames : bool).
Implicit Types f : string → option BlobFsMetadata.
Implicit Types g : string → gset string.

Definition tree (s : S) : Prop := tree_at renames (node s) (child s).

Lemma tree_store_is f g s : store_is f g s → tree_at renames f g → tree s.
Proof.
  intros [Hf Hg] [Hn Hc]. split.
  - intros id m Hid. rewrite Hf by done. by apply Hn.
  - intros pid id Hp. rewrite Hg by done. by apply Hc.
Qed.

Lemma stored_as_fields old m :
  ID (stored_as old m) = ID m ∧ PID (stored_as old m) = PID m ∧
  Path (stored_as old m) = Path m ∧ Name (stored_as old m) = Name m.
Proof. unfold stored_as. destruct m. by destruct keeps_Ino. Qed.

Lemma stored_as_ok old m : metadata_ok m → metadata_ok (stored_as (S:=S) old m).
Proof.
  unfold stored_as, metadata_ok, metadata_fields. intros Hm.
  pose proof (next_Gen_range (S:=S) (Gen <$> old) (Gen m)) as Hg.
  generalize dependent (next_Gen (Gen <$> old) (Gen m)). intros gen Hg.
  destruct m; destruct keeps_Ino; simpl in *; repeat (apply Forall_cons in Hm as [? Hm]);
    repeat (apply Forall_cons_2; [first [done|simpl; lia|simpl in *; auto]|]); constructor.
Qed.

Lemma named_stored id old m : named renames id m → named renames id (stored_as (S:=S) old m).
Proof.
  destruct (stored_as_fields old m) as (E1 & E2 & E3 & E4). unfold named, placed.
  rewrite E1, E2, E3, E4. destruct renames; [|done].
  intros (? & ? & ?). split_and!; [done..|by apply stored_as_ok].
Qed.

Lemma tree_set_node f g id m :
  tree_at renames f g → named renames id m → tree_at renames (upd id (Some (stored_as (f id) m)) f) g.
Proof.
  intros [Hn Hc] Hm. split; [|done]. intros k x Hk. unfold upd.
  case_decide as E; [|by apply Hn]. intros [= <-]. subst k. by apply named_stored.
Qed.

Lemma tree_remove_node f g id : tree_at renames f g → tree_at renames (upd id None f) g.
Proof. intros [Hn Hc]. split; [|done]. intros k x Hk. unfold upd. case_decide; [done|by apply Hn]. Qed.

Lemma tree_add_child f g pid id :
  tree_at renames f g → linked renames pid id →
  tree_at renames f (upd pid (g pid ∪ {[id]}) g).
Proof.
  intros [Hn Hc] Hl. split; [done|]. intros p i Hp. unfold upd.
  case_decide as E; [|by apply Hc]. subst p.
  rewrite elem_of_union, elem_of_singleton. intros [?| ->]; [by apply Hc|done].
Qed.

Lemma tree_remove_child f g pid id : tree_at renames f g → tree_at renames f (upd pid (g pid ∖ {[id]}) g).
Proof.
  intros [Hn Hc]. split; [done|]. intros p i Hp. unfold upd. case_decide as E; [|by apply Hc].
  subst p. rewrite elem_of_difference. intros [? _]. by apply Hc.
Qed.

(** A triple from any description of the store, as an invariant. *)
Lemma keeps_tree {A} (m : M S A) Q E :
  (∀ f g, tree_at renames f g → triple (store_is f g) m (Q f g) (E f g)) →
  (∀ f g a s, tree_at renames f g → Q f g a s → tree s) → (∀ f g e s, tree_at renames f g → E f g e s → tree s) →
  keeps tree m.
Proof.
  intros Hm HQ HE. apply triple_keeps. intros s Hs.
  specialize (Hm (node s) (child s) Hs s (store_is_self s)).
  destruct (m s) as [[a|e|p] s']; eauto.
Qed.

Lemma new_linked n name :
  node_at renames n → linked renames (NID (bfsNode n)) (GenerateFsID (fullPath n name)).
Proof.
  unfold node_at, fullPath. destruct renames; [by eexists|]. intros ->. apply (linked_below false).
Qed.

(** A new node of an open directory; where the directory was renamed, its identifier
    is not the one of its path. *)
Lemma new_named n name mode now :
  node_at renames n → mode_ok mode → time_ok now →
  named renames (GenerateFsID (fullPath n name)) (new_metadata n name mode now).
Proof.
  intros Hn Hm Ht. pose proof (new_metadata_ok n name mode now Hm Ht) as Hok.
  unfold named, node_at in *. destruct renames; [by split_and!; [|eexists|]|].
  split_and!; [done..|]. right. by exists (NPath (bfsNode n)).
Qed.

Lemma tree_added f g n name mode now m :
  tree_at renames f g → node_at renames n → mode_ok mode → time_ok now →
  m = new_metadata n name mode now →
  let id := GenerateFsID (fullPath n name) in
  tree_at renames (upd id (Some (stored_as (f id) m)) f) g ∧
  ∀ f', tree_at renames f' g →
    tree_at renames f' (upd (NID (bfsNode n)) (g (NID (bfsNode n)) ∪ {[id]}) g).
Proof.
  intros Ht Hn Hm Htime -> id. split.
  - apply tree_set_node; [done|]. by apply new_named.
  - intros f' Ht'. apply tree_add_child; [done|]. by apply new_linked.
Qed.

Lemma Create_keeps n name flags mode now :
  node_at renames n → mode_ok mode → time_ok now → keeps tree (Create n name flags mode now).
Proof.
  intros Hn Hm Ht. eapply keeps_tree.
  - intros f g _. apply Create_triple; [by apply (node_at_valid renames)|done..].
  - intros f g a s Hok Hs.
    destruct (tree_added f g n name mode now _ Hok Hn Hm Ht eq_refl) as [H1 H2].
    eapply tree_store_is; [exact Hs|]. by apply H2.
  - intros f g e s Hok [_ Hs].
    destruct (tree_added f g n name mode now _ Hok Hn Hm Ht eq_refl) as [H1 H2].
    destruct Hs as [Hs|[Hs|Hs]]; (eapply tree_store_is; [exact Hs|]); [done|done|by apply H2].
Qed.

Lemma Mkdir_keeps n name mode now :
  node_at renames n → mode_ok mode → time_ok now → keeps tree (Mkdir n name mode now).
Proof.
  intros Hn Hm Ht. eapply keeps_tree.
  - intros f g _. apply Mkdir_triple; [by apply (node_at_valid renames)|done..].
  - intros f g a s Hok Hs.
    destruct (tree_added f g n name (Z.lor S_IFDIR mode) now _ Hok Hn (S_IFDIR_mode_ok _ Hm) Ht eq_refl) as [H1 H2].
    eapply tree_store_is; [exact Hs|]. by apply H2.
  - intros f g e s Hok [_ Hs].
    destruct (tree_added f g n name (Z.lor S_IFDIR mode) now _ Hok Hn (S_IFDIR_mode_ok _ Hm) Ht eq_refl) as [H1 H2].
    destruct Hs as [Hs|[Hs|Hs]]; (eapply tree_store_is; [exact Hs|]); [done|done|by apply H2].
Qed.

Lemma remove_node_keeps pid id :
  valid_id pid → valid_id id →
  keeps tree (or_errno EIO (c_RemoveFsNode id) ≫= λ _, or_errno EIO (c_RemoveFsNodeChild pid id)).
Proof.
  intros Hp Hid. eapply keeps_tree.
  - intros f g _. by apply (remove_node_triple f g pid id (λ _ _, True)).
  - intros f g a s Hok Hs. eapply tree_store_is; [exact Hs|].
    by apply tree_remove_child, tree_remove_node.
  - intros f g e s Hok [_ [Hs|[Hs|Hs]]]; (eapply tree_store_is; [exact Hs|]); [done| |];
      repeat apply tree_remove_child; by apply tree_remove_node.
Qed.

Lemma Unlink_keeps n name : node_at renames n → keeps tree (Unlink n name).
Proof. intros Hn. apply remove_node_keeps; [by apply (node_at_valid renames)|auto]. Qed.

(** A read keeps the tree. *)
Lemma children_valid f g pid : tree_at renames f g → valid_id pid → ∀ id, id ∈ g pid → valid_id id.
Proof. intros [_ Hc] Hp id Hid. by eapply linked_valid, Hc. Qed.

Lemma GetFsNodeChildren_keeps pid : valid_id pid → keeps tree (c_GetFsNodeChildren pid).
Proof.
  intros Hp s Hs. destruct (GetFsNodeChildren_law pid s Hp) as (Hn & Hc & _).
  eapply tree_store_is; [|exact Hs]. by split.
Qed.

Lemma GetFsNode_keeps id : valid_id id → keeps tree (c_GetFsNode id).
Proof.
  intros Hid s Hs. destruct (GetFsNode_law id s Hid) as (Hn & Hc & _).
  eapply tree_store_is; [|exact Hs]. by split.
Qed.

Lemma Rmdir_keeps n name : node_at renames n → keeps tree (Rmdir n name).
Proof.
  intros Hn. apply keeps_bind; [apply keeps_or_errno, GetFsNodeChildren_keeps; auto|].
  intros l. case_bool_decide; [apply keeps_throw|].
  apply remove_node_keeps; [by apply (node_at_valid renames)|auto].
Qed.

Lemma inodeFromFsId_keeps id : valid_id id → keeps tree (inodeFromFsId id).
Proof.
  intros Hid. apply keeps_bind; [by apply keeps_or_errno, GetFsNode_keeps|]. intros; apply keeps_ret.
Qed.

(** The node an inode is made of. *)
Lemma inode_of_ok s id m : tree s → valid_id id → node s id = Some m →
  node_at renames (operations (inode_of m).1).
Proof.
  intros [Hn _] Hid Hm. specialize (Hn id m Hid Hm). unfold named, node_at in *. simpl.
  destruct renames; [by destruct Hn as (_ & ? & _)|]. destruct Hn as (E & E' & _). congruence.
Qed.

(** The calls of a rename. *)
Lemma set_node_keeps id m :
  valid_id id → metadata_ok m → named renames id m → keeps tree (c_SetFsNode id m).
Proof.
  intros Hid Hm Hnm. eapply keeps_tree.
  - intros f g _. by apply SetFsNode_triple.
  - intros f g a s Hok Hs. eapply tree_store_is; [exact Hs|]. by apply tree_set_node.
  - intros f g e s Hok [Hs|Hs]; (eapply tree_store_is; [exact Hs|]); [done|by apply tree_set_node].
Qed.

Lemma add_child_keeps pid id :
  valid_id pid → linked renames pid id → keeps tree (c_AddFsNodeChild pid id).
Proof.
  intros Hp Hl. eapply keeps_tree.
  - intros f g _. apply AddFsNodeChild_triple; [done|by eapply linked_valid].
  - intros f g a s Hok Hs. eapply tree_store_is; [exact Hs|]. by apply tree_add_child.
  - intros f g e s Hok [Hs|Hs]; (eapply tree_store_is; [exact Hs|]); [done|by apply tree_add_child].
Qed.

Lemma remove_child_keeps pid id : valid_id pid → valid_id id → keeps tree (c_RemoveFsNodeChild pid id).
Proof.
  intros Hp Hid. eapply keeps_tree.
  - intros f g _. by apply RemoveFsNodeChild_triple.
  - intros f g a s Hok Hs. eapply tree_store_is; [exact Hs|]. by apply tree_remove_child.
  - intros f g e s Hok [Hs|Hs]; (eapply tree_store_is; [exact Hs|]); [done|by apply tree_remove_child].
Qed.

End tree.

(** A rename keeps what holds with renames: the new node is stored under its own
    path, with the identifier of another. *)
Section rename_tree.
Context {S : Type} `{NL : NodeStoreLaws S}.

Lemma set_Name_Path_ok nm p m : metadata_ok m → metadata_ok (set_Name_Path nm p m).
Proof.
  unfold metadata_ok, metadata_fields. intros Hm. destruct m. simpl in *.
  repeat (apply Forall_cons in Hm as [? Hm]). repeat (apply Forall_cons_2; [done|]). constructor.
Qed.

Lemma renamed_named nm path id m :
  named true id m → named true (GenerateFsID path) (set_Name_Path nm path m).
Proof.
  intros (_ & [p Hp] & Hm). destruct m. simpl in *.
  split_and!; [done|by exists p|by apply (set_Name_Path_ok nm path) in Hm].
Qed.

Lemma Rename_keeps n oldName newParent newName flags :
  node_at true n → keeps (tree true) (Rename n oldName newParent newName flags).
Proof.
  intros Hn s Hs. pose proof (node_at_valid _ n Hn) as Hp. unfold Rename. cbv zeta.
  set (oldId := GenerateFsID (fullPath n oldName)).
  assert (valid_id oldId) as Ho by apply GenerateFsID_valid.
  pose proof (keeps_or_errno _ ENOENT _ (GetFsNode_keeps true oldId Ho) s Hs) as Ht.
  destruct (or_errno ENOENT (c_GetFsNode oldId) s) as [[m|e|p] t] eqn:E;
    [|unfold mbind, M_bind; rewrite E; exact Ht..].
  rewrite (bind_Ok _ _ _ _ _ E). apply or_errno_inv in E.
  pose proof (GetFsNode_triple _ _ oldId Ho s (store_is_self s)) as Hg. rewrite E in Hg.
  pose proof (renamed_named newName (fullPath n newName) oldId m (tree_node Hs _ _ Ho (proj2 Hg))) as Hm.
  set (m' := set_Name_Path newName (fullPath n newName) m) in *.
  refine ((_ : keeps (tree true) _) t Ht). apply keeps_bind.
  { apply keeps_or_errno, set_node_keeps; [apply GenerateFsID_valid|apply Hm|exact Hm]. }
  intros _. apply keeps_bind; [by apply keeps_or_errno, remove_child_keeps|].
  intros _. apply keeps_or_errno, add_child_keeps; [done|]. by eexists.
Qed.

End rename_tree.

(** The identifier that an open node takes from what is stored. *)
Definition open_id (renames : bool) (m : BlobFsMetadata) : Prop :=
  if renames then ∃ p, ID m = GenerateFsID p else ID m = GenerateFsID (Path m).

Lemma named_open renames id m : named renames id m → open_id renames m.
Proof. unfold named, open_id. destruct renames; [by intros (_ & ? & _)|by intros (-> & ? & _)]. Qed.

Lemma root_open renames g : open_id renames (set_Gen g root_metadata).
Proof. unfold open_id. destruct renames; [by exists "/"|exact eq_refl]. Qed.

Lemma new_inode_ok renames n name mode ino : node_at renames (operations (new_inode n name mode ino).1).
Proof. unfold node_at. destruct renames; [by eexists|done]. Qed.

(** ** Sessions *)

(** What the client's calls may do to the tree. *)
Class FsClientLaws (renames : bool) (S : Type) `{NodeStore S} `{FsClient S} : Prop := {
  fs_GetContent_keeps hash off len key : keeps (tree renames) (fs_GetContent (S:=S) hash off len key);
  fs_StoreContentFromFUSE_keeps path key lock :
    keeps (tree renames) (fs_StoreContentFromFUSE (S:=S) path key lock);
}.

Inductive fs_call : Type :=
  | FsLookup (name : string)
  | FsCreate (name : string) (flags mode : Z) (now : Z * Z)
  | FsMkdir (name : string) (mode : Z) (now : Z * Z)
  | FsRmdir (name : string)
  | FsUnlink (name : string)
  | FsRename (oldName : string) (newParent : FSNode) (newName : string) (flags : Z)
  | FsReaddir
  | FsRead (len off : Z).

(** What the kernel passes; and whether the mounts rename. *)
Definition call_ok (renames : bool) (c : fs_call) : Prop :=
  match c with
  | FsCreate _ _ mode now | FsMkdir _ mode now => mode_ok mode ∧ time_ok now
  | FsRename _ _ _ _ => renames = true
  | _ => True
  end.

(** The call on the node [n], with the nodes it hands to the kernel. *)
Definition run_call {S} `{CoordinatorClient S} `{FsClient S} (n : FSNode) (c : fs_call) :
    M S (list FSNode) :=
  match c with
  | FsLookup name => r ← Lookup n name; mret [operations r.1]
  | FsCreate name flags mode now => r ← Create n name flags mode now; mret [operations r.1]
  | FsMkdir name mode now => r ← Mkdir n name mode now; mret [operations r.1]
  | FsRmdir name => Rmdir n name ≫= λ _, mret []
  | FsUnlink name => Unlink n name ≫= λ _, mret []
  | FsRename oldName newParent newName flags =>
      Rename n oldName newParent newName flags ≫= λ _, mret []
  | FsReaddir => Readdir n ≫= λ _, mret []
  | FsRead len off => Read n len off ≫= λ _, mret []
  end.

Section sessions.
Context {S : Type} `{NL : NodeStoreLaws S} `{FC : FsClient S} (renames : bool)
        {FL : FsClientLaws renames S}.
#[local] Abbreviation Tree := (tree renames).

Definition opened {A} (r : res (list A)) : list A := match r with Ok l => l | _ => [] end.

Definition mount : M S (list FSNode) := n ← NewFileSystem; mret [n].

(** Mounts and calls of any number of clients on one store, from an empty one;
    the nodes of all the mounts. *)
Inductive session : S → list FSNode → Prop :=
  | session_empty s :
      (∀ id, node s id = None) → (∀ id, child s id = ∅) → session s []
  | session_mount s ns :
      session s ns →
      session (mount s).2 (ns ++ opened (mount s).1)
  | session_call s ns n c :
      session s ns → n ∈ ns → call_ok renames c →
      session (run_call n c s).2 (ns ++ opened (run_call n c s).1).

(** A call that keeps the tree and opens sound nodes. *)
Definition opens (m : M S (list FSNode)) : Prop :=
  ∀ s, Tree s → Tree (m s).2 ∧ Forall (node_at renames) (opened (m s).1).

Lemma opens_nothing {A} (m : M S A) : keeps Tree m → opens (m ≫= λ _, mret []).
Proof.
  intros Hm s Hs. specialize (Hm s Hs). unfold mbind, M_bind.
  by destruct (m s) as [[a|e|p] s'].
Qed.

Lemma opens_one {A} (m : M S A) (h : A → FSNode) :
  keeps Tree m → (∀ s a s', Tree s → m s = (Ok a, s') → node_at renames (h a)) →
  opens (a ← m; mret [h a]).
Proof.
  intros Hm Hh s Hs. pose proof (Hm s Hs). specialize (Hh s). unfold mbind, M_bind.
  destruct (m s) as [[a|e|p] s']; simpl in *; [|done..].
  split; [done|]. repeat constructor. by eapply Hh.
Qed.

Lemma inodeFromFsId_opens id s r s' :
  Tree s → valid_id id → inodeFromFsId id s = (Ok r, s') → node_at renames (operations r.1).
Proof.
  intros Hs Hid E. pose proof (inodeFromFsId_triple _ _ id Hid s (store_is_self s)) as Ht.
  rewrite E in Ht. destruct Ht as (_ & m & Hm & ->). by eapply inode_of_ok.
Qed.

Lemma Lookup_opens n name : opens (r ← Lookup n name; mret [operations r.1]).
Proof.
  apply opens_one.
  - unfold Lookup. destruct (has_char _ _).
    + apply keeps_bind; [apply keeps_or_errno, fs_StoreContentFromFUSE_keeps|]. intros _.
      apply keeps_or_errno, inodeFromFsId_keeps. auto.
    + apply keeps_or_errno, inodeFromFsId_keeps. auto.
  - intros s r s' Hs. unfold Lookup. destruct (has_char _ _).
    + set (p := replace_char _ _ _). unfold mbind, M_bind.
      pose proof (keeps_or_errno Tree ENOENT _ (fs_StoreContentFromFUSE_keeps p p true) s Hs) as Hk.
      destruct (or_errno ENOENT _ s) as [[a|e|q] t]; [|done..].
      intros E%or_errno_inv. apply (inodeFromFsId_opens (GenerateFsID p) t r s'); auto.
    + intros E%or_errno_inv. eapply inodeFromFsId_opens; [done| |done]. auto.
Qed.

Lemma Read_keeps n len off : keeps Tree (Read n len off).
Proof.
  unfold Read. case_bool_decide; [apply keeps_ret|].
  apply keeps_bind; [apply keeps_attempt, fs_GetContent_keeps|]. intros [b|e]; [apply keeps_ret|].
  apply keeps_bind; [|intros; apply keeps_throw]. case_decide; [|apply keeps_ret].
  apply keeps_bind; [apply keeps_attempt, fs_StoreContentFromFUSE_keeps|]. intros [h|e'].
  - apply keeps_bind; [apply keeps_or_errno, fs_GetContent_keeps|intros; apply keeps_ret].
  - case_decide; apply keeps_throw.
Qed.

Lemma run_call_opens n c : node_at renames n → call_ok renames c → opens (run_call n c).
Proof.
  intros Hn Hc. destruct c as [name|name flags mode now|name mode now|name|name|o np nn fl| |len off]; simpl in *.
  - apply Lookup_opens.
  - destruct Hc. apply opens_one; [by apply Create_keeps|].
    intros s r s' _ (m & t & _ & (u & t' & _ & [= <- _])%bind_Ok_inv)%bind_Ok_inv.
    apply new_inode_ok.
  - destruct Hc. apply opens_one; [by apply Mkdir_keeps|].
    intros s r s' _ (m & t & _ & (u & t' & _ & [= <- _])%bind_Ok_inv)%bind_Ok_inv.
    apply new_inode_ok.
  - by apply opens_nothing, Rmdir_keeps.
  - by apply opens_nothing, Unlink_keeps.
  - apply opens_nothing. destruct renames; [by apply Rename_keeps|done].
  - apply opens_nothing, keeps_bind; [|intros; apply keeps_ret].
    apply keeps_or_errno, GetFsNodeChildren_keeps. auto.
  - apply opens_nothing, Read_keeps.
Qed.

Lemma root_metadata_ok : metadata_ok root_metadata.
Proof.
  unfold metadata_ok, root_metadata. generalize (GenerateFsID "/"). intros root.
  unfold metadata_fields. simpl.
  repeat (apply Forall_cons_2; [first [exact I|by vm_compute]|]). apply Forall_nil_2.
Qed.

(** [SetFsNode] as a triple that tells its result. *)
Lemma SetFsNode_keeps id m :
  valid_id id → metadata_ok m → ID m = id → id = GenerateFsID (Path m) → placed m →
  triple Tree (c_SetFsNode id m) (λ m' s, Tree s ∧ ∃ g, m' = set_Gen g m) (λ _, Tree).
Proof.
  intros Hid Hm HID HP Hpl s Hs.
  pose proof (SetFsNode_triple _ _ id m Hid Hm s (store_is_self s)) as Hset.
  assert (tree_at renames (upd id (Some (stored_as (node s id) m)) (node s)) (child s)) as Hok
    by (apply tree_set_node; [done|by apply named_new]).
  pose proof (SetFsNode_result id m s) as Hres.
  destruct (c_SetFsNode id m s) as [[m'|e|p] u]; [| |done].
  - split; [by eapply tree_store_is|by eapply Hres].
  - destruct Hset as [Hset|Hset]; by eapply tree_store_is.
Qed.

Lemma GetFsNode_tree id :
  valid_id id →
  triple Tree (c_GetFsNode id) (λ m s, Tree s ∧ open_id renames m) (λ _, Tree).
Proof.
  intros Hid s Hs. pose proof (GetFsNode_triple _ _ id Hid s (store_is_self s)) as Hg.
  destruct (c_GetFsNode id s) as [[m|e|p] t]; [| |done]; [|by eapply tree_store_is].
  destruct Hg as [Ht Hn]. split; [by eapply tree_store_is|].
  exact (named_open _ _ _ (tree_node Hs id m Hid Hn)).
Qed.

(** The metadata of the root, found or made. *)
Lemma get_root_triple :
  triple Tree get_root (λ m s, Tree s ∧ open_id renames m) (λ _, Tree).
Proof.
  unfold get_root. cbv zeta. apply (triple_bind_attempt _ Tree _ _
    (open_id renames) (λ _, True)).
  - eapply triple_conseq; [apply GetFsNode_tree, GenerateFsID_valid| | |];
      [intros s Hs; exact Hs|intros m s Hs; exact Hs|intros e s Hs; split; [exact Hs|exact I]].
  - intros m Hm. apply triple_ret. intros s Hs. split; [exact Hs|exact Hm].
  - intros e _. eapply triple_conseq; [apply (SetFsNode_keeps _ root_metadata (GenerateFsID_valid "/")
        root_metadata_ok eq_refl eq_refl); left; split; exact eq_refl| | |].
      * intros s Hs. exact Hs.
      * intros m s [Hs [g ->]]. split; [exact Hs|apply root_open].
      * intros e' s Hs. exact Hs.
Qed.

Lemma mount_opens : opens mount.
Proof.
  apply (opens_one NewFileSystem (λ n, n)).
  - apply triple_keeps. apply (triple_bind _ _ _ (λ _, Tree)).
    + eapply triple_conseq; [apply get_root_triple|by intros|by intros m s [? _]|by intros].
    + intros m. by apply triple_ret.
  - intros s n s' Hs (m & t & Em & [= <- _])%bind_Ok_inv.
    pose proof (get_root_triple s Hs) as Hm. rewrite Em in Hm. exact (proj2 Hm).
Qed.

(** In every session of any number of clients on one store, over any
    coordinator that keeps the contract, failed calls included: a node is stored
    under the hash of its own path.  When no mount renames, it is also in its place
    under its parent, a child of a directory is the hash of a path below it, and the
    nodes handed to the kernel carry the identifier of their path; when they do, the
    identifiers are hashes of paths. *)
Theorem session_tree s ns :
  session s ns → tree_at renames (node s) (child s) ∧ Forall (node_at renames) ns.
Proof.
  assert (∀ m s ns, opens m → Tree s → Forall (node_at renames) ns →
    Tree (m s).2 ∧ Forall (node_at renames) (ns ++ opened (m s).1)) as Hstep.
  { intros m s0 ns0 Hm Ht Hns. destruct (Hm s0 Ht) as [? ?]. split; [done|].
    by apply Forall_app. }
  induction 1 as [s Hn Hc|s ns _ [Ht Hns]|s ns n c _ [Ht Hns] Hin Hc].
  - split; [|done]. split.
    + intros id m _. by rewrite Hn.
    + intros pid id _. rewrite Hc. set_solver.
  - apply (Hstep mount); [apply mount_opens|done..].
  - apply (Hstep (run_call n c)); [|done..]. apply run_call_opens; [|done].
    rewrite Forall_forall in Hns. by apply Hns.
Qed.

End sessions.

(** ** Properties of the operations *)

Section operations_spec.
Context {S : Type} `{NL : NodeStoreLaws S} `{FC : FsClient S}.

Lemma Lookup_plain n name (s : S) :
  has_char "%" (fullPath n name) = false →
  Lookup n name s = inodeFromFsId (GenerateFsID (fullPath n name)) s ∨
  ∃ e t, inodeFromFsId (GenerateFsID (fullPath n name)) s = (Err e, t) ∧
         Lookup n name s = (Err ENOENT, t).
Proof.
  intros Hc. unfold Lookup. rewrite Hc. unfold or_errno, attempt, mbind, M_bind.
  destruct (inodeFromFsId _ s) as [[a|e|p] t]; [by left|right; by exists e, t|by left].
Qed.

Lemma Lookup_triple f g n name :
  has_char "%" (fullPath n name) = false →
  triple (store_is f g) (Lookup n name)
    (λ r s, store_is f g s ∧ ∃ m, f (GenerateFsID (fullPath n name)) = Some m ∧ r = inode_of m)
    (λ e s, e = ENOENT ∧ store_is f g s).
Proof.
  intros Hc s Hs.
  pose proof (inodeFromFsId_triple f g _ (GenerateFsID_valid (fullPath n name)) s Hs) as Hi.
  destruct (Lookup_plain n name s Hc) as [->|(e & t & E & ->)]; [exact Hi|].
  rewrite E in Hi. split; [exact eq_refl|apply Hi].
Qed.

(** C25: a created file is stored with the metadata of the call under the hash of
    its path and linked below its directory, and nothing else changes; a lookup
    of its name then finds exactly that node, or fails with [ENOENT].  A failed
    [Create] is [EIO] and leaves the store as it was, or with the node, or with
    the node and its link. *)
Theorem Create_Lookup n name flags mode now (s : S) :
  valid_id (NID (bfsNode n)) → mode_ok mode → time_ok now →
  has_char "%" (fullPath n name) = false →
  let pid := NID (bfsNode n) in
  let id := GenerateFsID (fullPath n name) in
  let m := new_metadata n name mode now in
  match Create n name flags mode now s with
  | (Ok _, s1) =>
      added (node s) (child s) pid id m s1 ∧
      match Lookup n name s1 with
      | (Ok r, s2) =>
          r = inode_of (stored_as (node s id) m) ∧ added (node s) (child s) pid id m s2
      | (Err e, s2) => e = ENOENT ∧ added (node s) (child s) pid id m s2
      | (Panic _, _) => False
      end
  | (Err e, s1) =>
      e = EIO ∧ (store_is (node s) (child s) s1 ∨ half_added (node s) (child s) id m s1 ∨
                 added (node s) (child s) pid id m s1)
  | (Panic _, _) => False
  end.
Proof.
  intros Hp Hm Ht Hc pid id m.
  pose proof (Create_triple (node s) (child s) n name flags mode now Hp Hm Ht s (store_is_self s)) as Hcr.
  destruct (Create n name flags mode now s) as [[r|e|p] s1]; [|exact Hcr|exact Hcr].
  split; [exact Hcr|].
  pose proof (Lookup_triple _ _ n name Hc s1 Hcr) as Hl.
  destruct (Lookup n name s1) as [[r'|e|p] s2]; [|exact Hl|exact Hl].
  destruct Hl as [Hs2 (x & Hx & ->)]. rewrite upd_eq in Hx. injection Hx as <-.
  split; [exact eq_refl|exact Hs2].
Qed.

(** The node a rename stores. *)
Definition renamed (old : option BlobFsMetadata) (n : FSNode) (newName : string)
    (m : BlobFsMetadata) : BlobFsMetadata :=
  stored_as old (set_Name_Path newName (fullPath n newName) m).

Lemma Rename_triple f g n oldName newParent newName flags :
  let oldId := GenerateFsID (fullPath n oldName) in
  let newId := GenerateFsID (fullPath n newName) in
  let pid := NID (bfsNode n) in
  let g1 := upd pid (g pid ∖ {[oldId]}) g in
  valid_id pid → newId ≠ oldId → (∀ m, f oldId = Some m → metadata_ok m) →
  triple (store_is f g) (Rename n oldName newParent newName flags)
    (λ _ s', ∃ m, f oldId = Some m ∧
       store_is (upd newId (Some (renamed (f newId) n newName m)) f)
         (upd pid (g1 pid ∪ {[newId]}) g1) s')
    (λ e s', (e = ENOENT ∨ e = EIO) ∧ node s' oldId = f oldId).
Proof.
  intros oldId newId pid g1 Hp Hne Hok. unfold Rename. fold oldId newId pid.
  assert (valid_id oldId) as Ho by apply GenerateFsID_valid.
  assert (valid_id newId) as Hn by apply GenerateFsID_valid.
  clearbody oldId newId.
  assert (∀ v g' s', store_is (upd newId v f) g' s' → node s' oldId = f oldId) as Hold.
  { intros v g' s' [Hf _]. rewrite Hf, upd_ne by congruence. reflexivity. }
  apply (triple_bind_pure _ (store_is f g) _ _ (λ m, f oldId = Some m)).
  { apply triple_or_errno. eapply triple_conseq; [apply GetFsNode_triple, Ho|by intros|by intros|].
    intros e s' Hs'. split; [by left|by apply Hs']. }
  intros m Hm. set (f' := upd newId (Some (renamed (f newId) n newName m)) f).
  apply (triple_bind _ _ _ (λ _, store_is f' g)).
  { apply triple_or_errno. eapply triple_conseq; [apply SetFsNode_triple; [exact Hn|]|by intros|by intros|].
    - by apply set_Name_Path_ok, Hok.
    - intros e s' [Hs'|Hs']; (split; [by right|]); [by apply Hs'|by eapply Hold]. }
  intros _. apply (triple_bind _ _ _ (λ _, store_is f' g1)).
  { apply triple_or_errno.
    eapply triple_conseq; [apply RemoveFsNodeChild_triple; [exact Hp|exact Ho]|by intros|by intros|].
    intros e s' [Hs'|Hs']; (split; [by right|]); by eapply Hold. }
  intros _. apply triple_or_errno.
  eapply triple_conseq; [apply AddFsNodeChild_triple; [exact Hp|exact Hn]|by intros| |].
  - intros a s' Hs'. by exists m.
  - intros e s' [Hs'|Hs']; (split; [by right|]); by eapply Hold.
Qed.

(** C37: over a coordinator that hands out copies (not the mock), a rename moves
    the link of the directory it is called on to the new name, whatever
    [newParent] is; the old node stays stored, so its path still
    resolves, and the new node keeps the identifier and the parent of the old
    one. *)
Theorem Rename_moves_link n oldName newParent newName flags (s : S) :
  let oldId := GenerateFsID (fullPath n oldName) in
  let newId := GenerateFsID (fullPath n newName) in
  let pid := NID (bfsNode n) in
  valid_id pid → newId ≠ oldId → (∀ m, node s oldId = Some m → metadata_ok m) →
  match Rename n oldName newParent newName flags s with
  | (Ok _, s') =>
      ∃ m m', node s oldId = Some m ∧ node s' oldId = Some m ∧
        m' = renamed (node s newId) n newName m ∧
        node s' newId = Some m' ∧ ID m' = ID m ∧ PID m' = PID m ∧ Name m' = newName ∧
        child s' pid = (child s pid ∖ {[oldId]}) ∪ {[newId]} ∧
        ∀ id, valid_id id → id ≠ pid → child s' id = child s id
  | (Err e, s') => (e = ENOENT ∨ e = EIO) ∧ node s' oldId = node s oldId
  | (Panic _, _) => False
  end.
Proof.
  intros oldId newId pid Hp Hne Hok.
  pose proof (Rename_triple (node s) (child s) n oldName newParent newName flags Hp Hne Hok s
    (store_is_self s)) as Ht.
  assert (valid_id oldId) as Ho by apply GenerateFsID_valid.
  assert (valid_id newId) as Hn by apply GenerateFsID_valid.
  destruct (Rename n oldName newParent newName flags s) as [[[]|e|p] s']; [|exact Ht|exact Ht].
  fold oldId newId pid in Ht. clearbody oldId newId. destruct Ht as (m & Hm & [Hf Hg]).
  exists m, (renamed (node s newId) n newName m).
  destruct (stored_as_fields (S:=S) (node s newId) (set_Name_Path newName (fullPath n newName) m))
    as (E1 & E2 & E3 & E4).
  split_and!; [exact Hm| |reflexivity| |exact E1|exact E2|exact E4| |].
  - rewrite Hf, upd_ne by congruence. exact Hm.
  - by rewrite Hf, upd_eq.
  - rewrite Hg by done. by rewrite !upd_eq.
  - intros id Hid Hnid. rewrite Hg by done. by rewrite !upd_ne.
Qed.

(** C38: a read that misses is never answered with data: the client stores the
    file and reads it again, and the caller gets [EIO] even when that succeeds,
    [EAGAIN] when the lock is taken.  A hit is answered as it comes, a file of
    size 0 without a call. *)
Theorem Read_outcomes n len off (s : S) :
  let b := bfsNode n in
  let content := fs_GetContent (S:=S) (NHash b) off len (NPath b) in
  let store := fs_StoreContentFromFUSE (S:=S) (NPath b) (NPath b) true in
  (Fuse.Size (Attr b) = 0 → Read n len off s = (Ok [], s)) ∧
  (Fuse.Size (Attr b) ≠ 0 → match content s with
   | (Err e, t) =>
       if decide (e = ErrContentNotFound) then
         match store t with
         | (Ok _, u) => ∀ data v, content u = (Ok data, v) → Read n len off s = (Err EIO, v)
         | (Err e', u) =>
             Read n len off s =
             (Err (if decide (e' = ErrUnableToAcquireLock) then EAGAIN else EIO), u)
         | _ => True
         end
       else Read n len off s = (Err EIO, t)
   | hit => Read n len off s = hit
   end).
Proof.
  intros b content store. split; intros Hz; unfold Read.
  { by rewrite bool_decide_eq_true_2. }
  rewrite bool_decide_eq_false_2 by done. fold b content store.
  unfold attempt, mbind, M_bind. destruct (content s) as [[d|e|p] t] eqn:E; [done| |done].
  case_decide; [|done]. destruct (store t) as [[h|e'|p] u] eqn:E2; [| |done].
  - intros data v E3. unfold or_errno, attempt, mbind, M_bind. by rewrite E3.
  - by case_decide.
Qed.

End operations_spec.

(** ** On coordinators that answer *)

Section reliable.
Context {S : Type} `{NL : NodeStoreLaws S} {RS : ReliableStore S} `{FC : FsClient S}.

Lemma answers_or_errno {A} errno (m : M S A) : answers up m → answers up (or_errno errno m).
Proof. intros Hm s Hs. destruct (Hm s Hs) as (a & s' & E & Hu). exists a, s'. by rewrite (or_errno_ok _ _ _ _ _ E). Qed.

Lemma Create_answers n name flags mode now : answers up (Create n name flags mode now).
Proof.
  apply answers_bind; [apply answers_or_errno, up_SetFsNode|]. intros m.
  apply answers_bind; [apply answers_or_errno, up_AddFsNodeChild|]. intros _. apply answers_ret.
Qed.

Lemma remove_answers pid id :
  answers up (or_errno EIO (c_RemoveFsNode id) ≫= λ _, or_errno EIO (c_RemoveFsNodeChild pid id)).
Proof.
  apply answers_bind; [apply answers_or_errno, up_RemoveFsNode|]. intros _.
  apply answers_or_errno, up_RemoveFsNodeChild.
Qed.

(** A lookup of a plain name finds what is stored. *)
Lemma Lookup_up n name s :
  up s → has_char "%" (fullPath n name) = false →
  match node s (GenerateFsID (fullPath n name)) with
  | Some m => ∃ s', Lookup n name s = (Ok (inode_of m), s')
  | None => ∃ s', Lookup n name s = (Err ENOENT, s')
  end.
Proof.
  intros Hs Hc. destruct (up_GetFsNode (GenerateFsID (fullPath n name)) s Hs) as (s' & _ & Hg).
  unfold Lookup. rewrite Hc. destruct (node s _) as [m|].
  - exists s'. apply or_errno_ok. unfold inodeFromFsId, mbind, M_bind.
    by rewrite (or_errno_ok _ _ _ _ _ Hg).
  - destruct Hg as [e Hg]. exists s'. apply (or_errno_err _ _ _ ENOENT).
    unfold inodeFromFsId, mbind, M_bind. by rewrite (or_errno_err _ _ _ _ _ Hg).
Qed.

(** The listing of a directory has every child that is stored. *)
Lemma Readdir_up n s id m :
  up s → id ∈ child s (GenerateFsID (NPath (bfsNode n))) → node s id = Some m →
  ∃ l s', Readdir n s = (Ok l, s') ∧ Fuse.mkDirEntry (Mode m) (Name m) (Ino m) ∈ l.
Proof.
  intros Hs Hin Hm.
  destruct (up_GetFsNodeChildren (GenerateFsID (NPath (bfsNode n))) s Hs) as (l & s' & E & _ & Hl).
  unfold Readdir, mbind, M_bind. rewrite (or_errno_ok _ _ _ _ _ E). eexists _, s'.
  split; [reflexivity|]. apply list_elem_of_fmap. exists m. split; [reflexivity|by eapply Hl].
Qed.

(** C24: on a coordinator that answers, a file that is created can be looked up
    and is listed in its directory, and after [Unlink] its name is gone. *)
Theorem file_life n name flags mode now (s : S) :
  up s → node_ok n → mode_ok mode → time_ok now → has_char "%" (fullPath n name) = false →
  let id := GenerateFsID (fullPath n name) in
  let m := stored_as (node s id) (new_metadata n name mode now) in
  ∃ r s1, Create n name flags mode now s = (Ok r, s1) ∧
    (∃ s2, Lookup n name s1 = (Ok (inode_of m), s2)) ∧
    (∃ l s2, Readdir n s1 = (Ok l, s2) ∧ Fuse.mkDirEntry (Mode m) name (Ino m) ∈ l) ∧
    ∃ s2, Unlink n name s1 = (Ok tt, s2) ∧ ∃ s3, Lookup n name s2 = (Err ENOENT, s3).
Proof.
  intros Hs Hn Hm Ht Hc. cbv zeta. set (id := GenerateFsID (fullPath n name)).
  pose proof (node_ok_valid n Hn) as Hp. set (pid := NID (bfsNode n)) in *.
  destruct (Create_answers n name flags mode now s Hs) as (r & s1 & E1 & Hs1).
  pose proof (Create_triple (node s) (child s) n name flags mode now Hp Hm Ht s (store_is_self s)) as Hcr.
  rewrite E1 in Hcr. exists r, s1. split; [exact E1|].
  set (m := stored_as _ _). assert (node s1 id = Some m) as Hid.
  { destruct Hcr as [Hf _]. rewrite Hf by apply GenerateFsID_valid. apply upd_eq. }
  pose proof (stored_as_fields (S:=S) (node s id) (new_metadata n name mode now)) as (_ & _ & _ & Hname).
  fold m in Hname. split_and!.
  - pose proof (Lookup_up n name s1 Hs1 Hc) as Hl. fold id in Hl. rewrite Hid in Hl. exact Hl.
  - assert (id ∈ child s1 (GenerateFsID (NPath (bfsNode n)))) as Hin.
    { destruct Hcr as [_ Hg]. rewrite <-Hn, Hg by exact Hp. rewrite upd_eq. set_solver. }
    destruct (Readdir_up n s1 id m Hs1 Hin Hid) as (l & s2 & E & Hl). rewrite Hname in Hl. eauto.
  - destruct (remove_answers pid id s1 Hs1) as ([] & s2 & E2 & Hs2). exists s2. split; [exact E2|].
    pose proof (remove_node_triple _ _ pid id (λ _ _, True) Hp (GenerateFsID_valid _) s1
      (store_is_self s1)) as Hr.
    rewrite E2 in Hr. destruct Hr as [Hf _].
    pose proof (Lookup_up n name s2 Hs2 Hc) as Hl. fold id in Hl.
    rewrite Hf in Hl by apply GenerateFsID_valid. rewrite upd_eq in Hl. exact Hl.
Qed.

(** C36: on a coordinator that answers, [Rmdir] refuses a directory with
    [ENOTEMPTY] exactly when a child of it is stored, and then changes nothing;
    otherwise it removes the directory and its link, and nothing else. *)
Theorem Rmdir_only_empty renames n name (s : S) :
  up s → tree_at renames (node s) (child s) → node_at renames n →
  let id := GenerateFsID (fullPath n name) in
  let pid := NID (bfsNode n) in
  ∃ s', (∃ c m, c ∈ child s id ∧ node s c = Some m) ∧
        Rmdir n name s = (Err ENOTEMPTY, s') ∧ store_is (node s) (child s) s' ∨
        (∀ c, c ∈ child s id → node s c = None) ∧
        Rmdir n name s = (Ok tt, s') ∧
        store_is (upd id None (node s)) (upd pid (child s pid ∖ {[id]}) (child s)) s'.
Proof.
  intros Hs Ht Hn id pid.
  assert (valid_id id) as Hid by apply GenerateFsID_valid.
  pose proof (node_at_valid _ n Hn) as Hp. fold pid in Hp.
  destruct (up_GetFsNodeChildren id s Hs) as (l & s1 & E & Hs1 & Hl).
  pose proof (GetFsNodeChildren_triple _ _ id Hid (children_valid renames _ _ id Ht Hid) s (store_is_self s)) as Hg.
  rewrite E in Hg. destruct Hg as [Hst Hl2].
  unfold Rmdir. cbv zeta. fold id pid. rewrite (bind_Ok _ _ _ _ _ (or_errno_ok EIO _ _ _ _ E)).
  destruct l as [|m l].
  - destruct (remove_answers pid id s1 Hs1) as ([] & s2 & E2 & _). exists s2. right.
    split_and!; [|exact E2|].
    + intros c Hc. destruct (node s c) as [m|] eqn:Em; [|done].
      by pose proof (Hl c m Hc Em) as ?%elem_of_nil.
    + pose proof (remove_node_triple _ _ pid id (λ _ _, True) Hp Hid s1 Hst) as Hr.
      rewrite E2 in Hr. exact Hr.
  - exists s1. left. split_and!; [|done|exact Hst].
    destruct (Hl2 m ltac:(left)) as (c & Hc & Hm). by exists c, m.
Qed.

End reliable.

(** A client of the mock that finds a content once it was stored, as its locks
    remember. *)
#[export] Instance mock_client : FsClient Mock.MockCoordinator := {
  fs_GetContent hash off len key :=
    ls ← gets Mock.locks;
    if decide (key ∈ ls) then mret [x00] else throw ErrContentNotFound;
  fs_StoreContentFromFUSE path key lock :=
    modify (Mock.set_lock_set (λ ls, {[path]} ∪ ls)) ≫= λ _, mret "hash";
}.

#[export] Existing Instances Mock.coordinator MockStore.node_store MockStore.laws.

#[export] Instance mock_client_laws renames : FsClientLaws renames Mock.MockCoordinator.
Proof.
  split.
  - intros hash off len key. apply keeps_bind; [apply keeps_gets|]. intros ls.
    case_decide; [apply keeps_ret|apply keeps_throw].
  - intros path key lock. apply keeps_bind; [|intros; apply keeps_ret].
    apply keeps_modify. intros s Hs. exact Hs.
Qed.

Definition root_node : FSNode :=
  mkFSNode (mkNode "/" (GenerateFsID "/") "" "" "" "" (Fuse.mode_attr 16877 1) None)
    (Fuse.mode_attr 16877 1).

Definition dir_node : FSNode :=
  mkFSNode (mkNode "/d" (GenerateFsID "/d") "" "d" "" "" (Fuse.mode_attr 16877 0) None)
    Fuse.zeroAttr.

(** A mount, and a directory made in it. *)
Definition mounted : Mock.MockCoordinator := (mount Mock.NewMockCoordinator).2.
Definition with_dir : Mock.MockCoordinator := (run_call root_node (FsMkdir "d" 493 (5, 7)) mounted).2.

Lemma with_dir_session : session false with_dir [root_node; dir_node].
Proof.
  pose proof (session_mount false _ _ (session_empty false Mock.NewMockCoordinator
    (λ id, eq_refl) (λ id, eq_refl))) as H1.
  assert (opened (mount Mock.NewMockCoordinator).1 = [root_node]) as E1 by by vm_compute.
  rewrite E1 in H1.
  pose proof (session_call false mounted [root_node] root_node (FsMkdir "d" 493 (5, 7)) H1
    ltac:(left) ltac:(unfold call_ok, mode_ok, time_ok; simpl; lia)) as H2.
  assert (opened (run_call root_node (FsMkdir "d" 493 (5, 7)) mounted).1 = [dir_node]) as E2
    by by vm_compute.
  rewrite E2 in H2. exact H2.
Qed.

Lemma session_tree_witness :
  tree_ok (node with_dir) (child with_dir) ∧ Forall node_ok [root_node; dir_node].
Proof. exact (session_tree false with_dir _ with_dir_session). Defined.

(** The remaining witnesses, on the store with the directory. *)
Definition now0 : Z * Z := (5, 7).
Lemma mode_ok_file : mode_ok 420. Proof. unfold mode_ok. lia. Qed.
Lemma now0_ok : time_ok now0. Proof. unfold time_ok, now0. simpl. lia. Qed.
Lemma f_is_plain : has_char "%" (fullPath dir_node "f") = false.
Proof. by vm_compute. Qed.

Lemma Create_Lookup_witness :
  (Create dir_node "f" 0 420 now0 with_dir).1 = Ok (new_inode dir_node "f" 420 0) ∧
  let pid := NID (bfsNode dir_node) in
  let id := GenerateFsID (fullPath dir_node "f") in
  let m := new_metadata dir_node "f" 420 now0 in
  match Create dir_node "f" 0 420 now0 with_dir with
  | (Ok _, s1) =>
      added (node with_dir) (child with_dir) pid id m s1 ∧
      match Lookup dir_node "f" s1 with
      | (Ok r, s2) =>
          r = inode_of (stored_as (node with_dir id) m) ∧
          added (node with_dir) (child with_dir) pid id m s2
      | (Err e, s2) => e = ENOENT ∧ added (node with_dir) (child with_dir) pid id m s2
      | (Panic _, _) => False
      end
  | (Err e, s1) =>
      e = EIO ∧ (store_is (node with_dir) (child with_dir) s1 ∨
                 half_added (node with_dir) (child with_dir) id m s1 ∨
                 added (node with_dir) (child with_dir) pid id m s1)
  | (Panic _, _) => False
  end.
Proof.
  split; [by vm_compute|].
  exact (Create_Lookup dir_node "f" 0 420 now0 with_dir (GenerateFsID_valid "/d") mode_ok_file
    now0_ok f_is_plain).
Defined.

Lemma file_life_witness :
  let id := GenerateFsID (fullPath dir_node "f") in
  let m := stored_as (node with_dir id) (new_metadata dir_node "f" 420 now0) in
  ∃ r s1, Create dir_node "f" 0 420 now0 with_dir = (Ok r, s1) ∧
    (∃ s2, Lookup dir_node "f" s1 = (Ok (inode_of m), s2)) ∧
    (∃ l s2, Readdir dir_node s1 = (Ok l, s2) ∧ Fuse.mkDirEntry (Mode m) "f" (Ino m) ∈ l) ∧
    ∃ s2, Unlink dir_node "f" s1 = (Ok tt, s2) ∧ ∃ s3, Lookup dir_node "f" s2 = (Err ENOENT, s3).
Proof.
  exact (file_life (RS := mock_reliable) dir_node "f" 0 420 now0 with_dir I eq_refl mode_ok_file
    now0_ok f_is_plain).
Defined.

Lemma with_dir_tree : tree_ok (node with_dir) (child with_dir).
Proof. exact (proj1 (run_call_opens false root_node (FsMkdir "d" 493 (5, 7)) eq_refl
  ltac:(unfold call_ok, mode_ok, time_ok; simpl; lia) mounted
  (proj1 (mount_opens false Mock.NewMockCoordinator ltac:(split; [done|set_solver]))))). Qed.

Lemma Rmdir_only_empty_witness :
  (Rmdir root_node "d" with_dir).1 = Ok tt ∧
  let id := GenerateFsID (fullPath root_node "d") in
  let pid := NID (bfsNode root_node) in
  ∃ s', (∃ c m, c ∈ child with_dir id ∧ node with_dir c = Some m) ∧
        Rmdir root_node "d" with_dir = (Err ENOTEMPTY, s') ∧
        store_is (node with_dir) (child with_dir) s' ∨
        (∀ c, c ∈ child with_dir id → node with_dir c = None) ∧
        Rmdir root_node "d" with_dir = (Ok tt, s') ∧
        store_is (upd id None (node with_dir))
          (upd pid (child with_dir pid ∖ {[id]}) (child with_dir)) s'.
Proof.
  split; [by vm_compute|].
  exact (Rmdir_only_empty (RS := mock_reliable) false root_node "d" with_dir I with_dir_tree eq_refl).
Defined.

Lemma Read_outcomes_witness :
  let n := mkFSNode (mkNode "/d/f" "" "" "f" "" "h" (Fuse.mkAttr 0 1 0 0 0 0 0 0 0 0 0
             (Fuse.mkOwner 0 0) 0 0 0) None) Fuse.zeroAttr in
  let s1 := Mock.set_lock_set (λ ls, {["/d/f"]} ∪ ls) with_dir in
  fs_GetContent "h" 0 1 "/d/f" s1 = (Ok [x00], s1) ∧ Read n 1 0 with_dir = (Err EIO, s1).
Proof.
  intros n s1. split; [by vm_compute|].
  pose proof (proj2 (Read_outcomes n 1 0 with_dir) ltac:(done)) as H.
  exact (H [x00] s1 eq_refl).
Defined.

(** A directory on the local coordinator over the reference server. *)
Definition redis_CC : CoordinatorClient (RedisLock db) := local_coordinator empty_config.
Definition redis_NS : @NodeStore (RedisLock db) redis_CC := local_store empty_config.

Definition redis_with_dir : RedisLock db :=
  (@Mkdir _ redis_CC root_node "d" 493 now0 (mkRedisLock no_db ∅)).2.

Lemma redis_dir_ok m : @node _ _ redis_NS redis_with_dir (GenerateFsID (fullPath root_node "d")) = Some m →
  metadata_ok m.
Proof.
  assert (@node _ _ redis_NS redis_with_dir (GenerateFsID (fullPath root_node "d")) =
    Some (new_metadata root_node "d" (Z.lor S_IFDIR 493) now0)) as -> by by vm_compute.
  intros [= <-]. apply new_metadata_ok; [apply S_IFDIR_mode_ok|apply now0_ok]. unfold mode_ok. lia.
Qed.

Lemma Rename_moves_link_witness :
  (@Rename _ redis_CC root_node "d" dir_node "e" 0 redis_with_dir).1 = Ok tt ∧
  let oldId := GenerateFsID (fullPath root_node "d") in
  let newId := GenerateFsID (fullPath root_node "e") in
  let pid := NID (bfsNode root_node) in
  let s := redis_with_dir in
  match @Rename _ redis_CC root_node "d" dir_node "e" 0 s with
  | (Ok _, s') =>
      ∃ m m', @node _ _ redis_NS s oldId = Some m ∧ @node _ _ redis_NS s' oldId = Some m ∧
        m' = @renamed _ redis_CC redis_NS (@node _ _ redis_NS s newId) root_node "e" m ∧
        @node _ _ redis_NS s' newId = Some m' ∧ ID m' = ID m ∧ PID m' = PID m ∧ Name m' = "e" ∧
        @child _ _ redis_NS s' pid = (@child _ _ redis_NS s pid ∖ {[oldId]}) ∪ {[newId]} ∧
        ∀ id, valid_id id → id ≠ pid → @child _ _ redis_NS s' id = @child _ _ redis_NS s id
  | (Err e, s') => (e = ENOENT ∨ e = EIO) ∧ @node _ _ redis_NS s' oldId = @node _ _ redis_NS s oldId
  | (Panic _, _) => False
  end.
Proof.
  split; [by vm_compute|].
  exact (Rename_moves_link (NL := local_laws (RLaws := db_redis_laws) empty_config) root_node "d" dir_node "e" 0 redis_with_dir
    (GenerateFsID_valid "/") ltac:(by vm_compute) redis_dir_ok).
Defined.
