(* ===== verification/Client.v ===== *)
(** * The client library of [pkg/client.go]

    [BlobCacheClient] keeps a connection per host id, the rendezvous hasher that
    routes a key to hosts, and a cache of the host that serves a content.  The
    hasher is third-party code: a class with the laws the client relies on.  The
    servers are reached by the calls of [Rpc.v].  The reading of the clock at each
    attempt is an argument. *)

From S2P Require Import Prelude GoStrings FsID Network GoFloat Types Rpc HostMap Coordinator.
Local Open Scope Z_scope.

(** ** The hasher *)

Class RendezvousHasher (Hs : Type) : Type := {
  h_Add : BlobCacheHost → Hs → Hs;
  h_Remove : BlobCacheHost → Hs → Hs;
  h_GetN : Z → string → Hs → list BlobCacheHost;
}.

(** [h_nodes]: the hosts added and not removed.  [GetN n key] picks [n] distinct
    ones of them, or all when there are fewer. *)
Class HasherLaws (Hs : Type) `{RendezvousHasher Hs} : Type := {
  h_nodes : Hs → list BlobCacheHost;
  h_Add_nodes x s h : h ∈ h_nodes (h_Add x s) ↔ h = x ∨ h ∈ h_nodes s;
  h_Remove_nodes x s h : h ∈ h_nodes (h_Remove x s) ↔ h ≠ x ∧ h ∈ h_nodes s;
  h_nodes_NoDup s : NoDup (h_nodes s);
  h_GetN_NoDup n key s : NoDup (h_GetN n key s);
  h_GetN_nodes n key s h : h ∈ h_GetN n key s → h ∈ h_nodes s;
  h_GetN_length n key s : 0 ≤ n → zlen (h_GetN n key s) = n `min` zlen (h_nodes s);
}.

(** ** Data *)

Definition localClientCacheCleanupInterval : Z := 5 * Second.
Definition localClientCacheTTL : Z := 600 * Second.

Record localClientCache : Type := mkLocal { lc_host : BlobCacheHost; lc_timestamp : Z }.

(** The host map is next to this state ([M (hosts * _)]): it has a lock of its
    own.  [monitors]: the hosts whose [monitorHost] is running. *)
Record BlobCacheClient (Hs : Type) : Type := mkClient {
  grpcClients : gmap string GrpcClient;
  localHostCache : gmap string localClientCache;
  hasher : Hs;
  monitors : list BlobCacheHost;
}.
Arguments mkClient {Hs} _ _ _ _.
Arguments grpcClients {Hs} _.
Arguments localHostCache {Hs} _.
Arguments hasher {Hs} _.
Arguments monitors {Hs} _.

Definition set_cache {Hs} f (c : BlobCacheClient Hs) :=
  mkClient (grpcClients c) (f (localHostCache c)) (hasher c) (monitors c).

(** [if opts.RoutingKey == "" { opts.RoutingKey = ... }] *)
Definition routing_key (key dflt : string) : string := if decide (key = "") then dflt else key.

(** A setting that is zero takes its default. *)
Definition or_default (v d : Z) : Z := if bool_decide (v = 0) then d else v.
Definition wrap32 (z : Z) : Z := (z + 2 ^ 31) `mod` 2 ^ 32 - 2 ^ 31.

(** One of the running monitors of a host ends. *)
Fixpoint end_monitor (host : BlobCacheHost) (l : list BlobCacheHost) : list BlobCacheHost :=
  match l with
  | [] => []
  | h :: l => if decide (h = host) then l else h :: end_monitor host l
  end.

(** ** Dialling *)

Section dialling.
Context (clientConfig : BlobCacheClientConfig) (globalConfig : BlobCacheGlobalConfig).

(** The address of a host, and the options, in [addHost]. *)
Definition dial_addr (host : BlobCacheHost) : string :=
  if decide (PrivateAddr host = "") then Addr host else PrivateAddr host.

Definition dial_opts (addr : string) : dial_options := {|
  d_tls := isTLSEnabled addr;
  d_maxRecvMsgSize := GRPCMessageSizeBytes globalConfig;
  d_maxSendMsgSize := GRPCMessageSizeBytes globalConfig;
  d_window := wrap32 (or_default (GRPCInitialWindowSize globalConfig) (4 * 1024 * 1024));
  d_connWindow := wrap32 (or_default (GRPCInitialConnWindowSize globalConfig) (32 * 1024 * 1024));
  d_writeBuffer := or_default (GRPCWriteBufferSize globalConfig) (256 * 1024);
  d_readBuffer := or_default (GRPCReadBufferSize globalConfig) (256 * 1024);
  d_token := if decide (CToken clientConfig = "") then None else Some (CToken clientConfig);
|}.

Context {Hs : Type} `{RendezvousHasher Hs}.

(** [addHost]: [dial] is the error of [grpc.Dial] by address. *)
Definition addHost (dial : string → option error) (host : BlobCacheHost) :
    M (BlobCacheClient Hs) () :=
  let addr := dial_addr host in
  match dial addr with
  | Some err => throw err
  | None =>
      modify (λ c, mkClient (<[HostId host := mkConn addr (dial_opts addr)]> (grpcClients c))
                     (localHostCache c) (h_Add host (hasher c)) (host :: monitors c))
  end.

End dialling.

(** ** Requests *)

Section requests.
Context {Hs W : Type} `{RendezvousHasher Hs} `{BlobCacheService W}.
Context (clientConfig : BlobCacheClientConfig) (maxGetContentAttempts : Z).

Definition St : Type := BlobCacheClient Hs * W.
Definition on_client {A} (m : M (BlobCacheClient Hs) A) : M St A := zoom fst (λ c s, (c, s.2)) m.

(** [min(int64(request.hostIndex), int64(len(hosts)-1))] into the hosts. *)
Definition pick_host (hs : list BlobCacheHost) (hostIndex : Z) :
    M (BlobCacheClient Hs) (option BlobCacheHost) :=
  let i := hostIndex `min` (zlen hs - 1) in
  if bool_decide (0 < zlen hs) then
    if bool_decide (i < 0) then gopanic PanicIndex
    else h ← or_panic PanicIndex (hs !! Z.to_nat i); mret (Some h)
  else mret None.

Definition getGRPCClient (now : Z) (request : ClientRequest) :
    M (BlobCacheClient Hs) (GrpcClient * BlobCacheHost) :=
  let top := gets (λ c, h_GetN (NTopHosts clientConfig) (key request) (hasher c)) in
  host ← match rt request with
         | ClientRequestTypeStorage => hs ← top; pick_host hs (hostIndex request)
         | ClientRequestTypeRetrieval =>
             cachedHost ← gets (λ c, localHostCache c !! hash request);
             match cachedHost with
             | Some cached => mret (Some (lc_host cached))
             | None =>
                 hs ← top;
                 host ← pick_host hs (hostIndex request);
                 match host with
                 | None => mret None
                 | Some h =>
                     modify (set_cache (<[hash request := mkLocal h now]>)) ≫= λ _, mret (Some h)
                 end
             end
         end;
  match host with
  | None => throw ErrHostNotFound
  | Some h =>
      client ← gets (λ c, grpcClients c !! HostId h);
      match client with
      | None => modify (set_cache (delete (hash request))) ≫= λ _, throw ErrHostNotFound
      | Some client => mret (client, h)
      end
  end.

(** [delete(c.localHostCache, hash)] after a failed call. *)
Definition forget (hash : string) : M St () := on_client (modify (set_cache (delete hash))).

Definition retrieval (hash key : string) (i : nat) : ClientRequest :=
  mkClientRequest ClientRequestTypeRetrieval hash key (Z.of_nat i).

(** *** Retrieval *)

Fixpoint IsCachedNearby_loop (now : nat → Z) (hash key : string) (k i : nat) : M St bool :=
  match k with
  | O => mret false
  | S k =>
      c ← on_client (getGRPCClient (now i) (retrieval hash key i));
      exists_ ← on_world (rpc_HasContent c.1 hash);
      if (exists_ : bool) then mret true else IsCachedNearby_loop now hash key k (i + 1)
  end.
Definition IsCachedNearby (now : nat → Z) (hash routingKey : string) : M St bool :=
  IsCachedNearby_loop now hash routingKey (Z.to_nat (NTopHosts clientConfig)) 0.

(** Over the coordinator's answer for the node of the path. *)
Definition IsPathCachedNearby (GetFsNode : string → call W BlobFsMetadata) (now : nat → Z)
    (path : string) : M St bool :=
  metadata ← attempt (on_world (GetFsNode (GenerateFsID path)));
  match metadata with
  | inr _ => mret false
  | inl m =>
      r ← attempt (IsCachedNearby now (Hash m) path);
      match r with inl b => mret b | inr _ => mret false end
  end.

Definition max_attempts (length : Z) : nat :=
  if bool_decide (length > MinRetryLengthBytes clientConfig)
  then Z.to_nat maxGetContentAttempts else 1.

Fixpoint GetContent_loop (now : nat → Z) (hash : string) (offset length : Z) (key : string)
    (k i : nat) : M St (list byte) :=
  match k with
  | O => throw ErrContentNotFound
  | S k =>
      let again := forget hash ≫= λ _, GetContent_loop now hash offset length key k (i + 1) in
      c ← on_client (getGRPCClient (now i) (retrieval hash key i));
      r ← attempt (on_world (rpc_GetContent c.1 hash offset length));
      match r with
      | inr _ => again
      | inl resp => if gc_Ok resp then mret (Content resp) else again
      end
  end.
Definition GetContent (now : nat → Z) (hash : string) (offset length : Z) (RoutingKey : string) :
    M St (list byte) :=
  GetContent_loop now hash offset length (routing_key RoutingKey hash) (max_attempts length) 0.

(** The messages of a stream, up to the first that is not [Ok]: the chunks sent to
    the channel, and whether the end was [io.EOF]. *)
Fixpoint recv_loop (msgs : list GetContentResponse) (err : option error) :
    list (list byte) * bool :=
  match msgs with
  | [] => ([], bool_decide (err = None))
  | m :: msgs =>
      if gc_Ok m then let '(l, eof) := recv_loop msgs err in (Content m :: l, eof)
      else ([], false)
  end.

(** The goroutine of [GetContentStream]: the chunks it puts into the channel. *)
Fixpoint stream_loop (now : nat → Z) (hash : string) (offset length : Z) (key : string)
    (k i : nat) : M St (list (list byte)) :=
  match k with
  | O => mret []
  | S k =>
      let again := forget hash ≫= λ _, stream_loop now hash offset length key k (i + 1) in
      c ← attempt (on_client (getGRPCClient (now i) (retrieval hash key i)));
      match c with
      | inr _ => mret []
      | inl c =>
          r ← attempt (on_world (rpc_GetContentStream c.1 hash offset length));
          match r with
          | inr _ => again
          | inl (msgs, err) =>
              let '(chunks, eof) := recv_loop msgs err in
              if (eof : bool) then mret chunks else rest ← again; mret (chunks ++ rest)
          end
      end
  end.
Definition GetContentStream (now : nat → Z) (hash : string) (offset length : Z)
    (RoutingKey : string) : M St (list (list byte)) :=
  stream_loop now hash offset length (routing_key RoutingKey hash) (max_attempts length) 0.

(** [GetState]: the request has neither hash nor key. *)
Definition GetState (now : Z) : M St () :=
  c ← on_client (getGRPCClient now (retrieval "" "" 0));
  on_world (rpc_GetState c.1) ≫= λ _, mret tt.

(** *** Storage *)

Definition storage (hash key : string) : ClientRequest :=
  mkClientRequest ClientRequestTypeStorage hash key 0.

Definition StoreContent (now : Z) (chunks : list (list byte)) (hash RoutingKey : string) :
    M St string :=
  c ← on_client (getGRPCClient now (storage hash (routing_key RoutingKey hash)));
  on_world (rpc_StoreContent c.1 chunks).

(** The two calls that store from a source, and what their answers mean. *)
Definition store_from_source (client : GrpcClient) (source : CacheSource) (lock : bool) :
    M St string :=
  if lock then
    resp ← on_world (rpc_StoreContentFromSourceWithLock client source);
    if l_FailedToAcquireLock resp then throw ErrUnableToAcquireLock
    else if l_Ok resp then mret (l_Hash resp) else throw ErrUnableToPopulateContent
  else
    resp ← on_world (rpc_StoreContentFromSource client source);
    if s_Ok resp then mret (s_Hash resp) else throw ErrUnableToPopulateContent.

Definition StoreContentFromFUSE (now : Z) (path RoutingKey : string) (lock : bool) :
    M St string :=
  c ← on_client (getGRPCClient now (storage path (routing_key RoutingKey path)));
  store_from_source c.1 (mkSource path "" "" "" "" "") lock.

Definition s3_routing_key (source : CacheSource) : string :=
  src_Endpoint source +:+ "/" +:+ src_Region source +:+ "/" +:+ src_Bucket source +:+ "/" +:+
  src_Path source.

(** The request has no hash. *)
Definition StoreContentFromS3 (now : Z) (source : CacheSource) (RoutingKey : string)
    (lock : bool) : M St string :=
  c ← on_client (getGRPCClient now (storage "" (routing_key RoutingKey (s3_routing_key source))));
  store_from_source c.1 source lock.

(** [GetNearbyHosts] *)
Definition GetNearbyHosts `{CoordinatorClient W} (locality : string) : M St (list BlobCacheHost) :=
  zoom snd (λ w s, (s.1, w)) (c_GetAvailableHosts locality).

(** *** The background tasks *)

(** [monitorHost] at a tick: what it finds, and what it does about it. *)
Definition probe (host : BlobCacheHost) : M St () :=
  client ← gets (λ s, grpcClients s.1 !! HostId host);
  match client with
  | None => throw ErrHostNotFound
  | Some client =>
      resp ← attempt (on_world (rpc_GetState client));
      match resp with
      | inr _ => throw ErrInvalidHostVersion
      | inl resp =>
          if bool_decide (gs_Version resp = BlobCacheVersion) then mret tt
          else throw ErrInvalidHostVersion
      end
  end.

(** The connections are deleted by address. *)
Definition drop_host (host : BlobCacheHost) : M (hosts * St) () :=
  HostMap_Remove host ≫= λ _,
  modify (λ s, let '(hm, (c, w)) := s in
    (hm, (mkClient (delete (Addr host) (grpcClients c)) (localHostCache c)
            (h_Remove host (hasher c)) (end_monitor host (monitors c)), w))).

Definition monitorHost_tick (host : BlobCacheHost) : M (hosts * St) () :=
  r ← attempt (zoom snd (λ s x, (x.1, s)) (probe host));
  match r with
  | inl _ => mret tt
  | inr _ => drop_host host
  end.

(** [manageLocalClientCache] at a tick. *)
Definition cleanup_tick (ttl now : Z) : M St () :=
  on_client (modify (set_cache (filter (λ kv, ¬ now - lc_timestamp kv.2 > ttl)))).

End requests.

Arguments St Hs W : clear implicits.

(** *** Waiting for hosts *)

Definition HostsAvailable (hm : hosts) : bool := bool_decide (0 < size (Members hm))%nat.

(** [WaitForHosts]: [env i] is the host map at the [i]-th poll and whether the
    deadline has passed by then; the polls are one second apart. *)
Definition WaitForHosts_body (env : nat → hosts * bool) (i : nat) : M () (nat + ()) :=
  if (env i).2 then throw (ErrLib "context deadline exceeded")
  else if HostsAvailable (env i).1 then mret (inr tt) else mret (inl (S i)).
Definition WaitForHosts (timeout : Z) (at_start : hosts) (env : nat → hosts * bool) : res () :=
  if HostsAvailable at_start then Ok tt
  else (loopM (poll_fuel timeout) (WaitForHosts_body env) 0%nat ()).1.

(** ** Construction *)

Definition effective_attempts (cfg : BlobCacheClientConfig) : Z := MaxGetContentAttempts cfg `max` 1.

(** The cleanup goroutine is started with the interval and the TTL, in this order;
    its parameters are the TTL, then the interval. *)
Definition cleanup_ttl : Z := localClientCacheCleanupInterval.
Definition cleanup_interval : Z := localClientCacheTTL.

(** ** Choosing a host: lemmas *)

Section routing.
Context {Hs W : Type} `{RendezvousHasher Hs} `{BlobCacheService W}.
Context (clientConfig : BlobCacheClientConfig).
Implicit Types c : BlobCacheClient Hs.

(** The hosts of a key, and the one that the [i]-th attempt takes. *)
Definition top c (key : string) : list BlobCacheHost :=
  h_GetN (NTopHosts clientConfig) key (hasher c).
Definition pick c (key : string) (i : nat) : option BlobCacheHost :=
  top c key !! (i `min` (length (top c key) - 1))%nat.
Definition chosen c (hash key : string) (i : nat) : option BlobCacheHost :=
  match localHostCache c !! hash with Some lc => Some (lc_host lc) | None => pick c key i end.

(** Every host that a request can be routed to has a connection. *)
Definition ready `{HasherLaws Hs} c : Prop :=
  (∀ h, h ∈ h_nodes (hasher c) → is_Some (grpcClients c !! HostId h)) ∧
  (∀ k lc, localHostCache c !! k = Some lc → is_Some (grpcClients c !! HostId (lc_host lc))).

Definition uncached (hash : string) c := set_cache (delete hash) c.

Lemma uncached_set hash x c : uncached hash (set_cache (<[hash:=x]>) c) = uncached hash c.
Proof. unfold uncached, set_cache. simpl. by rewrite delete_insert_eq. Qed.

Lemma uncached_idem hash c : uncached hash (uncached hash c) = uncached hash c.
Proof. unfold uncached, set_cache. simpl. by rewrite delete_delete_eq. Qed.

Lemma uncached_fields hash c c' : uncached hash c' = uncached hash c →
  grpcClients c' = grpcClients c ∧ hasher c' = hasher c ∧
  ∀ k, k ≠ hash → localHostCache c' !! k = localHostCache c !! k.
Proof.
  unfold uncached, set_cache. intros [= E1 E2 E3 E4]. split_and!; [done..|].
  intros k Hk. by rewrite <-(lookup_delete_ne _ hash k), E2, lookup_delete_ne.
Qed.

Lemma pick_host_spec hs i c :
  pick_host (Hs:=Hs) hs (Z.of_nat i) c = (Ok (hs !! (i `min` (length hs - 1))%nat), c).
Proof.
  unfold pick_host, zlen. case_bool_decide as Hl.
  - rewrite bool_decide_eq_false_2 by lia.
    replace (Z.to_nat (Z.of_nat i `min` (Z.of_nat (length hs) - 1)))
      with (i `min` (length hs - 1))%nat by lia.
    destruct (lookup_lt_is_Some_2 hs (i `min` (length hs - 1))%nat ltac:(lia)) as [h ->]. done.
  - destruct hs; [done|]. simpl in Hl. lia.
Qed.

Lemma pick_Some c key i : top c key ≠ [] → is_Some (pick c key i).
Proof.
  intros Hne. apply lookup_lt_is_Some_2. destruct (top c key); [done|]. simpl. lia.
Qed.

(** A retrieval: the host chosen, remembered under the hash. *)
Lemma getGRPCClient_retrieval now hash key i c h g :
  chosen c hash key i = Some h → grpcClients c !! HostId h = Some g →
  ∃ c', getGRPCClient clientConfig now (retrieval hash key i) c = (Ok (g, h), c') ∧
    uncached hash c' = uncached hash c ∧
    lc_host <$> localHostCache c' !! hash = Some h ∧
    (localHostCache c !! hash = None → localHostCache c' !! hash = Some (mkLocal h now)).
Proof.
  unfold chosen. intros Hc Hg. unfold getGRPCClient, retrieval, mbind, M_bind. simpl.
  destruct (localHostCache c !! hash) as [lc|] eqn:Ec; simpl.
  - injection Hc as <-. rewrite Hg. exists c. rewrite Ec. by split_and!.
  - unfold pick, top in Hc. rewrite pick_host_spec, Hc. simpl. rewrite Hg.
    eexists. split; [done|]. rewrite uncached_set. simpl. by rewrite lookup_insert_eq.
Qed.

(** The host remembered for the content is taken whatever the attempt. *)
Lemma getGRPCClient_cached now hash key i c h g :
  lc_host <$> localHostCache c !! hash = Some h → grpcClients c !! HostId h = Some g →
  getGRPCClient clientConfig now (retrieval hash key i) c = (Ok (g, h), c).
Proof.
  intros Hc Hg. unfold getGRPCClient, retrieval, mbind, M_bind. simpl.
  destruct (localHostCache c !! hash) as [lc|]; [|done]. injection Hc as <-.
  simpl. by rewrite Hg.
Qed.

(** A storage request: the first host of the key. *)
Lemma getGRPCClient_storage now hash key c h g :
  pick c key 0 = Some h → grpcClients c !! HostId h = Some g →
  getGRPCClient clientConfig now (storage hash key) c = (Ok (g, h), c).
Proof.
  unfold pick, top. intros Hp Hg. unfold getGRPCClient, storage, mbind, M_bind. simpl.
  pose proof (pick_host_spec (h_GetN (NTopHosts clientConfig) key (hasher c)) 0 c) as E.
  change (Z.of_nat 0) with 0 in E. rewrite E, Hp. simpl. by rewrite Hg.
Qed.

Context `{!HasherLaws Hs}.

Lemma ready_chosen c hash key i h :
  ready c → chosen c hash key i = Some h → is_Some (grpcClients c !! HostId h).
Proof.
  intros [Hn Hc]. unfold chosen. destruct (localHostCache c !! hash) as [lc|] eqn:E.
  - intros [= <-]. by eapply Hc.
  - intros Hp. apply Hn. eapply h_GetN_nodes. by eapply list_elem_of_lookup_2.
Qed.

Lemma ready_uncached hash c : ready c → ready (uncached hash c).
Proof.
  intros [Hn Hc]. split; [done|]. intros k lc. simpl. intros [_ Hk]%lookup_delete_Some.
  by eapply Hc.
Qed.

(** The cache of a content is the only thing that a request changes. *)
Lemma ready_same hash c c' h :
  ready c → uncached hash c' = uncached hash c → lc_host <$> localHostCache c' !! hash = Some h →
  is_Some (grpcClients c !! HostId h) → ready c'.
Proof.
  intros [Hn Hc] Hu Hh Hg. destruct (uncached_fields _ _ _ Hu) as (Eg & Eh & El).
  split; [by rewrite Eg, Eh|]. intros k lc Hk. rewrite Eg.
  destruct (decide (k = hash)) as [->|Hne]; [|rewrite El in Hk by done; by eapply Hc].
  rewrite Hk in Hh. by injection Hh as <-.
Qed.

Lemma top_uncached hash c key : top (uncached hash c) key = top c key.
Proof. done. Qed.

(** *** The hosts that are tried *)

Definition picks c (key : string) (i n : nat) : list BlobCacheHost := omap (pick c key) (seq i n).

(** From attempt [i] on: the cached host first, if there is one. *)
Definition plan c (hash key : string) (i n : nat) : list BlobCacheHost :=
  match localHostCache c !! hash with
  | Some lc => lc_host lc :: picks c key (i + 1) (n - 1)
  | None => picks c key i n
  end.

(** Ask the hosts in order until one answers. *)
Fixpoint try_hosts {A} (ask : BlobCacheHost → W → option A * W) (l : list BlobCacheHost) (w : W) :
    option (BlobCacheHost * A) * W :=
  match l with
  | [] => (None, w)
  | h :: l =>
      match ask h w with
      | (Some a, w) => (Some (h, a), w)
      | (None, w) => try_hosts ask l w
      end
  end.

Lemma plan_first c hash key i n h :
  chosen c hash key i = Some h → plan c hash key i (S n) = h :: picks c key (i + 1) n.
Proof.
  unfold chosen, plan. destruct (localHostCache c !! hash) as [lc|].
  - intros [= <-]. simpl. by rewrite Nat.sub_0_r.
  - intros Hp. unfold picks. simpl. by rewrite Hp, Nat.add_1_r.
Qed.

Lemma chosen_Some c hash key i : top c key ≠ [] → is_Some (chosen c hash key i).
Proof. intros Ht. unfold chosen. destruct (localHostCache c !! hash); [done|]. by apply pick_Some. Qed.

(** A key with hosts has one for every attempt. *)
Lemma picks_lookup c key i n j :
  top c key ≠ [] → (j < n)%nat → picks c key i n !! j = pick c key (i + j).
Proof.
  intros Ht. unfold picks. revert i j. induction n as [|n IH]; intros i j Hj; [lia|]. simpl.
  destruct (pick_Some c key i Ht) as [h Hh]. rewrite Hh. destruct j as [|j]; simpl.
  - by rewrite Nat.add_0_r.
  - rewrite IH by lia. f_equal. lia.
Qed.

Lemma picks_length c key i n : top c key ≠ [] → length (picks c key i n) = n.
Proof.
  intros Ht. unfold picks. revert i. induction n as [|n IH]; intros i; [done|]. simpl.
  destruct (pick_Some c key i Ht) as [h ->]. simpl. by rewrite IH.
Qed.

(** The host of each attempt. *)
Definition attempt_host c (hash key : string) (i : nat) : option BlobCacheHost :=
  match i, localHostCache c !! hash with
  | O, Some lc => Some (lc_host lc)
  | _, _ => top c key !! (i `min` (length (top c key) - 1))%nat
  end.

Lemma plan_attempts c hash key n :
  top c key ≠ [] → (1 ≤ n)%nat →
  length (plan c hash key 0 n) = n ∧
  ∀ i, (i < n)%nat → plan c hash key 0 n !! i = attempt_host c hash key i.
Proof.
  intros Ht Hn. unfold plan, attempt_host. destruct (localHostCache c !! hash) as [lc|].
  - split; [simpl; rewrite picks_length by done; lia|]. intros [|i] Hi; [done|]. simpl.
    by rewrite picks_lookup by (done || lia).
  - split; [by apply picks_length|]. intros i Hi. rewrite picks_lookup by done. by destruct i.
Qed.

Lemma plan_uncached c hash key i n : plan (uncached hash c) hash key i n = picks c key i n.
Proof. unfold plan, uncached. simpl. by rewrite lookup_delete_eq. Qed.

(** What a host answers, over its connection. *)
Definition ask_content c (hash : string) (offset length : Z) (h : BlobCacheHost) (w : W) :
    option (list byte) * W :=
  match grpcClients c !! HostId h with
  | None => (None, w)
  | Some g =>
      match rpc_GetContent g hash offset length w with
      | (inl resp, w) => (if gc_Ok resp then Some (Content resp) else None, w)
      | (inr _, w) => (None, w)
      end
  end.

(** *** The loop of [GetContent] *)

(** One attempt: the host chosen, its answer, and the cache after it. *)
Lemma on_client_run {A} (m : M (BlobCacheClient Hs) A) a c c' (w : W) :
  m c = (Ok a, c') → on_client m (c, w) = (Ok a, (c', w)).
Proof. intros E. unfold on_client, zoom. simpl. by rewrite E. Qed.

Lemma on_client_Ok {A B} (m : M (BlobCacheClient Hs) A) (f : A → M (St Hs W) B) a c c' w :
  m c = (Ok a, c') → (on_client m ≫= f) (c, w) = f a (c', w).
Proof. intros E. by apply bind_Ok, on_client_run. Qed.

Lemma GetContent_loop_spec now hash offset length key k : ∀ i c w,
  ready c → top c key ≠ [] → (k = 0%nat → localHostCache c !! hash = None) →
  match try_hosts (ask_content c hash offset length) (plan c hash key i k) w with
  | (Some (h, content), w') => ∃ c',
      GetContent_loop clientConfig now hash offset length key k i (c, w) = (Ok content, (c', w')) ∧
      ready c' ∧ uncached hash c' = uncached hash c ∧ lc_host <$> localHostCache c' !! hash = Some h
  | (None, w') => ∃ c',
      GetContent_loop clientConfig now hash offset length key k i (c, w)
        = (Err ErrContentNotFound, (c', w')) ∧
      ready c' ∧ uncached hash c' = uncached hash c ∧ localHostCache c' !! hash = None
  end.
Proof.
  induction k as [|k IH]; intros i c w Hr Ht Hk.
  { unfold plan. rewrite Hk by done. simpl. exists c. auto. }
  destruct (chosen_Some c hash key i Ht) as [h Hh].
  destruct (ready_chosen c hash key i h Hr Hh) as [g Hg].
  destruct (getGRPCClient_retrieval (now i) hash key i c h g Hh Hg) as (c1 & E & Hu & Hlc & _).
  rewrite (plan_first _ _ _ _ _ _ Hh). simpl. rewrite (on_client_Ok _ _ _ _ _ _ E).
  assert (ready c1) as Hr1 by (eapply ready_same; [exact Hr|exact Hu|exact Hlc|by eexists]).
  assert (∀ w, match try_hosts (ask_content c hash offset length) (picks c key (i + 1) k) w with
    | (Some (h, content), w') => ∃ c',
        (forget hash ≫= λ _, GetContent_loop clientConfig now hash offset length key k (i + 1))
          (c1, w) = (Ok content, (c', w')) ∧
        ready c' ∧ uncached hash c' = uncached hash c ∧ lc_host <$> localHostCache c' !! hash = Some h
    | (None, w') => ∃ c',
        (forget hash ≫= λ _, GetContent_loop clientConfig now hash offset length key k (i + 1))
          (c1, w) = (Err ErrContentNotFound, (c', w')) ∧
        ready c' ∧ uncached hash c' = uncached hash c ∧ localHostCache c' !! hash = None
    end) as Hagain.
  { intros w1. specialize (IH (i + 1)%nat (uncached hash c) w1 (ready_uncached hash c Hr)).
    rewrite plan_uncached, uncached_idem in IH.
    change ((forget hash ≫= ?f) (c1, w1)) with (f tt (uncached hash c1, w1)). rewrite Hu.
    apply IH; [exact Ht|intros _; apply lookup_delete_eq]. }
  unfold ask_content at 1. rewrite Hg.
  unfold attempt, on_world, mbind, M_bind. simpl.
  destruct (rpc_GetContent g hash offset length w) as [[resp|e] w1]; [|apply Hagain].
  destruct (gc_Ok resp); [|apply Hagain].
  exists c1. auto.
Qed.

End routing.

(** ** Retrieval *)

Section retrieval_properties.
Context {Hs W : Type} `{HasherLaws Hs} `{BlobCacheService W}.
Context (clientConfig : BlobCacheClientConfig).
Implicit Types c : BlobCacheClient Hs.

Lemma max_attempts_pos length :
  (1 ≤ max_attempts clientConfig (effective_attempts clientConfig) length)%nat.
Proof. unfold max_attempts, effective_attempts. case_bool_decide; lia. Qed.


(** *** [IsCachedNearby] *)

(** The same host asked again and again. *)
Fixpoint ask_again (g : GrpcClient) (hash : string) (n : nat) : call W bool := λ w,
  match n with
  | O => (inl false, w)
  | S n =>
      match rpc_HasContent g hash w with
      | (inl true, w) => (inl true, w)
      | (inl false, w) => ask_again g hash n w
      | (inr e, w) => (inr e, w)
      end
  end.

Lemma IsCachedNearby_loop_cached now hash key g h k i : ∀ c w,
  lc_host <$> localHostCache c !! hash = Some h → grpcClients c !! HostId h = Some g →
  IsCachedNearby_loop clientConfig now hash key k i (c, w)
  = on_world (ask_again g hash k) (c, w).
Proof.
  revert i. induction k as [|k IH]; intros i c w Hc Hg; [done|]. simpl.
  pose proof (getGRPCClient_cached clientConfig (now i) hash key i c h g Hc Hg) as E.
  rewrite (on_client_Ok _ _ _ _ _ _ E). unfold on_world, mbind, M_bind. simpl.
  destruct (rpc_HasContent g hash w) as [[[]|e] w1]; simpl; [done| |done].
  by rewrite (IH (i + 1)%nat c w1 Hc Hg).
Qed.

(** However many hosts [NTopHosts] names, [IsCachedNearby] asks one of them
    only, up to [NTopHosts] times: the one remembered for the content, or the
    first of the routing key, which the first turn remembers. *)
Theorem IsCachedNearby_one_host now hash key c h g w :
  chosen clientConfig c hash key 0 = Some h → grpcClients c !! HostId h = Some g →
  ∃ c', lc_host <$> localHostCache c' !! hash = (if bool_decide (0 < NTopHosts clientConfig)
                                                  then Some h
                                                  else lc_host <$> localHostCache c !! hash) ∧
    uncached hash c' = uncached hash c ∧
    IsCachedNearby clientConfig now hash key (c, w)
    = on_world (ask_again g hash (Z.to_nat (NTopHosts clientConfig))) (c', w).
Proof.
  intros Hh Hg. unfold IsCachedNearby.
  case_bool_decide as Hn; [|exists c; by replace (Z.to_nat (NTopHosts clientConfig)) with 0%nat by lia].
  destruct (Z.to_nat (NTopHosts clientConfig)) as [|k] eqn:Ek; [lia|].
  destruct (getGRPCClient_retrieval clientConfig (now 0%nat) hash key 0 c h g Hh Hg)
    as (c1 & E & Hu & Hlc & _).
  exists c1. split_and!; [done..|].
  destruct (uncached_fields _ _ _ Hu) as (Eg & _).
  rewrite <-(IsCachedNearby_loop_cached now hash key g h (S k) 0) by (done || by rewrite Eg).
  simpl. rewrite (on_client_Ok _ _ _ _ _ _ E).
  assert (grpcClients c1 !! HostId h = Some g) as Hg1 by by rewrite Eg.
  pose proof (getGRPCClient_cached clientConfig (now 0%nat) hash key 0 c1 h g Hlc Hg1) as E1.
  by rewrite (on_client_Ok _ _ _ _ _ _ E1).
Qed.

(** *** [GetContentStream] *)

(** In the worlds of [I] the servers stream the bytes asked for: the chunks of an
    answer are a first part of [want]. *)
Definition streams (I : W → Prop) (hash : string) (offset length : Z) (want : list byte) : Prop :=
  ∀ g w, I w → let '(r, w') := rpc_GetContentStream g hash offset length w in
  I w' ∧ match r with
         | inl (msgs, err) => concat (recv_loop msgs err).1 `prefix_of` want
         | inr _ => True
         end.

(** What the channel gets: the parts of the attempts, each from the beginning. *)
Definition restarts (want : list byte) (n : nat) (chunks : list (list byte)) : Prop :=
  ∃ parts, chunks = concat parts ∧ (List.length parts ≤ n)%nat ∧
    Forall (λ p, concat p `prefix_of` want) parts.

Lemma restarts_nil want n : restarts want n [].
Proof. exists []. split_and!; simpl; [done|lia|done]. Qed.

Lemma restarts_cons want n p chunks :
  concat p `prefix_of` want → restarts want n chunks → restarts want (S n) (p ++ chunks).
Proof.
  intros Hp (ps & -> & Hl & Hf). exists (p :: ps). split_and!; simpl; [done|lia|by constructor].
Qed.

Lemma restarts_one want n p : concat p `prefix_of` want → restarts want (S n) p.
Proof. intros Hp. rewrite <-(app_nil_r p). apply restarts_cons; [done|apply restarts_nil]. Qed.

Lemma restarts_more want n chunks : restarts want n chunks → restarts want (S n) chunks.
Proof. intros (ps & -> & Hl & Hf). exists ps. split_and!; [done|lia|done]. Qed.

Lemma pick_host_no_panic hs i (s : BlobCacheClient Hs) p s' :
  pick_host hs (Z.of_nat i) s ≠ (Panic p, s').
Proof. by rewrite pick_host_spec. Qed.

Lemma getGRPCClient_no_panic now hash key i c p c' :
  getGRPCClient clientConfig now (retrieval hash key i) c ≠ (Panic p, c').
Proof.
  unfold getGRPCClient, retrieval, mbind, M_bind. simpl.
  destruct (localHostCache c !! hash) as [lc|]; simpl.
  - by destruct (grpcClients c !! _).
  - rewrite pick_host_spec. destruct (_ !! _) as [h|]; simpl; [|done].
    by destruct (grpcClients c !! _).
Qed.

(** When the servers stream the bytes asked for, what [GetContentStream] puts
    into the channel is made of at most one part per attempt, each a first part of
    the bytes asked for: an attempt that fails after some chunks is followed by one
    that starts from the beginning again.  The call itself neither fails nor
    panics, so a reader cannot tell a short stream from a complete one. *)
Theorem GetContentStream_restarts I now hash offset length RoutingKey want c w :
  streams I hash offset length want → I w →
  let n := max_attempts clientConfig (effective_attempts clientConfig) length in
  ∃ chunks s', GetContentStream clientConfig (effective_attempts clientConfig) now hash offset
                 length RoutingKey (c, w) = (Ok chunks, s') ∧
    I s'.2 ∧ restarts want n chunks.
Proof.
  intros Hst Hw n. unfold GetContentStream. fold n.
  generalize (routing_key RoutingKey hash) as key. intros key. generalize 0%nat as i.
  revert c w Hw. induction n as [|n IH]; intros c w Hw i.
  { exists [], (c, w). split_and!; [done| |apply restarts_nil]; done. }
  assert (∀ c w, I w → ∃ chunks s',
    (forget hash ≫= λ _, stream_loop clientConfig now hash offset length key n (i + 1)) (c, w)
      = (Ok chunks, s') ∧ I s'.2 ∧ restarts want n chunks) as Hagain.
  { intros c' w' Hw'. apply (IH (uncached hash c') w' Hw'). }
  destruct (getGRPCClient clientConfig (now i) (retrieval hash key i) c) as [[[g h]|e|p] c1] eqn:E;
    [| |by apply getGRPCClient_no_panic in E]; simpl.
  2:{ rewrite (bind_attempt_Err _ _ _ e (c1, w)) by (unfold on_client, zoom; simpl; by rewrite E).
      exists [], (c1, w). split_and!; [done| |apply restarts_nil]; done. }
  rewrite (bind_attempt_Ok _ _ _ (g, h) (c1, w)) by (unfold on_client, zoom; simpl; by rewrite E).
  specialize (Hst g w Hw). rename Hst into Hp.
  destruct (rpc_GetContentStream g hash offset length w) as [[[msgs err]|e] w1] eqn:Er;
    destruct Hp as [Hw1 Hp].
  - rewrite (bind_attempt_Ok _ _ _ (msgs, err) (c1, w1)) by (unfold on_world; simpl; by rewrite Er).
    destruct (recv_loop msgs err) as [part []]; simpl in Hp.
    + exists part, (c1, w1). split_and!; [done|done|by apply restarts_one].
    + destruct (Hagain c1 w1 Hw1) as (rest & s' & Hrun & HI & Hrest). rewrite (bind_Ok _ _ _ _ _ Hrun).
      exists (part ++ rest), s'. split_and!; [done|done|by apply restarts_cons].
  - rewrite (bind_attempt_Err _ _ _ e (c1, w1)) by (unfold on_world; simpl; by rewrite Er).
    destruct (Hagain c1 w1 Hw1) as (rest & s' & Hrun & HI & Hrest). rewrite Hrun.
    exists rest, s'. split_and!; [done|done|by apply restarts_more].
Qed.

(** *** What the answers of the servers make of [GetContent] *)

(** In the worlds of [I] an answer that says yes satisfies [P]. *)
Definition answers (I : W → Prop) (hash : string) (offset length : Z) (P : list byte → Prop) : Prop :=
  ∀ g w, I w → let '(r, w') := rpc_GetContent g hash offset length w in
  I w' ∧ match r with inl resp => gc_Ok resp = true → P (Content resp) | inr _ => True end.

(** From any state of the client, [GetContent] returns what a server answered. *)
Lemma GetContent_answers I now hash offset length RoutingKey P :
  answers I hash offset length P →
  triple (λ s, I s.2)
    (GetContent clientConfig (effective_attempts clientConfig) now hash offset length RoutingKey)
    (λ data s, I s.2 ∧ P data) (λ _ s, I s.2).
Proof.
  intros Ha. unfold GetContent. generalize (routing_key RoutingKey hash) as key. intros key.
  generalize 0%nat as i. induction (max_attempts _ _ _) as [|k IH]; intros i; simpl.
  { by apply triple_throw. }
  assert (triple (λ s : St Hs W, I s.2) (forget hash ≫= λ _,
    GetContent_loop clientConfig now hash offset length key k (i + 1))
    (λ data s, I s.2 ∧ P data) (λ _ s, I s.2)) as Hagain.
  { intros [c w] Hw. exact (IH (i + 1)%nat (uncached hash c, w) Hw). }
  apply (triple_bind _ _ _ (λ _ s, I s.2)).
  { intros [c w] Hw. unfold on_client, zoom. simpl.
    destruct (getGRPCClient clientConfig (now i) (retrieval hash key i) c) as [[?|?|p] c'] eqn:E;
      [done..|]. by apply getGRPCClient_no_panic in E. }
  intros [g h]. apply (triple_bind_attempt _ (λ s, I s.2) _ _
    (λ resp, gc_Ok resp = true → P (Content resp)) (λ _, True)).
  - intros [c w] Hw. unfold on_world. simpl. specialize (Ha g w Hw).
    by destruct (rpc_GetContent g hash offset length w) as [[resp|e] w'].
  - intros resp Hresp. destruct (gc_Ok resp); [|exact Hagain].
    apply triple_ret. auto.
  - intros e _. exact Hagain.
Qed.

End retrieval_properties.

(** *** [WaitForHosts] *)

(** The poll by which a sleep of one second each has used up the timeout. *)
Definition last_poll (timeout : Z) : nat := Z.to_nat (timeout `div` Second + 1).

(** [WaitForHosts] returns: there were hosts at the start or at a poll before the
    deadline, or the deadline passed. *)
Theorem WaitForHosts_returns timeout at_start env :
  0 ≤ timeout → (env (last_poll timeout)).2 = true →
  match WaitForHosts timeout at_start env with
  | Ok _ => HostsAvailable at_start = true ∨
            ∃ i, (i < last_poll timeout)%nat ∧ (env i).2 = false ∧ HostsAvailable (env i).1 = true
  | Err e => e = ErrLib "context deadline exceeded" ∧ HostsAvailable at_start = false ∧
             ∃ i, (i ≤ last_poll timeout)%nat ∧ (env i).2 = true ∧
               ∀ j, (j < i)%nat → HostsAvailable (env j).1 = false
  | Panic _ => False
  end.
Proof.
  intros Ht Hlast. unfold WaitForHosts. destruct (HostsAvailable at_start); [by left|].
  pose proof (triple_loopM (S := ()) (poll_fuel timeout) (WaitForHosts_body env) 0%nat
    (λ i _, (i ≤ last_poll timeout)%nat ∧ ∀ j, (j < i)%nat → HostsAvailable (env j).1 = false)
    (λ i, Z.of_nat (last_poll timeout) - Z.of_nat i) (λ _, True)
    (λ _ _, ∃ i, (i < last_poll timeout)%nat ∧ (env i).2 = false ∧ HostsAvailable (env i).1 = true)
    (λ e _, e = ErrLib "context deadline exceeded" ∧
       ∃ i, (i ≤ last_poll timeout)%nat ∧ (env i).2 = true ∧
         ∀ j, (j < i)%nat → HostsAvailable (env j).1 = false)) as Hl.
  specialize (Hl ltac:(intros i [] [Hi Hj]; unfold WaitForHosts_body;
    destruct (env i).2 eqn:Ed; [simpl; by eauto 10|];
    assert (i ≠ last_poll timeout) by congruence;
    destruct (HostsAvailable (env i).1) eqn:Eh; simpl;
    [exists i; split_and!; [lia|done|done]|
     split_and!; [lia| |lia|lia]; intros j Hj'; destruct (decide (j = i)) as [->|];
     [done|apply Hj; lia]])).
  specialize (Hl ltac:(intros; split; [lia|intros; lia])).
  assert (0 ≤ timeout `div` Second) by (apply Z.div_pos; [done|by unfold Second]).
  specialize (Hl ltac:(unfold poll_fuel, last_poll; rewrite Z2Pos.id by lia; lia) () I).
  destruct (loopM _ _ _ _) as [[[]|e|p] []]; simpl; [by right|by destruct Hl as [-> Hl]|done].
Qed.

(** ** Witnesses and examples *)

(** A hasher that takes the hosts in the order they were added. *)
#[local] Instance list_hasher : RendezvousHasher (list BlobCacheHost) := {
  h_Add h l := l ++ [h];
  h_Remove h l := filter (λ x, x ≠ h) l;
  h_GetN n _ l := take (Z.to_nat n) (remove_dups l);
}.
#[local] Instance list_hasher_laws : HasherLaws (list BlobCacheHost).
Proof.
  refine {| h_nodes := remove_dups |}.
  - intros x s h. simpl. rewrite !elem_of_remove_dups, elem_of_app, list_elem_of_singleton. tauto.
  - intros x s h. simpl. by rewrite !elem_of_remove_dups, list_elem_of_filter.
  - intros s. apply NoDup_remove_dups.
  - intros n key s. apply (NoDup_app (take (Z.to_nat n) (remove_dups s)) (drop (Z.to_nat n) (remove_dups s))).
    rewrite take_drop. apply NoDup_remove_dups.
  - intros n key s h. simpl. intros Hh. by eapply subseteq_take.
  - intros n key s Hn. unfold zlen. simpl. rewrite length_take. lia.
Defined.

(** Servers by address: a content, and whether its stream breaks after the first
    chunk.  Nothing is stored. *)
Abbreviation static_servers := (gmap string (string * list byte * bool)).

Definition static_answer {A} (w : static_servers) (g : GrpcClient) (f : string * list byte * bool → A) :
    (A + error) * static_servers :=
  match w !! target g with
  | Some x => (inl (f x), w)
  | None => (inr (ErrStatus "Unavailable" ""), w)
  end.

Definition refuse {A} : call static_servers A := λ w, (inr (ErrStatus "Unimplemented" ""), w).

#[local] Instance static_service : BlobCacheService static_servers := {
  rpc_GetContent g hash off len w := static_answer w g (λ x,
    if decide (x.1.1 = hash)
    then mkGetContent (take (Z.to_nat len) (drop (Z.to_nat off) x.1.2)) true
    else mkGetContent [] false);
  rpc_HasContent g hash w := static_answer w g (λ x, bool_decide (x.1.1 = hash));
  rpc_GetContentStream g hash off len w := static_answer w g (λ x,
    let want := take (Z.to_nat len) (drop (Z.to_nat off) x.1.2) in
    if decide (x.1.1 = hash) then
      if (x.2 : bool) then ([mkGetContent (take 1 want) true], Some (ErrStatus "Unavailable" ""))
      else ([mkGetContent want true], None)
    else ([], Some (ErrStatus "NotFound" "")));
  rpc_StoreContent _ _ := refuse;
  rpc_StoreContentFromSource _ _ := refuse;
  rpc_StoreContentFromSourceWithLock _ _ := refuse;
  rpc_GetState g w := static_answer w g (λ _, mkState BlobCacheVersion "" (to_f32 (f64_of_Z 0)));
}.

Definition host_n (id addr : string) : BlobCacheHost := mkHost 0 id "" addr (f64_of_Z 0).
Definition host_a : BlobCacheHost := host_n "a" "a:1".
Definition host_b : BlobCacheHost := host_n "b" "b:1".
Definition host_c : BlobCacheHost := host_n "c" "c:1".

(** Three top hosts and two attempts. *)
Definition two_attempts : BlobCacheClientConfig :=
  mkClientConfig "" 0 2 3 (mkBlobFsConfig false "" 0 0 0 false false []).
Definition empty_global : BlobCacheGlobalConfig :=
  mkGlobalConfig "" "" 0 1 0 (f64_of_Z 0) 0 0 0 0 0 0 0 0 false false.
Definition no_dial_error (addr : string) : option error := None.
Definition no_client : BlobCacheClient (list BlobCacheHost) := mkClient ∅ ∅ [] [].

(** A client of three hosts. *)
Definition abc_client : BlobCacheClient (list BlobCacheHost) :=
  (forM [host_a; host_b; host_c] (addHost two_attempts empty_global no_dial_error) no_client).2.

Lemma abc_ready : ready abc_client.
Proof.
  split; [|by intros k lc].
  intros h Hh. change (h ∈ [host_a; host_b; host_c]) in Hh.
  repeat (apply elem_of_cons in Hh as [->|Hh]; [by eexists|]). by apply elem_of_nil in Hh.
Qed.

(** [a] is down, [b] and [c] have the content. *)
Definition a_down : static_servers :=
  {[ "b:1" := ("h", [x01; x02; x03], true); "c:1" := ("h", [x01; x02; x03], false) ]}.


(** The host remembered for the content, [c], lost it, and [a], the first host of the
    key, where contents are stored, has it: the two attempts ask [c] and [b]. *)
Example first_host_is_skipped :
  let c := set_cache (<["h" := mkLocal host_c 0]>) abc_client in
  let w : static_servers := {[ "a:1" := ("h", [x01; x02; x03], true) ]} in
  (GetContent two_attempts (effective_attempts two_attempts) (λ _, 0) "h" 1 2 "" (c, w)).1
    = Err ErrContentNotFound ∧
  plan two_attempts c "h" "h" 0 2 = [host_c; host_b] ∧
  top two_attempts c "h" = [host_a; host_b; host_c].
Proof. by vm_compute. Qed.

(** [a] has another content, [b] has the one asked for. *)
Definition b_has_it : static_servers := {[ "a:1" := ("g", [], false); "b:1" := ("h", [], false) ]}.

(** The second host has the content, and is never asked. *)
Lemma IsCachedNearby_one_host_witness :
  (IsCachedNearby two_attempts (λ _, 0) "h" "k" (abc_client, b_has_it)).1 = Ok false ∧
  ∃ c', lc_host <$> localHostCache c' !! "h" = (if bool_decide (0 < NTopHosts two_attempts)
                                                 then Some host_a
                                                 else lc_host <$> localHostCache abc_client !! "h") ∧
    uncached "h" c' = uncached "h" abc_client ∧
    IsCachedNearby two_attempts (λ _, 0) "h" "k" (abc_client, b_has_it)
    = on_world (ask_again (mkConn "a:1" (dial_opts two_attempts empty_global "a:1")) "h"
                  (Z.to_nat (NTopHosts two_attempts))) (c', b_has_it).
Proof.
  split; [by vm_compute|].
  apply (IsCachedNearby_one_host two_attempts (λ _, 0) "h" "k" abc_client host_a); by vm_compute.
Defined.

(** The content of the hash is the same wherever it is. *)
Definition abc_content : list byte := [x01; x02; x03].
Definition one_content (w : static_servers) : Prop :=
  map_Forall (λ _ x, x.1.1 = "h" → x.1.2 = abc_content) w.

Lemma static_streams off len :
  streams (W := static_servers) one_content "h" off len
    (take (Z.to_nat len) (drop (Z.to_nat off) abc_content)).
Proof.
  intros g w Hw. simpl. unfold static_answer. destruct (w !! target g) as [x|] eqn:Ex; [|done].
  split; [done|]. specialize (Hw _ _ Ex). simpl in Hw.
  destruct (decide (x.1.1 = "h")) as [Hh|]; [rewrite (Hw Hh)|by apply prefix_nil].
  destruct (x.2); simpl; rewrite app_nil_r; [|done].
  rewrite <-(take_drop 1 (take (Z.to_nat len) _)) at 2. by apply prefix_app_r.
Qed.

(** [b]'s stream breaks after one chunk, and the second attempt asks [b] again. *)
Lemma GetContentStream_restarts_witness :
  (GetContentStream two_attempts (effective_attempts two_attempts) (λ _, 0) "h" 0 3 ""
     (set_cache (<["h" := mkLocal host_b 0]>) abc_client,
      {[ "b:1" := ("h", abc_content, true) ]})).1 = Ok [[x01]; [x01]] ∧
  ∃ chunks s', GetContentStream two_attempts (effective_attempts two_attempts) (λ _, 0) "h" 0 3 ""
     (set_cache (<["h" := mkLocal host_b 0]>) abc_client,
      {[ "b:1" := ("h", abc_content, true) ]}) = (Ok chunks, s') ∧
    one_content s'.2 ∧ restarts (take 3 (drop 0 abc_content))
      (max_attempts two_attempts (effective_attempts two_attempts) 3) chunks.
Proof.
  split; [by vm_compute|].
  apply (GetContentStream_restarts two_attempts one_content (λ _, 0) "h" 0 3 "").
  - apply (static_streams 0 3).
  - intros k x Hx. apply lookup_singleton_Some in Hx as [<- <-]. done.
Defined.

(** A stream that breaks is read again from the beginning on the next host: the
    reader gets the first byte twice. *)
Example stream_repeats :
  (GetContentStream two_attempts (effective_attempts two_attempts) (λ _, 0) "h" 0 3 ""
     (abc_client, {[ "a:1" := ("h", abc_content, true); "b:1" := ("h", abc_content, false) ]})).1
  = Ok [[x01]; abc_content].
Proof. by vm_compute. Qed.
