(* ===== verification/Discovery.v ===== *)
(** * Discovery, and the life of a client's hosts: [pkg/discovery.go]

    A round of discovery asks the coordinator for the hosts of the region, gets
    the state of each unknown one in a goroutine of its own, and adds those that
    answer to the host map, which hands them to the client's [addHost].  What the
    hosts answer in a round, and the order in which the goroutines end, are
    arguments.  The steps of a client (rounds, monitor ticks, cleanups, requests)
    make up a transition system. *)

From S2P Require Import Prelude GoStrings FsID Network GoFloat Types Rpc HostMap Coordinator Client.
Local Open Scope Z_scope.

(** ** Definitions *)

(** What a round sees: the answers of [GetState] by TLS and address, the errors of
    [grpc.Dial], the order in which the goroutines append. *)
Record round : Type := mkRound {
  answers : bool → string → GetStateResponse + error;
  dial_errors : string → option error;
  arrival : list BlobCacheHost → list BlobCacheHost;
}.

Definition version_mismatch (v : string) : error :=
  ErrNew ("version mismatch: " +:+ v +:+ " != " +:+ BlobCacheVersion).

(** [GetHostState]: TLS is decided on one address, and [PrivateAddr] is dialled. *)
Definition GetHostState (r : round) (host : BlobCacheHost) : res BlobCacheHost :=
  match answers r (isTLSEnabled (dial_addr host)) (PrivateAddr host) with
  | inr err => Err err
  | inl resp =>
      if bool_decide (gs_Version resp = BlobCacheVersion)
      then Ok (mkHost 0 (HostId host) (Addr host) (PrivateAddr host)
                 (to_f64 (gs_CapacityUsagePct resp)))
      else Err (version_mismatch (gs_Version resp))
  end.

Definition answered (r : round) (host : BlobCacheHost) : option BlobCacheHost :=
  match GetHostState r host with Ok h => Some h | _ => None end.

(** [discoverHosts], over the call that lists the hosts of the region. *)
Definition discoverHosts {T} (GetAvailableHosts : M T (list BlobCacheHost)) (r : round) :
    M (hosts * T) (list BlobCacheHost) :=
  hs ← zoom snd (λ t s, (s.1, t)) GetAvailableHosts;
  hm ← gets fst;
  mret (arrival r (omap (answered r) (filter (λ h, HostMap_Get hm (HostId h) = None) hs))).

Definition updateHostMap {T} (onHostAdded : option (BlobCacheHost → M T ()))
    (newHosts : list BlobCacheHost) : M (hosts * T) () :=
  forM newHosts (HostMap_Set onHostAdded).

Section client.
Context {Hs W : Type} `{RendezvousHasher Hs} `{CoordinatorClient W} `{BlobCacheService W}.
Context (clientConfig : BlobCacheClientConfig) (globalConfig : BlobCacheGlobalConfig).
Context (locality : string).

Definition add_callback (r : round) (host : BlobCacheHost) : M (St Hs W) () :=
  on_client (addHost clientConfig globalConfig (dial_errors r) host).

(** One turn of [Start]: an error of the coordinator leaves everything as it is. *)
Definition discovery_round (r : round) : M (hosts * St Hs W) () :=
  hs ← attempt (discoverHosts (GetNearbyHosts locality) r);
  match hs with
  | inr _ => mret tt
  | inl hs => updateHostMap (Some (add_callback r)) hs
  end.

(** [Start]: a round at once, then one per tick. *)
Definition Start (rounds : list round) : M (hosts * St Hs W) () := forM rounds discovery_round.

(** ** The steps of a client *)

Inductive client_call : Type :=
  | CallGetContent (hash : string) (offset length : Z) (RoutingKey : string)
  | CallGetContentStream (hash : string) (offset length : Z) (RoutingKey : string)
  | CallIsCachedNearby (hash key : string)
  | CallStoreContent (chunks : list (list byte)) (hash RoutingKey : string)
  | CallStoreContentFromFUSE (path RoutingKey : string) (lock : bool)
  | CallStoreContentFromS3 (source : CacheSource) (RoutingKey : string) (lock : bool)
  | CallGetState.

Definition run_client_call (now : nat → Z) (x : client_call) : M (St Hs W) () :=
  let n := effective_attempts clientConfig in
  match x with
  | CallGetContent hash off len key => ignore (GetContent clientConfig n now hash off len key)
  | CallGetContentStream hash off len key =>
      ignore (GetContentStream clientConfig n now hash off len key)
  | CallIsCachedNearby hash key => ignore (IsCachedNearby clientConfig now hash key)
  | CallStoreContent chunks hash key =>
      ignore (StoreContent clientConfig (now 0%nat) chunks hash key)
  | CallStoreContentFromFUSE path key lock =>
      ignore (StoreContentFromFUSE clientConfig (now 0%nat) path key lock)
  | CallStoreContentFromS3 source key lock =>
      ignore (StoreContentFromS3 clientConfig (now 0%nat) source key lock)
  | CallGetState => ignore (GetState clientConfig (now 0%nat))
  end.

(** The hosts that the coordinator ever names, and what a client can know of them. *)
Context (available : BlobCacheHost → Prop).
Definition known (h : BlobCacheHost) : Prop :=
  ∃ h0, available h0 ∧ HostId h = HostId h0 ∧ Addr h = Addr h0.

(** What happens to a client: a host that answered is set in the host map, a
    running monitor ticks, the cache is cleaned up, a call is made, and the servers
    do something.  A round of discovery is a sequence of the first. *)
Inductive step : hosts * St Hs W → hosts * St Hs W → Prop :=
  | step_set r h0 h s : available h0 → answered r h0 = Some h →
      step s (HostMap_Set (Some (add_callback r)) h s).2
  | step_monitor host s : host ∈ monitors s.2.1 → step s (monitorHost_tick host s).2
  | step_cleanup ttl now hm s : step (hm, s) (hm, (cleanup_tick ttl now s).2)
  | step_call now x hm s : step (hm, s) (hm, (run_client_call now x s).2)
  | step_world hm c w w' : step (hm, (c, w)) (hm, (c, w')).

Definition NewBlobCacheClient (empty_hasher : Hs) : hosts * BlobCacheClient Hs :=
  (∅, mkClient ∅ ∅ empty_hasher []).

End client.

(** ** A round: lemmas *)

Section round_lemmas.
Context {Hs W : Type} `{HasherLaws Hs} `{CoordinatorClient W} `{BlobCacheService W}.
Context (clientConfig : BlobCacheClientConfig) (globalConfig : BlobCacheGlobalConfig).
Implicit Types c : BlobCacheClient Hs.

Lemma answered_Some r h0 h : answered r h0 = Some h → HostId h = HostId h0 ∧ Addr h = Addr h0 ∧
  PrivateAddr h = PrivateAddr h0.
Proof.
  unfold answered, GetHostState. destruct (answers _ _ _) as [resp|e]; [|done].
  case_bool_decide; [|done]. by intros [= <-].
Qed.

(** The hosts that [grpc.Dial] takes. *)
Definition dials (r : round) (h : BlobCacheHost) : Prop := dial_errors r (dial_addr h) = None.
#[local] Instance dials_dec r h : Decision (dials r h).
Proof. unfold dials. apply _. Defined.

(** What [Set] does with a host that the map does not have. *)
Definition added (r : round) (h : BlobCacheHost) c : BlobCacheClient Hs :=
  if decide (dials r h) then
    mkClient (<[HostId h := mkConn (dial_addr h) (dial_opts clientConfig globalConfig (dial_addr h))]>
                (grpcClients c))
      (localHostCache c) (h_Add h (hasher c)) (h :: monitors c)
  else c.

Lemma HostMap_Set_run r h hm c (w : W) :
  HostMap_Set (Some (add_callback clientConfig globalConfig r)) h (hm, (c, w))
  = (Ok tt, match hm !! HostId h with
            | Some _ => (hm, (c, w))
            | None => (<[HostId h := h]> hm, (added r h c, w))
            end).
Proof.
  unfold HostMap_Set, mbind, M_bind. simpl. destruct (hm !! HostId h); [done|].
  unfold zoom, ignore, attempt, mbind, M_bind, add_callback, on_client, zoom, addHost, added.
  simpl. unfold dials. destruct (decide (dial_errors r (dial_addr h) = None)) as [->|Hd]; [done|].
  by destruct (dial_errors r (dial_addr h)).
Qed.

(** The hosts of a list, by id. *)
Definition by_id (l : list BlobCacheHost) : hosts := list_to_map (map (λ h, (HostId h, h)) l).
Definition connections (l : list BlobCacheHost) : gmap string GrpcClient :=
  list_to_map (map (λ h, (HostId h, mkConn (dial_addr h)
    (dial_opts clientConfig globalConfig (dial_addr h)))) l).

Lemma by_id_None l id : id ∉ map HostId l → by_id l !! id = None.
Proof.
  intros Hid. unfold by_id. apply (not_elem_of_list_to_map_1 (M:=gmap string)). by rewrite map_map.
Qed.

(** All of [updateHostMap], for hosts of different ids that the map does not have. *)
Lemma updateHostMap_run r l : ∀ hm c (w : W),
  NoDup (map HostId l) → (∀ h, h ∈ l → hm !! HostId h = None) →
  updateHostMap (Some (add_callback clientConfig globalConfig r)) l (hm, (c, w))
  = (Ok tt, (by_id l ∪ hm, (foldl (λ c h, added r h c) c l, w))).
Proof.
  induction l as [|h l IH]; intros hm c w Hn Hl.
  { unfold by_id. simpl. by rewrite (left_id_L ∅ (∪)). }
  simpl in Hn. apply NoDup_cons in Hn as [Hh Hn].
  unfold updateHostMap in IH |- *. simpl. rewrite (bind_Ok _ _ _ _ _ (HostMap_Set_run r h hm c w)).
  rewrite Hl by by left. rewrite (IH (<[HostId h:=h]> hm) (added r h c) w Hn).
  - do 2 f_equal. unfold by_id. simpl. fold (by_id l).
    rewrite <-insert_union_r by by apply by_id_None. by rewrite insert_union_l.
  - intros h' Hh'. rewrite lookup_insert_ne; [apply Hl; by right|].
    intros E. apply Hh. rewrite E. by apply list_elem_of_fmap_2.
Qed.

(** What the client has after adding the hosts of a list. *)
Lemma foldl_added r l : ∀ c, NoDup (map HostId l) →
  let c' := foldl (λ c h, added r h c) c l in
  let l' := filter (dials r) l in
  grpcClients c' = connections l' ∪ grpcClients c ∧ localHostCache c' = localHostCache c ∧
  (∀ h, h ∈ h_nodes (hasher c') ↔ h ∈ l' ∨ h ∈ h_nodes (hasher c)) ∧
  monitors c' = rev l' ++ monitors c.
Proof.
  induction l as [|h l IH]; intros c Hn.
  { simpl. unfold connections. simpl. rewrite (left_id_L ∅ (∪)). split_and!; [done..| |done].
    intros h. rewrite elem_of_nil. tauto. }
  simpl in Hn. apply NoDup_cons in Hn as [Hh Hn]. simpl.
  destruct (IH (added r h c) Hn) as (Eg & Ec & IHh & Em). rewrite Eg, Ec, Em. clear Eg Ec Em.
  destruct (decide (dials r h)) as [Hd|Hd].
  - rewrite filter_cons_True by done. simpl.
    assert (∀ A (f : BlobCacheClient Hs → A), f (added r h c) = f (mkClient
      (<[HostId h := mkConn (dial_addr h) (dial_opts clientConfig globalConfig (dial_addr h))]>
        (grpcClients c)) (localHostCache c) (h_Add h (hasher c)) (h :: monitors c))) as Ha
      by (intros; unfold added; by rewrite decide_True).
    split_and!; [|by rewrite Ha| |rewrite Ha; simpl; by rewrite <-(assoc_L (++))].
    + rewrite Ha. unfold connections. simpl. fold (connections (filter (dials r) l)).
      rewrite <-insert_union_r; [by rewrite insert_union_l|].
      apply (not_elem_of_list_to_map_1 (M:=gmap string)). rewrite map_map. intros Hin. apply Hh.
      apply list_elem_of_fmap in Hin as (h' & E & Hin). apply list_elem_of_filter in Hin as [_ Hin].
      simpl in E. rewrite E. by apply list_elem_of_fmap_2.
    + intros h'. rewrite IHh, Ha. simpl. rewrite h_Add_nodes, elem_of_cons. tauto.
  - rewrite filter_cons_False by done.
    assert (added r h c = c) as Ha by (unfold added; by rewrite decide_False).
    rewrite Ha in *. split_and!; [done..| |done]. exact IHh.
Qed.

(** The hosts a round adds. *)
Definition round_hosts (hm : hosts) (r : round) (hs : list BlobCacheHost) : list BlobCacheHost :=
  arrival r (omap (answered r) (filter (λ h, HostMap_Get hm (HostId h) = None) hs)).

Lemma omap_answered_ids r l : NoDup (map HostId l) → NoDup (map HostId (omap (answered r) l)).
Proof.
  induction l as [|h l IH]; [done|]. simpl. intros [Hh Hn]%NoDup_cons.
  destruct (answered r h) as [h'|] eqn:E; [|by apply IH]. simpl. apply NoDup_cons. split; [|by apply IH].
  apply answered_Some in E as (-> & _). intros Hin. apply Hh.
  apply list_elem_of_fmap in Hin as (x & Ex & Hx). apply list_elem_of_omap in Hx as (y & Hy & Ey).
  apply answered_Some in Ey as (Ey & _). rewrite Ex, Ey. by apply list_elem_of_fmap_2.
Qed.

Lemma filter_ids (P : BlobCacheHost → Prop) `{∀ h, Decision (P h)} l :
  NoDup (map HostId l) → NoDup (map HostId (filter P l)).
Proof.
  induction l as [|h l IH]; [done|]. simpl. intros [Hh Hn]%NoDup_cons. rewrite filter_cons.
  destruct (decide (P h)); [|by apply IH]. simpl. apply NoDup_cons. split; [|by apply IH].
  intros Hin. apply Hh. apply list_elem_of_fmap in Hin as (x & -> & Hx).
  apply list_elem_of_filter in Hx as [_ Hx]. by apply list_elem_of_fmap_2.
Qed.

Lemma round_hosts_spec hm r hs :
  (∀ l, arrival r l ≡ₚ l) → NoDup (map HostId hs) →
  NoDup (map HostId (round_hosts hm r hs)) ∧
  (∀ h, h ∈ round_hosts hm r hs ↔
     hm !! HostId h = None ∧ ∃ h0, h0 ∈ hs ∧ answered r h0 = Some h).
Proof.
  intros Ha Hn. unfold round_hosts. split.
  - assert (∀ l l' : list BlobCacheHost, l ≡ₚ l' → map HostId l ≡ₚ map HostId l') as Hmap
      by (intros l l' Hp; by rewrite Hp).
    rewrite (Hmap _ _ (Ha _)). apply omap_answered_ids.
    by apply filter_ids.
  - intros h. rewrite (Ha _), list_elem_of_omap. split.
    + intros (h0 & [Hg Hin]%list_elem_of_filter & E). split; [|eauto].
      pose proof (answered_Some _ _ _ E) as (-> & _). exact Hg.
    + intros [Hg (h0 & Hin & E)]. exists h0. split; [|done]. apply list_elem_of_filter. split; [|done].
      pose proof (answered_Some _ _ _ E) as (<- & _). exact Hg.
Qed.

Lemma discoverHosts_run locality r hm c (w w' : W) hs :
  c_GetAvailableHosts locality w = (Ok hs, w') →
  discoverHosts (GetNearbyHosts locality) r (hm, (c, w)) = (Ok (round_hosts hm r hs), (hm, (c, w'))).
Proof. intros Hc. unfold discoverHosts, GetNearbyHosts, zoom, mbind, M_bind. simpl. by rewrite Hc. Qed.

Lemma discovery_round_run locality r hm c (w w' : W) hs :
  (∀ l, arrival r l ≡ₚ l) → c_GetAvailableHosts locality w = (Ok hs, w') → NoDup (map HostId hs) →
  let l := round_hosts hm r hs in
  discovery_round clientConfig globalConfig locality r (hm, (c, w))
  = (Ok tt, (by_id l ∪ hm, (foldl (λ c h, added r h c) c l, w'))).
Proof.
  intros Ha Hc Hn l. destruct (round_hosts_spec hm r hs Ha Hn) as [Hl Hin].
  unfold discovery_round.
  rewrite (bind_attempt_Ok _ _ _ l (hm, (c, w'))) by by apply discoverHosts_run.
  apply updateHostMap_run; [exact Hl|]. intros h Hh. by apply Hin.
Qed.

Lemma by_id_lookup l id h : NoDup (map HostId l) → by_id l !! id = Some h ↔ h ∈ l ∧ HostId h = id.
Proof.
  intros Hn. unfold by_id. rewrite <-(elem_of_list_to_map (M:=gmap string)) by by rewrite map_map.
  rewrite list_elem_of_fmap. naive_solver.
Qed.

Lemma by_id_perm l l' : NoDup (map HostId l) → l ≡ₚ l' → by_id l = by_id l'.
Proof.
  intros Hn Hp. unfold by_id. apply (list_to_map_proper (M:=gmap string)).
  - by rewrite map_map.
  - by apply fmap_Permutation.
Qed.

Lemma connections_perm l l' : NoDup (map HostId l) → l ≡ₚ l' → connections l = connections l'.
Proof.
  intros Hn Hp. unfold connections. apply (list_to_map_proper (M:=gmap string)).
  - by rewrite map_map.
  - by apply fmap_Permutation.
Qed.

(** *** Properties of a round *)

(** C18: the order in which the goroutines of a round end does not matter: two
    rounds that see the same answers leave the same host map, the same
    connections, the same cache and world, the same hosts in the hasher, and the
    same monitors up to their order. *)
Theorem discovery_order locality r1 r2 hm c (w w' : W) hs :
  answers r1 = answers r2 → dial_errors r1 = dial_errors r2 →
  (∀ l, arrival r1 l ≡ₚ l) → (∀ l, arrival r2 l ≡ₚ l) →
  c_GetAvailableHosts locality w = (Ok hs, w') → NoDup (map HostId hs) →
  let '(o1, (hm1, (c1, w1))) := discovery_round clientConfig globalConfig locality r1 (hm, (c, w)) in
  let '(o2, (hm2, (c2, w2))) := discovery_round clientConfig globalConfig locality r2 (hm, (c, w)) in
  o1 = Ok tt ∧ o2 = Ok tt ∧ hm1 = hm2 ∧ w1 = w2 ∧
  grpcClients c1 = grpcClients c2 ∧ localHostCache c1 = localHostCache c2 ∧
  (∀ h, h ∈ h_nodes (hasher c1) ↔ h ∈ h_nodes (hasher c2)) ∧ monitors c1 ≡ₚ monitors c2.
Proof.
  intros Ea Ed Ha1 Ha2 Hc Hn.
  rewrite (discovery_round_run _ r1 hm c w w' hs), (discovery_round_run _ r2 hm c w w' hs) by done.
  destruct (round_hosts_spec hm r1 hs Ha1 Hn) as [Hn1 _].
  destruct (round_hosts_spec hm r2 hs Ha2 Hn) as [Hn2 _].
  assert (round_hosts hm r1 hs ≡ₚ round_hosts hm r2 hs) as Hp.
  { unfold round_hosts. rewrite (Ha1 _), (Ha2 _). apply reflexive_eq.
    apply list_omap_ext, Forall2_same_length_lookup_2; [done|].
    intros i x y Hx Hy. assert (x = y) as -> by congruence.
    unfold answered, GetHostState. by rewrite Ea. }
  revert Hn1 Hn2 Hp. generalize (round_hosts hm r1 hs) as l1, (round_hosts hm r2 hs) as l2.
  intros l1 l2 Hn1 Hn2 Hp.
  destruct (foldl_added r1 l1 c Hn1) as (-> & -> & Hh1 & ->).
  destruct (foldl_added r2 l2 c Hn2) as (-> & -> & Hh2 & ->).
  assert (filter (dials r1) l1 ≡ₚ filter (dials r2) l2) as Hf.
  { assert (filter (dials r2) l2 = filter (dials r1) l2) as ->
      by (apply list_filter_iff; intros x; unfold dials; by rewrite Ed).
    by rewrite Hp. }
  split_and!; [done..|by rewrite (by_id_perm l1 l2)|done| |done| |].
  - rewrite (connections_perm _ _ (filter_ids _ _ Hn1) Hf). done.
  - intros h. rewrite Hh1, Hh2, Hf. done.
  - by rewrite <-!Permutation_rev, Hf.
Qed.

(** What a host of the region answered, and what the client makes of it. *)
Lemma GetHostState_Ok r h0 h :
  GetHostState r h0 = Ok h ↔
  ∃ resp, answers r (isTLSEnabled (dial_addr h0)) (PrivateAddr h0) = inl resp ∧
    gs_Version resp = BlobCacheVersion ∧
    h = mkHost 0 (HostId h0) (Addr h0) (PrivateAddr h0) (to_f64 (gs_CapacityUsagePct resp)).
Proof.
  unfold GetHostState. destruct (answers _ _ _) as [resp|e].
  - case_bool_decide as Hv; split.
    + intros [= <-]. eauto.
    + by intros (? & [= <-] & _ & ->).
    + done.
    + by intros (? & [= <-] & Hv' & _).
  - split; [done|]. by intros (? & ? & _).
Qed.

Lemma answered_Ok r h0 h : answered r h0 = Some h ↔ GetHostState r h0 = Ok h.
Proof. unfold answered. destruct (GetHostState r h0); naive_solver. Qed.

(** C21: a round finds the hosts of the region that the host map does not have and
    that answer with the version of the client, no others, with the usage that they
    answer.  After it the host map has what it had,
    and the hosts found; those of them that could be dialled are in the hasher, and no
    others are new there. *)
Theorem discovery_adds locality r hm c (w w' : W) hs :
  (∀ l, arrival r l ≡ₚ l) → c_GetAvailableHosts locality w = (Ok hs, w') →
  NoDup (map HostId hs) →
  let found h := hm !! HostId h = None ∧
    ∃ h0 resp, h0 ∈ hs ∧
      answers r (isTLSEnabled (dial_addr h0)) (PrivateAddr h0) = inl resp ∧
      gs_Version resp = BlobCacheVersion ∧
      h = mkHost 0 (HostId h0) (Addr h0) (PrivateAddr h0) (to_f64 (gs_CapacityUsagePct resp)) in
  (∃ l s', discoverHosts (GetNearbyHosts locality) r (hm, (c, w)) = (Ok l, s') ∧
     NoDup l ∧ ∀ h, h ∈ l ↔ found h) ∧
  let '(o, (hm', (c', _))) := discovery_round clientConfig globalConfig locality r (hm, (c, w)) in
  o = Ok tt ∧
  (∀ id h, hm' !! id = Some h ↔ hm !! id = Some h ∨ HostId h = id ∧ found h) ∧
  (∀ h, h ∈ h_nodes (hasher c') ↔
     h ∈ h_nodes (hasher c) ∨ dial_errors r (dial_addr h) = None ∧ found h).
Proof.
  intros Ha Hc Hn found.
  destruct (round_hosts_spec hm r hs Ha Hn) as [Hl Hin].
  assert (∀ h, h ∈ round_hosts hm r hs ↔ found h) as Hfound.
  { intros h. rewrite Hin. unfold found. setoid_rewrite answered_Ok. setoid_rewrite GetHostState_Ok.
    naive_solver. }
  split.
  { eexists (round_hosts hm r hs), _. split; [|split; [by apply NoDup_fmap_1 in Hl|exact Hfound]].
    by apply discoverHosts_run. }
  rewrite (discovery_round_run _ r hm c w w' hs) by done. split; [done|]. split.
  - intros id h. rewrite lookup_union_Some_raw, by_id_lookup by done. rewrite Hfound. split.
    + intros [[Hf <-]|[_ Hh]]; [by right|by left].
    + intros [Hh|[<- Hf]]; [|by left]. right. split; [|done].
      apply by_id_None. intros Hx. apply list_elem_of_fmap in Hx as (x & -> & [Hx _]%Hfound). congruence.
  - intros h. destruct (foldl_added r (round_hosts hm r hs) c Hl) as (_ & _ & -> & _).
    rewrite list_elem_of_filter, Hfound. unfold dials. tauto.
Qed.

End round_lemmas.

(** ** The life of a client: lemmas *)

Section life.
Context {Hs W : Type} `{HasherLaws Hs} `{CoordinatorClient W} `{BlobCacheService W}.
Context (clientConfig : BlobCacheClientConfig) (globalConfig : BlobCacheGlobalConfig).
Context (available : BlobCacheHost → Prop).
Context (addr_not_id : ∀ h h', available h → available h' → Addr h ≠ HostId h').
Implicit Types c : BlobCacheClient Hs.
Implicit Types s : hosts * St Hs W.

(** A request changes the cache only, and puts there hosts of the hasher only. *)
Definition requested (c0 c : BlobCacheClient Hs) : Prop :=
  grpcClients c = grpcClients c0 ∧ hasher c = hasher c0 ∧ monitors c = monitors c0 ∧
  ∀ k lc, localHostCache c !! k = Some lc →
    (∃ k' lc', localHostCache c0 !! k' = Some lc' ∧ lc_host lc' = lc_host lc) ∨
    lc_host lc ∈ h_nodes (hasher c0).

Section keeps_requested.
Context (c0 : BlobCacheClient Hs).
#[local] Abbreviation K := (λ s : St Hs W, requested c0 s.1).

Lemma requested_cache c f : requested c0 c →
  (∀ k lc, f (localHostCache c) !! k = Some lc →
     localHostCache c !! k = Some lc ∨ lc_host lc ∈ h_nodes (hasher c0)) →
  requested c0 (set_cache f c).
Proof.
  intros (Eg & Eh & Em & Hc) Hf. split_and!; [done..|]. intros k lc Hk. simpl in Hk.
  destruct (Hf k lc Hk) as [Hk'|]; [by apply (Hc k)|by right].
Qed.

Lemma forget_requested c hash : requested c0 c → requested c0 (set_cache (delete hash) c).
Proof.
  intros Hc. apply requested_cache; [done|]. intros k lc [_ Hk]%lookup_delete_Some. by left.
Qed.

Lemma getGRPCClient_requested now request : keeps (requested c0) (getGRPCClient clientConfig now request).
Proof.
  unfold getGRPCClient. apply keeps_bind.
  - destruct (rt request); [unfold pick_host; keeps_auto|].
    apply keeps_bind; [keeps_auto|]. intros [cached|]; [keeps_auto|].
    intros c Hc. unfold mbind, M_bind. simpl.
    assert (∃ o, pick_host (h_GetN (NTopHosts clientConfig) (key request) (hasher c))
        (hostIndex request) c = (o, c) ∧
      ∀ h, o = Ok (Some h) → h ∈ h_nodes (hasher c)) as (o & -> & Ho).
    { unfold pick_host, or_panic, mbind, M_bind. case_bool_decide; [|by eexists].
      case_bool_decide; [by eexists|].
      destruct (_ !! _) as [h|] eqn:Eh; [|by eexists]. eexists. split; [done|].
      intros h' [= <-]. eapply h_GetN_nodes. by eapply list_elem_of_lookup_2. }
    destruct o as [[h|]|e|p]; [|done..]. simpl.
    apply requested_cache; [done|]. intros k lc. specialize (Ho h eq_refl).
    destruct Hc as (_ & Eh & _). rewrite Eh in Ho.
    intros [[_ <-]|[_ Hk]]%lookup_insert_Some; [by right|by left].
  - intros [h|]; [|keeps_auto]. apply keeps_bind; [keeps_auto|]. intros [g|]; [keeps_auto|].
    apply keeps_bind; [|intros _; keeps_auto]. apply keeps_modify. intros c. apply forget_requested.
Qed.

Lemma on_client_keeps {A} (m : M (BlobCacheClient Hs) A) :
  keeps (requested c0) m → keeps K (on_client m).
Proof. intros Hm. by apply (keeps_zoom K (requested c0)); [exact Hm|..]. Qed.

Lemma on_world_keeps {A} (m : call W A) : keeps K (on_world m).
Proof. intros [c w] Hc. unfold on_world. simpl. by destruct (m w) as [[]]. Qed.

Lemma getGRPCClient_keeps now request : keeps K (on_client (getGRPCClient clientConfig now request)).
Proof. apply on_client_keeps, getGRPCClient_requested. Qed.

Lemma forget_keeps hash : keeps K (forget hash).
Proof. apply on_client_keeps, keeps_modify. intros c. apply forget_requested. Qed.

#[local] Hint Resolve getGRPCClient_keeps forget_keeps on_world_keeps : keeps.

Lemma run_client_call_keeps now x : keeps K (run_client_call clientConfig now x).
Proof.
  destruct x; simpl; apply keeps_ignore.
  - unfold GetContent. generalize 0%nat as i.
    induction (max_attempts _ _ _) as [|n IH]; intros i; simpl; keeps_auto; apply IH.
  - unfold GetContentStream. generalize 0%nat as i.
    induction (max_attempts _ _ _) as [|n IH]; intros i; simpl; keeps_auto; apply IH.
  - unfold IsCachedNearby. generalize 0%nat as i.
    induction (Z.to_nat (NTopHosts clientConfig)) as [|n IH]; intros i; simpl; keeps_auto; apply IH.
  - unfold StoreContent. keeps_auto.
  - unfold StoreContentFromFUSE, store_from_source. keeps_auto.
  - unfold StoreContentFromS3, store_from_source. keeps_auto.
  - unfold GetState. keeps_auto.
Qed.

End keeps_requested.

Lemma requested_refl c : requested c c.
Proof. split_and!; [done..|]. intros k lc Hk. left. eauto. Qed.

(** ** The invariant *)

#[local] Abbreviation known := (known available).

Record routing_wf s : Prop := {
  (** the host map is keyed by the ids of its hosts *)
  rw_map : ∀ id h, s.1 !! id = Some h → HostId h = id ∧ known h;
  (** every monitored host is in the host map, and has one monitor *)
  rw_monitors : ∀ h, h ∈ monitors s.2.1 → s.1 !! HostId h = Some h;
  rw_once : NoDup (monitors s.2.1);
  (** the hasher routes to the monitored hosts *)
  rw_nodes : ∀ h, h ∈ h_nodes (hasher s.2.1) ↔ h ∈ monitors s.2.1;
  rw_cache : ∀ k lc, localHostCache s.2.1 !! k = Some lc → known (lc_host lc);
  (** every host that a request can be routed to has a connection *)
  rw_ready : ready s.2.1;
}.

Lemma known_addr h h' : known h → known h' → Addr h ≠ HostId h'.
Proof.
  intros (h0 & Ha & _ & ->) (h1 & Ha' & -> & _). by apply addr_not_id.
Qed.

Lemma routing_wf_requested hm c c' w w' :
  routing_wf (hm, (c, w)) → requested c c' → routing_wf (hm, (c', w')).
Proof.
  intros [Hm Hmon Hone Hn Hc [Hr1 Hr2]] (Eg & Eh & Em & Hreq). simpl in *.
  assert (∀ h, h ∈ h_nodes (hasher c) → known h) as Hk.
  { intros h Hh%Hn%Hmon. by apply Hm in Hh as [_ Hh]. }
  split; simpl; [done|by rewrite Em|by rewrite Em|by rewrite Eh, Em| |split].
  - intros k lc Hkl. destruct (Hreq k lc Hkl) as [(k' & lc' & Hc' & <-)|]; [by apply (Hc k')|by apply Hk].
  - rewrite Eg, Eh. exact Hr1.
  - intros k lc Hkl. rewrite Eg.
    destruct (Hreq k lc Hkl) as [(k' & lc' & Hc' & <-)|]; [by apply (Hr2 k')|by apply Hr1].
Qed.

Lemma end_monitor_spec host l h : NoDup l → h ∈ end_monitor host l ↔ h ∈ l ∧ h ≠ host.
Proof.
  induction l as [|x l IH]; simpl; [rewrite elem_of_nil; tauto|]. intros [Hx Hl]%NoDup_cons.
  case_decide as E; rewrite elem_of_cons.
  - subst x. naive_solver.
  - rewrite elem_of_cons, IH by done. naive_solver.
Qed.

Lemma end_monitor_NoDup host l : NoDup l → NoDup (end_monitor host l).
Proof.
  induction l as [|x l IH]; simpl; [done|]. intros [Hx Hl]%NoDup_cons. case_decide; [done|].
  apply NoDup_cons. split; [|by apply IH]. rewrite end_monitor_spec by done. tauto.
Qed.

Lemma routing_wf_set r h0 h hm c w :
  routing_wf (hm, (c, w)) → available h0 → answered r h0 = Some h →
  routing_wf (HostMap_Set (Some (add_callback clientConfig globalConfig r)) h (hm, (c, w))).2.
Proof.
  intros Hwf Ha E. rewrite HostMap_Set_run. simpl. destruct (hm !! HostId h) as [h'|] eqn:Eh; [done|].
  destruct Hwf as [Hm Hmon Hone Hn Hc [Hr1 Hr2]]. simpl in *.
  assert (known h) as Hk by (exists h0; by apply answered_Some in E as (? & ? & _)).
  assert (∀ id h', <[HostId h:=h]> hm !! id = Some h' → HostId h' = id ∧ known h') as Hm'.
  { intros id h' [[<- <-]|[_ Hh']]%lookup_insert_Some; [done|by apply Hm]. }
  assert (∀ h', h' ∈ monitors c → HostId h ≠ HostId h') as Hne.
  { intros h' Hh' E'. apply Hmon in Hh'. rewrite <-E', Eh in Hh'. done. }
  unfold added. destruct (decide (dials r h)) as [Hd|Hd]; split; simpl; try done.
  - intros h' [->|Hh']%elem_of_cons; [by rewrite lookup_insert_eq|].
    rewrite lookup_insert_ne by auto. auto.
  - apply NoDup_cons. split; [|done]. intros Hh'. by apply (Hne h).
  - intros h'. by rewrite h_Add_nodes, elem_of_cons, Hn.
  - split; simpl.
    + intros h' [->|Hh']%h_Add_nodes; [by rewrite lookup_insert_eq|].
      destruct (decide (HostId h = HostId h')) as [<-|]; [by rewrite lookup_insert_eq|].
      rewrite lookup_insert_ne by done. auto.
    + intros k lc Hk'. destruct (decide (HostId h = HostId (lc_host lc))) as [<-|];
        [by rewrite lookup_insert_eq|]. rewrite lookup_insert_ne by done. by eapply Hr2.
  - intros h' Hh'. rewrite lookup_insert_ne by auto. auto.
Qed.

Lemma drop_host_run host hm c (w : W) :
  drop_host host (hm, (c, w)) =
  (Ok tt, (delete (HostId host) hm, (mkClient (delete (Addr host) (grpcClients c))
     (localHostCache c) (h_Remove host (hasher c)) (end_monitor host (monitors c)), w))).
Proof.
  unfold drop_host, HostMap_Remove, mbind, M_bind. simpl.
  destruct (hm !! HostId host) eqn:E; simpl; [done|]. by rewrite (delete_id hm).
Qed.

Lemma routing_wf_drop host hm c w :
  routing_wf (hm, (c, w)) → host ∈ monitors c → routing_wf (drop_host host (hm, (c, w))).2.
Proof.
  intros [Hm Hmon Hone Hn Hc [Hr1 Hr2]] Hhost. rewrite drop_host_run. simpl in *.
  assert (∀ h, h ∈ monitors c → h ≠ host → HostId host ≠ HostId h) as Hne.
  { intros h Hh Hx E. apply Hx. apply Hmon in Hh, Hhost. rewrite <-E in Hh. congruence. }
  assert (known host) as Hkh by by apply Hmon, Hm in Hhost as [_ ?].
  split; simpl.
  - intros id h [_ Hh]%lookup_delete_Some. by apply Hm.
  - intros h [Hh Hx]%end_monitor_spec; [|done]. rewrite lookup_delete_ne by auto. auto.
  - by apply end_monitor_NoDup.
  - intros h. rewrite h_Remove_nodes, end_monitor_spec by done. rewrite Hn. tauto.
  - exact Hc.
  - split; simpl.
    + intros h [_ Hh]%h_Remove_nodes. rewrite lookup_delete_ne; [by apply Hr1|].
      apply known_addr; [done|]. apply Hn, Hmon, Hm in Hh. apply Hh.
    + intros k lc Hk. rewrite lookup_delete_ne; [by eapply Hr2|].
      apply known_addr; [done|by eapply Hc].
Qed.

Lemma probe_world host c w : (probe (Hs:=Hs) host (c, w)).2.1 = c.
Proof.
  unfold probe, attempt, on_world, mbind, M_bind. simpl. destruct (grpcClients c !! _); [|done].
  simpl. destruct (rpc_GetState _ w) as [[resp|e] w']; simpl; [|done]. by case_bool_decide.
Qed.

Lemma probe_no_panic host c w p : (probe (Hs:=Hs) host (c, w)).1 ≠ Panic p.
Proof.
  unfold probe, attempt, on_world, mbind, M_bind. simpl. destruct (grpcClients c !! _); [|done].
  simpl. destruct (rpc_GetState _ w) as [[resp|e] w']; simpl; [|done]. by case_bool_decide.
Qed.

Lemma monitorHost_tick_run host hm c (w : W) : ∃ w',
  (monitorHost_tick host (hm, (c, w))).2 = (hm, (c, w')) ∨
  (monitorHost_tick host (hm, (c, w))).2 = (drop_host host (hm, (c, w'))).2.
Proof.
  unfold monitorHost_tick, zoom. pose proof (probe_world host c w) as Hp.
  unfold attempt, mbind, M_bind. simpl.
  destruct (probe host (c, w)) as [[a|e|p] [c' w']]; simpl in *; subst c'; exists w'; auto.
Qed.

Lemma routing_wf_step s s' :
  routing_wf s → step clientConfig globalConfig available s s' → routing_wf s'.
Proof.
  intros Hwf Hst. destruct Hst as [r h0 h [hm [c w]] Ha E|host [hm [c w]] Hh|ttl now hm [c w]|now x hm [c w]|hm c w w'].
  - by apply (routing_wf_set r h0).
  - destruct (monitorHost_tick_run host hm c w) as (w' & [-> | ->]).
    + eapply routing_wf_requested; [exact Hwf|apply requested_refl].
    + apply routing_wf_drop; [|done]. eapply routing_wf_requested; [exact Hwf|apply requested_refl].
  - apply (routing_wf_requested hm c _ w); [done|]. simpl.
    apply requested_cache; [apply requested_refl|].
    intros k lc [Hk _]%map_lookup_filter_Some. by left.
  - pose proof (run_client_call_keeps c now x (c, w) (requested_refl c)) as Hk.
    destruct (run_client_call clientConfig now x (c, w)) as [o [c' w']]. simpl in *.
    eapply routing_wf_requested; [exact Hwf|exact Hk].
  - eapply routing_wf_requested; [exact Hwf|apply requested_refl].
Qed.

(** C7: in every state that a new client can reach, whatever the order of the rounds
    of discovery, the ticks of the monitors, the cleanups, the calls and what the
    servers do: the host map is keyed by id, the hasher routes exactly to the
    monitored hosts, each of them is in the host map and has one monitor, and every
    host that a request can be routed to has a connection. *)
Theorem routing_invariant empty_hasher (w : W) s :
  h_nodes empty_hasher = [] →
  let '(hm, c) := NewBlobCacheClient empty_hasher in
  rtc (step clientConfig globalConfig available) (hm, (c, w)) s → routing_wf s.
Proof.
  intros Hempty. simpl. intros Hrun. refine (rtc_keeps _ _ _ _ _ Hrun _).
  { intros s1 s2 Hst Hwf. by eapply routing_wf_step. }
  split; simpl.
  - done.
  - by intros h ?%elem_of_nil.
  - constructor.
  - by rewrite Hempty.
  - done.
  - split; simpl; [|done]. intros h. rewrite Hempty. by intros ?%elem_of_nil.
Qed.

(** A tick of the monitor of a host that answers with the right version changes
    nothing of the client; any other answer takes the host out of the host map and
    of the hasher and ends its monitor, so that a later round can add it again, but
    leaves its connection, and the contents that remember it still go to it. *)
Theorem monitor_drops host hm c w :
  routing_wf (hm, (c, w)) → host ∈ monitors c →
  let '(o, (hm', (c', w'))) := monitorHost_tick host (hm, (c, w)) in
  o = Ok tt ∧ localHostCache c' = localHostCache c ∧
  match (probe host (c, w)).1 with
  | Ok _ => hm' = hm ∧ c' = c
  | _ => hm' = delete (HostId host) hm ∧ (host ∉ monitors c') ∧
         (∀ h, h ∈ h_nodes (hasher c') ↔ h ∈ h_nodes (hasher c) ∧ h ≠ host) ∧
         grpcClients c' !! HostId host = grpcClients c !! HostId host ∧
         is_Some (grpcClients c' !! HostId host)
  end.
Proof.
  intros Hwf Hh. destruct Hwf as [Hm Hmon Hone Hn Hc [Hr1 Hr2]]. simpl in *.
  assert (known host) as Hk by by apply Hmon, Hm in Hh as [_ ?].
  unfold monitorHost_tick, zoom. pose proof (probe_world host c w) as Hp.
  pose proof (probe_no_panic host c w) as Hnp.
  unfold attempt, mbind, M_bind. simpl.
  destruct (probe host (c, w)) as [[[]|e|p] [c1 w1]] eqn:E; simpl in *; subst c1;
    [by split_and!| |by destruct (Hnp p)].
  rewrite drop_host_run. simpl. split_and!; [done..| | | |].
  - rewrite end_monitor_spec by done. tauto.
  - intros h. rewrite h_Remove_nodes. tauto.
  - rewrite lookup_delete_ne; [done|]. by apply known_addr.
  - rewrite lookup_delete_ne; [by apply Hr1, Hn|]. by apply known_addr.
Qed.

End life.

(** ** Witnesses and examples *)

#[local] Existing Instances list_hasher list_hasher_laws static_service Mock.coordinator.

(** A round in which the hosts of the list answer with the right version. *)
Definition round_of (up : list string) (order : list BlobCacheHost → list BlobCacheHost) : round :=
  mkRound (λ _ addr, if decide (addr ∈ up)
                     then inl (mkState BlobCacheVersion "" (to_f32 (f64_of_Z 0)))
                     else inr (ErrStatus "Unavailable" ""))
    no_dial_error order.

(** The coordinator knows three hosts. *)
Definition three_hosts : Mock.MockCoordinator :=
  (forM [host_a; host_b; host_c] (Mock.AddHostToIndex "l") Mock.NewMockCoordinator).2.
Definition three_listed : list BlobCacheHost :=
  map snd (map_to_list (default ∅ (Mock.hosts three_hosts !! "l"))).

Lemma three_ids : NoDup (map HostId three_listed).
Proof. by apply (bool_decide_unpack _); vm_compute. Qed.

Definition empty_client : BlobCacheClient (list BlobCacheHost) := mkClient ∅ ∅ [] [].
#[local] Abbreviation run_round r := (discovery_round two_attempts empty_global "l" r (∅, (empty_client, three_hosts))).

Lemma discovery_order_witness :
  let r1 := round_of ["a:1"; "c:1"] (λ l, l) in
  let r2 := round_of ["a:1"; "c:1"] (@rev _) in
  (run_round r1).2.1 !! "c" = Some host_c ∧
  let '(o1, (hm1, (c1, w1))) := run_round r1 in
  let '(o2, (hm2, (c2, w2))) := run_round r2 in
  o1 = Ok tt ∧ o2 = Ok tt ∧ hm1 = hm2 ∧ w1 = w2 ∧
  grpcClients c1 = grpcClients c2 ∧ localHostCache c1 = localHostCache c2 ∧
  (∀ h, h ∈ h_nodes (hasher c1) ↔ h ∈ h_nodes (hasher c2)) ∧ monitors c1 ≡ₚ monitors c2.
Proof.
  split; [by vm_compute|].
  apply (discovery_order two_attempts empty_global "l" (round_of ["a:1"; "c:1"] (λ l, l))
    (round_of ["a:1"; "c:1"] (@rev _)) ∅ empty_client three_hosts three_hosts three_listed);
    [done|done|done|intros l; symmetry; apply Permutation_rev|done|apply three_ids].
Defined.

Lemma discovery_adds_witness :
  let r := round_of ["a:1"; "c:1"] (λ l, l) in
  let found h := (∅ : hosts) !! HostId h = None ∧
    ∃ h0 resp, h0 ∈ three_listed ∧
      answers r (isTLSEnabled (dial_addr h0)) (PrivateAddr h0) = inl resp ∧
      gs_Version resp = BlobCacheVersion ∧
      h = mkHost 0 (HostId h0) (Addr h0) (PrivateAddr h0) (to_f64 (gs_CapacityUsagePct resp)) in
  map HostId (round_hosts ∅ r three_listed) = ["c"; "a"] ∧
  ((∃ l s', discoverHosts (GetNearbyHosts "l") r (∅, (empty_client, three_hosts)) = (Ok l, s') ∧
     NoDup l ∧ ∀ h, h ∈ l ↔ found h) ∧
   let '(o, (hm', (c', _))) := run_round r in
   o = Ok tt ∧
   (∀ id h, hm' !! id = Some h ↔ (∅ : hosts) !! id = Some h ∨ HostId h = id ∧ found h) ∧
   (∀ h, h ∈ h_nodes (hasher c') ↔
     h ∈ h_nodes (hasher empty_client) ∨ dial_errors r (dial_addr h) = None ∧ found h)).
Proof.
  split; [by vm_compute|].
  apply (discovery_adds two_attempts empty_global "l" (round_of ["a:1"; "c:1"] (λ l, l))
    ∅ empty_client three_hosts three_hosts three_listed); [done|done|apply three_ids].
Defined.

Definition abc_available (h : BlobCacheHost) : Prop := h ∈ [host_a; host_b; host_c].

Lemma abc_addr_not_id h h' : abc_available h → abc_available h' → Addr h ≠ HostId h'.
Proof.
  unfold abc_available. intros Hh Hh'.
  repeat (apply elem_of_cons in Hh as [->|Hh]; [|]); try by apply elem_of_nil in Hh.
  all: repeat (apply elem_of_cons in Hh' as [->|Hh']; [done|]); by apply elem_of_nil in Hh'.
Qed.

(** A client that has found [a], in a world where [a] serves nothing, or is down. *)
Definition found_a (w : static_servers) : hosts * St (list BlobCacheHost) static_servers :=
  (HostMap_Set (Some (add_callback two_attempts empty_global (round_of ["a:1"] (λ l, l)))) host_a
     (∅, (empty_client, w))).2.
Definition a_up : static_servers := {[ "a:1" := ("g", [], false) ]}.

(** [a] is found, then it goes down and its monitor notices. *)
Lemma routing_invariant_witness :
  routing_wf abc_available (monitorHost_tick host_a (found_a ∅)).2.
Proof.
  apply (routing_invariant two_attempts empty_global abc_available abc_addr_not_id [] ∅); [done|].
  apply (rtc_l _ _ (found_a ∅)).
  - apply (step_set _ _ _ (round_of ["a:1"] (λ l, l)) host_a); [by left|by vm_compute].
  - apply rtc_once, step_monitor. by apply (bool_decide_unpack _).
Defined.

Lemma found_a_wf w : routing_wf abc_available (found_a w).
Proof.
  apply (routing_wf_step two_attempts empty_global abc_available abc_addr_not_id (∅, (empty_client, w))).
  - split; simpl; [done|by intros h ?%elem_of_nil|constructor|done|done|].
    split; simpl; [by intros h ?%elem_of_nil|done].
  - apply (step_set _ _ _ (round_of ["a:1"] (λ l, l)) host_a); [by left|by vm_compute].
Qed.

Lemma monitor_drops_witness :
  let '(hm, (c, w)) := found_a ∅ in
  (probe host_a (c, w)).1 = Err ErrInvalidHostVersion ∧
  let '(o, (hm', (c', w'))) := monitorHost_tick host_a (hm, (c, w)) in
  o = Ok tt ∧ localHostCache c' = localHostCache c ∧
  match (probe host_a (c, w)).1 with
  | Ok _ => hm' = hm ∧ c' = c
  | _ => hm' = delete (HostId host_a) hm ∧ (host_a ∉ monitors c') ∧
         (∀ h, h ∈ h_nodes (hasher c') ↔ h ∈ h_nodes (hasher c) ∧ h ≠ host_a) ∧
         grpcClients c' !! HostId host_a = grpcClients c !! HostId host_a ∧
         is_Some (grpcClients c' !! HostId host_a)
  end.
Proof.
  pose proof (found_a_wf ∅) as Hwf.
  assert (host_a ∈ monitors (found_a ∅).2.1) as Hh by by apply (bool_decide_unpack _).
  assert ((probe host_a (found_a ∅).2).1 = Err ErrInvalidHostVersion) as Hp by by vm_compute.
  revert Hwf Hh Hp. destruct (found_a ∅) as [hm [c w]]. intros Hwf Hh Hp. split; [exact Hp|].
  exact (monitor_drops abc_available abc_addr_not_id host_a hm c w Hwf Hh).
Defined.

(** A host that [grpc.Dial] refuses once stays in the host map without a
    connection: the next round, in which it could be dialled, does not try it. *)
Definition refused_round : round :=
  mkRound (answers (round_of ["a:1"] (λ l, l))) (λ _, Some (ErrLib "dial")) (λ l, l).
Example refused_host_is_stuck :
  let s := (Start two_attempts empty_global "l" [refused_round; round_of ["a:1"] (λ l, l)]
              (∅, (empty_client, three_hosts))).2 in
  s.1 !! "a" = Some host_a ∧ grpcClients s.2.1 !! "a" = None ∧ hasher s.2.1 = [].
Proof. by vm_compute. Qed.

(** A content that remembers a host that went down is looked for there, and
    nowhere else: [IsCachedNearby] fails, although [b] has it. *)
Example stale_host :
  let s := (HostMap_Set (Some (add_callback two_attempts empty_global
              (round_of ["b:1"] (λ l, l)))) host_b (found_a a_up)).2 in
  let c := (set_cache (<["h" := mkLocal host_a 0]>) s.2.1) in
  let s := (monitorHost_tick host_a (s.1, (c, {[ "b:1" := ("h", [], false) ]}))).2 in
  s.1 !! "a" = None ∧
  (IsCachedNearby two_attempts (λ _, 0) "h" "h" s.2).1 = Err (ErrStatus "Unavailable" "").
Proof. by vm_compute. Qed.
