(* ===== verification/LockOrder.v ===== *)
(** * The locks of the client and of its host map

    [HostMap.Set] holds the lock of the host map while it calls the client's
    [addHost], which takes the client's lock; [monitorHost] holds the client's lock
    while it calls [HostMap.Remove], which takes the lock of the host map.  The
    goroutines are the sequences of lock operations they make; Go's mutexes are not
    reentrant, and a read lock is taken for a lock.  The steps of [Discovery.v]
    take each of these sections as one step; here their operations interleave. *)

From S2P Require Import Prelude.

(** ** Definitions *)

(** [hm.mu] and [c.mu]. *)
Inductive lock : Type := map_mu | client_mu.
#[export] Instance lock_eq_dec : EqDecision lock.
Proof. solve_decision. Defined.

Inductive lock_op : Type := Acquire (l : lock) | Release (l : lock).

(** The sections of the code that take the locks: [Set] with its callback, what
    [monitorHost] does about a host it cannot reach, the other operations of the
    host map, and the accesses of the client's requests to its cache. *)
Inductive section : Type := SetHost | DropHost | ReadMap | UseCache.
#[export] Instance section_eq_dec : EqDecision section.
Proof. solve_decision. Defined.

Definition ops (p : section) : list lock_op :=
  match p with
  | SetHost => [Acquire map_mu; Acquire client_mu; Release client_mu; Release map_mu]
  | DropHost => [Acquire client_mu; Acquire map_mu; Release map_mu; Release client_mu]
  | ReadMap => [Acquire map_mu; Release map_mu]
  | UseCache => [Acquire client_mu; Release client_mu]
  end.

(** A goroutine: its section, and how many of its operations it has made. *)
Definition goroutine : Type := section * nat.

Definition do_op (held : list lock) (o : lock_op) : list lock :=
  match o with Acquire l => l :: held | Release l => filter (λ x, x ≠ l) held end.
Definition holds (g : goroutine) : list lock := foldl do_op [] (take g.2 (ops g.1)).
Definition next (g : goroutine) : option lock_op := ops g.1 !! g.2.

Definition enabled (gs : list goroutine) (o : lock_op) : Prop :=
  match o with Acquire l => Forall (λ g, l ∉ holds g) gs | Release _ => True end.
#[export] Instance enabled_dec gs o : Decision (enabled gs o).
Proof. destruct o; simpl; apply _. Defined.

Inductive lstep (gs : list goroutine) : list goroutine → Prop :=
  | lstep_op i p k o : gs !! i = Some (p, k) → next (p, k) = Some o → enabled gs o →
      lstep gs (<[i := (p, S k)]> gs).

(** No goroutine can move, and one is not done. *)
Definition stuck (gs : list goroutine) : Prop := ∀ gs', ¬ lstep gs gs'.
Definition unfinished (gs : list goroutine) : Prop := ∃ g o, g ∈ gs ∧ next g = Some o.

(** [Set] waits for the client's lock, a monitor for the lock of the map. *)
Definition deadlocked (gs : list goroutine) : Prop := (SetHost, 1) ∈ gs ∧ (DropHost, 1) ∈ gs.

(** ** Lemmas *)

Lemma stuck_blocked gs g o : stuck gs → g ∈ gs → next g = Some o →
  ∃ l g', o = Acquire l ∧ g' ∈ gs ∧ l ∈ holds g'.
Proof.
  intros Hs Hg Hn. destruct (decide (enabled gs o)) as [He|He].
  - apply list_elem_of_lookup_1 in Hg as [i Hi]. destruct g as [p k].
    destruct (Hs _ (lstep_op gs i p k o Hi Hn He)).
  - destruct o as [l|l]; simpl in He; [|done].
    apply not_Forall_Exists in He; [|apply _]. apply Exists_exists in He as (g' & Hg' & Hl).
    exists l, g'. split_and!; [done..|]. by apply dec_stable.
Qed.

(** Who can hold a lock in a stuck configuration. *)
Lemma stuck_holder gs g l : stuck gs → g ∈ gs → l ∈ holds g →
  (l = map_mu ∧ g = (SetHost, 1)) ∨ (l = client_mu ∧ g = (DropHost, 1)).
Proof.
  intros Hs Hg Hl. destruct g as [p k].
  assert (∀ l', next (p, k) ≠ Some (Release l')) as Hr.
  { intros l' Hn. by destruct (stuck_blocked gs _ _ Hs Hg Hn) as (? & ? & ? & _). }
  assert (l = map_mu ∨ l = client_mu) as Hl2 by (destruct l; auto).
  unfold holds, next in *. simpl in *.
  destruct p; do 4 (destruct k as [|k];
    [first [by destruct (Hr map_mu)|by destruct (Hr client_mu)|
            destruct Hl2 as [-> | ->]; first [by auto|by apply (bool_decide_pack _) in Hl]]|]).
  all: simpl in Hl; rewrite ?take_nil in Hl; by destruct Hl2 as [-> | ->]; apply (bool_decide_pack _) in Hl.
Qed.

(** ** The deadlock *)

(** C20: whatever sections run, in whatever number and order: when no goroutine can
    move although one is not done, [Set] holds the lock of the host map and waits
    for the client's, and a monitor holds the client's and waits for the other; from
    then on they never move again.  This is reached when a host is added while a
    monitor drops another. *)
Theorem lock_order_deadlock gs :
  (stuck gs → unfinished gs → deadlocked gs) ∧
  (deadlocked gs → ∀ gs', rtc lstep gs gs' → deadlocked gs') ∧
  rtc lstep [(SetHost, 0); (DropHost, 0)] [(SetHost, 1); (DropHost, 1)] ∧
  stuck [(SetHost, 1); (DropHost, 1)].
Proof.
  split_and!.
  - intros Hs (g & o & Hg & Hn).
    destruct (stuck_blocked gs g o Hs Hg Hn) as (l & g' & -> & Hg' & Hl).
    assert ((SetHost, 1) ∈ gs → (DropHost, 1) ∈ gs) as H1.
    { intros Hin. destruct (stuck_blocked gs _ (Acquire client_mu) Hs Hin eq_refl)
        as (l1 & g1 & [= <-] & Hg1 & Hl1).
      by destruct (stuck_holder gs g1 _ Hs Hg1 Hl1) as [[? _]|[_ ->]]. }
    assert ((DropHost, 1) ∈ gs → (SetHost, 1) ∈ gs) as H2.
    { intros Hin. destruct (stuck_blocked gs _ (Acquire map_mu) Hs Hin eq_refl)
        as (l1 & g1 & [= <-] & Hg1 & Hl1).
      by destruct (stuck_holder gs g1 _ Hs Hg1 Hl1) as [[_ ->]|[? _]]. }
    destruct (stuck_holder gs g' l Hs Hg' Hl) as [[_ ->]|[_ ->]]; split; auto.
  - intros Hd gs' Hrun. induction Hrun as [|gs gs1 gs2 Hst _ IH]; [done|]. apply IH.
    destruct Hd as [Hd1 Hd2]. destruct Hst as [i p k o Hi Hn He].
    assert (∀ g, g ∈ gs → g ≠ (p, k) → g ∈ <[i:=(p, S k)]> gs) as Hkeep.
    { intros g Hg Hne. apply list_elem_of_lookup_1 in Hg as [j Hj].
      apply (list_elem_of_lookup_2 _ j). rewrite list_lookup_insert_ne; [done|]. intros ->.
      apply Hne. pose proof (eq_trans (eq_sym Hi) Hj) as E. by injection E as <-. }
    assert ((SetHost, 1) ≠ (p, k) ∧ (DropHost, 1) ≠ (p, k)) as [Hn1 Hn2].
    { split; intros [= <- <-]; injection Hn as <-; simpl in He; rewrite Forall_forall in He.
      - apply (He _ Hd2). by left.
      - apply (He _ Hd1). by left. }
    split; auto.
  - apply (rtc_l _ _ [(SetHost, 1); (DropHost, 0)]).
    + apply (lstep_op [(SetHost, 0); (DropHost, 0)] 0 SetHost 0 (Acquire map_mu)); [done..|].
      by apply (bool_decide_unpack _).
    + apply rtc_once, (lstep_op [(SetHost, 1); (DropHost, 0)] 1 DropHost 0 (Acquire client_mu));
        [done..|]. by apply (bool_decide_unpack _).
  - intros gs' Hst. destruct Hst as [i p k o Hi Hn He].
    destruct i as [|[|i]]; [injection Hi as <- <-|injection Hi as <- <-|done];
      injection Hn as <-; by apply (bool_decide_pack _) in He.
Qed.

(** A request of the client and one of the host map block behind the two. *)
Example everyone_waits : stuck [(SetHost, 1); (DropHost, 1); (ReadMap, 0); (UseCache, 0)].
Proof.
  intros gs' Hst. destruct Hst as [i p k o Hi Hn He].
  do 4 (destruct i as [|i]; [injection Hi as <- <-; injection Hn as <-;
    by apply (bool_decide_pack _) in He|]). done.
Qed.
