(* ===== verification/Server.v ===== *)
(** * The cache server of [pkg/server.go]

    The handlers of [CacheService] over the storage ([ContentStore]), the
    coordinator ([CoordinatorClient]) and the files of the host.  A gRPC stream
    is the list of the messages received or sent; the S3 client is
    [S3Client.v]. *)

From S2P Require Import Prelude GoStrings GoPath FsID GoFloat Types Rpc Storage StorageCorrect.
From S2P Require Import StorageRuns StorageProps ContentStore S3Client Redis Metadata Coordinator CoordinatorLaws NodeStore.
From S2P Require BlobFs.
Local Open Scope Z_scope.
#[local] Opaque GenerateFsID SHA256.Sum256.

(** ** Data *)

Definition getContentStreamChunkSize : Z := 4 * 1024 * 1024.

(** What [os.Stat] tells of a file: [FileMode], size, the two times. *)
Record file_info : Type := mkInfo {
  fi_mode : Z; fi_size : Z; fi_isdir : bool; fi_mtime : Z * Z; fi_atime : Z * Z;
}.

(** The files of the host while a request runs; reading one can fail after some
    bytes. *)
Record host_files : Type := mkFiles {
  os_Stat : string → res file_info;
  os_Open : string → option error;
  io_Copy : string → list byte * option error;
}.

(** The S3 service, as one server sees it: loading the AWS configuration, the
    sizes and ranges by source and key, and the order of arrival. *)
Record s3_world : Type := mkS3World {
  s3_load : option error;
  s3_head : S3SourceConfig → string → res Z;
  s3_range : S3SourceConfig → string → Z * Z → range_answer;
  s3_order : list nat;
}.

(** ** Reading *)

Section reading.
Context {S : Type} `{CS : ContentStore S}.

(** [make([]byte, n)] panics on a negative length. *)
Definition make_bytes (n : Z) : M S (list byte) :=
  if bool_decide (n < 0) then gopanic PanicMake else mret (replicate (Z.to_nat n) x00).

Definition GetContent (hash : string) (offset length : Z) : M S GetContentResponse :=
  dst ← make_bytes length;
  r ← attempt (cs_Get hash offset length dst);
  match r with
  | inr _ => mret (mkGetContent [] false)
  | inl (n, dst) =>
      content ← or_panic PanicSlice (slice dst 0 n);
      mret (mkGetContent content true)
  end.

Definition HasContent (hash : string) : M S bool := cs_Exists hash.

(** The loop variables of the stream, and how it ends: the chunks sent, and the
    error of the stream. *)
Record stream_state : Type := mkStream {
  st_offset : Z; st_remaining : Z; st_sent : list (list byte); st_dst : list byte;
}.
Record stream_end : Type := mkStreamEnd { e_sent : list (list byte); e_err : option error }.

(** [send k] is the error of the [k]-th [Send]. *)
Definition stream_body (hash : string) (send : nat → option error) (x : stream_state) :
    M S (stream_state + stream_end) :=
  let stop e := mret (inr (mkStreamEnd (st_sent x) e)) in
  if bool_decide (0 < st_remaining x) then
    let currentChunkSize :=
      if bool_decide (st_remaining x < getContentStreamChunkSize) then st_remaining x
      else getContentStreamChunkSize in
    r ← attempt (cs_Get hash (st_offset x) currentChunkSize (st_dst x));
    match r with
    | inr _ => stop (Some (ErrStatus "NotFound" "Content not found"))
    | inl (n, dst) =>
        if bool_decide (n = 0) then stop None
        else
          content ← or_panic PanicSlice (slice dst 0 n);
          match send (length (st_sent x)) with
          | Some e => stop (Some (ErrStatus "Internal" "Failed to send content chunk"))
          | None =>
              let sent := st_sent x ++ [content] in
              if bool_decide (n < currentChunkSize) then mret (inr (mkStreamEnd sent None))
              else mret (inl (mkStream (st_offset x +! n)%go (st_remaining x -! n)%go sent dst))
          end
    end
  else stop None.

Definition GetContentStream (hash : string) (offset length : Z) (send : nat → option error) :
    M S stream_end :=
  loopM (Z.to_pos (length + 1)) (stream_body hash send)
    (mkStream offset length [] (replicate (Z.to_nat getContentStreamChunkSize) x00)).

End reading.

(** ** Storing *)

Section storing.
Context {S : Type} `{CS : ContentStore S}.

Definition content_hash (content : list byte) : string := EncodeToString (SHA256.Sum256 content).

Definition store (buffer : list byte) : M S string :=
  let hash := content_hash buffer in
  r ← attempt (cs_Add hash buffer);
  match r with
  | inl _ => mret hash
  | inr err => throw (ErrStatus "Internal" "Failed to add content")
  end.

(** [StoreContent]: the messages received, and the error that ends the stream if
    it is not [io.EOF]. *)
Definition StoreContent (received : list (list byte)) (recv_err : option error) : M S string :=
  match recv_err with
  | Some err => throw (ErrStatus "Unknown" "Received an error")
  | None => store (concat received)
  end.

End storing.

(** [usagePct], from the allocated bytes and the limit of the cache. *)
Definition usagePct (alloc maxCacheSizeMb : Z) : float64 :=
  f64_div (f64_div (f64_of_Z alloc) (f64_of_Z (1024 * 1024))) (f64_of_Z maxCacheSizeMb).

(** [GetState]: the version, the address and the usage. *)
Definition GetState (privateIpAddr : string) (alloc maxCacheSizeMb : Z) :
    string * string * float32 :=
  (BlobCacheVersion, privateIpAddr, to_f32 (usagePct alloc maxCacheSizeMb)).

(** ** The tree of a stored file *)

Section blobfs.
Context {S : Type} `{CC : CoordinatorClient S}.

(** The metadata of a component of the path; [info] is the answer of [os.Stat]
    for the last one. *)
Definition part_metadata (parentId currentPath part hash : string) (size inode : Z)
    (now : Z * Z) (info : option file_info) : BlobFsMetadata :=
  let m md at_ mt ha sz :=
    {| PID := parentId; ID := GenerateFsID currentPath; Name := part; Path := currentPath;
       Hash := ha; Ino := inode; Size := sz; Blocks := 0; Atime := wrapU64 (fst at_);
       Mtime := wrapU64 (fst mt); Ctime := wrapU64 (fst mt); Atimensec := wrapU32 (snd at_);
       Mtimensec := wrapU32 (snd mt); Ctimensec := wrapU32 (snd mt); Mode := wrapU32 md; Nlink := 0; Rdev := 0; Blksize := 0; Padding := 0; Uid := 0; Gid := 0;
       Gen := 0 |} in
  match info with
  | None => m (Z.lor BlobFs.S_IFDIR 493) now now "" 0
  | Some fi =>
      if fi_isdir fi then m (fi_mode fi) (fi_atime fi) (fi_mtime fi) (GenerateFsID currentPath) 0
      else m (fi_mode fi) (fi_atime fi) (fi_mtime fi) hash size
  end.

(** The file information that the last component takes. *)
Definition stat_last (fs : host_files) (path currentPath : string) : M S (option file_info) :=
  if bool_decide (currentPath = path) then
    fi ← λ s, (os_Stat fs currentPath, s); mret (Some fi)
  else mret None.

(** One turn of the loop; the loop variables are [currentPath] and
    [previousParentId]. *)
Definition part_step (fs : host_files) (path hash : string) (size : Z) (now : Z * Z)
    (x : string * string) (part : string) : M S (string * string) :=
  let '(currentPath, previousParentId) := x in
  let currentPath :=
    if bool_decide (currentPath = "/") then Join ["/"; part] else Join [currentPath; part] in
  let currentNodeId := GenerateFsID currentPath in
  inode ← λ s, (SHA1StringToUint64 currentNodeId, s);
  info ← stat_last fs path currentPath;
  c_SetFsNode currentNodeId
    (part_metadata previousParentId currentPath part hash size inode now info) ≫= λ _,
  c_AddFsNodeChild previousParentId currentNodeId ≫= λ _,
  mret (currentPath, currentNodeId).

(** The loop over the components, at the times [clock]. *)
Fixpoint parts_loop (fs : host_files) (path hash : string) (size : Z) (clock : nat → Z * Z)
    (i : nat) (parts : list string) (x : string * string) : M S () :=
  match parts with
  | [] => mret tt
  | part :: parts =>
      if bool_decide (i = 0%nat ∧ part = "") then parts_loop fs path hash size clock 1 parts x
      else
        x ← part_step fs path hash size (clock i) x part;
        parts_loop fs path hash size clock (i + 1) parts x
  end.

Definition StoreContentInBlobFs (fs : host_files) (clock : nat → Z * Z) (path hash : string)
    (size : Z) : M S () :=
  let path := Join ["/"; Clean path] in
  parts_loop fs path hash size clock 0 (split_on "/" path) ("/", GenerateFsID "/").

End blobfs.

(** ** Storing from a source *)

Section source.
Context {S : Type} `{CC : CoordinatorClient S} `{CS : ContentStore S}.
Context (serverConfig : BlobCacheServerConfig) (fs : host_files) (s3 : s3_world)
        (clock : nat → Z * Z) (locality : string).

(** The server's own state: the S3 clients it made, by endpoint, region and
    bucket. *)
Definition server : Type := S * gmap string S3Client.
Definition on_state {A} (m : M S A) : M server A := zoom fst (λ s x, (s, x.2)) m.

Definition not_exist_error (e : error) : bool := bool_decide (e = Disk.not_exist).

(** The bytes of a local file: only [os.IsNotExist] stops at [Stat]. *)
Definition cacheSourceFromLocalPath (localPath : string) : res (list byte) :=
  let go_on :=
    match os_Open fs localPath with
    | Some err => Err err
    | None =>
        match io_Copy fs localPath with
        | (data, None) => Ok data
        | (_, Some err) => Err err
        end
    end in
  match os_Stat fs localPath with
  | Err e => if not_exist_error e then Err e else go_on
  | Ok _ => go_on
  | Panic p => Panic p
  end.

Definition s3_key (source : CacheSource) : string :=
  src_Endpoint source +:+ "/" +:+ src_Region source +:+ "/" +:+ src_Bucket source.

Definition s3_client (source : CacheSource) : M server S3Client :=
  cached ← gets (λ x, x.2 !! s3_key source);
  match cached with
  | Some c => mret c
  | None =>
      c ← λ x, (NewS3Client (s3_load s3)
                  (mkS3Source (src_Bucket source) (src_Region source) (src_Endpoint source)
                     (src_AccessKey source) (src_SecretKey source)) serverConfig, x);
      modify (λ x, (x.1, <[s3_key source := c]> x.2)) ≫= λ _, mret c
  end.

(** The download into an empty buffer. *)
Definition download (c : S3Client) (key : string) : M server (list byte) := λ x,
  match DownloadIntoBuffer c (s3_head s3 (Source c) key) (s3_range s3 (Source c) key)
          (s3_order s3) [] with
  | (Ok _, buffer) => (Ok buffer, x)
  | (Err e, _) => (Err e, x)
  | (Panic p, _) => (Panic p, x)
  end.

Definition cacheSourceFromS3 (source : CacheSource) : M server (list byte) :=
  c ← s3_client source;
  download c (src_Path source).

(** The bytes of the source; an error here is the error of the call. *)
Definition fetch_source (source : CacheSource) : M server (list byte) :=
  if bool_decide (src_Bucket source = "") then
    λ x, (cacheSourceFromLocalPath (Join ["/"; src_Path source]), x)
  else cacheSourceFromS3 source.

Definition failed (err : error) : StoreFromSourceResponse := mkFromSource false "" (Some err).

Definition StoreContentFromSource (source : CacheSource) : M server StoreFromSourceResponse :=
  let localPath := Join ["/"; src_Path source] in
  buffer ← fetch_source source;
  r ← attempt (on_state (store buffer));
  match r with
  | inr err => mret (failed err)
  | inl hash =>
      (if bool_decide (src_Bucket source = "")
       then attempt (on_state (StoreContentInBlobFs fs clock localPath hash (wrapU64 (zlen buffer))))
       else mret (inl tt)) ≫= λ r,
      match r with
      | inr err => mret (failed err)
      | inl _ => mret (mkFromSource true hash None)
      end
  end.

(** The refreshes that the ticker makes while the lock is held: the errors are
    dropped. *)
Definition refreshes (n : nat) (sourcePath : string) : M server () :=
  forM (seq 0 n) (λ _, ignore (on_state (c_RefreshStoreFromContentLock locality sourcePath))).

(** [ticks]: how many refreshes run before and after the storing. *)
Definition StoreContentFromSourceWithLock (ticks : nat * nat) (source : CacheSource) :
    M server StoreWithLockResponse :=
  let sourcePath := src_Path source in
  r ← attempt (on_state (c_SetStoreFromContentLock locality sourcePath));
  match r with
  | inr err => mret (mkWithLock false "" true (Some err))
  | inl _ =>
      refreshes ticks.1 sourcePath ≫= λ _,
      r ← attempt (StoreContentFromSource source);
      refreshes ticks.2 sourcePath ≫= λ _,
      match r with
      | inr err => mret (mkWithLock false "" false (Some err))
      | inl resp =>
          ignore (on_state (c_RemoveStoreFromContentLock locality sourcePath)) ≫= λ _,
          mret (mkWithLock true (s_Hash resp) false None)
      end
  end.

(** *** Keepalive *)

(** What [HostKeepAlive] does when it starts, and at each tick: the order of the
    two calls changes. *)
Definition keepalive_start (host : BlobCacheHost) : M S () :=
  ignore (c_SetHostKeepAlive locality host) ≫= λ _, ignore (c_AddHostToIndex locality host).

Definition keepalive_tick (privateIpAddr : string) (port : Z) (usage : float64)
    (host : BlobCacheHost) : M S BlobCacheHost :=
  let host := mkHost (RTT host) (HostId host) (Addr host)
                (privateIpAddr +:+ ":" +:+ pretty port) usage in
  ignore (c_AddHostToIndex locality host) ≫= λ _,
  ignore (c_SetHostKeepAlive locality host) ≫= λ _, mret host.

End source.

(** ** Reading: lemmas *)

Section reading_spec.
Context {S : Type} {stored : gmap string (list byte)} `{CL : ContentStoreLaws S stored}.

Lemma zlen_replicate {A} n (x : A) : zlen (replicate (Z.to_nat n) x) = Z.max 0 n.
Proof. unfold zlen. rewrite length_replicate. lia. Qed.

(** The bytes of an answer, at the front of the destination. *)
Lemma read_of_slice complete content offset len dst n dst' :
  read_of complete content offset len dst (n, dst') → len ≤ zlen dst → 0 ≤ len →
  slice dst' 0 n = Some (take (Z.to_nat n) (drop (Z.to_nat offset) content)) ∧
  zlen dst' = zlen dst ∧ zlen (take (Z.to_nat n) (drop (Z.to_nat offset) content)) = n.
Proof.
  intros (Hn & Hdst & Hin & _) Hl Hl0. simpl in *.
  assert (zlen (take (Z.to_nat n) (drop (Z.to_nat offset) content)) = n) as Hlen.
  { unfold zlen in *. rewrite length_take, length_drop. destruct (decide (0 < n)); [|lia].
    specialize (Hin ltac:(lia)). lia. }
  assert (zlen dst' = zlen dst) as Hd.
  { rewrite Hdst, zlen_app, Hlen. unfold zlen in *. rewrite length_drop. lia. }
  split_and!; [|done|done]. rewrite slice_Some by lia. f_equal.
  rewrite Z.sub_0_r, Hdst. simpl. apply take_app_length'. unfold zlen in Hlen. lia.
Qed.

(** Over any storage that keeps its promises, [GetContent] answers with bytes
    of the content from the offset, at most as many as asked, or with a flag that
    says no; it panics exactly when the length of the request is negative. *)
Theorem GetContent_serves hash offset length (s : S) :
  cs_inv s → valid_hash hash → int64_range offset → int64_range length →
  match GetContent hash offset length s with
  | (Ok r, s') =>
      0 ≤ length ∧ cs_inv s' ∧
      (gc_Ok r = false ∧ Content r = [] ∨
       gc_Ok r = true ∧ zlen (Content r) ≤ length ∧
       Content r = take (Z.to_nat (zlen (Content r)))
                     (drop (Z.to_nat offset) (content_of stored hash)))
  | (Err _, _) => False
  | (Panic p, s') => length < 0 ∧ p = PanicMake
  end.
Proof.
  intros Hs Hh Ho Hl. unfold GetContent, make_bytes, mbind, M_bind.
  case_bool_decide as Hneg; [by split|]. simpl.
  pose proof (zlen_replicate length x00) as Hz.
  pose proof (cs_Get_inv hash offset length (replicate (Z.to_nat length) x00) Hh Ho Hl
    ltac:(lia) s Hs) as Hg.
  unfold attempt. destruct (cs_Get hash offset length _ s) as [[[n dst]|e|p] s']; [| |done].
  - destruct Hg as [Hs' Hr]. destruct (read_of_slice _ _ _ _ _ _ _ Hr ltac:(lia) ltac:(lia))
      as (-> & _ & Hlen). simpl. split_and!; [lia|done|]. right. destruct Hr as (Hn & _). simpl in Hn.
    rewrite Hlen. split_and!; [done|lia|done].
  - split_and!; [lia|done|]. by left.
Qed.

(** *** The stream *)

(** After some turns: what was sent is a range of the content that starts at the
    offset. *)
Definition streamed (hash : string) (offset len : Z) (sent : list (list byte)) : Prop :=
  let total := zlen (concat sent) in
  concat sent = take (Z.to_nat total) (drop (Z.to_nat offset) (content_of stored hash)) ∧
  total ≤ Z.max 0 len ∧
  Forall (λ c, 0 < zlen c ≤ getContentStreamChunkSize) sent ∧
  (0 < total → 0 ≤ offset ∧ offset + total ≤ zlen (content_of stored hash)).

Lemma streamed_snoc hash offset len sent n (dst dst' : list byte) cur :
  streamed hash offset len sent →
  let total := zlen (concat sent) in
  let c := take (Z.to_nat n) (drop (Z.to_nat (offset + total)) (content_of stored hash)) in
  read_of (cs_complete (S:=S) (stored:=stored)) (content_of stored hash) (offset + total) cur dst (n, dst') →
  zlen c = n → 0 < n → 0 ≤ offset → cur ≤ len - total → cur ≤ getContentStreamChunkSize →
  streamed hash offset len (sent ++ [c]) ∧ zlen (concat (sent ++ [c])) = total + n.
Proof.
  intros (Hc & Ht & Hf & Hin) total c (Hn & _ & Hin2 & _) Hlen Hpos Ho Hcur Hch. simpl in *.
  fold total in Hc, Ht, Hin.
  pose proof (zlen_nonneg (concat sent)) as H0. fold total in H0.
  assert (zlen (concat (sent ++ [c])) = total + n) as Hz.
  { rewrite concat_app, zlen_app. simpl. rewrite app_nil_r. fold total. lia. }
  split; [|done]. unfold streamed. rewrite Hz. split_and!; [|lia| |lia].
  - rewrite concat_app. simpl. rewrite app_nil_r, Hc. unfold c.
    rewrite (Z2Nat.inj_add offset total) by lia. rewrite take_drop_split. f_equal. lia.
  - apply Forall_app. split; [done|]. repeat constructor; lia.
Qed.

(** How the stream ends. *)
Definition stream_done (hash : string) (offset len : Z) (e : stream_end) : Prop :=
  streamed hash offset len (e_sent e) ∧
  (cs_complete (S:=S) (stored:=stored) → e_err e = None →
   zlen (concat (e_sent e)) =
     Z.max 0 (Z.min len (zlen (content_of stored hash) - offset))).

Definition stream_ok (hash : string) (offset len : Z) (x : stream_state) : Prop :=
  streamed hash offset len (st_sent x) ∧
  zlen (st_dst x) = getContentStreamChunkSize ∧
  st_offset x = offset + zlen (concat (st_sent x)) ∧
  st_remaining x = len - zlen (concat (st_sent x)).

Lemma stream_body_ok hash offset len send x :
  valid_hash hash → 0 ≤ offset → offset + Z.max 0 len < 2 ^ 63 → int64_range len →
  stream_ok hash offset len x →
  triple cs_inv (stream_body hash send x)
    (λ r s, cs_inv s ∧ match r with
                       | inl x' => stream_ok hash offset len x' ∧
                                   0 ≤ Z.max 0 (st_remaining x') < Z.max 0 (st_remaining x)
                       | inr e => stream_done hash offset len e
                       end) (λ _ _, False).
Proof.
  intros Hh Ho Hsum Hl (Hst & Hd & Hoff & Hrem) s Hs. unfold stream_body.
  pose proof Hst as (_ & Htot & _ & Hin0). pose proof (zlen_nonneg (concat (st_sent x))) as H0.
  case_bool_decide as Hpos.
  2: { split; [done|]. split; [done|]. intros _ _. simpl.
       destruct (decide (0 < zlen (concat (st_sent x)))); lia. }
  set (cur := if bool_decide (st_remaining x < getContentStreamChunkSize) then _ else _).
  assert (0 < cur ∧ cur ≤ st_remaining x ∧ cur ≤ getContentStreamChunkSize) as (Hc0 & Hc1 & Hc2).
  { unfold cur, getContentStreamChunkSize in *. case_bool_decide; lia. }
  unfold attempt, mbind, M_bind.
  pose proof (cs_Get_inv hash (st_offset x) cur (st_dst x) Hh ltac:(unfold int64_range; lia)
    ltac:(unfold int64_range in *; lia) ltac:(lia) s Hs) as Hg.
  destruct (cs_Get hash _ _ _ s) as [[[n dst]|e|p] s']; [| |done].
  2: { split; [done|]. by split. }
  destruct Hg as [Hs' Hr].
  destruct (read_of_slice _ _ _ _ _ _ _ Hr ltac:(lia) ltac:(lia)) as (Hsl & Hzd & Hlen).
  pose proof Hr as (Hn & _ & _ & Hcomp). simpl in Hn, Hcomp. rewrite Hoff in Hr, Hsl, Hlen, Hcomp.
  case_bool_decide as Hn0.
  { split; [done|]. split; [done|]. intros Hcm _. simpl.
    specialize (Hcomp Hcm ltac:(lia)). destruct (decide (0 < zlen (concat (st_sent x)))); lia. }
  rewrite Hsl. simpl. destruct (send _) as [e|]; [split; [done|by split]|].
  destruct (streamed_snoc hash offset len (st_sent x) n (st_dst x) dst cur Hst Hr Hlen
    ltac:(lia) Ho ltac:(lia) Hc2) as [Hst' Hz'].
  pose proof Hst' as (_ & Htot' & _ & Hin'). rewrite Hz' in Htot', Hin'.
  case_bool_decide as Hshort.
  - split; [done|]. split; [done|]. intros Hcm _. simpl. rewrite Hz'.
    specialize (Hcomp Hcm Hshort). lia.
  - split; [done|]. unfold stream_ok. simpl. rewrite Hz', !wrap64_id by (unfold int64_range; lia).
    split_and!; [done|lia..].
Qed.

End reading_spec.

Section stream_properties.
Context {S : Type} {stored : gmap string (list byte)} `{CL : ContentStoreLaws S stored}.

Lemma stream_init hash offset len buf :
  zlen buf = getContentStreamChunkSize →
  stream_ok (stored:=stored) hash offset len (mkStream offset len [] buf).
Proof.
  intros Hb. unfold stream_ok, streamed. cbn [st_sent st_dst st_offset st_remaining concat].
  change (zlen []) with 0. split_and!; [reflexivity|lia|constructor|lia|exact Hb|lia|lia].
Qed.

(** The stream ends, and what it sent. *)
Lemma stream_triple hash offset len send :
  valid_hash hash → 0 ≤ offset → offset + Z.max 0 len < 2 ^ 63 → int64_range len →
  triple cs_inv (GetContentStream hash offset len send)
    (λ e s, cs_inv s ∧ stream_done (S:=S) (stored:=stored) hash offset len e) (λ _ _, False).
Proof.
  intros Hh Ho Hsum Hl s Hs. unfold GetContentStream.
  assert (zlen (replicate (Z.to_nat getContentStreamChunkSize) x00) = getContentStreamChunkSize) as Hb
    by apply zlen_replicate.
  revert Hb. generalize (replicate (Z.to_nat getContentStreamChunkSize) x00) as buf. intros buf Hb.
  pose proof (triple_loopM (Z.to_pos (len + 1)) (stream_body hash send) (mkStream offset len [] buf)
    (λ x s, cs_inv s ∧ stream_ok (stored:=stored) hash offset len x)
    (λ x, Z.max 0 (st_remaining x)) cs_inv
    (λ e s, cs_inv s ∧ stream_done (S:=S) (stored:=stored) hash offset len e) (λ _ _, False)) as Ht.
  specialize (Ht ltac:(intros x; apply triple_pure; intros Hx t Hi;
    pose proof (stream_body_ok hash offset len send x Hh Ho Hsum Hl Hx t Hi) as Hbd;
    destruct (stream_body hash send x t) as [[[x'|e]|e|p] t'];
      [destruct Hbd as (?&?&?); split; [split; assumption|assumption]|exact Hbd..])).
  exact (Ht (λ t Hi, conj Hi (stream_init hash offset len buf Hb)) ltac:(cbn; lia) s Hs).
Qed.

(** C17: a stream always ends, without a panic; the chunks it sent, in order, are
    a range of the content that starts at the offset, each of at most 4 MB and
    not empty, whatever failed; and when it ends without an error and no write
    was ever cut short, they are all the bytes asked that the content has. *)
Theorem GetContentStream_range hash offset len send (s : S) :
  cs_inv s → valid_hash hash → 0 ≤ offset → offset + Z.max 0 len < 2 ^ 63 → int64_range len →
  match GetContentStream hash offset len send s with
  | (Ok e, s') =>
      cs_inv s' ∧
      concat (e_sent e) = take (Z.to_nat (zlen (concat (e_sent e))))
                            (drop (Z.to_nat offset) (content_of stored hash)) ∧
      zlen (concat (e_sent e)) ≤ Z.max 0 len ∧
      Forall (λ c, 0 < zlen c ≤ getContentStreamChunkSize) (e_sent e) ∧
      (cs_complete (S:=S) (stored:=stored) → e_err e = None →
       zlen (concat (e_sent e)) = Z.max 0 (Z.min len (zlen (content_of stored hash) - offset)))
  | _ => False
  end.
Proof.
  intros Hs Hh Ho Hsum Hl. pose proof (stream_triple hash offset len send Hh Ho Hsum Hl s Hs) as Ht.
  destruct (GetContentStream hash offset len send s) as [[e|e|p] s']; [|done..].
  destruct Ht as [Hs' ((Hc & Ht & Hf & _) & Hcomp)]. by split_and!.
Qed.

Lemma StoreContent_has received (s : S) hash s' :
  let content := concat received in
  cs_inv s → cs_ready s → stored !! content_hash content = Some content →
  StoreContent received None s = (Ok hash, s') →
  hash = content_hash content ∧ cs_has hash s'.
Proof.
  intros content Hs Hr Hst. unfold StoreContent, store, attempt, mbind, M_bind.
  fold content. destruct (cs_Add (content_hash content) content s) as [[[]|e|p] t] eqn:E; [|done..].
  intros [= <- <-]. split; [done|]. by apply (cs_Add_has _ _ _ _ Hst Hs Hr E).
Qed.

(** A content that the storage has is served whole. *)
Lemma GetContent_has hash content offset len (s : S) :
  stored !! hash = Some content → cs_has hash s →
  0 ≤ offset → 0 ≤ len → offset + len ≤ zlen content →
  (GetContent hash offset len s).1 =
    Ok (mkGetContent (take (Z.to_nat len) (drop (Z.to_nat offset) content)) true).
Proof.
  intros Hst Hhas Ho Hl Hol. pose proof (zlen_replicate len x00) as Hz.
  pose proof (cs_has_Get hash content offset len
    (replicate (Z.to_nat len) x00) s Hst Hhas Ho Hl Hol ltac:(lia)) as Hg.
  unfold GetContent, make_bytes, attempt, mbind, M_bind. rewrite bool_decide_eq_false_2 by lia. simpl.
  destruct (cs_Get _ offset len _ s) as [r u]. simpl in Hg. subst r.
  assert (length (take (Z.to_nat len) (drop (Z.to_nat offset) content)) = Z.to_nat len) as Hlen.
  { rewrite length_take, length_drop. unfold zlen in *. lia. }
  rewrite slice_Some; [|lia|].
  2: { rewrite zlen_app. unfold zlen at 1. rewrite Hlen. pose proof (zlen_nonneg (drop (Z.to_nat len) (replicate (Z.to_nat len) x00))). lia. }
  rewrite Z.sub_0_r. change (Z.to_nat 0) with 0%nat. rewrite drop_0, take_app_length' by done. done.
Qed.

(** What [StoreContent] stored is read back: on a disk that answers, when the
    call succeeds its hash is the SHA-256 of the messages one after the other, and
    [GetContent] of any range under that hash returns exactly the range. *)
Theorem StoreContent_GetContent received offset len (s : S) hash s' :
  let content := concat received in
  cs_inv s → cs_ready s → stored !! content_hash content = Some content →
  StoreContent received None s = (Ok hash, s') →
  0 ≤ offset → 0 ≤ len → offset + len ≤ zlen content →
  hash = content_hash content ∧
  (GetContent hash offset len s').1 =
    Ok (mkGetContent (take (Z.to_nat len) (drop (Z.to_nat offset) content)) true).
Proof.
  intros content Hs Hr Hst E Ho Hl Hol.
  destruct (StoreContent_has received s hash s' Hs Hr Hst E) as [-> Hhas].
  split; [done|]. by apply GetContent_has.
Qed.

End stream_properties.

(** ** The tree of a stored file: lemmas *)

(** The path of some components. *)
Definition abs_path (k : list string) : string := "/" +:+ join "/" k.

Lemma plain_no_slash k : Forall plain_name k → Forall (λ s, has_char "/" s = false) k.
Proof. intros H. eapply Forall_impl; [exact H|]. by intros s (?&?&?&?). Qed.

Lemma split_abs_path k : k ≠ [] → Forall plain_name k → split_on "/" (abs_path k) = "" :: k.
Proof.
  intros Hk Hp. unfold abs_path.
  change ("/" +:+ join "/" k) with ("" +:+ String "/" (join "/" k)).
  rewrite split_on_app, split_on_join; [done|done|by apply plain_no_slash].
Qed.

Lemma abs_path_inj k k' : Forall plain_name k → Forall plain_name k' → k ≠ [] →
  abs_path k = abs_path k' → k = k'.
Proof.
  intros Hp Hp' Hk E. destruct (decide (k' = [])) as [->|Hk'].
  - apply (f_equal (split_on "/")) in E. rewrite split_abs_path in E by done.
    change (split_on "/" (abs_path [])) with [""; ""] in E. injection E as ->.
    apply Forall_cons in Hp as [[? _] _]. done.
  - apply (f_equal (split_on "/")) in E. rewrite !split_abs_path in E by done. by injection E.
Qed.

Lemma Join_root k : k ≠ [] → Forall plain_name k → Join ("/" :: k) = abs_path k.
Proof. intros Hk Hp. by rewrite Join_plain. Qed.

Lemma abs_path_snoc k c :
  Forall plain_name (k ++ [c]) →
  (if bool_decide (abs_path k = "/") then Join ["/"; c] else Join [abs_path k; c]) =
  abs_path (k ++ [c]).
Proof.
  intros Hp. pose proof Hp as [Hk Hc]%Forall_app. destruct (decide (k = [])) as [->|Hne].
  - rewrite bool_decide_eq_true_2 by done. by apply Join_root.
  - rewrite bool_decide_eq_false_2.
    + rewrite <-(Join_root k), Join_Join by done. apply Join_root; [by destruct k|done].
    + intros E. change "/" with (abs_path []) in E. by apply abs_path_inj in E.
Qed.

(** The path of a request: its components. *)
Lemma clean_is_abs path :
  ∃ k, Join ["/"; Clean path] = abs_path k ∧ Forall plain_name k.
Proof.
  exists (clean_pieces true (split_on "/" (join "/" ["/"; Clean path]))). split.
  - rewrite Join_cons_ne by done. reflexivity.
  - unfold clean_pieces. apply Forall_rev.
    pose proof (clean_stack_ok true (split_on "/" (join "/" ["/"; Clean path]))
      (split_on_pieces _ _)) as Hst.
    induction (foldl _ _ _) as [|c st IH]; [constructor|].
    destruct Hst as [[? ?]|[? _]]; [|done]. constructor; auto.
Qed.

Section blobfs_spec.
Context {S : Type} `{NL : NodeStoreLaws S}.
Context (fs : host_files) (clock : nat → Z * Z) (hash : string) (size : Z) (fi : file_info).
Context (k : list string) (Hk : k ≠ []) (Hplain : Forall plain_name k).
Context (Hsize : 0 ≤ size < 2 ^ 64) (Hstat : os_Stat fs (abs_path k) = Ok fi).

(** The path and the identifier of the first [i] components. *)
Definition path_at (i : nat) : string := abs_path (take i k).
Definition id_at (i : nat) : string := GenerateFsID (path_at i).

Context (Hnodup : NoDup (map id_at (seq 1 (length k)))).

(** The [i]-th component is stored and linked; the last one carries the file. *)
Definition component f (g : string → gset string) (i : nat) : Prop :=
  ∃ m c, k !! (i - 1)%nat = Some c ∧ f (id_at i) = Some m ∧
    PID m = id_at (i - 1) ∧ ID m = id_at i ∧ Name m = c ∧ Path m = path_at i ∧
    id_at i ∈ g (id_at (i - 1)) ∧
    (i = length k → if fi_isdir fi then Size m = 0 else Hash m = hash ∧ Size m = size).

(** The nodes of other identifiers are as before. *)
Definition others (f0 f : string → option BlobFsMetadata) : Prop :=
  ∀ id, id ∉ map id_at (seq 1 (length k)) → f id = f0 id.

Lemma id_at_inj i j :
  (1 ≤ i ≤ length k)%nat → (1 ≤ j ≤ length k)%nat → id_at i = id_at j → i = j.
Proof.
  intros Hi Hj E. pose proof Hnodup as Hn. rewrite NoDup_alt in Hn.
  assert (∀ n, (1 ≤ n ≤ length k)%nat → map id_at (seq 1 (length k)) !! (n - 1)%nat = Some (id_at n)) as Hl.
  { intros n Hn'. rewrite list_lookup_fmap, lookup_seq_lt by lia. simpl. do 2 f_equal. lia. }
  specialize (Hn (i - 1)%nat (j - 1)%nat (id_at j)).
  rewrite (Hl i Hi), (Hl j Hj), E in Hn. specialize (Hn eq_refl eq_refl). lia.
Qed.

Lemma id_at_in i : (1 ≤ i ≤ length k)%nat → id_at i ∈ map id_at (seq 1 (length k)).
Proof. intros Hi. apply list_elem_of_fmap. exists i. split; [done|]. apply elem_of_seq. lia. Qed.

Lemma id_at_valid i : valid_id (id_at i).
Proof. apply GenerateFsID_valid. Qed.

Lemma part_metadata_ok pid cur part ino now info :
  0 ≤ ino < 2 ^ 64 → metadata_ok (part_metadata pid cur part hash size ino now info).
Proof.
  intros Hi. assert (∀ z, 0 ≤ wrapU64 z < 2 ^ 64) as H64 by (intros; apply Z.mod_pos_bound; lia).
  assert (∀ z, 0 ≤ wrapU32 z < 2 ^ 32) as H32 by (intros; apply Z.mod_pos_bound; lia).
  unfold part_metadata, metadata_ok, metadata_fields. cbv zeta.
  destruct info as [i|]; [destruct (fi_isdir i)|];
    cbn [PID ID Name Path Hash Ino Size Blocks Atime Mtime Ctime Atimensec Mtimensec Ctimensec
         Mode Nlink Rdev Blksize Padding Uid Gid Gen];
    repeat (apply Forall_cons_2; [first [exact I|simpl; first [apply H64|apply H32|lia]]|]);
    apply Forall_nil_2.
Qed.

Lemma stored_as_content old m :
  Hash (stored_as (S:=S) old m) = Hash m ∧ Size (stored_as (S:=S) old m) = Size m.
Proof. unfold stored_as. destruct m. by destruct keeps_Ino. Qed.

(** A turn of the loop: the next component, the earlier ones kept. *)
Lemma component_next f g i c m :
  (1 ≤ i ≤ length k)%nat → k !! (i - 1)%nat = Some c →
  (∀ j, (1 ≤ j < i)%nat → component f g j) →
  PID m = id_at (i - 1) → ID m = id_at i → Name m = c → Path m = path_at i →
  (i = length k → if fi_isdir fi then Size m = 0 else Hash m = hash ∧ Size m = size) →
  ∀ j, (1 ≤ j < i + 1)%nat →
    component (upd (id_at i) (Some (stored_as (f (id_at i)) m)) f)
      (upd (id_at (i - 1)) (g (id_at (i - 1)) ∪ {[id_at i]}) g) j.
Proof.
  intros Hi Hc Hprev Hpid Hid Hname Hpath Hlast j Hj.
  destruct (decide (j = i)) as [->|Hne].
  - destruct (BlobFs.stored_as_fields (S:=S) (f (id_at i)) m) as (E1 & E2 & E3 & E4).
    destruct (stored_as_content (f (id_at i)) m) as (E5 & E6).
    exists (stored_as (f (id_at i)) m), c. rewrite !upd_eq, E1, E2, E3, E4, E5, E6.
    split_and!; [exact Hc|reflexivity|exact Hpid|exact Hid|exact Hname|exact Hpath
      |by apply elem_of_union_r, elem_of_singleton_2|exact Hlast].
  - destruct (Hprev j ltac:(lia)) as (m' & c' & Hc' & Hf & H1 & H2 & H3 & H4 & H5 & H6).
    exists m', c'. rewrite (upd_ne (id_at i)).
    2: { intros E. apply id_at_inj in E; lia. }
    split_and!; [exact Hc'|exact Hf|exact H1|exact H2|exact H3|exact H4| |exact H6].
    unfold upd. case_decide as E; [|exact H5]. rewrite <-E. apply elem_of_union_l. exact H5.
Qed.

Definition progress f0 (i : nat) (s : S) : Prop :=
  ∃ f g, store_is f g s ∧ others f0 f ∧ ∀ j, (1 ≤ j < i)%nat → component f g j.

Lemma others_upd f0 f i m : (1 ≤ i ≤ length k)%nat → others f0 f → others f0 (upd (id_at i) m f).
Proof.
  intros Hi Ho id Hid. rewrite upd_ne; [by apply Ho|]. intros ->. by apply Hid, id_at_in.
Qed.

(** The metadata of a turn. *)
Lemma part_metadata_fields i c ino now info :
  (i = length k → info = Some fi) →
  let m := part_metadata (id_at (i - 1)) (path_at i) c hash size ino now info in
  PID m = id_at (i - 1) ∧ ID m = id_at i ∧ Name m = c ∧ Path m = path_at i ∧
  (i = length k → if fi_isdir fi then Size m = 0 else Hash m = hash ∧ Size m = size).
Proof.
  intros Hinfo m. unfold m, part_metadata. cbv zeta. unfold id_at.
  generalize (GenerateFsID (path_at i)) (GenerateFsID (path_at (i - 1))) (path_at i).
  intros id pid p. destruct info as [i'|].
  - assert (i = length k → i' = fi) as Hfi by (intros Hi; by injection (Hinfo Hi)).
    destruct (fi_isdir i') eqn:E; (split_and!; [reflexivity..|]); intros Hi; specialize (Hfi Hi);
      subst i'; rewrite E; [reflexivity|split; reflexivity].
  - split_and!; [reflexivity..|]. intros Hi. discriminate (Hinfo Hi).
Qed.

Lemma path_at_next i c :
  (1 ≤ i ≤ length k)%nat → k !! (i - 1)%nat = Some c →
  (if bool_decide (path_at (i - 1) = "/") then Join ["/"; c] else Join [path_at (i - 1); c]) = path_at i.
Proof.
  intros Hi Hc. assert (take i k = take (i - 1) k ++ [c]) as Htake.
  { replace i with (Datatypes.S (i - 1)) at 1 by lia. by rewrite (take_S_r _ _ c). }
  unfold path_at. rewrite abs_path_snoc; [by rewrite Htake|]. rewrite <-Htake. by apply Forall_take.
Qed.

Lemma stat_last_info i (s : S) :
  ∃ info, stat_last fs (abs_path k) (path_at i) s = (Ok info, s) ∧ (i = length k → info = Some fi).
Proof.
  unfold stat_last, mbind, M_bind. case_bool_decide as E.
  - rewrite E, Hstat. by exists (Some fi).
  - exists None. split; [done|]. intros ->. destruct E. unfold path_at. by rewrite take_ge.
Qed.

Lemma part_step_triple f0 i c now :
  (1 ≤ i ≤ length k)%nat → k !! (i - 1)%nat = Some c →
  triple (progress f0 i)
    (part_step fs (abs_path k) hash size now (path_at (i - 1), id_at (i - 1)) c)
    (λ x s, progress f0 (i + 1) s ∧ x = (path_at i, id_at i))
    (λ _ s, ∃ f g, store_is f g s ∧ others f0 f).
Proof.
  intros Hi Hc s (f & g & Hs & Ho & Hprev). unfold part_step. cbv zeta.
  rewrite (path_at_next i c Hi Hc). change (GenerateFsID (path_at i)) with (id_at i).
  rewrite (bind_Ok _ _ s _ s (f_equal (λ r, (r, s)) (SHA1StringToUint64_Generate (path_at i)))).
  set (ino := Z.of_N _). assert (0 ≤ ino < 2 ^ 64) as Hino by apply inode_range.
  clearbody ino. destruct (stat_last_info i s) as (info & Einfo & Hinfo).
  rewrite (bind_Ok _ _ s _ s Einfo).
  destruct (part_metadata_fields i c ino now info Hinfo) as (H1 & H2 & H3 & H4 & H5).
  set (m := part_metadata (id_at (i - 1)) (path_at i) c hash size ino now info) in *.
  assert (metadata_ok m) as Hm by by apply part_metadata_ok.
  pose proof (SetFsNode_triple f g (id_at i) m (id_at_valid i) Hm s Hs) as Hset.
  unfold mbind, M_bind. destruct (c_SetFsNode (id_at i) m s) as [[m'|e|p] s1]; [| |exact Hset].
  2: { destruct Hset as [Hset|Hset]; eexists _, g; (split; [exact Hset|]); [done|by apply others_upd]. }
  pose proof (AddFsNodeChild_triple _ g (id_at (i - 1)) (id_at i) (id_at_valid _) (id_at_valid _) s1 Hset) as Hadd.
  destruct (c_AddFsNodeChild _ _ s1) as [[[]|e|p] s2]; [| |exact Hadd].
  - split; [|done]. eexists _, _. split; [exact Hadd|]. split; [by apply others_upd|].
    by apply component_next with (c := c).
  - destruct Hadd as [Hadd|Hadd]; eexists _, _; (split; [exact Hadd|by apply others_upd]).
Qed.

(** The loop over the rest of the components. *)
Lemma parts_loop_triple f0 i n :
  (i ≤ length k)%nat → (1 ≤ n)%nat →
  triple (progress f0 (i + 1))
    (parts_loop fs (abs_path k) hash size clock n (drop i k) (path_at i, id_at i))
    (λ _ s, progress f0 (length k + 1) s)
    (λ _ s, ∃ f g, store_is f g s ∧ others f0 f).
Proof.
  intros Hi. remember (drop i k) as parts eqn:E. revert i n Hi E.
  induction parts as [|c parts IH]; intros i n Hi E Hn.
  - assert (i = length k) as ->.
    { apply (f_equal length) in E. rewrite length_drop in E. simpl in E. lia. }
    simpl. by apply triple_ret.
  - assert (k !! i = Some c ∧ parts = drop (i + 1) k) as [Hc Hrest].
    { split; [by rewrite <-(Nat.add_0_r i), <-lookup_drop, <-E|].
      by rewrite <-drop_drop, <-E. }
    assert (i < length k)%nat as Hlt by (by apply lookup_lt_Some in Hc).
    simpl. rewrite bool_decide_eq_false_2 by lia.
    apply (triple_bind_pure _ (progress f0 (i + 1 + 1)) _ _ (λ x, x = (path_at (i + 1), id_at (i + 1)))).
    + pose proof (part_step_triple f0 (i + 1) c (clock n) ltac:(lia)) as Hp.
      replace (i + 1 - 1)%nat with i in Hp by lia. by apply Hp.
    + intros x ->. apply IH; [lia|done|lia].
Qed.

Lemma path_0 : path_at 0 = "/".
Proof. reflexivity. Qed.

(** All of [StoreContentInBlobFs], for a path that cleans to the components. *)
Lemma StoreContentInBlobFs_triple path f0 g0 :
  Join ["/"; Clean path] = abs_path k →
  triple (store_is f0 g0) (StoreContentInBlobFs fs clock path hash size)
    (λ _ s, progress f0 (length k + 1) s)
    (λ _ s, ∃ f g, store_is f g s ∧ others f0 f).
Proof.
  intros Hpath. unfold StoreContentInBlobFs. rewrite Hpath. cbv zeta.
  rewrite split_abs_path by done. cbn [parts_loop]. rewrite bool_decide_eq_true_2 by done.
  pose proof (parts_loop_triple f0 0 1 ltac:(lia) ltac:(lia)) as Ht.
  unfold id_at in Ht. rewrite path_0, drop_0 in Ht.
  eapply triple_conseq; [exact Ht| |done|done].
  intros s Hs. exists f0, g0. split_and!; [done|done|]. intros j ?. lia.
Qed.

End blobfs_spec.

Section blobfs_properties.
Context {S : Type} `{NL : NodeStoreLaws S}.

Lemma component_node f g s hash size fi k i :
  store_is f g s → component hash size fi k f g i → component hash size fi k (node s) (child s) i.
Proof.
  intros [Hf Hg] (m & c & H1 & H2 & H3 & H4 & H5 & H6 & H7 & H8). exists m, c.
  rewrite Hf, Hg by apply id_at_valid. split_and!; assumption.
Qed.

(** C19: storing a file in the tree, over any coordinator that keeps the contract:
    on success every component of its path is stored under the hash of the path
    so far and linked below the one before it, the last one carries the content
    hash and the size (a directory: size 0); no other node changes, on failure
    either; it never panics. *)
Theorem StoreContentInBlobFs_tree fs clock path hash size fi k (s : S) :
  k ≠ [] → Forall plain_name k → Join ["/"; Clean path] = abs_path k →
  0 ≤ size < 2 ^ 64 → os_Stat fs (abs_path k) = Ok fi →
  NoDup (map (id_at k) (seq 1 (length k))) →
  match StoreContentInBlobFs fs clock path hash size s with
  | (Ok _, s') =>
      (∀ i, (1 ≤ i ≤ length k)%nat → component hash size fi k (node s') (child s') i) ∧
      ∀ id, valid_id id → id ∉ map (id_at k) (seq 1 (length k)) → node s' id = node s id
  | (Err _, s') =>
      ∀ id, valid_id id → id ∉ map (id_at k) (seq 1 (length k)) → node s' id = node s id
  | (Panic _, _) => False
  end.
Proof.
  intros Hk Hp Hpath Hsize Hstat Hnd.
  pose proof (StoreContentInBlobFs_triple fs clock hash size fi k Hk Hp Hsize Hstat Hnd path
    (node s) (child s) Hpath s (store_is_self s)) as Ht.
  destruct (StoreContentInBlobFs fs clock path hash size s) as [[a|e|p] s']; [| |exact Ht].
  - destruct Ht as (f & g & Hs & Ho & Hc). split.
    + intros i Hi. eapply component_node; [exact Hs|]. apply Hc. lia.
    + intros id Hid Hni. destruct Hs as [Hf _]. rewrite Hf by exact Hid. by apply Ho.
  - destruct Ht as (f & g & [Hf _] & Ho). intros id Hid Hni. rewrite Hf by exact Hid. by apply Ho.
Qed.

(** The node of the last component. *)
Lemma stored_file_node fs clock path hash size fi k c (s s' : S) :
  Forall plain_name (k ++ [c]) → Join ["/"; Clean path] = abs_path (k ++ [c]) →
  0 ≤ size < 2 ^ 64 → os_Stat fs (abs_path (k ++ [c])) = Ok fi → fi_isdir fi = false →
  NoDup (map (id_at (k ++ [c])) (seq 1 (length (k ++ [c])))) →
  StoreContentInBlobFs fs clock path hash size s = (Ok tt, s') →
  ∃ m, node s' (GenerateFsID (abs_path (k ++ [c]))) = Some m ∧
    Hash m = hash ∧ Path m = abs_path (k ++ [c]) ∧ Size m = size.
Proof.
  intros Hp Hpath Hsize Hstat Hdir Hnd E.
  assert (k ++ [c] ≠ []) as Hk by by destruct k.
  pose proof (StoreContentInBlobFs_triple fs clock hash size fi (k ++ [c]) Hk Hp Hsize Hstat Hnd path
    (node s) (child s) Hpath s (store_is_self s)) as Ht.
  rewrite E in Ht. destruct Ht as (f & g & Hs & _ & Hc).
  specialize (Hc (length (k ++ [c])) ltac:(rewrite length_app; simpl; lia)).
  destruct (component_node _ _ _ _ _ _ _ _ Hs Hc) as (m & c' & Hc' & Hm & _ & _ & _ & Hpm & _ & Hlast).
  specialize (Hlast eq_refl). rewrite Hdir in Hlast. destruct Hlast as [Hh Hsz].
  assert (path_at (k ++ [c]) (length (k ++ [c])) = abs_path (k ++ [c])) as Hat
    by (unfold path_at; by rewrite firstn_all).
  unfold id_at in Hm. rewrite Hat in Hm, Hpm. by exists m.
Qed.

(** The path under which a lookup of the last name asks. *)
Lemma fullPath_last n k c :
  Forall plain_name (k ++ [c]) → BlobFs.NPath (BlobFs.bfsNode n) = abs_path k →
  BlobFs.fullPath n c = abs_path (k ++ [c]).
Proof.
  intros Hp Hn. unfold BlobFs.fullPath. rewrite Hn, <-(abs_path_snoc k c Hp).
  case_bool_decide as E0; [|done]. by rewrite E0.
Qed.

(** On any coordinator a lookup finds the file or fails with [ENOENT]. *)
Lemma stored_file_found_or_not `{FC : BlobFs.FsClient S} fs clock path hash size fi k c n (s s' : S) :
  Forall plain_name (k ++ [c]) → Join ["/"; Clean path] = abs_path (k ++ [c]) →
  0 ≤ size < 2 ^ 64 → os_Stat fs (abs_path (k ++ [c])) = Ok fi → fi_isdir fi = false →
  NoDup (map (id_at (k ++ [c])) (seq 1 (length (k ++ [c])))) →
  BlobFs.NPath (BlobFs.bfsNode n) = abs_path k → has_char "%" (abs_path (k ++ [c])) = false →
  StoreContentInBlobFs fs clock path hash size s = (Ok tt, s') →
  match BlobFs.Lookup n c s' with
  | (Ok (inode, attr), _) =>
      BlobFs.NHash (BlobFs.bfsNode (BlobFs.operations inode)) = hash ∧
      BlobFs.NPath (BlobFs.bfsNode (BlobFs.operations inode)) = abs_path (k ++ [c]) ∧
      BlobFs.Fuse.Size attr = size
  | (Err e, _) => e = BlobFs.ENOENT
  | (Panic _, _) => False
  end.
Proof.
  intros Hp Hpath Hsize Hstat Hdir Hnd Hn Hpct E.
  destruct (stored_file_node _ _ _ _ _ _ _ _ _ _ Hp Hpath Hsize Hstat Hdir Hnd E)
    as (m & Hm & Hh & Hpm & Hsz).
  pose proof (fullPath_last n k c Hp Hn) as Hfull. rewrite <-Hfull in Hpct.
  pose proof (BlobFs.Lookup_triple (node s') (child s') n c Hpct s' (store_is_self s')) as Hl.
  rewrite Hfull in Hl.
  destruct (BlobFs.Lookup n c s') as [[[inode attr]|e|p] t]; [|apply Hl|exact Hl].
  destruct Hl as (_ & m' & Hm' & [= -> ->]). rewrite Hm in Hm'. injection Hm' as <-.
  simpl. split_and!; [exact Hh|exact Hpm|exact Hsz].
Qed.

(** A coordinator that answers takes every component. *)
Section answered.
Context {RS : ReliableStore S}.

Lemma part_step_answers fs path hash size now x part fi :
  os_Stat fs path = Ok fi → answers up (part_step (S:=S) fs path hash size now x part).
Proof.
  intros Hstat. destruct x as [cur pid]. unfold part_step. cbv zeta.
  set (p := if bool_decide (cur = "/") then _ else _).
  apply answers_bind.
  { intros s Hs. rewrite SHA1StringToUint64_Generate. by eexists _, _. }
  intros ino. apply answers_bind.
  { intros s Hs. unfold stat_last, mbind, M_bind. case_bool_decide as E.
    - rewrite E, Hstat. by eexists _, _.
    - by eexists _, _. }
  intros info. apply answers_bind; [apply up_SetFsNode|]. intros _.
  apply answers_bind; [apply up_AddFsNodeChild|]. intros _. apply answers_ret.
Qed.

Lemma parts_loop_answers fs path hash size clock i parts x fi :
  os_Stat fs path = Ok fi → answers up (parts_loop (S:=S) fs path hash size clock i parts x).
Proof.
  intros Hstat. revert i x. induction parts as [|part parts IH]; intros i x; [apply answers_ret|].
  simpl. case_bool_decide; [apply IH|].
  apply answers_bind; [by eapply part_step_answers|]. intros y. apply IH.
Qed.

(** C13: what the server stores, the file system finds.  On a coordinator that
    answers, storing a file that [os.Stat] finds succeeds, and a lookup of its last
    name in the directory above it, by any mount, then gives an inode with the
    content hash, the path and the size. *)
Theorem stored_file_found `{FC : BlobFs.FsClient S} fs clock path hash size fi k c n (s : S) :
  up s → Forall plain_name (k ++ [c]) → Join ["/"; Clean path] = abs_path (k ++ [c]) →
  0 ≤ size < 2 ^ 64 → os_Stat fs (abs_path (k ++ [c])) = Ok fi → fi_isdir fi = false →
  NoDup (map (id_at (k ++ [c])) (seq 1 (length (k ++ [c])))) →
  BlobFs.NPath (BlobFs.bfsNode n) = abs_path k → has_char "%" (abs_path (k ++ [c])) = false →
  ∃ s' inode attr s'',
    StoreContentInBlobFs fs clock path hash size s = (Ok tt, s') ∧
    BlobFs.Lookup n c s' = (Ok (inode, attr), s'') ∧
    BlobFs.NHash (BlobFs.bfsNode (BlobFs.operations inode)) = hash ∧
    BlobFs.NPath (BlobFs.bfsNode (BlobFs.operations inode)) = abs_path (k ++ [c]) ∧
    BlobFs.Fuse.Size attr = size.
Proof.
  intros Hup Hp Hpath Hsize Hstat Hdir Hnd Hn Hpct.
  assert (answers up (StoreContentInBlobFs (S:=S) fs clock path hash size)) as Ha.
  { unfold StoreContentInBlobFs. rewrite Hpath. by eapply parts_loop_answers. }
  destruct (Ha s Hup) as ([] & s' & E & Hup').
  destruct (stored_file_node _ _ _ _ _ _ _ _ _ _ Hp Hpath Hsize Hstat Hdir Hnd E)
    as (m & Hm & Hh & Hpm & Hsz).
  pose proof (fullPath_last n k c Hp Hn) as Hfull. rewrite <-Hfull in Hpct, Hm.
  pose proof (BlobFs.Lookup_up n c s' Hup' Hpct) as Hl. rewrite Hm in Hl. destruct Hl as [s'' Hl].
  exists s', (BlobFs.inode_of m).1, (BlobFs.inode_of m).2, s''.
  split_and!; [exact E|exact Hl|exact Hh|exact Hpm|exact Hsz].
Qed.

End answered.

End blobfs_properties.

(** ** What the handlers leave alone *)

Section frame.
Context {S : Type} `{CC : CoordinatorClient S} `{CS : ContentStore S}.
Context (serverConfig : BlobCacheServerConfig) (fs : host_files) (s3 : s3_world)
        (clock : nat → Z * Z) (locality : string).
Context (I : S → Prop).
Abbreviation J := (λ x : server (S := S), I x.1).
Abbreviation fetch_it := (fetch_source serverConfig fs s3).

Lemma on_state_keeps {A} (m : M S A) : keeps I m → keeps J (on_state m).
Proof. intros Hm. by apply (keeps_zoom J I); [exact Hm|..]. Qed.

Lemma GetContent_keeps hash offset length :
  (∀ h o l d, keeps I (cs_Get h o l d)) → keeps I (GetContent hash offset length).
Proof. intros Hg. unfold GetContent, make_bytes. keeps_auto. Qed.

Lemma GetContentStream_keeps hash offset length send :
  (∀ h o l d, keeps I (cs_Get h o l d)) → keeps I (GetContentStream hash offset length send).
Proof.
  intros Hg. unfold GetContentStream. apply keeps_loopM. intros x. unfold stream_body. keeps_auto.
Qed.

Lemma fetch_source_keeps source : keeps J (fetch_it source).
Proof.
  unfold fetch_source. case_bool_decide; [apply (keeps_pure _ (λ _, _))|].
  apply keeps_bind.
  - apply keeps_bind; [apply keeps_gets|]. intros [c|]; [apply keeps_ret|].
    apply keeps_bind; [apply (keeps_pure _ (λ _, _))|]. intros c.
    apply keeps_bind; [|intros; apply keeps_ret]. apply keeps_modify. intros x Hx. exact Hx.
  - intros c x Hx. unfold download. by destruct (DownloadIntoBuffer _ _ _ _ _) as [[?|?|?] ?].
Qed.

Lemma store_keeps buffer : keeps I (cs_Add (content_hash buffer) buffer) → keeps I (store buffer).
Proof.
  intros Ha. unfold store. cbv zeta. apply keeps_bind; [by apply keeps_attempt|].
  intros [?|?]; [apply keeps_ret|apply keeps_throw].
Qed.

Lemma parts_loop_keeps path hash size i parts x :
  (∀ id m, keeps I (c_SetFsNode id m)) → (∀ p id, keeps I (c_AddFsNodeChild p id)) →
  keeps I (parts_loop fs path hash size clock i parts x).
Proof.
  intros HSet HAdd. revert i x. induction parts as [|part parts IH]; intros i x; simpl; [apply keeps_ret|].
  case_bool_decide; [apply IH|]. apply keeps_bind; [|intros; apply IH].
  destruct x as [cur pid]. apply keeps_bind; [apply (keeps_pure _ (λ _, _))|]. intros ino.
  apply keeps_bind.
  { unfold stat_last. case_bool_decide; [|apply keeps_ret].
    apply keeps_bind; [apply (keeps_pure _ (λ _, _))|intros; apply keeps_ret]. }
  intros info. apply keeps_bind; [apply HSet|]. intros _.
  apply keeps_bind; [apply HAdd|]. intros _. apply keeps_ret.
Qed.

Lemma StoreContentInBlobFs_keeps path hash size :
  (∀ id m, keeps I (c_SetFsNode id m)) → (∀ p id, keeps I (c_AddFsNodeChild p id)) →
  keeps I (StoreContentInBlobFs fs clock path hash size).
Proof. intros HSet HAdd. unfold StoreContentInBlobFs. cbv zeta. by apply parts_loop_keeps. Qed.

Context (HBlob : ∀ path hash n,
  keeps I (StoreContentInBlobFs fs clock path hash (wrapU64 n))).

(** The buffers that can be fetched from a source. *)
Definition fetches (source : CacheSource) (buffer : list byte) : Prop :=
  ∃ x x' : server (S := S), fetch_it source x = (Ok buffer, x').

Lemma StoreContentFromSource_keeps source :
  (∀ buffer, fetches source buffer → keeps I (cs_Add (content_hash buffer) buffer)) →
  keeps J (StoreContentFromSource serverConfig fs s3 clock source).
Proof.
  intros Ha. unfold StoreContentFromSource. cbv zeta.
  apply keeps_bind_val; [apply fetch_source_keeps|]. intros x buffer x' Hf.
  apply keeps_bind.
  { apply keeps_attempt, on_state_keeps, store_keeps, Ha. by exists x, x'. }
  intros [hash|err]; [|apply keeps_ret]. apply keeps_bind.
  { case_bool_decide; [|apply keeps_ret]. apply keeps_attempt, on_state_keeps, HBlob. }
  intros [?|?]; apply keeps_ret.
Qed.

Lemma StoreContentFromSourceWithLock_keeps ticks source :
  (∀ a b, keeps I (c_SetStoreFromContentLock a b)) →
  (∀ a b, keeps I (c_RefreshStoreFromContentLock a b)) →
  (∀ a b, keeps I (c_RemoveStoreFromContentLock a b)) →
  (∀ buffer, fetches source buffer → keeps I (cs_Add (content_hash buffer) buffer)) →
  keeps J (StoreContentFromSourceWithLock serverConfig fs s3 clock locality ticks source).
Proof.
  intros Hset Href Hrem Ha. unfold StoreContentFromSourceWithLock. cbv zeta.
  assert (∀ n, keeps J (refreshes locality n (src_Path source))) as Hr.
  { intros n. apply keeps_forM. intros i _. apply keeps_ignore, on_state_keeps, Href. }
  apply keeps_bind; [by apply keeps_attempt, on_state_keeps|].
  intros [[]|e]; [|apply keeps_ret]. apply keeps_bind; [apply Hr|]. intros _.
  apply keeps_bind; [by apply keeps_attempt, StoreContentFromSource_keeps|]. intros r.
  apply keeps_bind; [apply Hr|]. intros _. destruct r as [resp|e]; [|apply keeps_ret].
  apply keeps_bind; [by apply keeps_ignore, on_state_keeps|]. intros _. apply keeps_ret.
Qed.

End frame.

(** ** The lock around a store *)

(** A coordinator and a storage side by side. *)
Definition left_coordinator {S T} (CC : CoordinatorClient S) : CoordinatorClient (S * T) :=
  zoom_coordinator fst (λ s x, (s, x.2)) CC.

Definition right_store {S T} (CS : ContentStore T) : ContentStore (S * T) := {|
  cs_Add h c := zoom snd (λ t x, (x.1, t)) (cs_Add h c);
  cs_Get h o l d := zoom snd (λ t x, (x.1, t)) (cs_Get h o l d);
  cs_Exists h := zoom snd (λ t x, (x.1, t)) (cs_Exists h);
|}.

(** Over the local coordinator: the locks of the coordinator's process, and the
    tokens that the Redis server holds. *)
Section with_lock.
Context {R : Type} `{RE : Redis R} {RLaws : RedisLaws R} `{HC : HostCodec}.
Context {T : Type} (CS : ContentStore T).
Context (serverConfig : BlobCacheServerConfig) (fs : host_files) (s3 : s3_world)
        (clock : nat → Z * Z) (locality : string).
#[local] Instance CC' : CoordinatorClient (RedisLock R * T) :=
  left_coordinator (CoordinatorClientLocal serverConfig).
#[local] Instance CS' : ContentStore (RedisLock R * T) := right_store CS.

Abbreviation St := (server (S := RedisLock R * T)).
Abbreviation tokens_of st := (lock_tokens (view (rdb st))).

Definition lock_tables (st : RedisLock R) : gmap string nat * gmap string nat :=
  (Redis.locks st, tokens_of st).
Definition tables_of (x : St) : gmap string nat * gmap string nat := lock_tables x.1.1.

(** The server refuses to release a lock that it holds. *)
Definition release_fails (key : string) (tok : nat) : Prop :=
  ∃ r e, lock_tokens (view r) !! key = Some tok ∧ (LockRelease (R:=R) key tok r).1 = Err e.

Lemma Acquire_cases key opts (st : RedisLock R) :
  match Acquire key opts st with
  | (Ok _, st') => ∃ tok, tokens_of st !! key = None ∧ (tok ∉ issued (view (rdb st))) ∧
      lock_tables st' = (<[key := tok]> (Redis.locks st), <[key := tok]> (tokens_of st))
  | (Err _, st') => lock_tables st' = lock_tables st ∨
      tokens_of st !! key = None ∧
      ∃ tok, lock_tables st' = (Redis.locks st, <[key := tok]> (tokens_of st))
  | (Panic _, _) => False
  end.
Proof.
  unfold Acquire, attempt, mbind, M_bind, on_rdb, zoom, lock_tables.
  pose proof (Obtain_law key (wrap64 (TtlS opts * Second)) (Retries opts) (rdb st)) as Ho.
  destruct (Obtain key _ _ (rdb st)) as [[tok|e|p] r]; simpl in *; [| |done].
  - destruct Ho as (Hn & Hi & ->). by exists tok.
  - case_decide; simpl; (destruct Ho as [->|(_ & tok & Hn & _ & ->)]; [by left|right; eauto]).
Qed.

Lemma Refresh_cases key opts (st : RedisLock R) :
  lock_tables (Refresh key opts st).2 = lock_tables st ∧ ∀ p, (Refresh key opts st).1 ≠ Panic p.
Proof.
  unfold Refresh, mbind, M_bind, gets, on_rdb, zoom, lock_tables. simpl.
  destruct (Redis.locks st !! key) as [tok|]; [|done].
  pose proof (LockRefresh_law key tok (wrap64 (TtlS opts * Second)) (Retries opts) (rdb st)) as Hl.
  destruct (LockRefresh key tok _ _ (rdb st)) as [[[]|e|p] r]; simpl; [| |done]; (split; [|done]).
  - by destruct Hl as [_ ->].
  - by rewrite Hl.
Qed.

Lemma Release_cases key tok (st : RedisLock R) :
  Redis.locks st !! key = Some tok → tokens_of st !! key = Some tok →
  ∃ st', Release key st = (Ok tt, st') ∧ Redis.locks st' = delete key (Redis.locks st) ∧
    (tokens_of st' = delete key (tokens_of st) ∨ release_fails key tok ∧ tokens_of st' = tokens_of st).
Proof.
  intros Hown Htok. unfold Release, ignore, attempt, mbind, M_bind, gets, on_rdb, zoom. simpl. rewrite Hown.
  pose proof (LockRelease_law key tok (rdb st)) as Hl.
  destruct (LockRelease key tok (rdb st)) as [[[]|e|p] r] eqn:E; simpl; [| |done];
    eexists; (split; [reflexivity|]); (split; [reflexivity|]); simpl.
  - destruct Hl as [_ ->]. by left.
  - destruct Hl as [->|[_ ->]]; [right; split; [|done]|by left]. exists (rdb st), e. by rewrite E.
Qed.

Section keeps_locks.
Context (L : gmap string nat * gmap string nat).
Let I (x : St) : Prop := tables_of x = L.
Let J (x : RedisLock R * T) : Prop := lock_tables x.1 = L.

Lemma SetFsNode_locks id m : keeps J (c_SetFsNode id m).
Proof.
  intros [st t] Hx. red in Hx |- *. rewrite <-Hx. clear Hx. unfold lock_tables. cbn [c_SetFsNode CC' left_coordinator zoom_coordinator].
  unfold zoom. cbn [fst snd CoordinatorClientLocal c_SetFsNode].
  pose proof (SetFsNode_spec id m st) as Hs. cbv zeta in Hs.
  destruct (SetFsNode id m st) as [[n|e|p] st']; [| |done].
  - destruct Hs as (_ & Hv & Hl). simpl. by rewrite Hl, Hv.
  - destruct Hs as [[Hv|Hv] Hl]; simpl; by rewrite Hl, Hv.
Qed.

Lemma AddFsNodeChild_locks p id : keeps J (c_AddFsNodeChild p id).
Proof.
  intros [st t] Hx. red in Hx |- *. rewrite <-Hx. clear Hx. unfold lock_tables. cbn [c_AddFsNodeChild CC' left_coordinator zoom_coordinator].
  unfold zoom. cbn [fst snd CoordinatorClientLocal c_AddFsNodeChild]. unfold AddFsNodeChild.
  pose proof (on_rdb_does _ st _ _ (SAdd_law (MetadataFsNodeChildren p) id (rdb st))) as Hs.
  destruct (on_rdb _ st) as [[n|e|q] st']; [| |done].
  - destruct Hs as (_ & Hv & Hl). simpl. by rewrite Hl, Hv.
  - destruct Hs as [[Hv|Hv] Hl]; simpl; by rewrite Hl, Hv.
Qed.

Lemma cs_Add_locks h c : keeps J (cs_Add h c).
Proof. intros [x t] Hx. unfold cs_Add. simpl. unfold zoom. simpl. by destruct (cs_Add h c t). Qed.

Lemma StoreContentFromSource_locks source :
  keeps I (StoreContentFromSource serverConfig fs s3 clock source).
Proof.
  apply (StoreContentFromSource_keeps serverConfig fs s3 clock J).
  - intros. apply StoreContentInBlobFs_keeps; [apply SetFsNode_locks|apply AddFsNodeChild_locks].
  - intros buffer _. apply cs_Add_locks.
Qed.

(** The refreshes change no lock, and their errors are dropped. *)
Lemma refreshes_locks n path (x : St) :
  I x → ∃ x', refreshes locality n path x = (Ok tt, x') ∧ I x'.
Proof.
  unfold refreshes. generalize 0%nat as i. revert x.
  induction n as [|n IH]; intros x i Hx; [by exists x|]. simpl.
  unfold ignore, attempt, on_state, zoom, mbind, M_bind. simpl. unfold zoom. simpl.
  destruct x as [[st t] c]. unfold I, tables_of in *. simpl in *. unfold RefreshStoreFromContentLock.
  destruct (Refresh_cases (MetadataStoreFromContentLock locality path)
    (mkLockOptions storeFromContentLockTtlS 0) st) as [Hl Hp].
  destruct (Refresh _ _ st) as [[[]|e|p] st']; simpl in *; [| |by destruct (Hp p)];
    apply (IH (((st', t), c) : St) (Datatypes.S i)); unfold I, tables_of; simpl; congruence.
Qed.

End keeps_locks.

Abbreviation WithLock := (StoreContentFromSourceWithLock serverConfig fs s3 clock locality).

(** The lock is set on the left, the storage stays. *)
Lemma set_lock_cases path (x : St) :
  let key := MetadataStoreFromContentLock locality path in
  match on_state (c_SetStoreFromContentLock locality path) x with
  | (Ok _, x') => ∃ tok, (tables_of x).2 !! key = None ∧ (tok ∉ issued (view (rdb x.1.1))) ∧
      tables_of x' = (<[key := tok]> (tables_of x).1, <[key := tok]> (tables_of x).2)
  | (Err _, x') => x'.1.2 = x.1.2 ∧ x'.2 = x.2 ∧ tables x'.1.1 = tables x.1.1 ∧
      (tables_of x' = tables_of x ∨
       (tables_of x).2 !! key = None ∧
       ∃ tok, tables_of x' = ((tables_of x).1, <[key := tok]> (tables_of x).2))
  | (Panic _, _) => False
  end.
Proof.
  intros key. destruct x as [[st t] c]. unfold on_state, zoom. simpl. unfold zoom. simpl.
  unfold SetStoreFromContentLock. fold key.
  pose proof (Acquire_cases key (mkLockOptions storeFromContentLockTtlS 0) st) as Ha.
  pose proof (Acquire_tables key (mkLockOptions storeFromContentLockTtlS 0) st) as Ht.
  destruct (Acquire key _ st) as [[[]|e|p] st']; simpl in *; [exact Ha| |done].
  by split_and!.
Qed.

(** C39: the lock around a store, over the local coordinator and any Redis server
    with its laws.  When the lock is held the call fails to acquire it; then nothing
    is fetched or stored, in the storage or in the tree.  Otherwise the lock is taken
    under a new token; a success gives it back, on the server too unless the server
    fails to release it; when fetching the source fails, the lock is still held at the
    end of the call, and only its expiry frees it.  No other lock changes. *)
Theorem StoreWithLock_lock ticks source (x : St) :
  let key := MetadataStoreFromContentLock locality (src_Path source) in
  let '(own, server_has) := tables_of x in
  match WithLock ticks source x with
  | (Ok r, x') =>
      (is_Some (server_has !! key) → l_FailedToAcquireLock r = true ∧ tables_of x' = tables_of x) ∧
      if l_FailedToAcquireLock r then
        l_Ok r = false ∧ l_Hash r = "" ∧ x'.1.2 = x.1.2 ∧ x'.2 = x.2 ∧ tables x'.1.1 = tables x.1.1 ∧
        (tables_of x').1 = own ∧ delete key (tables_of x').2 = delete key server_has
      else
        server_has !! key = None ∧ ∃ tok, (tok ∉ issued (view (rdb x.1.1))) ∧
        if l_Ok r then
          (tables_of x').1 = delete key own ∧
          ((tables_of x').2 = server_has ∨
           release_fails key tok ∧ (tables_of x').2 = <[key := tok]> server_has)
        else tables_of x' = (<[key := tok]> own, <[key := tok]> server_has)
  | (Err _, _) => False
  | (Panic _, _) => server_has !! key = None
  end.
Proof.
  intros key. destruct (tables_of x) as [own server_has] eqn:Ex.
  unfold StoreContentFromSourceWithLock. cbv zeta.
  pose proof (set_lock_cases (src_Path source) x) as Ha. cbv zeta in Ha. fold key in Ha. rewrite Ex in Ha.
  destruct (on_state (c_SetStoreFromContentLock locality (src_Path source)) x) as [[[]|e|p] x1] eqn:E1;
    cbn [fst snd] in Ha; [| |done].
  2: { rewrite (bind_attempt_Err _ _ _ _ _ E1). cbn [mret M_ret l_FailedToAcquireLock l_Ok l_Hash].
    destruct Ha as (Hs & Hc & Ht & Ha). split.
    - intros [tok Htok]. split; [done|]. destruct Ha as [Ha|[Hn _]]; [exact Ha|congruence].
    - split_and!; [done..| |]; destruct Ha as [->|(_ & tok & ->)]; try done.
      simpl. by rewrite delete_insert_eq. }
  destruct Ha as (tok & Hfree & Hnew & Hx1). rewrite (bind_attempt_Ok _ _ _ _ _ E1).
  set (L := (_, _)) in Hx1.
  destruct (refreshes_locks L ticks.1 (src_Path source) x1 Hx1) as (x2 & E2 & Hx2).
  rewrite (bind_Ok _ _ _ _ _ E2).
  pose proof (StoreContentFromSource_locks L source x2 Hx2) as Hk.
  destruct (StoreContentFromSource serverConfig fs s3 clock source x2) as [[resp|err|p] x3] eqn:E3.
  3: { by rewrite (bind_attempt_Panic _ _ _ _ _ E3). }
  all: destruct (refreshes_locks L ticks.2 (src_Path source) x3 Hk) as (x4 & E4 & Hx4).
  - rewrite (bind_attempt_Ok _ _ _ _ _ E3), (bind_Ok _ _ _ _ _ E4).
    destruct x4 as [[st t] c]. unfold tables_of, lock_tables in Hx4. simpl in Hx4.
    injection Hx4 as Hown Htoks.
    destruct (Release_cases key tok st) as (st' & Er & Hown' & Hrel);
      [rewrite Hown; apply lookup_insert_eq|rewrite Htoks; apply lookup_insert_eq|].
    unfold ignore, attempt, on_state, zoom, mbind, M_bind. simpl. unfold zoom. simpl.
    unfold RemoveStoreFromContentLock. fold key. rewrite Er. cbn [mret M_ret l_FailedToAcquireLock l_Ok].
    split; [intros [? ?]; congruence|]. split; [exact Hfree|]. exists tok. split; [exact Hnew|].
    unfold tables_of, lock_tables. simpl. rewrite Hown', Hown, delete_insert_eq. split; [done|].
    destruct Hrel as [->|[Hf ->]]; rewrite Htoks; [left|by right].
    by apply delete_insert_id.
  - rewrite (bind_attempt_Err _ _ _ _ _ E3), (bind_Ok _ _ _ _ _ E4).
    cbn [mret M_ret l_FailedToAcquireLock l_Ok].
    split; [intros [? ?]; congruence|]. split; [exact Hfree|]. exists tok. split; [exact Hnew|]. exact Hx4.
Qed.

End with_lock.

(** ** Witnesses and examples *)

Abbreviation small := (small_config 4 f_zero).
#[local] Instance small_store : ContentStore (clocked (gmap string cache_item)) := cas_store small.
Definition small_laws (stored : gmap string (list byte)) (H : valid_stored stored) :
  ContentStoreLaws (clocked (gmap string cache_item)) stored :=
  cas_laws small stored false (small_config_valid 4 f_zero ltac:(done)) H.

(** The storage with ten bytes in it. *)
Definition ten_stored : clocked (gmap string cache_item) := ([(1, 1)], after_add 4).

Lemma ten_stored_inv : @cs_inv _ _ _ (small_laws small_stored small_stored_valid) ten_stored.
Proof.
  exact (reachable_inv small small_stored false (small_config_valid 4 f_zero ltac:(done))
    small_stored_valid _ _ (after_add_reachable 4 false)).
Qed.

Lemma GetContent_serves_witness :
  (GetContent "a1" 3 5 ten_stored).1 = Ok (mkGetContent (take 5 (drop 3 abc)) true) ∧
  (GetContent "a1" 3 (-1) ten_stored).1 = Panic PanicMake ∧
  match GetContent "a1" 3 5 ten_stored with
  | (Ok r, s') =>
      0 ≤ 5 ∧ @cs_inv _ _ _ (small_laws small_stored small_stored_valid) s' ∧
      (gc_Ok r = false ∧ Content r = [] ∨
       gc_Ok r = true ∧ zlen (Content r) ≤ 5 ∧
       Content r = take (Z.to_nat (zlen (Content r)))
                     (drop (Z.to_nat 3) (content_of small_stored "a1")))
  | (Err _, _) => False
  | (Panic p, s') => 5 < 0 ∧ p = PanicMake
  end.
Proof.
  split_and!; [by vm_compute|by vm_compute|].
  exact (GetContent_serves (CL := small_laws small_stored small_stored_valid) "a1" 3 5 ten_stored
    ten_stored_inv hash_a1 ltac:(by unfold int64_range) ltac:(by unfold int64_range)).
Defined.

Lemma GetContentStream_range_witness :
  match GetContentStream "a1" 3 100 (λ _, None) ten_stored with
  | (Ok e, s') =>
      @cs_inv _ _ _ (small_laws small_stored small_stored_valid) s' ∧
      concat (e_sent e) = take (Z.to_nat (zlen (concat (e_sent e))))
                            (drop (Z.to_nat 3) (content_of small_stored "a1")) ∧
      zlen (concat (e_sent e)) ≤ Z.max 0 100 ∧
      Forall (λ c, 0 < zlen c ≤ getContentStreamChunkSize) (e_sent e) ∧
      (@cs_complete _ _ _ (small_laws small_stored small_stored_valid) → e_err e = None →
       zlen (concat (e_sent e)) = Z.max 0 (Z.min 100 (zlen (content_of small_stored "a1") - 3)))
  | _ => False
  end.
Proof.
  exact (GetContentStream_range (CL := small_laws small_stored small_stored_valid) "a1" 3 100
    (λ _, None) ten_stored ten_stored_inv hash_a1 ltac:(lia) ltac:(lia) ltac:(by unfold int64_range)).
Defined.

(** Two messages stored under their hash. *)
Definition hashed : gmap string (list byte) := {[ content_hash abc := abc ]}.

Lemma hashed_valid : valid_stored hashed.
Proof.
  unfold valid_stored, hashed. apply map_Forall_singleton.
  split; [|done]. unfold valid_hash, plain_name. by vm_compute.
Qed.

Lemma StoreContent_GetContent_witness :
  let s := ([], fresh) : clocked (gmap string cache_item) in
  let s' := (StoreContent [take 4 abc; drop 4 abc] None s).2 in
  (GetContent (content_hash abc) 2 7 s').1 =
    Ok (mkGetContent (take (Z.to_nat 7) (drop (Z.to_nat 2) abc)) true).
Proof.
  refine (proj2 (StoreContent_GetContent (CL := small_laws hashed hashed_valid)
    [take 4 abc; drop 4 abc] 2 7 ([], fresh) (content_hash abc) _ _ _ _ _ _ _ _)).
  - exact (reachable_inv small hashed false (small_config_valid 4 f_zero ltac:(done))
      hashed_valid [] fresh_node (reach_init _ _ _ ∅ {[ "/cache" ]} 0 eq_refl)).
  - split_and!; reflexivity.
  - by vm_compute.
  - apply pair_fst_eq. by vm_compute.
  - done.
  - done.
  - done.
Defined.

#[local] Existing Instances Mock.coordinator MockStore.node_store MockStore.laws BlobFs.mock_client.

(** A host with one file. *)
Definition one_file : host_files := {|
  os_Stat p := if decide (p = "/d/f") then Ok (mkInfo 420 10 false (3, 4) (5, 6)) else Err Disk.not_exist;
  os_Open p := if decide (p = "/d/f") then None else Some Disk.not_exist;
  io_Copy p := if decide (p = "/d/f") then (abc, None) else ([], Some Disk.not_exist);
|}.

Lemma d_f_plain : Forall plain_name ["d"; "f"].
Proof. by apply (bool_decide_unpack _). Qed.

Lemma d_f_nodup : NoDup (map (id_at ["d"; "f"]) (seq 1 (length ["d"; "f"]))).
Proof. by apply (bool_decide_unpack _); vm_compute. Qed.

Lemma StoreContentInBlobFs_tree_witness :
  match StoreContentInBlobFs one_file (λ _, (8, 9)) "d/./f" "h" 10 BlobFs.mounted with
  | (Ok _, s') =>
      (∀ i, (1 ≤ i ≤ length ["d"; "f"])%nat →
         component "h" 10 (mkInfo 420 10 false (3, 4) (5, 6)) ["d"; "f"] (node s') (child s') i) ∧
      ∀ id, valid_id id → id ∉ map (id_at ["d"; "f"]) (seq 1 (length ["d"; "f"])) →
        node s' id = node BlobFs.mounted id
  | (Err _, s') =>
      ∀ id, valid_id id → id ∉ map (id_at ["d"; "f"]) (seq 1 (length ["d"; "f"])) →
        node s' id = node BlobFs.mounted id
  | (Panic _, _) => False
  end.
Proof.
  exact (StoreContentInBlobFs_tree one_file (λ _, (8, 9)) "d/./f" "h" 10
    (mkInfo 420 10 false (3, 4) (5, 6)) ["d"; "f"] BlobFs.mounted ltac:(done) d_f_plain eq_refl
    ltac:(done) eq_refl d_f_nodup).
Defined.

Lemma stored_file_found_witness :
  ∃ s' inode attr s'',
    StoreContentInBlobFs one_file (λ _, (8, 9)) "d/./f" "h" 10 BlobFs.mounted = (Ok tt, s') ∧
    BlobFs.Lookup BlobFs.dir_node "f" s' = (Ok (inode, attr), s'') ∧
    BlobFs.NHash (BlobFs.bfsNode (BlobFs.operations inode)) = "h" ∧
    BlobFs.NPath (BlobFs.bfsNode (BlobFs.operations inode)) = abs_path ["d"; "f"] ∧
    BlobFs.Fuse.Size attr = 10.
Proof.
  exact (stored_file_found one_file (λ _, (8, 9)) "d/./f" "h" 10 (mkInfo 420 10 false (3, 4) (5, 6))
    ["d"] "f" BlobFs.dir_node BlobFs.mounted I d_f_plain eq_refl ltac:(done) eq_refl eq_refl
    d_f_nodup eq_refl eq_refl).
Defined.

(** A server over a small storage and a coordinator over the reference Redis, with an S3 that checks the
    secret of the request. *)
Definition checked_s3 : s3_world := {|
  s3_load := None;
  s3_head c _ := if decide (S3SecretKey c = "good") then Ok 10 else Err (ErrLib "forbidden");
  s3_range c _ r := if decide (S3SecretKey c = "good") then one_object abc r
                    else RangeErr (ErrLib "forbidden");
  s3_order := seq 0 10;
|}.

Abbreviation over_db CS := (@StoreContentFromSourceWithLock _
  (CC' (R := db) (T := clocked (gmap string cache_item)) small) (CS' CS) small one_file checked_s3
  (λ _, (8, 9)) "l").

Definition idle : server (S := RedisLock db * clocked (gmap string cache_item)) :=
  ((mkRedisLock no_db ∅, ([], fresh)), ∅).
Definition d_f : CacheSource := mkSource "d/f" "" "" "" "" "".
Definition missing : CacheSource := mkSource "none" "" "" "" "" "".

(** A store that succeeds, one that fails to fetch and keeps its lock, and a second
    attempt at it. *)
Lemma StoreWithLock_lock_witness :
  let key := MetadataStoreFromContentLock "l" "none" in
  let after_missing := over_db small_store (1, 2)%nat missing idle in
  (over_db small_store (1, 2)%nat d_f idle).1 = Ok (mkWithLock true (content_hash abc) false None) ∧
  tables_of (over_db small_store (1, 2)%nat d_f idle).2 = (∅, ∅) ∧
  (tables_of after_missing.2).2 !! key = Some 0%nat ∧
  (let '(own, server_has) := tables_of after_missing.2 in
   match over_db small_store (1, 2)%nat missing after_missing.2 with
   | (Ok r, x') =>
       (is_Some (server_has !! key) →
          l_FailedToAcquireLock r = true ∧ tables_of x' = tables_of after_missing.2) ∧
       if l_FailedToAcquireLock r then
         l_Ok r = false ∧ l_Hash r = "" ∧ x'.1.2 = after_missing.2.1.2 ∧ x'.2 = after_missing.2.2 ∧
         tables x'.1.1 = tables after_missing.2.1.1 ∧
         (tables_of x').1 = own ∧ delete key (tables_of x').2 = delete key server_has
       else
         server_has !! key = None ∧
         ∃ tok, (tok ∉ issued (view (rdb after_missing.2.1.1))) ∧
         if l_Ok r then
           (tables_of x').1 = delete key own ∧
           ((tables_of x').2 = server_has ∨
            release_fails (R := db) key tok ∧ (tables_of x').2 = <[key := tok]> server_has)
         else tables_of x' = (<[key := tok]> own, <[key := tok]> server_has)
   | (Err _, _) => False
   | (Panic _, _) => server_has !! key = None
   end).
Proof.
  intros key after_missing. split; [by vm_compute|]. split; [by vm_compute|]. split; [by vm_compute|].
  exact (StoreWithLock_lock small_store small one_file checked_s3 (λ _, (8, 9)) "l" (1, 2)%nat missing
    after_missing.2).
Defined.

(** The S3 client of a bucket is kept with the credentials of the first request:
    a second request with a wrong secret is served. *)
Example s3_credentials_reused :
  let good := mkSource "k" "b" "r" "e" "a" "good" in
  let bad := mkSource "k" "b" "r" "e" "a" "bad" in
  let x1 := (fetch_source small one_file checked_s3 good idle).2 in
  (fetch_source small one_file checked_s3 bad idle).1 = Err (ErrLib "forbidden") ∧
  (fetch_source small one_file checked_s3 bad x1).1 = Ok abc.
Proof. by vm_compute. Qed.

(** A storage that refuses everything. *)
Definition full_store : ContentStore () := {|
  cs_Add _ _ := throw (ErrNew "unable to cache: set dropped");
  cs_Get _ _ _ _ := throw ErrContentNotFound;
  cs_Exists _ := mret false;
|}.

(** The storing fails, and the answer with the lock is a success without a hash. *)
Example failed_store_is_ok :
  (@StoreContentFromSourceWithLock _ (CC' (R := db) small) (CS' full_store) small one_file checked_s3
     (λ _, (8, 9)) "l" (0, 0)%nat d_f ((mkRedisLock no_db ∅, tt), ∅)).1 =
  Ok (mkWithLock true "" false None).
Proof. by vm_compute. Qed.

(** The fetching fails, and the lock is left behind. *)
Example failed_fetch_keeps_the_lock :
  (tables_of (over_db small_store (0, 0)%nat missing idle).2).2 !!
    MetadataStoreFromContentLock "l" "none" = Some 0%nat.
Proof. by vm_compute. Qed.
