(* ===== verification/Timed.v ===== *)
(** * Time: keepalives and locks that expire

    A key of the Redis server can have a time to live.  The class [TimedRedis] adds
    the passing of time to [Redis.v], with the laws of the documentation; on it, what
    the ticks of a server's keepalive ([HostKeepAlive] of [pkg/server.go]) mean for the
    region, how the lock around a store keeps servers from storing a file at once
    ([StoreContentFromSourceWithLock]), and what becomes of a host or of a lock whose
    owner is gone.  Times are in nanoseconds. *)

From S2P Require Import Prelude GoStrings FsID GoFloat Types Redis Metadata Coordinator CoordinatorLaws.
From S2P Require Server.
Local Open Scope Z_scope.

(** ** Time to live *)

(** [ttl]: the time that a key has left, [None] without a limit or without a value. *)
Class TimedRedis (R : Type) `{Redis R} : Type := {
  pass : Z → R → R;
  ttl : R → string → option Z;
}.

Definition expired {R} `{TimedRedis R} (r : R) (d : Z) (k : string) : bool :=
  match ttl r k with Some t => bool_decide (t ≤ d) | None => false end.

(** A call that leaves the times alone; but for those of one key. *)
Definition quiet {R A} `{TimedRedis R} (m : M R A) : Prop :=
  ∀ r k, ttl (m r).2 k = ttl r k.
Definition quiet_but {R A} `{TimedRedis R} (key : string) (m : M R A) : Prop :=
  ∀ r k, k ≠ key → ttl (m r).2 k = ttl r k.

Class TimedRedisLaws (R : Type) `{TimedRedis R} : Prop := {
  ttl_pos r k t : ttl r k = Some t → 0 < t;
  pass_ttl r d k :
    0 ≤ d → ttl (pass d r) k = if expired r d k then None else (λ t, t - d) <$> ttl r k;
  pass_hashes r d : hashes (view (pass d r)) = hashes (view r);
  pass_sets r d : sets (view (pass d r)) = sets (view r);
  pass_strings r d k :
    0 ≤ d → strings (view (pass d r)) !! k = if expired r d k then None else strings (view r) !! k;
  pass_tokens r d k :
    0 ≤ d →
    lock_tokens (view (pass d r)) !! k = if expired r d k then None else lock_tokens (view r) !! k;
  RSet_ttl k v t r r' : 0 < t → RSet k v t r = (Ok tt, r') → ttl r' k = Some t;
  (** an error can come after the value was set *)
  RSet_ttl_Err k v t r e r' :
    0 < t → RSet k v t r = (Err e, r') →
    view r' = view r ∧ ttl r' k = ttl r k ∨
    view r' = set_strings (insert k v) (view r) ∧ ttl r' k = Some t;
  Obtain_ttl k t n r tok r' : 0 < t → Obtain k t n r = (Ok tok, r') → ttl r' k = Some t;
  (** an attempt that fails changes nothing, or took a free lock before the error:
      the token and its time are set at once *)
  Obtain_ttl_Err k t n r e r' :
    0 < t → Obtain k t n r = (Err e, r') →
    view r' = view r ∧ ttl r' k = ttl r k ∨ lock_tokens (view r) !! k = None ∧ ttl r' k = Some t;
  (** a release deletes the token or changes nothing *)
  LockRelease_ttl k tok r :
    lock_tokens (view (LockRelease k tok r).2) !! k = None ∨ ttl (LockRelease k tok r).2 k = ttl r k;
  LockRefresh_ttl k tok t n r r' : 0 < t → LockRefresh k tok t n r = (Ok tt, r') → ttl r' k = Some t;
  (** the answer to a refresh can be lost *)
  LockRefresh_ttl_Err k tok t n r e r' :
    0 < t → LockRefresh k tok t n r = (Err e, r') → ttl r' k = ttl r k ∨ ttl r' k = Some t;
  HGetAll_quiet k : quiet (HGetAll (R:=R) k);
  HSet_quiet k vs : quiet (HSet (R:=R) k vs);
  SMembers_quiet k : quiet (SMembers (R:=R) k);
  SAdd_quiet k x : quiet (SAdd (R:=R) k x);
  SRem_quiet k x : quiet (SRem (R:=R) k x);
  RGet_quiet k : quiet (RGet (R:=R) k);
  RSet_quiet k v t : quiet_but k (RSet (R:=R) k v t);
  Del_quiet k : quiet_but k (Del (R:=R) k);
  Obtain_quiet k t n : quiet_but k (Obtain (R:=R) k t n);
  LockRelease_quiet k tok : quiet_but k (LockRelease (R:=R) k tok);
  LockRefresh_quiet k tok t n : quiet_but k (LockRefresh (R:=R) k tok t n);
}.

(** ** The calls that leave a key alone *)

Section others.
Context {R : Type} `{TRL : TimedRedisLaws R} {RLaws : RedisLaws R} `{HC : HostCodec}.
Abbreviation RL := (RedisLock R).
Abbreviation V st := (view (rdb st)).

(** What is stored under the key: a string, or the token of a lock. *)
Context {X : Type} (cell : db → option X) (key : string).
Class cell_ok : Prop := {
  cell_hashes f d : cell (set_hashes f d) = cell d;
  cell_sets f d : cell (set_sets f d) = cell d;
  cell_strings k v d : k ≠ key → cell (set_strings (insert k v) d) = cell d;
  cell_del k d : k ≠ key → cell (set_tokens (delete k) (set_strings (delete k) d)) = cell d;
  cell_token k d : k ≠ key → cell (set_tokens (delete k) d) = cell d;
  cell_issue k tok d : k ≠ key → cell (issue k tok d) = cell d;
}.
Context {HX : cell_ok}.

Definition slot (st : RL) : option X * option Z := (cell (V st), ttl (rdb st) key).
Abbreviation K x := (λ st : RL, slot st = x).

Lemma slot_command {A} (m : M R A) Q (d : R → db) x :
  (∀ r, does m r (Q r) (d r)) → (∀ r, cell (d r) = cell (view r)) →
  (∀ r, ttl (m r).2 key = ttl r key) → keeps (K x) (on_rdb m).
Proof.
  intros Hm Hd Ht st <-. specialize (Hm (rdb st)). specialize (Hd (rdb st)). specialize (Ht (rdb st)).
  unfold slot, on_rdb, zoom, does in *. destruct (m (rdb st)) as [[a|e|p] r]; simpl in *; [| |done].
  - destruct Hm as [_ ->]. by rewrite Ht, Hd.
  - destruct Hm as [->| ->]; by rewrite Ht, ?Hd.
Qed.

Lemma slot_HGetAll k x : keeps (K x) (on_rdb (HGetAll k)).
Proof. eapply slot_command; [intros r; apply HGetAll_law|done|]. intros r. apply HGetAll_quiet. Qed.

Lemma slot_HSet k vs x : keeps (K x) (on_rdb (HSet k vs)).
Proof.
  eapply slot_command; [intros r; apply HSet_law| |]; intros r; [apply cell_hashes|apply HSet_quiet].
Qed.

Lemma slot_SMembers k x : keeps (K x) (on_rdb (SMembers k)).
Proof. eapply slot_command; [intros r; apply SMembers_law|done|]. intros r. apply SMembers_quiet. Qed.

Lemma slot_SAdd k y x : keeps (K x) (on_rdb (SAdd k y)).
Proof.
  eapply slot_command; [intros r; apply SAdd_law| |]; intros r; [apply cell_sets|apply SAdd_quiet].
Qed.

Lemma slot_SRem k y x : keeps (K x) (on_rdb (SRem k y)).
Proof.
  eapply slot_command; [intros r; apply SRem_law| |]; intros r; [apply cell_sets|apply SRem_quiet].
Qed.

Lemma slot_RGet k x : keeps (K x) (on_rdb (RGet k)).
Proof.
  intros st <-. pose proof (RGet_law k (rdb st)) as Hg. pose proof (RGet_quiet k (rdb st) key) as Ht.
  unfold slot, on_rdb, zoom. destruct (RGet k (rdb st)) as [[v|e|p] r]; simpl in *; [| |done];
    destruct Hg as [_ ->]; by rewrite Ht.
Qed.

Lemma slot_RSet k v t x : k ≠ key → keeps (K x) (on_rdb (RSet k v t)).
Proof.
  intros Hk. eapply slot_command; [intros r; apply RSet_law| |]; intros r;
    [by apply cell_strings|by apply RSet_quiet].
Qed.

Lemma slot_Del k x : k ≠ key → keeps (K x) (on_rdb (Del k)).
Proof.
  intros Hk. eapply slot_command; [intros r; apply Del_law| |]; intros r; [|by apply Del_quiet].
  change (cell (set_sets (delete k) (set_hashes (delete k)
    (set_tokens (delete k) (set_strings (delete k) (view r))))) = cell (view r)).
  by rewrite cell_sets, cell_hashes, cell_del.
Qed.

(** *** The locks *)

Lemma slot_Acquire k opts x : k ≠ key → keeps (K x) (Acquire k opts).
Proof.
  intros Hk st <-. unfold Acquire, attempt, mbind, M_bind, on_rdb, zoom.
  set (t := wrap64 _).
  pose proof (Obtain_law k t (Retries opts) (rdb st)) as Ho.
  pose proof (Obtain_quiet k t (Retries opts) (rdb st) key ltac:(congruence)) as Ht.
  destruct (Obtain _ _ _ (rdb st)) as [[tok|e|p] r]; simpl in *; [| |done].
  - destruct Ho as (_ & _ & Hv). unfold slot. simpl. by rewrite Hv, Ht, cell_issue.
  - assert (slot (mkRedisLock r (locks st)) = slot st) as E; [|by case_decide].
    unfold slot. simpl. rewrite Ht. destruct Ho as [->|(_ & tok & _ & _ & ->)]; [done|].
    by rewrite cell_issue.
Qed.

Lemma slot_Release k x : k ≠ key → keeps (K x) (Release k).
Proof.
  intros Hk st <-. unfold Release, ignore, attempt, mbind, M_bind, gets, on_rdb, zoom. simpl.
  destruct (locks st !! k) as [tok|]; [|done]. pose proof (LockRelease_law k tok (rdb st)) as Hl.
  pose proof (LockRelease_quiet k tok (rdb st) key ltac:(congruence)) as Ht.
  destruct (LockRelease k tok (rdb st)) as [[[]|e|p] r]; simpl in *; [| |done]; unfold slot; simpl;
    rewrite Ht.
  - destruct Hl as [_ ->]. by rewrite cell_token.
  - destruct Hl as [->|[_ ->]]; [done|]. by rewrite cell_token.
Qed.

Lemma slot_Refresh k opts x : k ≠ key → keeps (K x) (Refresh k opts).
Proof.
  intros Hk st <-. unfold Refresh, mbind, M_bind, gets, on_rdb, zoom. simpl.
  destruct (locks st !! k) as [tok|]; [|done]. set (t := wrap64 _).
  pose proof (LockRefresh_law k tok t (Retries opts) (rdb st)) as Hl.
  pose proof (LockRefresh_quiet k tok t (Retries opts) (rdb st) key ltac:(congruence)) as Ht.
  destruct (LockRefresh _ _ _ _ (rdb st)) as [[[]|e|p] r]; simpl in *; [| |done]; unfold slot; simpl;
    rewrite Ht; [by destruct Hl as [_ ->]|by rewrite Hl].
Qed.

(** *** The metadata *)

Lemma slot_HGetAll_nil k x : keeps (K x) (HGetAll_nil k).
Proof.
  unfold HGetAll_nil. apply keeps_bind; [apply keeps_attempt, slot_HGetAll|]. intros [h|e]; [apply keeps_ret|].
  case_decide; [apply keeps_throw|apply keeps_ret].
Qed.

Lemma slot_GetFsNode id x : keeps (K x) (GetFsNode id).
Proof.
  unfold GetFsNode. apply keeps_bind; [apply slot_HGetAll_nil|]. intros h.
  case_decide; [apply keeps_throw|apply keeps_ret].
Qed.

Lemma slot_SetFsNode id m x : keeps (K x) (SetFsNode id m).
Proof.
  unfold SetFsNode. cbv zeta. apply keeps_bind; [apply slot_HGetAll_nil|]. intros h.
  apply keeps_bind; [apply keeps_attempt, slot_HSet|]. intros [[]|e]; [apply keeps_ret|apply keeps_throw].
Qed.

Lemma slot_GetFsNodeChildren id x : keeps (K x) (GetFsNodeChildren id).
Proof.
  unfold GetFsNodeChildren. apply keeps_bind; [apply slot_SMembers|]. intros ids.
  induction ids as [|i ids IH]; simpl; [apply keeps_ret|].
  apply keeps_bind; [apply keeps_attempt, slot_GetFsNode|]. intros n.
  apply keeps_bind; [apply IH|]. intros es. apply keeps_ret.
Qed.

Lemma slot_SetHostKeepAlive l h x :
  MetadataHostKeepAlive l (HostId h) ≠ key → keeps (K x) (SetHostKeepAlive l h).
Proof.
  intros Hk. unfold SetHostKeepAlive. destruct (Marshal h); [by apply slot_RSet|apply keeps_throw|].
  apply keeps_gopanic.
Qed.

Lemma slot_GetAvailableHosts l x : keeps (K x) (local_GetAvailableHosts l).
Proof.
  unfold local_GetAvailableHosts, GetAvailableHosts. apply keeps_bind; [apply slot_SMembers|].
  intros ids. apply keeps_bind; [|intros []; [apply keeps_throw|apply keeps_ret]].
  induction ids as [|i ids IH]; simpl; [apply keeps_ret|].
  apply keeps_bind; [apply keeps_attempt, slot_RGet|]. intros [text|e].
  - apply keeps_bind; [apply IH|]. intros hs. apply keeps_ret.
  - apply keeps_bind; [|intros; apply IH]. case_decide; [|apply keeps_ret].
    apply keeps_bind; [apply keeps_ignore, slot_SRem|]. intros _. apply keeps_ignore, slot_SRem.
Qed.

(** A call of the coordinator that does not write the key. *)
Inductive other_call : RL → RL → Prop :=
  | oc_AddHostToIndex l h st : other_call st (AddHostToIndex l h st).2
  | oc_SetHostKeepAlive l h st :
      MetadataHostKeepAlive l (HostId h) ≠ key → other_call st (SetHostKeepAlive l h st).2
  | oc_GetAvailableHosts l st : other_call st (local_GetAvailableHosts l st).2
  | oc_Acquire k opts st : k ≠ key → other_call st (Acquire k opts st).2
  | oc_Release k st : k ≠ key → other_call st (Release k st).2
  | oc_Refresh k opts st : k ≠ key → other_call st (Refresh k opts st).2
  | oc_SetFsNode id m st : other_call st (SetFsNode id m st).2
  | oc_GetFsNode id st : other_call st (GetFsNode id st).2
  | oc_RemoveFsNode id st : MetadataFsNode id ≠ key → other_call st (RemoveFsNode id st).2
  | oc_AddFsNodeChild pid id st : other_call st (AddFsNodeChild pid id st).2
  | oc_RemoveFsNodeChild pid id st : other_call st (RemoveFsNodeChild pid id st).2
  | oc_GetFsNodeChildren id st : other_call st (GetFsNodeChildren id st).2.

Lemma other_call_slot st st' : other_call st st' → slot st' = slot st.
Proof.
  destruct 1 as [l h st|l h st Hk|l st|k opts st Hk|k st Hk|k opts st Hk|id m st|id st|id st Hk
    |pid id st|pid id st|id st].
  - by apply (slot_SAdd (MetadataHostIndex l) (HostId h) (slot st)).
  - by apply (slot_SetHostKeepAlive l h (slot st)).
  - by apply (slot_GetAvailableHosts l (slot st)).
  - by apply (slot_Acquire k opts (slot st)).
  - by apply (slot_Release k (slot st)).
  - by apply (slot_Refresh k opts (slot st)).
  - by apply (slot_SetFsNode id m (slot st)).
  - by apply (slot_GetFsNode id (slot st)).
  - by apply (slot_Del (MetadataFsNode id) (slot st)).
  - by apply (slot_SAdd (MetadataFsNodeChildren pid) id (slot st)).
  - by apply (slot_SRem (MetadataFsNodeChildren pid) id (slot st)).
  - by apply (slot_GetFsNodeChildren id (slot st)).
Qed.

(** Time passes for the server. *)
Definition wait (d : Z) (st : RL) : RL := mkRedisLock (pass d (rdb st)) (locks st).

Class cell_expires : Prop :=
  cell_pass r d : 0 ≤ d →
    cell (view (pass d r)) = if expired r d key then None else cell (view r).
Context {HE : cell_expires}.

(** A run in which nobody writes the key, and the time that it took. *)
Inductive untouched : RL * Z → RL * Z → Prop :=
  | u_other st st' b : other_call st st' → untouched (st, b) (st', b)
  | u_wait d st b : 0 ≤ d → untouched (st, b) (wait d st, b + d).

(** There are at most [t] nanoseconds left. *)
Definition expires_in (t : Z) (st : RL) : Prop :=
  cell (V st) = None ∨ ∃ t', ttl (rdb st) key = Some t' ∧ t' ≤ t.

Lemma wait_expires d t st : 0 ≤ d → expires_in t st → expires_in (t - d) (wait d st).
Proof.
  intros Hd He. unfold expires_in, wait in *. simpl. rewrite cell_pass, pass_ttl by done. unfold expired.
  destruct He as [Hn|(t' & Et & Ht)].
  - left. rewrite Hn. by case_match.
  - rewrite Et. simpl. case_bool_decide; [by left|]. right. exists (t' - d). split; [done|lia].
Qed.

(** A key that nobody writes is gone when its time is over. *)
Lemma untouched_expires t st b st' b' :
  rtc untouched (st, b) (st', b') → expires_in t st → expires_in (t - (b' - b)) st'.
Proof.
  intros Hrun He.
  refine (rtc_keeps untouched (λ x, expires_in (t - (x.2 - b)) x.1) _ _ _ Hrun _).
  - intros x y Hxy Hx. destruct Hxy as [s s' c Ho|d s c Hd]; simpl in *.
    + unfold expires_in in *. pose proof (other_call_slot s s' Ho) as Hs. unfold slot in Hs.
      by injection Hs as -> ->.
    + replace (t - (c + d - b)) with (t - (c - b) - d) by lia. by apply wait_expires.
  - simpl. by replace (t - (b - b)) with t by lia.
Qed.

Lemma expired_now t st : t ≤ 0 → expires_in t st → cell (V st) = None.
Proof. intros Ht [Hn|(t' & Et & Hle)]; [done|]. apply ttl_pos in Et. lia. Qed.

End others.

(** ** The keepalive of a host *)

Definition keepalive_interval : Z := defaultHostKeepAliveIntervalS * Second.
Definition keepalive_timeout : Z := defaultHostKeepAliveTimeoutS * Second.

(** The strings that [encoding/json] writes as they are: valid UTF-8, as
    [utf8.ValidString] decides it.  The other bytes it replaces. *)
Definition code (a : ascii) : N := N_of_ascii a.
Definition between (lo n hi : N) : bool := (lo <=? n)%N && (n <=? hi)%N.
Definition continues (n : N) : bool := between 128 n 191.

Fixpoint valid_utf8 (s : string) : bool :=
  match s with
  | EmptyString => true
  | String a s1 =>
      let b0 := code a in
      if (b0 <? 128)%N then valid_utf8 s1
      else match s1 with
      | EmptyString => false
      | String a1 s2 =>
          let b1 := code a1 in
          if between 194 b0 223 then continues b1 && valid_utf8 s2
          else match s2 with
          | EmptyString => false
          | String a2 s3 =>
              let b2 := code a2 in
              if between 224 b0 239 then
                between (if (b0 =? 224)%N then 160 else 128) b1 (if (b0 =? 237)%N then 159 else 191) &&
                continues b2 && valid_utf8 s3
              else match s3 with
              | EmptyString => false
              | String a3 s4 =>
                  between 240 b0 244 &&
                  between (if (b0 =? 240)%N then 144 else 128) b1 (if (b0 =? 244)%N then 143 else 191) &&
                  continues b2 && continues (code a3) && valid_utf8 s4
              end
          end
      end
  end.

Example utf8_examples :
  valid_utf8 "10.0.0.1:2049" = true ∧ valid_utf8 "é" = true ∧ valid_utf8 "∀" = true ∧
  valid_utf8 (String (ascii_of_N 255) "") = false ∧
  valid_utf8 (String (ascii_of_N 192) (String (ascii_of_N 128) "")) = false.
Proof. by vm_compute. Qed.

(** A host whose strings are text. *)
Definition text_host (h : BlobCacheHost) : Prop :=
  valid_utf8 (HostId h) = true ∧ valid_utf8 (Addr h) = true ∧ valid_utf8 (PrivateAddr h) = true.

Section keepalive.
Context {R : Type} `{TRL : TimedRedisLaws R} {RLaws : RedisLaws R} `{HC : HostCodec}.
Context (serverConfig : BlobCacheServerConfig) (locality hostId : string).
Abbreviation RL := (RedisLock R).
Abbreviation V st := (view (rdb st)).
Abbreviation key := (MetadataHostKeepAlive locality hostId).
Abbreviation index st := (members (V st) (MetadataHostIndex locality)).
Abbreviation text_of := (λ d : db, strings d !! key).

#[local] Instance text_cell : cell_ok text_of key.
Proof.
  split; intros; simpl; try done; [by rewrite lookup_insert_ne|by rewrite lookup_delete_ne].
Qed.
#[local] Instance text_expires : cell_expires text_of key.
Proof. intros r d Hd. by apply pass_strings. Qed.

(** JSON gives back the hosts that it takes, when their strings are text. *)
Context (codec : ∀ h b, text_host h → Marshal h = Ok b → Unmarshal b = Some h).

(** The host is in the index, and has more than [t] nanoseconds left. *)
Definition listed (t : Z) (st : RL) : Prop :=
  hostId ∈ index st ∧
  ∃ text host t', strings (V st) !! key = Some text ∧ Unmarshal text = Some host ∧
    HostId host = hostId ∧ ttl (rdb st) key = Some t' ∧ t ≤ t'.
(** *** The index *)

Abbreviation I := (λ st : RL, hostId ∈ index st).
Abbreviation J text := (λ st : RL, text_of (V st) = Some text ∧ hostId ∈ index st).

Lemma index_command {A} (m : M R A) Q (d : R → db) :
  (∀ r, does m r (Q r) (d r)) →
  (∀ r, hostId ∈ members (view r) (MetadataHostIndex locality) →
        hostId ∈ members (d r) (MetadataHostIndex locality)) →
  keeps I (on_rdb m).
Proof.
  intros Hm Hd st Hi. specialize (Hm (rdb st)). specialize (Hd (rdb st) Hi).
  unfold on_rdb, zoom, does in *. destruct (m (rdb st)) as [[a|e|p] r]; simpl in *; [| |done].
  - by destruct Hm as [_ ->].
  - by destruct Hm as [->| ->].
Qed.

(** What leaves the sets of the server alone. *)
Lemma index_sets {A} (m : M RL A) : (∀ st, sets (V (m st).2) = sets (V st)) → keeps I m.
Proof. intros Hm st Hi. unfold members. by rewrite Hm. Qed.

Lemma index_SAdd k x : keeps I (on_rdb (SAdd k x)).
Proof.
  eapply index_command; [intros r; apply SAdd_law|]. intros r Hi. cbv beta. rewrite members_put_set.
  case_decide as E; [|done]. rewrite <-E in Hi. by apply elem_of_union_l.
Qed.

Lemma index_SRem k x :
  k ≠ MetadataHostIndex locality ∨ x ≠ hostId → keeps I (on_rdb (SRem k x)).
Proof.
  intros Hne. eapply index_command; [intros r; apply SRem_law|]. intros r Hi. cbv beta. rewrite members_put_set.
  case_decide as E; [|done]. rewrite <-E in Hi. destruct Hne as [Hne|Hne]; [done|].
  apply elem_of_difference. split; [done|]. by rewrite elem_of_singleton.
Qed.

Lemma index_Del id : keeps I (RemoveFsNode id).
Proof.
  eapply index_command; [intros r; apply Del_law|]. intros r Hi. unfold members. simpl.
  rewrite lookup_delete_ne; [done|]. by unfold MetadataFsNode, MetadataHostIndex.
Qed.

Lemma MetadataHostIndex_inj l l' : MetadataHostIndex l = MetadataHostIndex l' → l = l'.
Proof. apply string_app_inj_l. Qed.

(** The host is not pruned while its keepalive is there. *)
Lemma prune_keeps text l id :
  MetadataHostKeepAlive l id ≠ key → keeps (J text) (RemoveHostFromIndex l (host_of_id id)).
Proof.
  intros Hk st [Ht Hi]. split.
  - pose proof (slot_SRem text_of key (MetadataHostIndex l) id (slot text_of key st) st eq_refl) as Hs.
    unfold slot in Hs. injection Hs as E _. unfold RemoveHostFromIndex. simpl. by rewrite E.
  - apply (index_SRem (MetadataHostIndex l) id); [|done].
    destruct (decide (id = hostId)) as [->|]; [left|by right].
    intros E%MetadataHostIndex_inj. by subst l.
Qed.

Lemma GetAvailableHosts_keeps text l : keeps (J text) (local_GetAvailableHosts l).
Proof.
  unfold local_GetAvailableHosts, GetAvailableHosts.
  assert (∀ A (m : M R A) d, (∀ r, does m r (d r) (view r)) → keeps (J text) (on_rdb m)) as Hread.
  { intros A m d Hm st [Ht Hi]. specialize (Hm (rdb st)). unfold on_rdb, zoom, does in *.
    destruct (m (rdb st)) as [[a|e|p] r]; simpl in *; [| |done].
    - by destruct Hm as [_ ->].
    - by destruct Hm as [->| ->]. }
  apply keeps_bind; [eapply Hread; intros r; apply SMembers_law|].
  intros ids. apply keeps_bind; [|intros []; [apply keeps_throw|apply keeps_ret]].
  induction ids as [|i ids IH]; simpl; [apply keeps_ret|].
  intros st [Ht Hi]. pose proof (RGet_law (MetadataHostKeepAlive l i) (rdb st)) as Hg.
  destruct (RGet (MetadataHostKeepAlive l i) (rdb st)) as [[v|e|p] r] eqn:Er; [| |done];
    destruct Hg as [Hnil Hv]; set (st1 := mkRedisLock r (locks st));
    assert (text_of (V st1) = Some text ∧ hostId ∈ index st1) as HJ by (unfold st1; simpl; by rewrite Hv).
  - rewrite (bind_attempt_Ok _ _ _ v st1) by (unfold on_rdb, zoom; by rewrite Er).
    refine (keeps_bind (J text) _ _ IH _ st1 HJ). intros hs. apply keeps_ret.
  - rewrite (bind_attempt_Err _ _ _ e st1) by (unfold on_rdb, zoom; by rewrite Er).
    refine (keeps_bind (J text) _ _ _ (λ _, IH) st1 HJ). case_decide as He; [|apply keeps_ret].
    assert (MetadataHostKeepAlive l i ≠ key) as Hk.
    { intros E. specialize (Hnil He). rewrite E in Hnil. simpl in Ht. congruence. }
    apply keeps_bind; [by apply keeps_ignore, prune_keeps|]. intros _.
    by apply keeps_ignore, prune_keeps.
Qed.

Lemma tables_index (st st' : RL) : tables st' = tables st → hostId ∈ index st → hostId ∈ index st'.
Proof. intros [= _ E]. unfold members. by rewrite E. Qed.

Lemma view_index (st st' : RL) : V st' = V st → hostId ∈ index st → hostId ∈ index st'.
Proof. by intros ->. Qed.

Lemma other_call_index text st st' :
  other_call key st st' → text_of (V st) = Some text → hostId ∈ index st → hostId ∈ index st'.
Proof.
  intros Ho Ht Hi. destruct Ho as [l h st|l h st Hk|l st|k opts st Hk|k st Hk|k opts st Hk|id m st
    |id st|id st Hk|pid id st|pid id st|id st].
  - by apply (index_SAdd (MetadataHostIndex l) (HostId h)).
  - revert st Ht Hi. unfold SetHostKeepAlive. destruct (Marshal h) as [b|e|p]; intros st _ Hi; [|done..].
    eapply index_command; [intros r; apply RSet_law|done|exact Hi].
  - by apply (GetAvailableHosts_keeps text l).
  - eapply tables_index; [apply Acquire_tables|done].
  - eapply tables_index; [apply Release_tables|done].
  - eapply tables_index; [apply Refresh_tables|done].
  - pose proof (SetFsNode_spec id m st) as Hs. cbv zeta in Hs. destruct (SetFsNode id m st) as [[n|e|p] st'];
      simpl; [| |done].
    + destruct Hs as (_ & Hv & _). unfold members in *. by rewrite Hv.
    + destruct Hs as [[Hv|Hv] _]; unfold members in *; by rewrite Hv.
  - pose proof (GetFsNode_spec id st) as Hg. destruct (GetFsNode id st) as [[n|e|p] st']; simpl; [| |done].
    + destruct Hg as (_ & Hv & _). by eapply view_index.
    + destruct Hg as (Hv & _). by eapply view_index.
  - by apply index_Del.
  - by apply (index_SAdd (MetadataFsNodeChildren pid) id).
  - apply (index_SRem (MetadataFsNodeChildren pid) id); [|done]. left.
    by unfold MetadataFsNodeChildren, MetadataHostIndex.
  - refine ((_ : keeps I (GetFsNodeChildren id)) st Hi). unfold GetFsNodeChildren. apply keeps_bind.
    { eapply index_command; [intros r; apply SMembers_law|done]. }
    intros ids. induction ids as [|i ids IH]; simpl; [apply keeps_ret|].
    apply keeps_bind; [|intros n; apply keeps_bind; [exact IH|intros; apply keeps_ret]].
    apply keeps_attempt. intros s Hs. pose proof (GetFsNode_spec i s) as Hg.
    destruct (GetFsNode i s) as [[n|e|p] s']; simpl; [| |done].
    + destruct Hg as (_ & Hv & _). by eapply view_index.
    + destruct Hg as (Hv & _). by eapply view_index.
Qed.

(** *** The ticks *)

Lemma listed_other t st st' : other_call key st st' → listed t st → listed t st'.
Proof.
  intros Ho (Hi & text & host & t' & Ht & Hu & Hid & Httl & Hle).
  pose proof (other_call_slot text_of key st st' Ho) as Hs. unfold slot in Hs.
  injection Hs as Hs1 Hs2. split; [by eapply other_call_index|].
  exists text, host, t'. by rewrite Hs1, Hs2.
Qed.

Lemma listed_wait t d st : 0 ≤ d → d < t → listed t st → listed (t - d) (wait d st).
Proof.
  intros Hd Hlt (Hi & text & host & t' & Ht & Hu & Hid & Httl & Hle). split.
  { unfold members, wait. simpl. by rewrite pass_sets. }
  assert (expired (rdb st) d key = false) as He.
  { unfold expired. rewrite Httl. apply bool_decide_eq_false_2. lia. }
  exists text, host, (t' - d). unfold wait. simpl.
  rewrite pass_strings, pass_ttl, He, Httl by done. split_and!; [done..|lia].
Qed.

(** Setting the keepalive: on success the host has the whole time, on failure no
    less than before. *)
Lemma timeout_wrap : 0 < defaultHostKeepAliveTimeoutS * Second.
Proof. done. Qed.

Lemma SetHostKeepAlive_listed h t st :
  text_host h → HostId h = hostId → listed t st → t ≤ keepalive_timeout →
  match SetHostKeepAlive locality h st with
  | (Ok _, st') => listed keepalive_timeout st'
  | (_, st') => listed t st'
  end.
Proof.
  intros Htext Hh (Hi & text & host & t' & Ht & Hu & Hid & Httl & Hle) Hto. unfold SetHostKeepAlive.
  destruct (Marshal h) as [b|e|p] eqn:Em; [|by split; [|exists text, host, t']..].
  rewrite Hh. unfold on_rdb, zoom. set (tt_ := defaultHostKeepAliveTimeoutS * Second).
  pose proof (RSet_law key b tt_ (rdb st)) as Hl. unfold does in Hl.
  destruct (RSet key b tt_ (rdb st)) as [[[]|e|p] r] eqn:E; simpl in *; [| |done].
  - destruct Hl as [_ Hv]. split; [unfold members; simpl; by rewrite Hv|].
    exists b, h, tt_. simpl. rewrite Hv. simpl. rewrite lookup_insert_eq.
    split_and!; [done|by eapply codec|done| |done]. by eapply RSet_ttl.
  - destruct (RSet_ttl_Err key b tt_ (rdb st) e r timeout_wrap E) as [[Hv Et]|[Hv Et]].
    + split; [unfold members; simpl; by rewrite Hv|]. exists text, host, t'. simpl. by rewrite Hv, Et.
    + split; [unfold members; simpl; by rewrite Hv|]. exists b, h, tt_. simpl. rewrite Hv. simpl.
      rewrite lookup_insert_eq. split_and!; [done|by eapply codec|done|done|exact Hto].
Qed.

Lemma AddHostToIndex_listed h t st :
  HostId h = hostId → listed t st → listed t (AddHostToIndex locality h st).2.
Proof. intros _. apply listed_other. apply oc_AddHostToIndex. Qed.

(** A tick of [HostKeepAlive], at the coordinator itself. *)
#[local] Instance local_cc : CoordinatorClient RL := CoordinatorClientLocal serverConfig.
Definition tick (privateIpAddr : string) (port : Z) (usage : float64) (host : BlobCacheHost) :
    M RL BlobCacheHost := Server.keepalive_tick locality privateIpAddr port usage host.
Definition ticked_host (privateIpAddr : string) (port : Z) (usage : float64) (host : BlobCacheHost) :=
  mkHost (RTT host) (HostId host) (Addr host) (privateIpAddr +:+ ":" +:+ pretty port) usage.

(** The keepalive was set by the tick. *)
Definition refreshed ip port usage host (st : RL) : bool :=
  let h := ticked_host ip port usage host in
  match (SetHostKeepAlive locality h (AddHostToIndex locality h st).2).1 with
  | Ok _ => true | _ => false
  end.

(** A run of the server's keepalive among the calls of others: the time since the
    keepalive was set last stays under the timeout. *)
Inductive keepalive_run : RL * Z → RL * Z → Prop :=
  | kr_tick ip port usage host st a :
      HostId host = hostId → text_host (ticked_host ip port usage host) →
      keepalive_run (st, a)
        ((tick ip port usage host st).2, if refreshed ip port usage host st then 0 else a)
  | kr_other st st' a : other_call key st st' → keepalive_run (st, a) (st', a)
  | kr_wait d st a :
      0 ≤ d → a + d < keepalive_timeout → keepalive_run (st, a) (wait d st, a + d).

Lemma tick_state ip port usage host st :
  let h := ticked_host ip port usage host in
  (∀ p, (SetHostKeepAlive locality h (AddHostToIndex locality h st).2).1 ≠ Panic p) →
  (tick ip port usage host st).2 = (SetHostKeepAlive locality h (AddHostToIndex locality h st).2).2.
Proof.
  intros h Hp. unfold tick, Server.keepalive_tick. fold (ticked_host ip port usage host). fold h.
  unfold ignore, attempt, mbind, M_bind. simpl.
  pose proof (on_rdb_does (SAdd (MetadataHostIndex locality) (HostId h)) st _ _ (SAdd_law _ _ _)) as Ha.
  unfold AddHostToIndex in *.
  destruct (on_rdb _ st) as [[[]|e|p] st1]; [..|done]; simpl in *;
    destruct (SetHostKeepAlive locality h st1) as [[[]|e'|p] st2]; done.
Qed.

Context (Marshal_no_panic : ∀ h p, Marshal h ≠ Panic p).

Lemma SetHostKeepAlive_no_panic h st p : (SetHostKeepAlive locality h st).1 ≠ Panic p.
Proof.
  unfold SetHostKeepAlive. destruct (Marshal h) as [b|e|q] eqn:E; [|done|by apply Marshal_no_panic in E].
  unfold on_rdb, zoom. set (t := defaultHostKeepAliveTimeoutS * Second).
  pose proof (RSet_law (MetadataHostKeepAlive locality (HostId h)) b t (rdb st)) as Hl. unfold does in Hl.
  by destruct (RSet _ _ _ _) as [[[]|e|q] r].
Qed.

Lemma keepalive_run_listed x y :
  keepalive_run x y → 0 ≤ x.2 ∧ listed (keepalive_timeout - x.2) x.1 →
  0 ≤ y.2 ∧ listed (keepalive_timeout - y.2) y.1.
Proof.
  intros Hxy [Hpos Hl]. destruct Hxy as [ip port usage host st a Hh Htext|st st' a Ho|d st a Hd Ha]; simpl in *.
  - rewrite (tick_state ip port usage host st) by (intros p; apply SetHostKeepAlive_no_panic).
    unfold refreshed. set (h := ticked_host ip port usage host).
    pose proof (SetHostKeepAlive_listed h _ _ Htext (Hh : HostId h = hostId)
      (AddHostToIndex_listed h _ st Hh Hl) ltac:(lia)) as Hs.
    destruct (SetHostKeepAlive locality h _) as [[[]|e|p] st2]; simpl; (split; [done|]); [|exact Hs..].
    by replace (keepalive_timeout - 0) with keepalive_timeout by lia.
  - split; [done|]. by eapply listed_other.
  - split; [lia|]. replace (keepalive_timeout - (a + d)) with (keepalive_timeout - a - d) by lia.
    apply listed_wait; [done|lia|exact Hl].
Qed.

(** The time that a keepalive has at most. *)
Lemma SetHostKeepAlive_expires h st st' :
  HostId h = hostId → SetHostKeepAlive locality h st = (Ok tt, st') →
  expires_in text_of key keepalive_timeout st'.
Proof.
  intros Hh. unfold SetHostKeepAlive. destruct (Marshal h) as [b|e|p]; [|done..]. rewrite Hh.
  unfold on_rdb, zoom. set (t := defaultHostKeepAliveTimeoutS * Second).
  destruct (RSet key b t (rdb st)) as [o r] eqn:E. intros [= -> <-]. right. exists t. split; [|done].
  simpl. eapply RSet_ttl; [exact timeout_wrap|exact E].
Qed.

(** The start of [HostKeepAlive]. *)
Lemma start_listed h st st1 st2 :
  text_host h → HostId h = hostId → SetHostKeepAlive locality h st = (Ok tt, st1) →
  AddHostToIndex locality h st1 = (Ok tt, st2) → listed keepalive_timeout st2.
Proof.
  intros Htext Hh Hset Hadd. unfold SetHostKeepAlive in Hset.
  destruct (Marshal h) as [b|e|p] eqn:Em; [|done..]. rewrite Hh in Hset.
  set (t := defaultHostKeepAliveTimeoutS * Second) in Hset.
  pose proof (on_rdb_does (RSet key b t) st _ _ (RSet_law _ _ _ _)) as Hl. rewrite Hset in Hl.
  destruct Hl as (_ & Hv1 & _).
  assert (ttl (rdb st1) key = Some t) as Et.
  { unfold on_rdb, zoom in Hset. destruct (RSet key b t (rdb st)) as [o r] eqn:E.
    injection Hset as -> <-. eapply RSet_ttl; [exact timeout_wrap|exact E]. }
  pose proof (slot_SAdd text_of key (MetadataHostIndex locality) (HostId h) (slot text_of key st1) st1
    eq_refl) as Hs.
  pose proof (on_rdb_does (SAdd (MetadataHostIndex locality) (HostId h)) st1 _ _ (SAdd_law _ _ _)) as Ha.
  unfold AddHostToIndex in Hadd. rewrite Hadd in Hs, Ha. simpl in Hs. unfold slot in Hs.
  injection Hs as Hs1 Hs2. destruct Ha as (_ & Hv2 & _). split.
  - rewrite Hv2, members_put_set, decide_True by done. rewrite Hh. set_solver.
  - exists b, h, t. rewrite Hs1, Hs2, Hv1. simpl. rewrite lookup_insert_eq.
    split_and!; [done|by eapply codec|done|exact Et|done].
Qed.

(** C10: a server is listed while it runs, and no longer: from the start of its
    keepalive, as long as less than 60 seconds pass between two ticks that set it (one
    is due every 10, and any of them may fail in between), its host is in the index
    of its region with a keepalive that can be read, whatever other calls the
    coordinator serves (the strings of its hosts are valid UTF-8, which JSON keeps);
    and once 60 seconds passed without one, [GetAvailableHosts]
    does not return it. *)
Theorem listed_while_running h st0 st1 st2 st3 a st4 b :
  HostId h = hostId → text_host h →
  SetHostKeepAlive locality h st0 = (Ok tt, st1) → AddHostToIndex locality h st1 = (Ok tt, st2) →
  rtc keepalive_run (st2, 0) (st3, a) →
  (hostId ∈ index_of_hosts (V st3) locality ∧
   ∃ host, HostId host = hostId ∧ alive (V st3) locality hostId host) ∧
  (rtc (untouched key) (st1, 0) (st4, b) → keepalive_timeout ≤ b →
   match local_GetAvailableHosts locality st4 with
   | (Ok hs, _) => ∀ host, host ∈ hs → ∃ id, id ≠ hostId ∧ alive (V st4) locality id host
   | (Err _, _) => True
   | (Panic _, _) => False
   end).
Proof.
  intros Hh Htext Hset Hadd Hrun. split.
  - pose proof (rtc_keeps _ _ _ _ keepalive_run_listed Hrun) as H'. simpl in H'.
    destruct H' as [_ (Hi & text & host & t & Ht & Hu & Hid & _)].
    { split; [done|]. replace (keepalive_timeout - 0) with keepalive_timeout by lia.
      by eapply start_listed. }
    split; [exact Hi|]. exists host. split; [done|]. by exists text.
  - intros Hun Hb.
    pose proof (untouched_expires text_of key _ _ _ _ _ Hun (SetHostKeepAlive_expires h st0 st1 Hh Hset)) as He.
    pose proof (expired_now text_of key (keepalive_timeout - (b - 0)) st4 ltac:(lia) He) as Hnone.
    pose proof (GetAvailableHosts_spec locality (remove_host locality) st4
      (ignore_RemoveHost_prunes locality)) as Hg. unfold local_GetAvailableHosts.
    destruct (GetAvailableHosts locality _ st4) as [[hs|e|p] st5]; [|done..].
    destruct Hg as (_ & _ & Hhs). intros host Hin. destruct (Hhs host Hin) as (id & _ & Ha).
    exists id. split; [|done]. intros ->. destruct Ha as (text & Ht & _). congruence.
Qed.

End keepalive.

(** ** Locks *)

Section lock.
Context {R : Type} `{TRL : TimedRedisLaws R} {RLaws : RedisLaws R} `{HC : HostCodec}.
Context (lk : string).
Abbreviation token_of := (λ d : db, lock_tokens d !! lk).

#[local] Instance token_cell : cell_ok token_of lk.
Proof.
  split; intros; simpl; try done;
    [by rewrite lookup_delete_ne|by rewrite lookup_delete_ne|by rewrite lookup_insert_ne].
Qed.
#[local] Instance token_expires : cell_expires token_of lk.
Proof. intros r d Hd. by apply pass_tokens. Qed.

(** A lock that was taken and that no one refreshes, releases or takes again is free
    after its time: a server that dies, or fails, while it stores a file keeps the
    others out for 5 seconds. *)
Theorem abandoned_lock_expires opts (st0 st1 st : RedisLock R) b :
  Acquire lk opts st0 = (Ok tt, st1) → 0 < wrap64 (TtlS opts * Second) →
  rtc (untouched lk) (st1, 0) (st, b) → wrap64 (TtlS opts * Second) ≤ b →
  lock_tokens (view (rdb st)) !! lk = None.
Proof.
  unfold Acquire, attempt, mbind, M_bind, on_rdb, zoom. set (t := wrap64 _).
  destruct (Obtain lk t (Retries opts) (rdb st0)) as [[tok|e|p] r] eqn:E; [|by case_decide|done].
  intros [= <-] Ht Hrun Hb.
  assert (expires_in token_of lk t (mkRedisLock r (<[lk := tok]> (locks st0)))) as He.
  { right. exists t. split; [|done]. simpl. by eapply Obtain_ttl. }
  pose proof (untouched_expires token_of lk _ _ _ _ _ Hrun He) as He'.
  apply (expired_now token_of lk (t - (b - 0)) st); [lia|exact He'].
Qed.

(** The lock is held under the token, for at least [t] nanoseconds more. *)
Definition leased (tok : nat) (t : Z) (st : RedisLock R) : Prop :=
  lock_tokens (view (rdb st)) !! lk = Some tok ∧ ∃ t', ttl (rdb st) lk = Some t' ∧ t ≤ t'.

Lemma leased_acquired opts st0 st1 :
  Acquire lk opts st0 = (Ok tt, st1) → 0 < wrap64 (TtlS opts * Second) →
  ∃ tok, locks st1 !! lk = Some tok ∧ leased tok (wrap64 (TtlS opts * Second)) st1.
Proof.
  unfold Acquire, attempt, mbind, M_bind, on_rdb, zoom. set (t := wrap64 _).
  pose proof (Obtain_law lk t (Retries opts) (rdb st0)) as Hl.
  destruct (Obtain lk t (Retries opts) (rdb st0)) as [[tok|e|p] r] eqn:E; [|by case_decide|done].
  intros [= <-] Ht. destruct Hl as (_ & _ & Hv). exists tok. simpl. rewrite lookup_insert_eq.
  split; [done|]. split; simpl.
  - rewrite Hv. simpl. by rewrite lookup_insert_eq.
  - exists t. split; [|done]. by eapply Obtain_ttl.
Qed.

(** While it is held, every other attempt fails and changes nothing. *)
Lemma leased_try opts tok t st :
  0 < wrap64 (TtlS opts * Second) → leased tok t st → (∃ e, (Acquire lk opts st).1 = Err e) ∧ leased tok t (Acquire lk opts st).2.
Proof.
  intros Hd (Htok & t' & Et & Hle). unfold Acquire, attempt, mbind, M_bind, on_rdb, zoom.
  set (d := wrap64 _) in *. pose proof (Obtain_law lk d (Retries opts) (rdb st)) as Hl.
  destruct (Obtain lk d (Retries opts) (rdb st)) as [[tok'|e|p] r] eqn:E; [|cbv zeta in Hl|done].
  - destruct Hl as [Hn _]. congruence.
  - destruct Hl as [Hv|(_ & tok' & Hn & _)]; [|congruence].
    assert (leased tok t (mkRedisLock r (locks st))) as Hle'.
    { split; simpl; [by rewrite Hv|]. exists t'. split; [|done].
      destruct (Obtain_ttl_Err _ _ _ _ _ _ Hd E) as [[_ ->]|[? _]]; [done|congruence]. }
    by case_decide; simpl; eauto.
Qed.

(** A refresh: on success there is the whole time, on failure no less than before. *)
Lemma leased_refresh opts tok t st :
  let T := wrap64 (TtlS opts * Second) in
  0 < T → t ≤ T → leased tok t st →
  leased tok (match (Refresh lk opts st).1 with Ok _ => T | _ => t end) (Refresh lk opts st).2.
Proof.
  intros T HT Ht (Htok & t' & Et & Hle). unfold Refresh, mbind, M_bind, gets, on_rdb, zoom. simpl. fold T.
  destruct (locks st !! lk) as [tok'|]; [|by split; [|exists t']].
  pose proof (LockRefresh_law lk tok' T (Retries opts) (rdb st)) as Hl.
  destruct (LockRefresh lk tok' T (Retries opts) (rdb st)) as [[[]|e|p] r] eqn:E; simpl; [| |done].
  - destruct Hl as [_ Hv]. split; simpl; [by rewrite Hv|]. exists T. split; [|done]. by eapply LockRefresh_ttl.
  - split; simpl; [by rewrite Hl|].
    destruct (LockRefresh_ttl_Err _ _ _ _ _ _ _ HT E) as [->| ->]; [by exists t'|by exists T].
Qed.

Lemma leased_wait d tok t st : 0 ≤ d → d < t → leased tok t st → leased tok (t - d) (wait d st).
Proof.
  intros Hd Hlt (Htok & t' & Et & Hle). unfold leased, wait. simpl.
  assert (expired (rdb st) d lk = false) as He.
  { unfold expired. rewrite Et. apply bool_decide_eq_false_2. lia. }
  rewrite pass_tokens, pass_ttl, He, Et by done. split; [done|]. exists (t' - d). split; [done|lia].
Qed.

(** No call of the lock leaves it with more time than a new one. *)
Abbreviation in_time := (expires_in token_of lk).

Lemma Acquire_in_time opts st :
  let T := wrap64 (TtlS opts * Second) in
  0 < T → in_time T st → in_time T (Acquire lk opts st).2.
Proof.
  intros T HT He. unfold Acquire, attempt, mbind, M_bind, on_rdb, zoom. fold T.
  destruct (Obtain lk T (Retries opts) (rdb st)) as [[tok|e|p] r] eqn:E.
  - right. exists T. split; [by eapply Obtain_ttl|done].
  - assert (in_time T (mkRedisLock r (locks st))) as He'.
    { unfold expires_in in *. simpl. destruct (Obtain_ttl_Err _ _ _ _ _ _ HT E) as [[-> ->]|[_ ->]];
        [exact He|by right; exists T]. }
    by case_decide.
  - pose proof (Obtain_law lk T (Retries opts) (rdb st)) as Hl. by rewrite E in Hl.
Qed.

Lemma Refresh_in_time opts st :
  let T := wrap64 (TtlS opts * Second) in
  0 < T → in_time T st → in_time T (Refresh lk opts st).2.
Proof.
  intros T HT He. unfold Refresh, mbind, M_bind, gets, on_rdb, zoom. simpl. fold T.
  destruct (locks st !! lk) as [tok|]; [|exact He].
  pose proof (LockRefresh_law lk tok T (Retries opts) (rdb st)) as Hl.
  destruct (LockRefresh lk tok T (Retries opts) (rdb st)) as [[[]|e|p] r] eqn:E; [| |done].
  - right. exists T. split; [by eapply LockRefresh_ttl|done].
  - unfold expires_in in *. simpl. rewrite Hl.
    destruct (LockRefresh_ttl_Err _ _ _ _ _ _ _ HT E) as [->| ->]; [exact He|by right; exists T].
Qed.

Lemma Release_in_time T st : in_time T st → in_time T (Release lk st).2.
Proof.
  intros He. unfold Release, ignore, attempt, mbind, M_bind, gets, on_rdb, zoom. simpl.
  destruct (locks st !! lk) as [tok|]; [|exact He].
  pose proof (LockRelease_law lk tok (rdb st)) as Hl.
  pose proof (LockRelease_ttl lk tok (rdb st)) as Ht.
  destruct (LockRelease lk tok (rdb st)) as [[[]|e|p] r]; [| |done]; unfold expires_in in *; simpl in *.
  - destruct Hl as [_ ->]. left. simpl. apply lookup_delete_eq.
  - destruct Ht as [Ht| ->]; [by left|].
    destruct Hl as [->|[_ ->]]; [exact He|]. left. simpl. apply lookup_delete_eq.
Qed.

Lemma in_time_less t T st : t ≤ T → in_time t st → in_time T st.
Proof. intros Ht [?|(t' & E & Hle)]; [by left|]. right. exists t'. split; [done|lia]. Qed.

End lock.

(** *** The lock around the storing of a file *)

#[local] Existing Instance token_cell.
#[local] Existing Instance token_expires.

Definition store_lock_ttl : Z := storeFromContentLockTtlS * Second.

Section store_lock.
Context {R : Type} `{TRL : TimedRedisLaws R} {RLaws : RedisLaws R} `{HC : HostCodec}.
Context (locality path : string).
Abbreviation RL := (RedisLock R).
Abbreviation lk := (MetadataStoreFromContentLock locality path).

(** The servers that store the file, each with the time since its lock was set, or
    refreshed with success. *)
Abbreviation storing := (gmap nat Z).
Abbreviation SetLock := (SetStoreFromContentLock locality path).
Abbreviation RefreshLock := (RefreshStoreFromContentLock locality path).
Abbreviation RemoveLock := (RemoveStoreFromContentLock locality path).

(** The servers, and the coordinator that they share: a server that does not store
    the file asks for the lock; one that stores it refreshes the lock, gives it back,
    or ends without giving it back (its fetch failed, or it died); any server may
    refresh it late; the coordinator serves other calls, or loses its table.  Time
    passes as long as no server that stores the file goes without a refresh for the
    time to live of the lock. *)
Inductive store_step : RL * storing → RL * storing → Prop :=
  | ss_set i st m :
      m !! i = None →
      store_step (st, m) ((SetLock st).2, match (SetLock st).1 with Ok _ => <[i := 0]> m | _ => m end)
  | ss_refresh i a st m :
      m !! i = Some a →
      store_step (st, m)
        ((RefreshLock st).2, match (RefreshLock st).1 with Ok _ => <[i := 0]> m | _ => m end)
  | ss_late_refresh st m : store_step (st, m) ((RefreshLock st).2, m)
  | ss_remove i a st m : m !! i = Some a → store_step (st, m) ((RemoveLock st).2, delete i m)
  | ss_give_up i a st m : m !! i = Some a → store_step (st, m) (st, delete i m)
  | ss_restart st m : store_step (st, m) (mkRedisLock (rdb st) ∅, m)
  | ss_other st st' m : other_call lk st st' → store_step (st, m) (st', m)
  | ss_wait d st m :
      0 ≤ d → (∀ i a, m !! i = Some a → a + d < store_lock_ttl) →
      store_step (st, m) (wait d st, (λ a, a + d) <$> m).

(** Who stores the file has the lock; a lock that is held runs out. *)
Definition store_inv (x : RL * storing) : Prop :=
  expires_in (λ d : db, lock_tokens d !! lk) lk store_lock_ttl x.1 ∧
  ∀ i a, x.2 !! i = Some a →
    0 ≤ a ∧ x.2 = {[ i := a ]} ∧ ∃ tok, leased lk tok (store_lock_ttl - a) x.1.

Lemma ttl_pos_5s : 0 < wrap64 (TtlS (mkLockOptions storeFromContentLockTtlS 0) * Second).
Proof. done. Qed.

(** A call that keeps the lease of whoever stores. *)
Lemma store_inv_same st st' (m : storing) :
  (∀ tok t, t ≤ store_lock_ttl → leased lk tok t st → leased lk tok t st') →
  expires_in (λ d : db, lock_tokens d !! lk) lk store_lock_ttl st' →
  store_inv (st, m) → store_inv (st', m).
Proof.
  intros Hl He [_ Hm]. split; [exact He|]. intros i a Hi. destruct (Hm i a Hi) as (Ha & E & tok & Ht).
  split_and!; [done..|]. exists tok. apply Hl; [simpl; lia|exact Ht].
Qed.

Lemma store_inv_idle st (m : storing) :
  expires_in (λ d : db, lock_tokens d !! lk) lk store_lock_ttl st → m = ∅ → store_inv (st, m).
Proof. intros He ->. by split. Qed.

Lemma RefreshLock_leased tok t st :
  t ≤ store_lock_ttl → leased lk tok t st →
  leased lk tok (match (RefreshLock st).1 with Ok _ => store_lock_ttl | _ => t end) (RefreshLock st).2.
Proof. exact (leased_refresh lk (mkLockOptions storeFromContentLockTtlS 0) tok t st ttl_pos_5s). Qed.

Lemma store_inv_set i st m :
  m !! i = None → store_inv (st, m) →
  store_inv ((SetLock st).2, match (SetLock st).1 with Ok _ => <[i := 0]> m | _ => m end).
Proof.
  intros Hi Hinv. pose proof Hinv as [He Hm].
  pose proof (Acquire_in_time lk _ st ttl_pos_5s He) as He'. change (Acquire lk _ st) with (SetLock st) in He'.
  destruct (decide (m = ∅)) as [->|Hne].
  - destruct (SetLock st) as [[[]|e|p] st'] eqn:E; [|by apply store_inv_idle..].
    split; [exact He'|]. simpl. intros j a. rewrite insert_empty. intros [<- <-]%lookup_singleton_Some.
    split_and!; [done..|]. destruct (leased_acquired lk _ _ _ E ttl_pos_5s) as (tok & _ & Hl).
    by exists tok.
  - apply map_choose in Hne as (j & a & Hj). destruct (Hm j a Hj) as (_ & _ & tok & Hl).
    destruct (leased_try lk (mkLockOptions storeFromContentLockTtlS 0) tok _ st ttl_pos_5s Hl) as [[e E] _].
    change (Acquire lk _ st) with (SetLock st) in E. rewrite E.
    apply (store_inv_same st); [|exact He'|exact Hinv].
    intros tok' t _ Ht. by apply (leased_try lk (mkLockOptions storeFromContentLockTtlS 0) tok' t st ttl_pos_5s).
Qed.

Lemma leased_less tok t t' (st : RL) : t' ≤ t → leased lk tok t st → leased lk tok t' st.
Proof. intros Ht (H1 & u & E & Hle). split; [done|]. exists u. split; [done|lia]. Qed.

Lemma store_inv_refresh st m : store_inv (st, m) → store_inv ((RefreshLock st).2, m).
Proof.
  intros Hinv. apply (store_inv_same st); [|exact (Refresh_in_time lk _ st ttl_pos_5s (proj1 Hinv))|exact Hinv].
  intros tok t Ht Hl. eapply leased_less; [|exact (RefreshLock_leased tok t st Ht Hl)]. by case_match.
Qed.

Lemma store_step_inv x y : store_step x y → store_inv x → store_inv y.
Proof.
  intros Hxy Hinv. pose proof Hinv as [He Hm].
  destruct Hxy as [i st m Hi|i a st m Hi|st m|i a st m Hi|i a st m Hi|st m|st st' m Ho|d st m Hd Hlate];
    simpl in He, Hm.
  - by apply store_inv_set.
  - pose proof (store_inv_refresh st m Hinv) as [He' _]. simpl in He'.
    destruct (Hm i a Hi) as (Ha & -> & tok & Hl).
    pose proof (RefreshLock_leased tok (store_lock_ttl - a) st ltac:(lia) Hl) as Hl'.
    destruct (RefreshLock st) as [[[]|e|p] st']; (split; [exact He'|]); simpl in *; intros j b;
      rewrite ?insert_singleton_eq; intros [<- <-]%lookup_singleton_Some;
      (split_and!; [done..|]); exists tok; [|exact Hl'..].
    by replace (store_lock_ttl - 0) with store_lock_ttl by lia.
  - by apply store_inv_refresh.
  - apply store_inv_idle; [by apply Release_in_time|].
    destruct (Hm i a Hi) as (_ & -> & _). apply delete_singleton_eq.
  - apply store_inv_idle; [done|].
    destruct (Hm i a Hi) as (_ & -> & _). apply delete_singleton_eq.
  - apply (store_inv_same st); [|exact He|exact Hinv]. intros tok t _ Hl. exact Hl.
  - pose proof (other_call_slot (λ d : db, lock_tokens d !! lk) lk st st' Ho) as Hs. unfold slot in Hs.
    injection Hs as Hs1 Hs2. apply (store_inv_same st); [| |exact Hinv].
    + intros tok t _ (Htok & t' & Et & Hle). unfold leased. rewrite Hs1, Hs2. split; [done|]. by exists t'.
    + unfold expires_in in *. by rewrite Hs1, Hs2.
  - split; simpl.
    { apply (in_time_less lk (store_lock_ttl - d)); [lia|exact (wait_expires (λ db, lock_tokens db !! lk) lk d _ st Hd He)]. }
    intros i b. rewrite lookup_fmap. intros (a & Hi & ->)%fmap_Some.
    destruct (Hm i a Hi) as (Ha & -> & tok & Hl). specialize (Hlate i a Hi).
    split_and!; [lia|by rewrite map_fmap_singleton|]. exists tok.
    replace (store_lock_ttl - (a + d)) with (store_lock_ttl - a - d) by lia.
    apply leased_wait; [done|lia|exact Hl].
Qed.

(** C11: one server at a time stores a file.  From a free lock, servers that share
    the coordinator ask for the lock, refresh it, give it back or die in any order,
    among other calls and failures, and none that stores the file goes 5 seconds
    without a refresh that succeeds (one is due every second).  Then at most one of
    them stores the file; while it does the lock is held and every attempt to take it
    fails and takes nothing; and whatever happened to its holder, a lock that no one
    calls for is free after 5 seconds.  (A server that is late may give back the lock
    of another: [late_release_frees_the_lock].) *)
Theorem store_lock_lease (st0 st : RL) (m : storing) :
  lock_tokens (view (rdb st0)) !! lk = None →
  rtc store_step (st0, ∅) (st, m) →
  (∀ i j, is_Some (m !! i) → is_Some (m !! j) → i = j) ∧
  (∀ i, is_Some (m !! i) → ∃ tok e,
     lock_tokens (view (rdb st)) !! lk = Some tok ∧ (SetLock st).1 = Err e ∧
     lock_tokens (view (rdb (SetLock st).2)) !! lk = Some tok) ∧
  (∀ st' b, rtc (untouched lk) (st, 0) (st', b) → store_lock_ttl ≤ b →
     lock_tokens (view (rdb st')) !! lk = None).
Proof.
  intros Hfree Hrun.
  assert (store_inv (st, m)) as [He Hm].
  { refine (rtc_keeps store_step store_inv _ _ store_step_inv Hrun _).
    apply store_inv_idle; [by left|done]. }
  simpl in *. split_and!.
  - intros i j [a Hi] [b Hj]. destruct (Hm i a Hi) as (_ & E & _). rewrite E in Hj.
    by apply lookup_singleton_Some in Hj as [-> _].
  - intros i [a Hi]. destruct (Hm i a Hi) as (_ & _ & tok & Hl).
    destruct (leased_try lk (mkLockOptions storeFromContentLockTtlS 0) tok _ st ttl_pos_5s Hl)
      as [[e E] [Htok _]].
    exists tok, e. split_and!; [apply Hl|exact E|exact Htok].
  - intros st' b Hun Hb.
    pose proof (untouched_expires (λ d : db, lock_tokens d !! lk) lk _ _ _ _ _ Hun He) as He'.
    apply (expired_now (λ d : db, lock_tokens d !! lk) lk (store_lock_ttl - (b - 0)) st'); [lia|exact He'].
Qed.

End store_lock.

(** ** A server with a clock *)

(** The reference server, with the time that its keys have left. *)
Record tdb : Type := mkTdb { t_db : db; t_ttl : gmap string positive }.

Definition on_db {A} (m : M db A) : M tdb A := zoom t_db (λ d r, mkTdb d (t_ttl r)) m.
Definition set_ttl (k : string) (t : Z) : M tdb () :=
  modify (λ r, mkTdb (t_db r) (match t with Zpos p => <[k := p]> (t_ttl r) | _ => delete k (t_ttl r) end)).

Definition t_left (d : Z) (p : positive) : option positive :=
  match Zpos p - d with Zpos q => Some q | _ => None end.
(** The keys whose time is over. *)
Definition t_over (r : tdb) (d : Z) (k : string) : Prop :=
  ∃ p, t_ttl r !! k = Some p ∧ t_left d p = None.
#[export] Instance t_over_dec r d k : Decision (t_over r d k).
Proof.
  unfold t_over. destruct (t_ttl r !! k) as [p|].
  - destruct (t_left d p) eqn:E; [right; intros (q & [= ->] & E'); congruence|left; by exists p].
  - right. by intros (p & ? & _).
Defined.

Definition t_pass (d : Z) (r : tdb) : tdb :=
  mkTdb (mkDb (hashes (t_db r)) (sets (t_db r))
           (filter (λ kv, ¬ t_over r d kv.1) (strings (t_db r)))
           (filter (λ kv, ¬ t_over r d kv.1) (lock_tokens (t_db r))) (issued (t_db r)))
        (omap (t_left d) (t_ttl r)).

#[export] Instance tdb_redis : Redis tdb := {
  view r := t_db r;
  HGetAll k := on_db (HGetAll k);
  HSet k vs := on_db (HSet k vs);
  SMembers k := on_db (SMembers k);
  SAdd k x := on_db (SAdd k x);
  SRem k x := on_db (SRem k x);
  RGet k := on_db (RGet k);
  RSet k v t := on_db (RSet k v t) ≫= λ _, set_ttl k t;
  Del k := on_db (Del k) ≫= λ _, set_ttl k 0;
  Obtain k t n := tok ← on_db (Obtain k t n); set_ttl k t ≫= λ _, mret tok;
  LockRelease k tok := on_db (LockRelease k tok) ≫= λ _, set_ttl k 0;
  LockRefresh k tok t n := on_db (LockRefresh k tok t n) ≫= λ _, set_ttl k t;
}.

#[export] Instance tdb_timed : TimedRedis tdb := {
  pass := t_pass;
  ttl r k := Zpos <$> t_ttl r !! k;
}.

#[export] Instance tdb_redis_laws : RedisLaws tdb.
Proof.
  split.
  - intros k [d tt_]. done.
  - done.
  - intros k vs [d tt_]. done.
  - intros k [d tt_]. split; [|done]. split; [apply NoDup_elements|apply list_to_set_elements_L].
  - intros k x [d tt_]. done.
  - intros k x [d tt_]. done.
  - intros k [d tt_]. simpl. unfold on_db, zoom. simpl. by destruct (strings d !! k) eqn:E.
  - intros k v t [d tt_]. done.
  - intros k [d tt_]. done.
  - intros k t n [d tt_]. simpl. unfold on_db, zoom, set_ttl, mbind, M_bind. simpl.
    destruct (lock_tokens d !! k) eqn:E; simpl; [by left|]. split_and!; [done| |done]. apply is_fresh.
  - intros k tok [d tt_]. simpl. unfold on_db, zoom, set_ttl, mbind, M_bind. simpl. case_decide; [done|by left].
  - intros k tok t n [d tt_]. simpl. unfold on_db, zoom, set_ttl, mbind, M_bind. simpl. by case_decide.
Qed.

Lemma t_left_spec d p : t_left d p = if bool_decide (Zpos p ≤ d) then None else Some (Z.to_pos (Zpos p - d)).
Proof.
  unfold t_left. case_bool_decide as Hd; destruct (Zpos p - d) as [|q|q] eqn:E; try lia; try done.
Qed.

Lemma t_expired (r : tdb) d k : expired r d k = bool_decide (t_over r d k).
Proof.
  unfold expired. simpl. symmetry. destruct (t_ttl r !! k) as [p|] eqn:E; simpl.
  - apply bool_decide_ext. unfold t_over. split.
    + intros (q & Eq & Hq). rewrite E in Eq. injection Eq as <-. rewrite t_left_spec in Hq.
      by case_bool_decide.
    + intros Hd. exists p. split; [done|]. rewrite t_left_spec. by rewrite bool_decide_eq_true_2.
  - apply bool_decide_eq_false_2. intros (q & Eq & _). congruence.
Qed.

Lemma t_filter {A} (r : tdb) d (m : gmap string A) k :
  filter (λ kv : string * A, ¬ t_over r d kv.1) m !! k = if expired r d k then None else m !! k.
Proof.
  rewrite t_expired. case_bool_decide as Ho.
  - apply map_lookup_filter_None_2. right. intros x _ Hn. by apply Hn.
  - destruct (m !! k) as [x|] eqn:E; [by apply map_lookup_filter_Some_2|].
    apply map_lookup_filter_None_2. by left.
Qed.

Lemma t_set_same k t p : Zpos p = t → ∀ r, t_ttl (set_ttl k t r).2 !! k = Some p.
Proof. intros <- r. apply lookup_insert_eq. Qed.

Lemma t_set_quiet k t : quiet_but k (set_ttl k t).
Proof.
  intros r k' Hk. simpl. destruct t; simpl; by rewrite ?lookup_insert_ne, ?lookup_delete_ne by done.
Qed.

Lemma on_db_quiet {A} (m : M db A) : quiet (on_db m).
Proof. intros r k. unfold on_db, zoom. by destruct (m (t_db r)). Qed.

Lemma bind_quiet {A B} k (m : M tdb A) (f : A → M tdb B) :
  quiet m → (∀ a, quiet_but k (f a)) → quiet_but k (m ≫= f).
Proof.
  intros Hm Hf r k' Hk. specialize (Hm r k'). unfold mbind, M_bind.
  destruct (m r) as [[a|e|p] r']; [|exact Hm..]. etransitivity; [by apply Hf|exact Hm].
Qed.

#[export] Instance tdb_timed_laws : TimedRedisLaws tdb.
Proof.
  split; try (intros; apply on_db_quiet);
    try (intros; apply bind_quiet; [apply on_db_quiet|intros; apply t_set_quiet]).
  - intros r k t. simpl. by destruct (t_ttl r !! k); intros [= <-].
  - intros r d k Hd. unfold expired. simpl. rewrite lookup_omap. destruct (t_ttl r !! k) as [p|]; simpl; [|done].
    rewrite t_left_spec. case_bool_decide; [done|]. simpl. f_equal. lia.
  - done.
  - done.
  - intros r d k _. apply t_filter.
  - intros r d k _. apply t_filter.
  - intros k v t r r' Ht [= <-]. destruct t as [|p|p]; try lia. simpl. by rewrite lookup_insert_eq.
  - intros k v t r e r' Ht. by intros [=].
  - intros k t n r tok r' Ht. simpl. unfold on_db, zoom, set_ttl, mbind, M_bind. simpl.
    destruct (lock_tokens (t_db r) !! k); [done|]. intros [= _ <-].
    destruct t as [|p|p]; try lia. simpl. by rewrite lookup_insert_eq.
  - intros k t n [d tt_] e r' _. simpl. unfold on_db, zoom, set_ttl, mbind, M_bind. simpl.
    destruct (lock_tokens d !! k); [|done]. intros [= _ <-]. by left.
  - intros k tok [d tt_]. simpl. unfold on_db, zoom, set_ttl, mbind, M_bind. simpl.
    case_decide; [left; apply lookup_delete_eq|by right].
  - intros k tok t n [d tt_] r' Ht. simpl. unfold on_db, zoom, set_ttl, mbind, M_bind. simpl.
    case_decide; [|done]. intros [= <-]. destruct t as [|p|p]; try lia. simpl. by rewrite lookup_insert_eq.
  - intros k tok t n [d tt_] e r' Ht. simpl. unfold on_db, zoom, set_ttl, mbind, M_bind. simpl.
    case_decide; [done|]. intros [= _ <-]. by left.
Qed.

(** ** Witness *)

(** A codec of two hosts: a server's at its start, and after a tick. *)
Definition at_start : BlobCacheHost := mkHost 0 "h" "" "" f_zero.
Definition after_tick : BlobCacheHost := ticked_host "10.0.0.1" 2049 f_zero at_start.
#[local] Instance two_codec : HostCodec := {
  Marshal h := if decide (h = at_start) then Ok [x00]
               else if decide (h = after_tick) then Ok [x01] else Err (ErrLib "json");
  Unmarshal b := if decide (b = [x00]) then Some at_start
                 else if decide (b = [x01]) then Some after_tick else None;
}.

Lemma two_codec_ok h b : text_host h → Marshal h = Ok b → Unmarshal b = Some h.
Proof. intros _. simpl. case_decide as E1; [intros [= <-]; by rewrite E1|]. case_decide as E2; [intros [= <-]; by rewrite E2|done]. Qed.
Lemma two_codec_no_panic h p : Marshal h ≠ Panic p.
Proof. simpl. by repeat case_decide. Qed.

(** 50 seconds after the start the server ticks once, and 55 seconds later it is
    still listed; without the tick it is gone after 60. *)
Definition t0 : RedisLock tdb := mkRedisLock (mkTdb no_db ∅) ∅.
Definition t1 : RedisLock tdb := (SetHostKeepAlive "l" at_start t0).2.
Definition t2 : RedisLock tdb := (AddHostToIndex "l" at_start t1).2.
Definition t3 : RedisLock tdb :=
  wait (55 * Second) (tick empty_config "l" "10.0.0.1" 2049 f_zero at_start (wait (50 * Second) t2)).2.
Definition t4 : RedisLock tdb := wait (60 * Second) t1.

Lemma t3_run : rtc (keepalive_run empty_config "l" "h") (t2, 0) (t3, 55 * Second).
Proof.
  eapply rtc_l; [apply (kr_wait empty_config "l" "h" (50 * Second)); done|].
  eapply rtc_l; [by apply (kr_tick empty_config "l" "h" "10.0.0.1" 2049 f_zero at_start); [|split_and!]|].
  assert (refreshed "l" "10.0.0.1" 2049 f_zero at_start (wait (50 * Second) t2) = true) as -> by by vm_compute.
  apply rtc_once. apply (kr_wait empty_config "l" "h" (55 * Second)); done.
Qed.

Lemma listed_while_running_witness :
  (local_GetAvailableHosts "l" t3).1 = Ok [after_tick] ∧
  (("h" ∈ index_of_hosts (view (rdb t3)) "l" ∧
    ∃ host, HostId host = "h" ∧ alive (view (rdb t3)) "l" "h" host) ∧
   (rtc (untouched (MetadataHostKeepAlive "l" "h")) (t1, 0) (t4, 60 * Second) →
    keepalive_timeout ≤ 60 * Second →
    match local_GetAvailableHosts "l" t4 with
    | (Ok hs, _) => ∀ host, host ∈ hs → ∃ id, id ≠ "h" ∧ alive (view (rdb t4)) "l" id host
    | (Err _, _) => True
    | (Panic _, _) => False
    end)).
Proof.
  split; [by vm_compute|].
  assert (SetHostKeepAlive "l" at_start t0 = (Ok tt, t1)) as E1 by by vm_compute.
  assert (AddHostToIndex "l" at_start t1 = (Ok tt, t2)) as E2 by by vm_compute.
  assert (text_host at_start) as Htext by by split_and!.
  exact (listed_while_running empty_config "l" "h" two_codec_ok two_codec_no_panic at_start t0 t1 t2 t3
    (55 * Second) t4 (60 * Second) eq_refl Htext E1 E2 t3_run).
Defined.

(** Without a tick the host is not listed a minute after its start. *)
Example silent_host_is_gone : (local_GetAvailableHosts "l" t4).1 = Err no_hosts.
Proof. by vm_compute. Qed.

(** Server 1 sets the lock, and refreshes it after 4 seconds; 4 seconds later server 2
    asks for it in vain; then 1 dies, and after 5 seconds 2 gets it. *)
Definition s1 : RedisLock tdb := (SetStoreFromContentLock "l" "/f" t0).2.
Definition s2 : RedisLock tdb :=
  wait (4 * Second) (RefreshStoreFromContentLock "l" "/f" (wait (4 * Second) s1)).2.
Definition s3 : RedisLock tdb := wait (5 * Second) s1.
Definition s4 : RedisLock tdb :=
  (SetStoreFromContentLock "l" "/f" (wait (5 * Second) (SetStoreFromContentLock "l" "/f" s2).2)).2.

Abbreviation sstep := (rtc (store_step "l" "/f")).

Lemma s2_run : sstep (t0, ∅) (s2, {[ 1%nat := 4 * Second ]}).
Proof.
  eapply rtc_l; [by apply (ss_set "l" "/f" 1)|].
  assert ((SetStoreFromContentLock "l" "/f" t0).1 = Ok tt) as -> by by vm_compute.
  eapply rtc_l; [apply (ss_wait "l" "/f" (4 * Second)); [done|]|].
  { intros i a [<- <-]%lookup_singleton_Some. done. }
  eapply rtc_l; [apply (ss_refresh "l" "/f" 1 (4 * Second)); reflexivity|].
  assert ((RefreshStoreFromContentLock "l" "/f"
    (wait (4 * Second) (SetStoreFromContentLock "l" "/f" t0).2)).1 = Ok tt) as -> by by vm_compute.
  eapply rtc_l; [apply (ss_wait "l" "/f" (4 * Second)); [done|]|apply rtc_refl].
  intros i a. rewrite fmap_insert, fmap_empty, insert_insert_eq. by intros [<- <-]%lookup_singleton_Some.
Qed.

Lemma s4_run : sstep (t0, ∅) (s4, {[ 2%nat := 0 ]}).
Proof.
  etrans; [exact s2_run|].
  eapply rtc_l; [by apply (ss_set "l" "/f" 2)|].
  assert ((SetStoreFromContentLock "l" "/f" s2).1 = Err ErrNotObtained) as -> by by vm_compute.
  eapply rtc_l; [by apply (ss_give_up "l" "/f" 1 (4 * Second))|].
  rewrite delete_singleton_eq.
  eapply rtc_l; [by apply (ss_wait "l" "/f" (5 * Second))|].
  eapply rtc_l; [by apply (ss_set "l" "/f" 2)|].
  assert ((SetStoreFromContentLock "l" "/f"
    (wait (5 * Second) (SetStoreFromContentLock "l" "/f" s2).2)).1 = Ok tt) as -> by by vm_compute.
  apply rtc_refl.
Qed.

Lemma store_lock_lease_witness :
  let lk := MetadataStoreFromContentLock "l" "/f" in
  (∃ tok e, lock_tokens (view (rdb s2)) !! lk = Some tok ∧
     (SetStoreFromContentLock "l" "/f" s2).1 = Err e ∧
     lock_tokens (view (rdb (SetStoreFromContentLock "l" "/f" s2).2)) !! lk = Some tok) ∧
  lock_tokens (view (rdb (wait (5 * Second) s2))) !! lk = None ∧
  (∀ i j, is_Some (({[ 2%nat := 0 ]} : gmap nat Z) !! i) →
          is_Some (({[ 2%nat := 0 ]} : gmap nat Z) !! j) → i = j).
Proof.
  intros lk. assert (lock_tokens (view (rdb t0)) !! lk = None) as H0 by done.
  destruct (store_lock_lease "l" "/f" t0 s2 _ H0 s2_run) as (_ & Hheld & Hfree).
  destruct (store_lock_lease "l" "/f" t0 s4 _ H0 s4_run) as (Hone & _).
  split; [apply (Hheld 1%nat); by eexists|]. split; [|exact Hone].
  apply (Hfree _ (5 * Second)); [|done]. apply rtc_once.
  exact (u_wait (MetadataStoreFromContentLock "l" "/f") (5 * Second) s2 0 ltac:(done)).
Defined.

(** The servers of a region share the coordinator's table of locks: a server whose lock
    expired and was taken by a second one frees the lock of the second one when it is
    done, and a third one gets it meanwhile. *)
Example late_release_frees_the_lock :
  let second := SetStoreFromContentLock "l" "/f" s3 in
  let freed := RemoveStoreFromContentLock "l" "/f" second.2 in
  let third := SetStoreFromContentLock "l" "/f" freed.2 in
  second.1 = Ok tt ∧ freed.1 = Ok tt ∧ third.1 = Ok tt.
Proof. by vm_compute. Qed.
