(* ===== verification/Cluster.v ===== *)
(** * Clients, servers and the coordinator together

    The service of [Rpc.v] by the handlers of [Server.v]: a world is the state of
    the coordinator and the servers by address.  A server that panics is gone.  On
    top of it the client of [Client.v], and on top of the client the file system
    of [BlobFs.v].  Messages are neither lost nor too large here. *)

From S2P Require Import Prelude GoStrings GoPath FsID GoFloat Types Rpc.
From S2P Require Import Storage StorageCorrect StorageRuns StorageProps ContentStore S3Client Redis Metadata.
From S2P Require Import Coordinator CoordinatorLaws NodeStore Client.
From S2P Require BlobFs Server.
Local Open Scope Z_scope.
#[local] Opaque GenerateFsID SHA256.Sum256.

(** ** The servers as a service *)

(** What the host of a server answers during the calls. *)
Record server_env : Type := mkEnv {
  env_config : BlobCacheServerConfig; env_files : Server.host_files; env_s3 : Server.s3_world;
  env_clock : nat → Z * Z; env_ticks : nat * nat; env_ip : string;
  env_alloc : Z; env_maxCacheSizeMb : Z;
}.

(** The part of the state that a server keeps for itself. *)
Definition server_node (T : Type) : Type := T * gmap string S3Client.
Definition world (R T : Type) : Type := R * gmap string (server_node T).

Definition unavailable : error := ErrStatus "Unavailable" "".

(** An error that is not a status becomes one on the wire. *)
Definition on_wire (e : error) : error :=
  match e with ErrStatus c m => ErrStatus c m | _ => ErrStatus "Unknown" "" end.

(** A server's handlers run on the coordinator and its own storage. *)
Definition pair_coordinator {R T} (CC : CoordinatorClient R) : CoordinatorClient (R * T) :=
  Server.left_coordinator CC.
Definition pair_store {R T} (CS : ContentStore T) : ContentStore (R * T) := Server.right_store CS.

Section cluster.
Context {R T : Type} (CC : CoordinatorClient R) (CS : ContentStore T).
Context (env : string → server_env) (locality : string).

#[local] Instance coord : CoordinatorClient (R * T) := pair_coordinator CC.
#[local] Instance storage_of : ContentStore (R * T) := pair_store CS.

(** Run a handler at the address of a connection. *)
Definition run_at {A} (g : GrpcClient) (m : M (Server.server (S := R * T)) A) : call (world R T) A :=
  λ w,
  match w.2 !! target g with
  | None => (inr unavailable, w)
  | Some node =>
      match m ((w.1, node.1), node.2) with
      | (Ok a, (s, clients)) => (inl a, (s.1, <[target g := (s.2, clients)]> w.2))
      | (Err e, (s, clients)) => (inr (on_wire e), (s.1, <[target g := (s.2, clients)]> w.2))
      | (Panic _, (s, _)) => (inr unavailable, (s.1, delete (target g) w.2))
      end
  end.

Definition the_env (g : GrpcClient) : server_env := env (target g).

Definition serve_stream (e : Server.stream_end) : list GetContentResponse * option error :=
  (map (λ c, mkGetContent c true) (Server.e_sent e), on_wire <$> Server.e_err e).

Definition serve_state (g : GrpcClient) : GetStateResponse :=
  let e := the_env g in
  let '(v, ip, usage) := Server.GetState (env_ip e) (env_alloc e) (env_maxCacheSizeMb e) in
  mkState v ip usage.

Definition cluster_service : BlobCacheService (world R T) := {|
  rpc_GetContent g hash offset length :=
    run_at g (Server.on_state (Server.GetContent hash offset length));
  rpc_HasContent g hash := run_at g (Server.on_state (Server.HasContent hash));
  rpc_GetContentStream g hash offset length :=
    run_at g (Server.on_state (Server.GetContentStream hash offset length (λ _, None)) ≫= λ e,
              mret (serve_stream e));
  rpc_StoreContent g chunks := run_at g (Server.on_state (Server.StoreContent chunks None));
  rpc_StoreContentFromSource g source :=
    let e := the_env g in
    run_at g (Server.StoreContentFromSource (env_config e) (env_files e) (env_s3 e) (env_clock e)
                source);
  rpc_StoreContentFromSourceWithLock g source :=
    let e := the_env g in
    run_at g (Server.StoreContentFromSourceWithLock (env_config e) (env_files e) (env_s3 e)
                (env_clock e) locality (env_ticks e) source);
  rpc_GetState g := run_at g (mret (serve_state g));
|}.

End cluster.

(** ** The storage of a server that also has a coordinator *)

Section right_laws.
Context {R T : Type} (CS : ContentStore T) (stored : gmap string (list byte)).
Context {CL : @ContentStoreLaws T CS stored}.

Lemma right_triple {A} (m : M T A) P Q E :
  triple P m Q E →
  triple (λ s : R * T, P s.2) (zoom snd (λ t x, (x.1, t)) m) (λ a s, Q a s.2) (λ e s, E e s.2).
Proof. intros Hm. by eapply triple_zoom; [exact Hm|..]. Qed.

Definition right_laws : @ContentStoreLaws (R * T) (Server.right_store CS) stored.
Proof.
  unshelve refine (Build_ContentStoreLaws _ (Server.right_store CS) stored (λ s, cs_inv s.2)
    (cs_complete (S := T)) (λ s, cs_ready s.2) (λ h s, cs_has h s.2) _ _ _ _ _).
  - intros h content Hh. apply (right_triple _ _ _ _ (cs_Add_inv h content Hh)).
  - intros h o l dst Hh Ho Hl Hd. apply (right_triple _ _ _ _ (cs_Get_inv h o l dst Hh Ho Hl Hd)).
  - intros h. apply (right_triple _ _ _ _ (cs_Exists_inv h)).
  - intros h content [r t] [r' t'] Hh Hi Hr. simpl. unfold zoom. simpl.
    destruct (cs_Add h content t) as [o u] eqn:E. intros [= -> <- <-].
    by eapply cs_Add_has.
  - intros h content o l dst [r t] Hh Hhas Ho Hl Hol Hd. simpl. unfold zoom. simpl.
    pose proof (cs_has_Get h content o l dst t Hh Hhas Ho Hl Hol Hd) as Hg.
    by destruct (cs_Get h o l dst t).
Defined.

End right_laws.

(** ** What a store leaves in the storage *)

Section stores.
Context {R T : Type} (CC : CoordinatorClient R) (CS : ContentStore T).
Context (stored : gmap string (list byte)) {CL : @ContentStoreLaws T CS stored}.
#[local] Instance coord' : CoordinatorClient (R * T) := pair_coordinator CC.
#[local] Instance storage_of' : ContentStore (R * T) := pair_store CS.
#[local] Instance storage_laws : @ContentStoreLaws (R * T) storage_of' stored := right_laws CS stored.
Context (cfg : BlobCacheServerConfig) (fs : Server.host_files) (s3 : Server.s3_world)
        (clock : nat → Z * Z) (locality : string).

Abbreviation Sv := (Server.server (S := R * T)).

(** The calls of the coordinator leave the storage alone. *)
Lemma left_keeps {A} (m : M R A) t :
  keeps (λ s : R * T, s.2 = t) (zoom fst (λ s x, (s, x.2)) m).
Proof. intros [r u] <-. unfold zoom. simpl. by destruct (m r). Qed.

Lemma on_state_storage {A} (m : M (R * T) A) t :
  keeps (λ s, s.2 = t) m → keeps (λ x : Sv, x.1.2 = t) (Server.on_state m).
Proof. exact (Server.on_state_keeps (λ s, s.2 = t) m). Qed.

Lemma parts_loop_storage path hash size i parts x t :
  keeps (λ s : R * T, s.2 = t) (Server.parts_loop fs path hash size clock i parts x).
Proof. apply Server.parts_loop_keeps; intros; apply left_keeps. Qed.

Lemma refreshes_storage n path t :
  keeps (λ x : Sv, x.1.2 = t) (Server.refreshes locality n path).
Proof.
  apply keeps_forM. intros i _. apply keeps_ignore, on_state_storage, left_keeps.
Qed.

(** A success has stored the bytes of the file. *)
Lemma StoreContentFromSource_has path buffer (x x' : Sv) resp :
  Server.cacheSourceFromLocalPath fs (Join ["/"; path]) = Ok buffer →
  cs_inv x.1.2 → cs_ready x.1.2 → stored !! Server.content_hash buffer = Some buffer →
  Server.StoreContentFromSource cfg fs s3 clock (mkSource path "" "" "" "" "") x = (Ok resp, x') →
  (s_Ok resp = false ∧ s_Hash resp = "") ∨
  (s_Ok resp = true ∧ s_Hash resp = Server.content_hash buffer ∧ cs_has (s_Hash resp) x'.1.2).
Proof.
  intros Hf Hi Hr Hst. unfold Server.StoreContentFromSource.
  cbn [src_Path src_Bucket]. rewrite bool_decide_eq_true_2 by done.
  rewrite (bind_Ok _ _ _ buffer x) by
    (unfold Server.fetch_source; cbn [src_Path src_Bucket]; rewrite bool_decide_eq_true_2 by done;
     by rewrite Hf).
  intros (r & x1 & E1 & E)%bind_Ok_inv.
  unfold attempt, Server.on_state, zoom in E1.
  destruct (Server.store buffer x.1) as [[hash|e|p] s1] eqn:Es; [| |done];
    injection E1 as <- <-; [|injection E as <- <-; by left].
  destruct (Server.StoreContent_has [buffer] x.1 hash s1) as [-> Hhas].
  { exact Hi. } { exact Hr. } { simpl. by rewrite app_nil_r. }
  { unfold Server.StoreContent. simpl. by rewrite app_nil_r. }
  simpl in E, Hhas. rewrite app_nil_r in *.
  apply bind_Ok_inv in E as (r & x2 & E2 & E). unfold attempt in E2.
  pose proof (on_state_storage _ s1.2 (parts_loop_storage (Join ["/"; Clean (Join ["/"; path])])
    (Server.content_hash buffer) (wrapU64 (zlen buffer)) 0
    (split_on "/" (Join ["/"; Clean (Join ["/"; path])])) ("/", GenerateFsID "/") s1.2)
    (s1, x.2) eq_refl) as Hk.
  unfold Server.StoreContentInBlobFs in E2.
  destruct (Server.on_state _ (s1, x.2)) as [[[]|e|p] x3]; [| |done];
    injection E2 as <- <-; injection E as <- <-; [right|by left].
  split_and!; [done..|]. simpl in *. rewrite Hk. exact Hhas.
Qed.

Lemma StoreContentFromSourceWithLock_has ticks path buffer (x x' : Sv) resp :
  Server.cacheSourceFromLocalPath fs (Join ["/"; path]) = Ok buffer →
  cs_inv x.1.2 → cs_ready x.1.2 → stored !! Server.content_hash buffer = Some buffer →
  Server.StoreContentFromSourceWithLock cfg fs s3 clock locality ticks
    (mkSource path "" "" "" "" "") x = (Ok resp, x') →
  l_Hash resp = "" ∨
  (l_Hash resp = Server.content_hash buffer ∧ cs_has (l_Hash resp) x'.1.2).
Proof.
  intros Hf Hi Hr Hst. unfold Server.StoreContentFromSourceWithLock. simpl.
  intros (r & x1 & E1 & E)%bind_Ok_inv.
  pose proof (on_state_storage _ x.1.2 (left_keeps (c_SetStoreFromContentLock locality path) x.1.2)
    x eq_refl) as K1.
  unfold attempt in E1. simpl in E1.
  destruct (Server.on_state _ x) as [[[]|e|p] x1'] in E1, K1; [| |done];
    injection E1 as <- <-; simpl in K1; [|injection E as <- <-; by left].
  apply bind_Ok_inv in E as (u & x2 & E2 & E).
  pose proof (refreshes_storage ticks.1 path x.1.2 x1' K1) as K2. rewrite E2 in K2. simpl in K2.
  apply bind_Ok_inv in E as (r & x3 & E3 & E). unfold attempt in E3.
  destruct (Server.StoreContentFromSource _ _ _ _ _ x2) as [[resp0|e|p] x3'] eqn:Es; [| |done];
    injection E3 as <- <-.
  2:{ apply bind_Ok_inv in E as (u' & x4 & E4 & E). injection E as <- <-. by left. }
  apply bind_Ok_inv in E as ([] & x4 & E4 & E).
  pose proof (refreshes_storage ticks.2 path x3'.1.2 x3' eq_refl) as K4. rewrite E4 in K4. simpl in K4.
  apply bind_Ok_inv in E as ([] & x5 & E5 & E). injection E as <- <-. simpl.
  pose proof (keeps_ignore _ _ (on_state_storage _ x4.1.2
    (left_keeps (c_RemoveStoreFromContentLock locality path) x4.1.2)) x4 eq_refl) as K5.
  simpl in E5. rewrite E5 in K5. simpl in K5.
  destruct (StoreContentFromSource_has path buffer x2 x3' resp0 Hf) as [[_ ->]|(_ & -> & Hhas)];
    [by rewrite K2|by rewrite K2|done|done|by left|right].
  split; [done|]. by rewrite K5, K4.
Qed.

End stores.

(** ** The file system calls the client *)

Definition client_fs {Hs W} `{RendezvousHasher Hs} `{BlobCacheService W}
    (clientConfig : BlobCacheClientConfig) (now : nat → Z) : BlobFs.FsClient (St Hs W) := {|
  BlobFs.fs_GetContent hash off len key :=
    GetContent clientConfig (effective_attempts clientConfig) now hash off len key;
  BlobFs.fs_StoreContentFromFUSE path key lock :=
    StoreContentFromFUSE clientConfig (now 0%nat) path key lock;
|}.

(** ** From the client to the disk and back *)

Section end_to_end.
Context {Hs R T : Type} `{HasherLaws Hs} (CC : CoordinatorClient R) (CS : ContentStore T).
Context (stored : gmap string (list byte)) {CL : @ContentStoreLaws T CS stored}.
Context (env : string → server_env) (locality : string) (clientConfig : BlobCacheClientConfig).
#[local] Instance coord'' : CoordinatorClient (R * T) := pair_coordinator CC.
#[local] Instance storage_of'' : ContentStore (R * T) := pair_store CS.
#[local] Instance service : BlobCacheService (world R T) := cluster_service CC CS env locality.
Implicit Types c : BlobCacheClient Hs.
Implicit Types w : world R T.

(** The server at an address has room and answers; it has every byte of a content. *)
Definition server_ready w (addr : string) : Prop :=
  ∃ t clients, w.2 !! addr = Some (t, clients) ∧ cs_inv t ∧ cs_ready t.
Definition serves w (addr hash : string) : Prop :=
  ∃ t clients, w.2 !! addr = Some (t, clients) ∧ cs_has hash t.

(** The first host of a key, and its connection. *)
Definition routes c (key : string) (g : GrpcClient) : Prop :=
  ∃ h, pick clientConfig c key 0 = Some h ∧ grpcClients c !! HostId h = Some g.

Lemma get_from_first now c w hash content RoutingKey g offset length :
  routes c (routing_key RoutingKey hash) g → localHostCache c !! hash = None →
  serves w (target g) hash → stored !! hash = Some content →
  0 ≤ offset → 0 ≤ length → offset + length ≤ zlen content →
  (GetContent clientConfig (effective_attempts clientConfig) now hash offset length RoutingKey
     (c, w)).1 = Ok (take (Z.to_nat length) (drop (Z.to_nat offset) content)).
Proof.
  intros (h & Hp & Hg) Hno (t & cl & Hw & Hhas) Hst Ho Hl Hol. unfold GetContent.
  pose proof (max_attempts_pos clientConfig length) as Hn.
  destruct (max_attempts _ _ _) as [|n]; [lia|]. simpl.
  assert (chosen clientConfig c hash (routing_key RoutingKey hash) 0 = Some h) as Hc
    by (unfold chosen; by rewrite Hno).
  destruct (getGRPCClient_retrieval clientConfig (now 0%nat) _ _ _ _ _ _ Hc Hg) as (c1 & E & _).
  rewrite (on_client_Ok _ _ _ _ _ _ E).
  pose proof (Server.GetContent_has (CL := right_laws CS stored) hash content offset length
    (w.1, t) Hst Hhas Ho Hl Hol) as Hs'.
  unfold attempt, on_world, mbind, M_bind. simpl. unfold run_at, Server.on_state, zoom.
  rewrite Hw. simpl in Hs' |- *.
  destruct (Server.GetContent hash offset length (w.1, t)) as [o [r u]]. simpl in Hs'. by subst o.
Qed.

(** C5: what a client stored it reads back: when [StoreContent] reached a server
    that has room and whose writes were never cut short, and the storing succeeded,
    the hash is the SHA-256 of the chunks one after the other, and every [GetContent]
    of a range under this hash and the same routing key returns exactly the range. *)
Theorem client_store_get now now' chunks hash RoutingKey c g w hash' s' :
  let content := concat chunks in
  let key := routing_key RoutingKey hash in
  routes c key g → server_ready w (target g) → stored !! Server.content_hash content = Some content →
  StoreContent clientConfig now chunks hash RoutingKey (c, w) = (Ok hash', s') →
  hash' = Server.content_hash content ∧
  ∀ RoutingKey' offset length,
    routing_key RoutingKey' hash' = key → localHostCache c !! hash' = None →
    0 ≤ offset → 0 ≤ length → offset + length ≤ zlen content →
    (GetContent clientConfig (effective_attempts clientConfig) now' hash' offset length
       RoutingKey' s').1 = Ok (take (Z.to_nat length) (drop (Z.to_nat offset) content)).
Proof.
  intros content key (h & Hp & Hg) (t & cl & Hw & Hi & Hr) Hst. unfold StoreContent. fold key.
  rewrite (bind_Ok _ _ _ _ _ (on_client_run _ _ _ _ w
    (getGRPCClient_storage clientConfig now hash key c h g Hp Hg))).
  unfold on_world. simpl. unfold run_at, Server.on_state, zoom. rewrite Hw. simpl.
  destruct (Server.store (concat chunks) (w.1, t)) as [[hash1|e|p] [r u]] eqn:E; [|done..].
  intros [= -> <-].
  destruct (Server.StoreContent_has (CL := right_laws CS stored) chunks (w.1, t) hash' (r, u))
    as [Hh Hhas]; [exact Hi|exact Hr|exact Hst|exact E|]. split; [exact Hh|].
  intros RoutingKey' offset length Hk Hno Ho Hl Hol.
  apply (get_from_first now' c _ hash' content RoutingKey' g); [|exact Hno| |by rewrite Hh|done..].
  - rewrite Hk. by exists h.
  - exists u, cl. simpl. rewrite lookup_insert_eq. done.
Qed.

(** C1: a file that the client had a server store is read through the mounted file
    system: when [StoreContentFromFUSE] of a path, with or without the lock,
    returns a hash that is not empty, it is the SHA-256 of the file, and [Read] of a
    node with this path and hash returns the bytes of the file from the offset. *)
Theorem populated_file_is_read now now' path lock c g w hash s' content n offset length :
  routes c path g → path ≠ "" → server_ready w (target g) →
  Server.cacheSourceFromLocalPath (env_files (env (target g))) (Join ["/"; path]) = Ok content →
  stored !! Server.content_hash content = Some content →
  StoreContentFromFUSE clientConfig now path "" lock (c, w) = (Ok hash, s') → hash ≠ "" →
  localHostCache c !! hash = None →
  BlobFs.NPath (BlobFs.bfsNode n) = path → BlobFs.NHash (BlobFs.bfsNode n) = hash →
  BlobFs.Fuse.Size (BlobFs.Attr (BlobFs.bfsNode n)) ≠ 0 →
  0 ≤ offset → 0 ≤ length → offset + length ≤ zlen content →
  hash = Server.content_hash content ∧
  (BlobFs.Read (FC := client_fs clientConfig now') n length offset s').1
    = Ok (take (Z.to_nat length) (drop (Z.to_nat offset) content)).
Proof.
  intros (h & Hp & Hg) Hpath (t & cl & Hw & Hi & Hr) Hf Hst Hrun Hne Hno Hn Hnh Hsz Ho Hl Hol.
  unfold StoreContentFromFUSE in Hrun.
  assert (routing_key "" path = path) as Hk by done. rewrite Hk in Hrun.
  rewrite (bind_Ok _ _ _ _ _ (on_client_run _ _ _ _ w
    (getGRPCClient_storage clientConfig now path path c h g Hp Hg))) in Hrun.
  assert (hash = Server.content_hash content ∧ s'.1 = c ∧ serves s'.2 (target g) hash)
    as (Hh & Hc & Hserves).
  { unfold store_from_source in Hrun. destruct lock.
    - apply bind_Ok_inv in Hrun as (resp & s1 & E & Hrun). unfold on_world in E. simpl in E.
      unfold run_at in E. rewrite Hw in E. cbn [fst snd] in E.
      destruct (Server.StoreContentFromSourceWithLock _ _ _ _ _ _ _ _) as [[resp'|e|p] [[r u] cl']] eqn:Es;
        [|done..]. injection E as -> <-.
      destruct (l_FailedToAcquireLock resp); [done|]. destruct (l_Ok resp); [|done].
      injection Hrun as <- <-.
      destruct (StoreContentFromSourceWithLock_has CC CS stored _ _ _ _ _ _ path content ((w.1, t), cl) _ _
        Hf Hi Hr Hst Es) as [Hnil|[Hh Hhas]]; [done|]. split_and!; [done..|].
      exists u, cl'. simpl. by rewrite lookup_insert_eq.
    - apply bind_Ok_inv in Hrun as (resp & s1 & E & Hrun). unfold on_world in E. simpl in E.
      unfold run_at in E. rewrite Hw in E. cbn [fst snd] in E.
      destruct (Server.StoreContentFromSource _ _ _ _ _ _) as [[resp'|e|p] [[r u] cl']] eqn:Es;
        [|done..]. injection E as -> <-. destruct (s_Ok resp) eqn:Eok; [|done].
      injection Hrun as <- <-.
      destruct (StoreContentFromSource_has CC CS stored _ _ _ _ path content ((w.1, t), cl) _ _
        Hf Hi Hr Hst Es) as [[Hf' _]|(_ & Hh & Hhas)]; [congruence|]. split_and!; [done..|].
      exists u, cl'. simpl. by rewrite lookup_insert_eq. }
  split; [exact Hh|]. destruct s' as [c' w']. simpl in Hc, Hserves. subst c'.
  assert ((BlobFs.fs_GetContent (FsClient := client_fs clientConfig now') hash offset length path (c, w')).1
    = Ok (take (Z.to_nat length) (drop (Z.to_nat offset) content))) as Hget.
  { simpl. apply (get_from_first now' c w' hash content path g); [|done|done|by rewrite Hh|done..].
    exists h. unfold routing_key. by rewrite decide_False. }
  unfold BlobFs.Read. rewrite bool_decide_eq_false_2 by done. rewrite Hn, Hnh.
  unfold attempt, mbind, M_bind.
  destruct (@BlobFs.fs_GetContent _ (client_fs clientConfig now') hash offset length path (c, w')) as [o s2].
  simpl in Hget. by subst o.
Qed.

End end_to_end.

(** ** Witnesses *)

#[local] Existing Instances Client.list_hasher Client.list_hasher_laws.

Abbreviation small := (small_config 4 f_zero).
Abbreviation small_store := (cas_store (C := gmap string cache_item) small).
Abbreviation hashed := Server.hashed.
Abbreviation hashed_laws := (Server.small_laws Server.hashed Server.hashed_valid).

(** Three servers of the same region, of which [a] is up, with an empty disk and
    one file on its host; the client of [Client.v] knows them all. *)
Definition small_env (addr : string) : server_env :=
  mkEnv small Server.one_file Server.checked_s3 (λ _, (8, 9)) (1%nat, 1%nat) "10.0.0.1" 0 1.
Definition a_only : world Mock.MockCoordinator (clocked (gmap string cache_item)) :=
  (BlobFs.mounted, {[ "a:1" := (([], fresh), ∅) ]}).
Definition conn_a : GrpcClient := mkConn "a:1" (dial_opts two_attempts empty_global "a:1").

Lemma a_routes key : routes two_attempts abc_client key conn_a.
Proof. exists host_a. split; by vm_compute. Qed.

Lemma a_ready : @server_ready Mock.MockCoordinator _ small_store hashed hashed_laws a_only "a:1".
Proof.
  exists ([], fresh), ∅. split_and!; [done| |split_and!; reflexivity].
  exact (reachable_inv small hashed false (small_config_valid 4 f_zero ltac:(done))
    Server.hashed_valid [] fresh_node (reach_init _ _ _ ∅ {[ "/cache" ]} 0 eq_refl)).
Qed.

#[local] Instance small_service : BlobCacheService _ :=
  cluster_service Mock.coordinator small_store small_env "l".

(** Ten bytes stored in two chunks on [a], and read from the client. *)
Definition after_store :=
  (StoreContent two_attempts 0 [take 4 abc; drop 4 abc] "" "k" (abc_client, a_only)).2.

Lemma client_store_get_witness :
  (GetContent two_attempts (effective_attempts two_attempts) (λ _, 0)
     (Server.content_hash abc) 2 7 "k" after_store).1
  = Ok (take (Z.to_nat 7) (drop (Z.to_nat 2) abc)).
Proof.
  assert (localHostCache abc_client !! Server.content_hash abc = None) as Hno by done.
  refine (proj2 (client_store_get (CL := hashed_laws) Mock.coordinator small_store hashed small_env
    "l" two_attempts 0 (λ _, 0) [take 4 abc; drop 4 abc] "" "k" abc_client conn_a a_only
    (Server.content_hash abc) after_store (a_routes "k") a_ready _ _) "k" 2 7 _ Hno _ _ _).
  - by vm_compute.
  - unfold after_store, small_service. refine (pair_fst_eq _ _ _). by vm_compute.
  - done.
  - done.
  - done.
  - done.
Defined.

(** The file ["/d/f"] of [a]'s host, stored with the lock, and read by the mount. *)
Definition after_populate :=
  (StoreContentFromFUSE two_attempts 0 "/d/f" "" true (abc_client, a_only)).2.
Definition node_d_f : BlobFs.FSNode :=
  BlobFs.mkFSNode (BlobFs.mkNode "/d/f" "" "" "f" "" (Server.content_hash abc)
    (BlobFs.Fuse.mkAttr 0 10 0 0 0 0 0 0 0 0 0 (BlobFs.Fuse.mkOwner 0 0) 0 0 0) None)
    BlobFs.Fuse.zeroAttr.

Lemma populated_file_is_read_witness :
  (BlobFs.Read (FC := client_fs two_attempts (λ _, 0))
     node_d_f 7 2 after_populate).1 = Ok (take (Z.to_nat 7) (drop (Z.to_nat 2) abc)).
Proof.
  assert (localHostCache abc_client !! Server.content_hash abc = None) as Hno by done.
  refine (proj2 (populated_file_is_read (CL := hashed_laws) Mock.coordinator small_store hashed
    small_env "l" two_attempts 0 (λ _, 0) "/d/f" true abc_client conn_a a_only
    (Server.content_hash abc) after_populate abc node_d_f 2 7 (a_routes _) _ a_ready _ _ _ _ Hno
    _ _ _ _ _ _)).
  - done.
  - by vm_compute.
  - by vm_compute.
  - unfold after_populate, small_service. refine (pair_fst_eq _ _ _). by vm_compute.
  - by vm_compute.
  - done.
  - done.
  - done.
  - done.
  - done.
  - done.
Defined.
