(* ===== verification/ClusterRuns.v ===== *)
(** * Any run of the cluster

    What happens to the servers of [Cluster.v] over time: requests of any client in
    any order, servers that start, stop, crash and do their own work, a coordinator
    that others change.  Every state so reached keeps the contents, so a client
    never gets bytes that are not of the content it asked for.  The last part runs
    a client whose calls are interleaved with all of this. *)

From S2P Require Import Prelude GoStrings GoPath FsID GoFloat Types Rpc.
From S2P Require Import Disk BufferPool Prefetcher Storage StorageCorrect StorageRuns StorageProps.
From S2P Require Import ContentStore S3Client Redis Metadata Coordinator CoordinatorLaws NodeStore Client.
From S2P Require Import Cluster.
From S2P Require BlobFs Server.
Local Open Scope Z_scope.
#[local] Opaque GenerateFsID SHA256.Sum256.

(** ** Requests *)

(** The calls of the service. *)
Inductive request : Type :=
  | ReqGet (hash : string) (offset length : Z)
  | ReqHas (hash : string)
  | ReqStream (hash : string) (offset length : Z)
  | ReqStore (chunks : list (list byte))
  | ReqSource (source : CacheSource)
  | ReqSourceWithLock (source : CacheSource)
  | ReqState.

(** The state that a call leaves. *)
Definition serve {W} `{BlobCacheService W} (g : GrpcClient) (req : request) (w : W) : W :=
  match req with
  | ReqGet hash offset length => (rpc_GetContent g hash offset length w).2
  | ReqHas hash => (rpc_HasContent g hash w).2
  | ReqStream hash offset length => (rpc_GetContentStream g hash offset length w).2
  | ReqStore chunks => (rpc_StoreContent g chunks w).2
  | ReqSource source => (rpc_StoreContentFromSource g source w).2
  | ReqSourceWithLock source => (rpc_StoreContentFromSourceWithLock g source w).2
  | ReqState => (rpc_GetState g w).2
  end.

Section runs.
Context {R T : Type} (CC : CoordinatorClient R) (CS : ContentStore T).
Context (stored : gmap string (list byte)) {CL : @ContentStoreLaws T CS stored}.
Context (locality : string).
#[local] Instance coord_rt : CoordinatorClient (R * T) := pair_coordinator CC.
#[local] Instance store_rt : ContentStore (R * T) := pair_store CS.
#[local] Instance laws_rt : @ContentStoreLaws (R * T) store_rt stored := right_laws CS stored.

(** What a storage starts with, and what it does besides answering. *)
Context (boots : T → Prop) (changes : T → T → Prop).
(** What others do to the coordinator. *)
Context (others : R → R → Prop).
Context (boots_inv : ∀ t, boots t → cs_inv t)
        (changes_inv : ∀ t t', changes t t' → cs_inv t → cs_inv t').

Abbreviation World := (world R T).
Abbreviation Sv := (Server.server (S := R * T)).
Abbreviation service_at env := (cluster_service CC CS env locality).
Abbreviation fetched e source buffer :=
  (Server.fetches (S := R * T) (env_config e) (env_files e) (env_s3 e) source buffer).
Implicit Types (env : string → server_env) (w : World).

(** The requests of the run: the hashes are names, the numbers are [int64], and
    what is stored is the content of its hash ([stored] has them all). *)
Definition int64_stream (offset length : Z) : Prop :=
  0 ≤ offset ∧ offset + Z.max 0 length < 2 ^ 63 ∧ int64_range length.
Definition known (content : list byte) : Prop :=
  stored !! Server.content_hash content = Some content.
Definition allowed env (g : GrpcClient) (req : request) : Prop :=
  match req with
  | ReqGet hash offset length => valid_hash hash ∧ int64_range offset ∧ int64_range length
  | ReqStream hash offset length => valid_hash hash ∧ int64_stream offset length
  | ReqStore chunks => known (concat chunks)
  | ReqSource source | ReqSourceWithLock source =>
      ∀ content, fetched (env (target g)) source content → known content
  | ReqHas _ | ReqState => True
  end.

(** One step: [env] is what the hosts answer during the request. *)
Inductive wstep : World → World → Prop :=
  | w_request env g req w : allowed env g req → wstep w (serve (H := service_at env) g req w)
  | w_coordinator r r' nodes : others r r' → wstep (r, nodes) (r', nodes)
  | w_server r nodes addr t t' clients clients' :
      nodes !! addr = Some (t, clients) → changes t t' →
      wstep (r, nodes) (r, <[addr := (t', clients')]> nodes)
  | w_start r nodes addr t : boots t → wstep (r, nodes) (r, <[addr := (t, ∅)]> nodes)
  | w_stop r nodes addr : wstep (r, nodes) (r, delete addr nodes).

(** Every server keeps the contents. *)
Definition world_ok w : Prop := map_Forall (λ _ node, cs_inv node.1) w.2.

(** ** The requests keep the contents *)

Lemma run_at_ok {A} g (m : M Sv A) (φ : A → Prop) w :
  (∀ x, cs_inv x.1.2 → match m x with
                       | (Ok a, x') => cs_inv x'.1.2 ∧ φ a
                       | (Err _, x') => cs_inv x'.1.2
                       | (Panic _, _) => True
                       end) →
  world_ok w →
  let '(r, w') := run_at g m w in
  world_ok w' ∧ match r with inl a => φ a | inr _ => True end.
Proof.
  intros Hm Hw. unfold run_at. destruct (w.2 !! target g) as [node|] eqn:E; [|done].
  specialize (Hm ((w.1, node.1), node.2) (Hw _ _ E)).
  destruct (m _) as [[a|e|p] [s clients]]; simpl in *.
  - destruct Hm as [Hi Ha]. split; [|done]. by apply map_Forall_insert_2.
  - split; [|done]. by apply map_Forall_insert_2.
  - split; [|done]. by apply map_Forall_delete.
Qed.

Lemma run_at_keeps {A} g (m : M Sv A) w :
  keeps (λ x : Sv, cs_inv x.1.2) m → world_ok w → world_ok (run_at g m w).2.
Proof.
  intros Hm Hw. pose proof (run_at_ok g m (λ _, True) w) as H.
  destruct (run_at g m w). apply H; [|done]. intros x Hx. specialize (Hm x Hx).
  by destruct (m x) as [[a|e|p] x'].
Qed.

(** A handler that reads: what it answers is of the content. *)
Definition range_of (hash : string) (offset length : Z) (data : list byte) : Prop :=
  0 ≤ length ∧ zlen data ≤ length ∧
  data = take (Z.to_nat (zlen data)) (drop (Z.to_nat offset) (content_of stored hash)).

Lemma rpc_get_ok env hash offset length :
  valid_hash hash → int64_range offset → int64_range length →
  answers (H1 := service_at env) world_ok hash offset length (range_of hash offset length).
Proof.
  intros Hh Ho Hl g w Hw. apply (run_at_ok g _
    (λ resp, gc_Ok resp = true → range_of hash offset length (Content resp))); [|done].
  intros [s clients] Hs. unfold Server.on_state, zoom. simpl.
  pose proof (Server.GetContent_serves (CL := laws_rt) hash offset length s Hs Hh Ho Hl) as Hg.
  destruct (Server.GetContent hash offset length s) as [[r|e|p] s']; simpl; [|done|done].
  destruct Hg as (Hl0 & Hs' & Hr). split; [done|].
  destruct Hr as [[-> _]|(_ & Hz & Hc)]; [done|]. intros _. exact (conj Hl0 (conj Hz Hc)).
Qed.

Lemma take_prefix_of {A} (l : list A) n m : (n ≤ m)%nat → take n l `prefix_of` take m l.
Proof.
  intros Hn. exists (drop n (take m l)). rewrite <-(take_drop n (take m l)) at 1.
  by rewrite take_take, Nat.min_l.
Qed.

(** The messages of a server's stream all say yes. *)
Lemma recv_serve_stream chunks e :
  (recv_loop (serve_stream (Server.mkStreamEnd chunks e)).1 (serve_stream (Server.mkStreamEnd chunks e)).2).1
  = chunks.
Proof.
  unfold serve_stream. simpl. induction chunks as [|c chunks IH]; [done|]. simpl.
  destruct (recv_loop _ _). simpl in *. by rewrite IH.
Qed.

Lemma rpc_stream_ok env hash offset length :
  valid_hash hash → int64_stream offset length →
  streams (H1 := service_at env) world_ok hash offset length
    (take (Z.to_nat length) (drop (Z.to_nat offset) (content_of stored hash))).
Proof.
  intros Hh (Ho & Hol & Hl) g w Hw.
  pose proof (run_at_ok g (Server.on_state (Server.GetContentStream hash offset length (λ _, None))
    ≫= λ e, mret (serve_stream e)) (λ a, concat (recv_loop a.1 a.2).1 `prefix_of`
      take (Z.to_nat length) (drop (Z.to_nat offset) (content_of stored hash))) w) as H.
  simpl. destruct (run_at _ _ w) as [[[msgs err]|e] w']; (apply H; [|done]);
    clear H; intros [s clients] Hs; unfold mbind, M_bind, Server.on_state, zoom; cbn [fst snd];
    pose proof (Server.stream_triple (CL := laws_rt) hash offset length (λ _, None) Hh Ho Hol Hl s Hs) as Ht;
    (destruct (Server.GetContentStream hash offset length _ s) as [[[sent er]|?|?] s']; [|done..]);
    destruct Ht as [Hs' ((Hc & Hz & _) & _)]; cbn [Server.e_sent] in Hc, Hz;
    (split; [exact Hs'|]); cbn [fst snd]; rewrite recv_serve_stream, Hc;
    apply take_prefix_of; lia.
Qed.

Lemma cs_Add_keeps content :
  known content → keeps (λ s : R * T, cs_inv s.2) (cs_Add (Server.content_hash content) content).
Proof. intros Hk. exact (triple_keeps _ _ (cs_Add_inv (ContentStoreLaws := laws_rt) _ _ Hk)). Qed.

Lemma left_inv {A} (m : M R A) :
  keeps (λ s : R * T, cs_inv s.2) (zoom fst (λ s x, (s, x.2)) m).
Proof. apply (keeps_part snd cs_inv). intros t. apply left_keeps. Qed.

Lemma blobfs_inv fs clock path hash size :
  keeps (λ s : R * T, cs_inv s.2) (Server.StoreContentInBlobFs fs clock path hash size).
Proof. apply Server.StoreContentInBlobFs_keeps; intros; apply left_inv. Qed.

Lemma serve_ok env g req w :
  allowed env g req → world_ok w → world_ok (serve (H := service_at env) g req w).
Proof.
  destruct req as [hash offset length|hash|hash offset length|chunks|source|source|]; simpl; intros Ha Hw.
  - destruct Ha as (Hh & Ho & Hl). pose proof (rpc_get_ok env hash offset length Hh Ho Hl g w Hw) as H.
    simpl in H. by destruct (run_at _ _ w) as [? ?], H.
  - apply run_at_keeps; [|done]. apply (Server.on_state_keeps (λ s, cs_inv s.2)).
    exact (triple_keeps _ _ (cs_Exists_inv (ContentStoreLaws := laws_rt) hash)).
  - destruct Ha as (Hh & Hst). pose proof (rpc_stream_ok env hash offset length Hh Hst g w Hw) as H.
    simpl in H. by destruct (run_at _ _ w) as [? ?], H.
  - apply run_at_keeps; [|done]. apply (Server.on_state_keeps (λ s, cs_inv s.2)).
    apply Server.store_keeps. by apply cs_Add_keeps.
  - apply run_at_keeps; [|done].
    apply (Server.StoreContentFromSource_keeps _ _ _ _ (λ s, cs_inv s.2));
      [intros; apply blobfs_inv|]. intros content Hc. by apply cs_Add_keeps, Ha.
  - apply run_at_keeps; [|done].
    apply (Server.StoreContentFromSourceWithLock_keeps _ _ _ _ _ (λ s, cs_inv s.2));
      [intros; apply blobfs_inv|intros; apply left_inv..|]. intros content Hc. by apply cs_Add_keeps, Ha.
  - apply (run_at_keeps g (mret _) w); [apply keeps_ret|done].
Qed.

Lemma wstep_ok w w' : wstep w w' → world_ok w → world_ok w'.
Proof.
  intros [env g req w0 Ha|r r' nodes _|r nodes addr t t' clients clients' Ht Hc|r nodes addr t Hb|r nodes addr] Hw.
  - by apply serve_ok.
  - exact Hw.
  - apply map_Forall_insert_2; [|exact Hw]. simpl. eapply changes_inv; [exact Hc|]. exact (Hw _ _ Ht).
  - apply map_Forall_insert_2; [|exact Hw]. simpl. by apply boots_inv.
  - by apply map_Forall_delete.
Qed.

(** The worlds that a run reaches from no server at all. *)
Definition cluster_reaches w : Prop := ∃ r, rtc wstep (r, ∅) w.

Lemma cluster_reaches_ok w : cluster_reaches w → world_ok w.
Proof.
  intros [r Hr]. apply (rtc_keeps _ _ _ _ wstep_ok Hr). apply map_Forall_empty.
Qed.

Lemma cluster_reaches_step w w' : cluster_reaches w → rtc wstep w w' → cluster_reaches w'.
Proof. intros [r Hr] H'. exists r. by etrans. Qed.

(** ** A client among the others *)

Context {Hs : Type} `{HasherLaws Hs} (clientConfig : BlobCacheClientConfig).

(** Before the [i]-th call of this client anything happens to the servers
    ([meanwhile i]), and the hosts answer as [envs i] says. *)
Context (envs : nat → string → server_env) (meanwhile : nat → World → World).

Definition among {A} (m : (string → server_env) → call World A) : call (nat * World) A := λ x,
  let '(r, w) := m (envs x.1) (meanwhile x.1 x.2) in (r, (S x.1, w)).

Definition busy_service : BlobCacheService (nat * World) := {|
  rpc_GetContent g h o l := among (λ env, rpc_GetContent (BlobCacheService := service_at env) g h o l);
  rpc_HasContent g h := among (λ env, rpc_HasContent (BlobCacheService := service_at env) g h);
  rpc_GetContentStream g h o l :=
    among (λ env, rpc_GetContentStream (BlobCacheService := service_at env) g h o l);
  rpc_StoreContent g chunks :=
    among (λ env, rpc_StoreContent (BlobCacheService := service_at env) g chunks);
  rpc_StoreContentFromSource g source :=
    among (λ env, rpc_StoreContentFromSource (BlobCacheService := service_at env) g source);
  rpc_StoreContentFromSourceWithLock g source :=
    among (λ env, rpc_StoreContentFromSourceWithLock (BlobCacheService := service_at env) g source);
  rpc_GetState g := among (λ env, rpc_GetState (BlobCacheService := service_at env) g);
|}.
#[local] Existing Instance busy_service.

Definition reached (x : nat * World) : Prop := cluster_reaches x.2.

Context (Hmean : ∀ i w, rtc wstep w (meanwhile i w)).

(** A call leaves a state of the run, and is answered by one. *)
Lemma reached_request i w g req :
  allowed (envs i) g req → cluster_reaches w →
  world_ok (meanwhile i w) ∧
  cluster_reaches (serve (H := service_at (envs i)) g req (meanwhile i w)).
Proof.
  intros Ha Hw. pose proof (cluster_reaches_step _ _ Hw (Hmean i w)) as Hm.
  split; [by apply cluster_reaches_ok|].
  eapply cluster_reaches_step; [exact Hm|]. apply rtc_once. by apply w_request.
Qed.

Lemma busy_answers hash offset length :
  valid_hash hash → int64_range offset → int64_range length →
  answers (H1 := busy_service) reached hash offset length (range_of hash offset length).
Proof.
  intros Hh Ho Hl g [i w] Hw.
  destruct (reached_request i w g (ReqGet hash offset length)) as [Hok Hr]; [done|exact Hw|].
  pose proof (rpc_get_ok (envs i) hash offset length Hh Ho Hl g _ Hok) as Hg.
  cbn [serve] in Hr. unfold rpc_GetContent at 1, busy_service, among. cbn [fst snd].
  destruct (rpc_GetContent _ _ _ _ _) as [r w']. split; [exact Hr|]. apply Hg.
Qed.

Lemma busy_streams hash offset length :
  valid_hash hash → int64_stream offset length →
  streams (H1 := busy_service) reached hash offset length
    (take (Z.to_nat length) (drop (Z.to_nat offset) (content_of stored hash))).
Proof.
  intros Hh Hst g [i w] Hw.
  destruct (reached_request i w g (ReqStream hash offset length)) as [Hok Hr]; [done|exact Hw|].
  pose proof (rpc_stream_ok (envs i) hash offset length Hh Hst g _ Hok) as Hg.
  cbn [serve] in Hr. unfold rpc_GetContentStream at 1, busy_service, among. cbn [fst snd].
  destruct (rpc_GetContentStream _ _ _ _ _) as [r w']. split; [exact Hr|]. apply Hg.
Qed.

(** C2: in any run of the cluster, from no server on, with any requests of any
    clients in any order, servers that start, stop, lose their files or crash, and
    all of this also between the attempts of one call, a client in any state gets
    from [GetContent] only bytes of the content it asked for, from the offset and
    at most as many as asked, or an error; and what [GetContentStream] delivers is
    made of first parts of the range, at most one per attempt.  Neither panics. *)
Theorem cluster_serves_content now hash offset length RoutingKey (c : BlobCacheClient Hs) i w :
  cluster_reaches w → valid_hash hash → int64_range offset → int64_range length →
  match GetContent (H0 := busy_service) clientConfig (effective_attempts clientConfig) now hash
          offset length RoutingKey (c, (i, w)) with
  | (Ok data, s') => cluster_reaches s'.2.2 ∧ range_of hash offset length data
  | (Err _, s') => cluster_reaches s'.2.2
  | (Panic _, _) => False
  end ∧
  (int64_stream offset length →
   ∃ chunks s',
     GetContentStream (H0 := busy_service) clientConfig (effective_attempts clientConfig) now hash
       offset length RoutingKey (c, (i, w)) = (Ok chunks, s') ∧
     cluster_reaches s'.2.2 ∧
     restarts (take (Z.to_nat length) (drop (Z.to_nat offset) (content_of stored hash)))
       (max_attempts clientConfig (effective_attempts clientConfig) length) chunks).
Proof.
  intros Hw Hh Ho Hl. split.
  - exact (GetContent_answers clientConfig reached now hash offset length RoutingKey
      (range_of hash offset length) (busy_answers hash offset length Hh Ho Hl) (c, (i, w)) Hw).
  - intros Hst. exact (GetContentStream_restarts clientConfig reached now hash offset length RoutingKey
      _ c (i, w) (busy_streams hash offset length Hh Hst) Hw).
Qed.

(** C9: what a mount reads: in any run of the cluster, with all that happens between
    the calls, a [Read] of a file, from any state of the client, returns bytes of the
    content of its hash, from the offset and at most as many as asked, or nothing for a
    file of size 0, or fails. *)
Theorem mounted_read_serves now (n : BlobFs.FSNode) len off (c : BlobCacheClient Hs) i w data s' :
  let b := BlobFs.bfsNode n in
  cluster_reaches w → valid_hash (BlobFs.NHash b) → int64_range off → int64_range len →
  BlobFs.Read (FC := client_fs (H0 := busy_service) clientConfig now) n len off (c, (i, w))
    = (Ok data, s') →
  BlobFs.Fuse.Size (BlobFs.Attr b) = 0 ∧ data = [] ∨
  range_of (BlobFs.NHash b) off len data ∧ cluster_reaches s'.2.2.
Proof.
  intros b Hw Hh Ho Hl. unfold BlobFs.Read. fold b. case_bool_decide as Hz; [by intros [= <- _]; left|].
  intros (r & s1 & E1 & E)%bind_Ok_inv. right. unfold attempt in E1.
  pose proof (GetContent_answers (H1 := busy_service) clientConfig reached now (BlobFs.NHash b) off len
    (BlobFs.NPath b) (range_of (BlobFs.NHash b) off len) (busy_answers (BlobFs.NHash b) off len Hh Ho Hl)
    (c, (i, w)) Hw) as Hg.
  simpl in E1. destruct (GetContent _ _ _ _ _ _ _ (c, (i, w))) as [[d|e|p] s2]; [| |done];
    injection E1 as <- <-.
  - injection E as <- <-. by destruct Hg.
  - by apply bind_Ok_inv in E as (u & s3 & _ & E).
Qed.

End runs.

(** ** Witness *)

#[local] Existing Instances Client.list_hasher Client.list_hasher_laws.

(** A server starts over the disk that any run of a storage left. *)
Definition starts_over {C} `{Ristretto C} (cfg : BlobCacheServerConfig)
    (stored : gmap string (list byte)) (s : clocked C) : Prop :=
  ∃ bp, reachable cfg stored false (s.2, bp).

Abbreviation on_hashed := (evolves small hashed false).
Abbreviation small_runs := (wstep Mock.coordinator small_store hashed "l"
  (starts_over small hashed) on_hashed (λ _ _, True)).

(** While the client waits for its first call, [a] starts, and another client
    stores ten bytes there. *)
Definition a_starts (w : world Mock.MockCoordinator (clocked (gmap string cache_item))) :=
  (w.1, <["a:1" := (([], fresh), ∅)]> w.2).
Definition stored_on_a (i : nat) (w : world Mock.MockCoordinator (clocked (gmap string cache_item))) :=
  match i with
  | O => serve (H := cluster_service Mock.coordinator small_store small_env "l") conn_a
           (ReqStore [take 4 abc; drop 4 abc]) (a_starts w)
  | S _ => w
  end.

Lemma stored_on_a_runs i w : rtc small_runs w (stored_on_a i w).
Proof.
  destruct i as [|i]; [|done]. apply (rtc_l _ _ (a_starts w)).
  - destruct w as [r nodes]. apply w_start. exists (NewBufferPool 0).
    by apply (reach_init _ _ _ ∅ {[ "/cache" ]} 0).
  - apply rtc_once. apply (w_request _ _ _ _ _ _ _ small_env conn_a). by vm_compute.
Qed.

Lemma small_config_ok : valid_config small.
Proof. by apply small_config_valid. Qed.

Lemma starts_over_inv s :
  starts_over small hashed s → @cs_inv _ _ _ hashed_laws s.
Proof.
  intros [bp Hr]. destruct s as [ts st].
  exact (reachable_inv small hashed false small_config_ok Server.hashed_valid ts (st, bp) Hr).
Qed.

Lemma on_hashed_inv s s' :
  on_hashed s s' → @cs_inv _ _ _ hashed_laws s → @cs_inv _ _ _ hashed_laws s'.
Proof. exact (evolves_inv small hashed false small_config_ok Server.hashed_valid s s'). Qed.

Definition busy_get :=
  GetContent (H0 := busy_service Mock.coordinator small_store "l" (λ _, small_env) stored_on_a)
    two_attempts (effective_attempts two_attempts) (λ _, 0) (Server.content_hash abc) 2 7 "k"
    (abc_client, (0%nat, (BlobFs.mounted, ∅))).

Lemma abc_hash_valid : valid_hash (Server.content_hash abc).
Proof. apply (bool_decide_unpack _). by vm_compute. Qed.

Lemma cluster_serves_content_witness :
  busy_get.1 = Ok (take 7 (drop 2 abc)) ∧
  match busy_get with
  | (Ok data, s') =>
      cluster_reaches Mock.coordinator small_store hashed "l" (starts_over small hashed) on_hashed
        (λ _ _, True) s'.2.2 ∧
      range_of hashed (Server.content_hash abc) 2 7 data
  | (Err _, s') =>
      cluster_reaches Mock.coordinator small_store hashed "l" (starts_over small hashed) on_hashed
        (λ _ _, True) s'.2.2
  | (Panic _, _) => False
  end.
Proof.
  split; [by vm_compute|].
  pose proof abc_hash_valid as Hh. assert (cluster_reaches Mock.coordinator small_store hashed "l" (starts_over small hashed) on_hashed
    (λ _ _, True) (BlobFs.mounted, ∅)) as Hw by by exists BlobFs.mounted.
  assert (int64_range 2 ∧ int64_range 7) as [H2 H7] by done.
  pose proof (cluster_serves_content (CL := hashed_laws) Mock.coordinator small_store hashed "l"
    (starts_over small hashed) on_hashed (λ _ _, True) starts_over_inv on_hashed_inv two_attempts
    (λ _, small_env) stored_on_a stored_on_a_runs (λ _, 0) (Server.content_hash abc) 2 7 "k"
    abc_client 0%nat (BlobFs.mounted, ∅) Hw Hh H2 H7) as [H _].
  exact H.
Defined.

Definition busy_read :=
  BlobFs.Read (FC := client_fs (H0 := busy_service Mock.coordinator small_store "l" (λ _, small_env)
    stored_on_a) two_attempts (λ _, 0)) node_d_f 7 2 (abc_client, (0%nat, (BlobFs.mounted, ∅))).

Lemma busy_read_Ok : busy_read.1 = Ok (take 7 (drop 2 abc)).
Proof. by vm_compute. Qed.

Lemma mounted_read_serves_witness :
  BlobFs.Fuse.Size (BlobFs.Attr (BlobFs.bfsNode node_d_f)) = 0 ∧ take 7 (drop 2 abc) = [] ∨
  range_of hashed (BlobFs.NHash (BlobFs.bfsNode node_d_f)) 2 7 (take 7 (drop 2 abc)) ∧
  cluster_reaches Mock.coordinator small_store hashed "l" (starts_over small hashed) on_hashed
    (λ _ _, True) busy_read.2.2.2.
Proof.
  assert (cluster_reaches Mock.coordinator small_store hashed "l" (starts_over small hashed) on_hashed
    (λ _ _, True) (BlobFs.mounted, ∅)) as Hw by by exists BlobFs.mounted.
  assert (int64_range 2 ∧ int64_range 7) as [H2 H7] by done.
  exact (mounted_read_serves (CL := hashed_laws) Mock.coordinator small_store hashed "l"
    (starts_over small hashed) on_hashed (λ _ _, True) starts_over_inv on_hashed_inv two_attempts
    (λ _, small_env) stored_on_a stored_on_a_runs (λ _, 0) node_d_f 7 2
    abc_client 0%nat (BlobFs.mounted, ∅) (take 7 (drop 2 abc)) busy_read.2 Hw abc_hash_valid H2 H7
    (pair_fst_eq busy_read _ busy_read_Ok)).
Defined.
