(* ===== verification/ClusterTree.v ===== *)
(** * The tree of files in a cluster

    The nodes of the file system are written by two hands: by the handlers of the
    mounts ([BlobFs.v]) and by the servers, when they store a file
    ([StoreContentInBlobFs] of [Server.v]).  Here both work on the coordinator of a
    cluster, with the clients of [Client.v] between them. *)

From S2P Require Import Prelude GoStrings GoPath FsID GoFloat Types Rpc Storage StorageRuns StorageProps.
From S2P Require Import ContentStore S3Client Redis Metadata Coordinator CoordinatorLaws NodeStore Client.
From S2P Require Import Cluster ClusterRuns.
From S2P Require BlobFs Server.
Local Open Scope Z_scope.
#[local] Opaque GenerateFsID SHA256.Sum256.

(** ** A store of nodes that is a part of the state *)

Section part.
Context {S R : Type} (proj : S → R) (inj : R → S → S) (proj_inj : ∀ r s, proj (inj r s) = r).
Context `{NL : NodeStoreLaws R}.
#[local] Instance part_coordinator : CoordinatorClient S := zoom_coordinator proj inj H.

#[local] Instance part_store : NodeStore S := {
  node s := node (proj s);
  child s := child (proj s);
  next_Gen := next_Gen (S := R);
  keeps_Ino := keeps_Ino (S := R);
}.

Lemma zoom_updates {A} (m : M R A) s node' child' :
  updates (proj s) (m (proj s)) node' child' → updates s (zoom proj inj m s) node' child'.
Proof.
  unfold updates, zoom. destruct (m (proj s)) as [[a|e|p] r]; simpl; rewrite ?proj_inj; done.
Qed.

Lemma zoom_reads {A} (m : M R A) s Q : reads (proj s) (m (proj s)) Q → reads s (zoom proj inj m s) Q.
Proof. unfold reads, zoom. destruct (m (proj s)) as [o r]. simpl. by rewrite proj_inj. Qed.

#[local] Instance part_laws : NodeStoreLaws S.
Proof.
  split.
  - intros. by apply zoom_updates, (SetFsNode_law (S := R)).
  - apply (next_Gen_range (S := R)).
  - intros id m s m' s'. simpl. unfold zoom. destruct (c_SetFsNode id m (proj s)) as [o r] eqn:E.
    intros [= -> _]. by eapply (SetFsNode_result (S := R)).
  - intros. by apply zoom_reads, (GetFsNode_law (S := R)).
  - intros. by apply zoom_updates, (RemoveFsNode_law (S := R)).
  - intros. by apply zoom_updates, (AddFsNodeChild_law (S := R)).
  - intros. by apply zoom_updates, (RemoveFsNodeChild_law (S := R)).
  - intros. by apply zoom_reads, (GetFsNodeChildren_law (S := R)).
Qed.

Lemma part_tree renames s : BlobFs.tree renames s ↔ BlobFs.tree renames (proj s).
Proof. done. Qed.

End part.

(** ** The locks of a coordinator leave the nodes alone *)

Definition same_nodes {S} `{NodeStore S} (s s' : S) : Prop :=
  (∀ id, node s' id = node s id) ∧ (∀ id, child s' id = child s id).

Class StoreLocks (S : Type) `{NodeStore S} : Prop := {
  SetLock_nodes l p s : same_nodes s (c_SetStoreFromContentLock l p s).2;
  RefreshLock_nodes l p s : same_nodes s (c_RefreshStoreFromContentLock l p s).2;
  RemoveLock_nodes l p s : same_nodes s (c_RemoveStoreFromContentLock l p s).2;
}.

Lemma same_nodes_tree {S} `{NodeStore S} renames (s s' : S) :
  same_nodes s s' → BlobFs.tree renames s → BlobFs.tree renames s'.
Proof.
  intros [Hn Hc] [H1 H2]. split.
  - intros id m Hid. rewrite Hn. by apply H1.
  - intros pid id Hp. rewrite Hc. by apply H2.
Qed.

#[export] Instance mock_locks : @StoreLocks Mock.MockCoordinator Mock.coordinator MockStore.node_store.
Proof.
  split; intros l p s; simpl; unfold Mock.set_lock, Mock.remove_lock, mbind, M_bind, gets; simpl;
    [case_decide|..]; done.
Qed.

(** The local coordinator: a lock is a token of the server, not a hash or a set. *)
Section local_locks.
Context {R : Type} `{RE : Redis R} {RLaws : RedisLaws R} `{HC : HostCodec}.
Context (serverConfig : BlobCacheServerConfig).
#[local] Instance local_cc : CoordinatorClient (RedisLock R) := local_coordinator serverConfig.
#[local] Instance local_ns : NodeStore (RedisLock R) := local_store serverConfig.

Lemma tables_nodes st st' : tables st' = tables st → same_nodes (S := RedisLock R) st st'.
Proof.
  intros [= Hh Hs]. split; intros id; simpl.
  - unfold node_of, hash_of. by rewrite Hh.
  - unfold members. by rewrite Hs.
Qed.

#[local] Instance local_locks : StoreLocks (RedisLock R).
Proof.
  split; intros l p st; apply tables_nodes;
    [apply Acquire_tables|apply Refresh_tables|apply Release_tables].
Qed.

End local_locks.

(** Over the network. *)
Section remote_locks.
Context {S : Type} `{NS : NodeStore S} {SL : StoreLocks S} (serverConfig : BlobCacheServerConfig).
#[local] Instance remote_cc : CoordinatorClient (net S) := remote_coordinator serverConfig.
#[local] Instance remote_ns : NodeStore (net S) := remote_store serverConfig.

Lemma ok_or_nodes msg (m : M S ()) (s : net S) :
  same_nodes s.1 (m s.1).2 → same_nodes (S := net S) s (ok_or msg (reply_ok m) s).2.
Proof.
  intros [Hn Hc].
  assert (∀ t : net S, t.1 = s.1 ∨ t.1 = (m s.1).2 → same_nodes (S := net S) s t) as Ht.
  { intros t [E|E]; split; intros id; simpl; rewrite E; rewrite ?Hn, ?Hc; done. }
  apply Ht. unfold ok_or, mbind, M_bind.
  assert (∀ t, (reply_ok m t).2 = (m t).2) as Er.
  { intros t. unfold reply_ok, attempt, mbind, M_bind. by destruct (m t) as [[a|e|p] t']. }
  specialize (Er s.1).
  destruct (rpc_cases (reply_ok m) s) as [->|[[e ->]|[e ->]]]; [|by left|];
    destruct (reply_ok m s.1) as [[[]|e'|p] t]; simpl in *; by right.
Qed.

#[local] Instance remote_locks : StoreLocks (net S).
Proof.
  split; intros l p s; apply ok_or_nodes;
    [apply SetLock_nodes|apply RefreshLock_nodes|apply RemoveLock_nodes].
Qed.

End remote_locks.

(** ** A server stores a file *)

Section blobfs.
Context {S : Type} `{NL : NodeStoreLaws S} (renames : bool).
Context (fs : Server.host_files) (clock : nat → Z * Z).

(** A component is stored under its path, in its parent. *)
Lemma part_step_keeps path hash size now cur part x' (s s' : S) :
  0 ≤ size < 2 ^ 64 → BlobFs.tree renames s →
  let r := Server.part_step fs path hash size now (cur, GenerateFsID cur) part s in
  BlobFs.tree renames r.2 ∧ (r = (Ok x', s') → x'.2 = GenerateFsID x'.1).
Proof.
  intros Hsize Hs. unfold Server.part_step. cbv zeta.
  set (cur' := if bool_decide (cur = "/") then _ else _).
  assert (cur' = Join [cur; part]) as Hcur by (unfold cur'; case_bool_decide; by subst).
  clearbody cur'. unfold mbind, M_bind.
  rewrite (SHA1StringToUint64_Generate cur'). set (ino := Z.of_N _).
  assert (0 ≤ ino < 2 ^ 64) as Hino by apply inode_range. clearbody ino.
  assert (∀ o, o = Server.stat_last fs path cur' s → o.2 = s) as Hstat.
  { intros o ->. unfold Server.stat_last, mbind, M_bind. case_bool_decide; [|done].
    by destruct (Server.os_Stat fs cur'). }
  specialize (Hstat _ eq_refl).
  destruct (Server.stat_last fs path cur' s) as [[info|e|p] s1]; simpl in Hstat; subst s1; [|done..].
  set (m := Server.part_metadata _ _ _ _ _ _ _ _).
  assert (metadata_ok m) as Hm by by apply Server.part_metadata_ok.
  assert (ID m = GenerateFsID cur' ∧ PID m = GenerateFsID cur ∧ Path m = cur' ∧ Name m = part)
    as (H1 & H2 & H3 & H4).
  { unfold m, Server.part_metadata. destruct info as [i|]; [destruct (Server.fi_isdir i)|]; done. }
  pose proof (BlobFs.SetFsNode_keeps renames (GenerateFsID cur') m (GenerateFsID_valid _) Hm H1
    ltac:(by rewrite H3) ltac:(right; exists cur; by rewrite H2, H3, H4) s Hs) as Hset.
  destruct (c_SetFsNode (GenerateFsID cur') m s) as [[m'|e|p] s1]; [|done..].
  destruct Hset as [Hs1 _].
  pose proof (AddFsNodeChild_triple _ _ (GenerateFsID cur) (GenerateFsID cur') (GenerateFsID_valid _)
    (GenerateFsID_valid _) s1 (store_is_self s1)) as Hadd.
  pose proof (BlobFs.tree_add_child renames _ _ (GenerateFsID cur) (GenerateFsID cur') Hs1) as Hok.
  specialize (Hok ltac:(rewrite Hcur; apply BlobFs.linked_below)).
  destruct (c_AddFsNodeChild _ _ s1) as [[[]|e|p] s2]; [| |done].
  - split; [by eapply BlobFs.tree_store_is|]. by intros [= <- _].
  - split; [|done]. destruct Hadd; by eapply BlobFs.tree_store_is.
Qed.

Lemma parts_loop_tree path hash size i parts cur :
  0 ≤ size < 2 ^ 64 →
  keeps (BlobFs.tree renames) (Server.parts_loop fs path hash size clock i parts (cur, GenerateFsID cur)).
Proof.
  intros Hsize. revert i cur. induction parts as [|part parts IH]; intros i cur; cbn [Server.parts_loop]; [apply keeps_ret|].
  case_bool_decide; [apply IH|]. intros s Hs. unfold mbind, M_bind.
  pose proof (λ x' s', part_step_keeps path hash size (clock i) cur part x' s s' Hsize Hs) as Hp.
  destruct (Server.part_step fs path hash size (clock i) (cur, GenerateFsID cur) part s)
    as [[[cur' id']|e|p] s1] eqn:E; [|exact (proj1 (Hp (cur, cur) s))..].
  destruct (Hp (cur', id') s1) as [Hs1 Hx]. simpl in Hx. rewrite (Hx eq_refl). by apply IH.
Qed.

Lemma StoreContentInBlobFs_keeps_tree path hash n :
  keeps (BlobFs.tree renames) (Server.StoreContentInBlobFs fs clock path hash (wrapU64 n)).
Proof.
  unfold Server.StoreContentInBlobFs. cbv zeta. apply parts_loop_tree. apply Z.mod_pos_bound. lia.
Qed.

End blobfs.

(** ** The calls of the servers keep the tree *)

Section cluster.
Context {Hs R T : Type} `{RendezvousHasher Hs} `{NL : NodeStoreLaws R} {SL : StoreLocks R}.
Context (CS : ContentStore T) (locality : string) (clientConfig : BlobCacheClientConfig).
Context (renames : bool).
Abbreviation World := (world R T).
Abbreviation service_at env := (cluster_service _ CS env locality).
Abbreviation Sv := (Server.server (S := R * T)).
#[local] Instance coord_ct : CoordinatorClient (R * T) := pair_coordinator _.
#[local] Instance store_ct : ContentStore (R * T) := pair_store CS.
Implicit Types (env : string → server_env) (w : World).

Abbreviation J := (λ s : R * T, BlobFs.tree renames s.1).

Lemma run_at_tree {A} g (m : M Sv A) w :
  keeps (λ x : Sv, BlobFs.tree renames x.1.1) m → BlobFs.tree renames w.1 → BlobFs.tree renames (run_at g m w).2.1.
Proof.
  intros Hm Hw. unfold run_at. destruct (w.2 !! target g) as [node|]; [|done].
  specialize (Hm ((w.1, node.1), node.2) Hw).
  by destruct (m _) as [[a|e|p] [s clients]].
Qed.

(** The storage and the locks do not touch the nodes. *)
Lemma right_tree {A} (m : M T A) : keeps J (zoom snd (λ t x, (x.1, t)) m).
Proof. by apply keeps_zoom_frame. Qed.

Lemma left_tree {A} (m : M R A) :
  (∀ s, BlobFs.tree renames s → BlobFs.tree renames (m s).2) → keeps J (zoom fst (λ s x, (s, x.2)) m).
Proof. intros Hm. by apply (keeps_zoom J (BlobFs.tree renames)). Qed.

Lemma blobfs_tree fs clock path hash n :
  keeps J (Server.StoreContentInBlobFs fs clock path hash (wrapU64 n)).
Proof.
  exact (@StoreContentInBlobFs_keeps_tree (R * T) _ _
    (part_laws fst (λ s x, (s, x.2)) (λ _ _, eq_refl)) renames fs clock path hash n).
Qed.

Lemma serve_tree env g req w :
  BlobFs.tree renames w.1 → BlobFs.tree renames (serve (H := service_at env) g req w).1.
Proof.
  assert (∀ l p, keeps J (c_SetStoreFromContentLock l p)) as Hset.
  { intros l p. apply left_tree. intros s. by apply same_nodes_tree, SetLock_nodes. }
  assert (∀ l p, keeps J (c_RefreshStoreFromContentLock l p)) as Href.
  { intros l p. apply left_tree. intros s. by apply same_nodes_tree, RefreshLock_nodes. }
  assert (∀ l p, keeps J (c_RemoveStoreFromContentLock l p)) as Hrem.
  { intros l p. apply left_tree. intros s. by apply same_nodes_tree, RemoveLock_nodes. }
  assert (∀ h o l d, keeps J (cs_Get h o l d)) as Hget by (intros; apply right_tree).
  assert (∀ h c, keeps J (cs_Add h c)) as Hadd by (intros; apply right_tree).
  intros Hw. destruct req as [hash offset length|hash|hash offset length|chunks|source|source|]; simpl;
    apply run_at_tree; try exact Hw.
  - by apply (Server.on_state_keeps J), Server.GetContent_keeps.
  - apply (Server.on_state_keeps J), right_tree.
  - apply keeps_bind; [|intros; apply keeps_ret].
    by apply (Server.on_state_keeps J), Server.GetContentStream_keeps.
  - by apply (Server.on_state_keeps J), Server.store_keeps.
  - apply (Server.StoreContentFromSource_keeps _ _ _ _ J); [intros; apply blobfs_tree|auto].
  - apply (Server.StoreContentFromSourceWithLock_keeps _ _ _ _ _ J); [intros; apply blobfs_tree|auto..].
  - apply keeps_ret.
Qed.

(** ** The calls of a client keep the tree *)

Abbreviation K := (λ s : St Hs World, BlobFs.tree renames s.2.1).

Lemma on_client_tree {A} (m : M (BlobCacheClient Hs) A) : keeps K (on_client m).
Proof. by apply keeps_zoom_frame. Qed.

Lemma on_world_tree {A} (m : call World A) :
  (∀ w, BlobFs.tree renames w.1 → BlobFs.tree renames (m w).2.1) → keeps K (on_world m).
Proof. intros Hm s Hk. specialize (Hm s.2 Hk). unfold on_world. by destruct (m s.2) as [[a|e] w]. Qed.

Section client.
Context (env : string → server_env) (now : nat → Z).
#[local] Instance service_ct : BlobCacheService World := service_at env.

Lemma GetContent_tree attempts hash offset length key :
  keeps K (GetContent clientConfig attempts now hash offset length key).
Proof.
  unfold GetContent. generalize (routing_key key hash) as k0. intros k0. generalize 0%nat as i.
  induction (max_attempts _ _ _) as [|k IH]; intros i; simpl; [apply keeps_throw|].
  assert (keeps K (forget hash ≫= λ _,
    GetContent_loop clientConfig now hash offset length k0 k (i + 1))) as Hagain.
  { apply keeps_bind; [apply on_client_tree|intros; apply IH]. }
  apply keeps_bind; [apply on_client_tree|]. intros c. apply keeps_bind.
  { apply keeps_attempt, on_world_tree. intros w.
    exact (serve_tree env c.1 (ReqGet hash offset length) w). }
  intros [resp|e]; [|exact Hagain]. destruct (gc_Ok resp); [apply keeps_ret|exact Hagain].
Qed.

Lemma StoreContentFromFUSE_tree t path key lock :
  keeps K (StoreContentFromFUSE clientConfig t path key lock).
Proof.
  unfold StoreContentFromFUSE. apply keeps_bind; [apply on_client_tree|]. intros c.
  unfold store_from_source. destruct lock; (apply keeps_bind; [apply on_world_tree; intros w|]).
  - exact (serve_tree env c.1 (ReqSourceWithLock _) w).
  - intros resp. destruct (l_FailedToAcquireLock resp); [apply keeps_throw|].
    destruct (l_Ok resp); [apply keeps_ret|apply keeps_throw].
  - exact (serve_tree env c.1 (ReqSource _) w).
  - intros resp. destruct (s_Ok resp); [apply keeps_ret|apply keeps_throw].
Qed.

End client.

(** ** A cluster with mounts *)

(** A handler of a mount works on the coordinator and through the client. *)
Definition mount_coordinator : CoordinatorClient (St Hs World) :=
  zoom_coordinator (λ s, s.2.1) (λ r s, (s.1, (r, s.2.2))) _.
Definition mount_store : @NodeStore (St Hs World) mount_coordinator :=
  part_store (λ s : St Hs World, s.2.1) (λ r s, (s.1, (r, s.2.2))).
#[local] Existing Instances mount_coordinator mount_store.

Lemma mount_laws : NodeStoreLaws (St Hs World).
Proof. exact (part_laws (λ s : St Hs World, s.2.1) (λ r s, (s.1, (r, s.2.2))) (λ _ _, eq_refl)). Qed.

Abbreviation fs_of env now := (client_fs (H0 := service_at env) clientConfig now).

Lemma mount_client env now : BlobFs.FsClientLaws renames (St Hs World) (H1 := fs_of env now).
Proof.
  split.
  - intros hash off len key. apply (GetContent_tree env now).
  - intros path key lock. apply (StoreContentFromFUSE_tree env (now 0%nat)).
Qed.

(** Anything that happens: a handler of a mount, of any client in any state, on a
    node that the kernel has; a new mount; a request to a server; what others do
    to the coordinator; and anything that happens to the servers themselves. *)
Definition mounts : Type := World * list BlobFs.FSNode.
Context (others : R → R → Prop) (Hothers : ∀ r r', others r r' → BlobFs.tree renames r → BlobFs.tree renames r').

Inductive mstep : mounts → mounts → Prop :=
  | m_call env now c n call w ns :
      n ∈ ns → BlobFs.call_ok renames call →
      mstep (w, ns) (let r := @BlobFs.run_call _ mount_coordinator (fs_of env now) n call (c, w) in
                     (r.2.2, ns ++ BlobFs.opened r.1))
  | m_mount c w ns :
      mstep (w, ns) (let r := BlobFs.mount (c, w) in (r.2.2, ns ++ BlobFs.opened r.1))
  | m_request env g req w ns : mstep (w, ns) (serve (H := service_at env) g req w, ns)
  | m_others r r' nodes ns : others r r' → mstep ((r, nodes), ns) ((r', nodes), ns)
  | m_servers r nodes nodes' ns : mstep ((r, nodes), ns) ((r, nodes'), ns).

(** C8: the tree of a cluster.  In any run of any number of clients, mounts and
    servers, with every handler of the mounts and servers that store files under the
    paths of the tree, failed and lost calls included, on a coordinator that hands out
    copies: every node is stored under the hash of its own path, and the identifiers
    of children and of open nodes are hashes of paths.  In a run without [Rename]
    ([renames] is false) more holds: a node carries the hash of its path as its
    identifier and lies in its place under its parent, the children of a directory are
    hashes of paths below it, and the open nodes carry the identifier of their path;
    a [Rename] breaks this, as it keeps the old identifier and parent.  What others do
    to the coordinator is taken to keep the same. *)
Theorem cluster_tree r nodes w ns :
  (∀ id, node r id = None) → (∀ id, child r id = ∅) →
  rtc mstep ((r, nodes), []) (w, ns) →
  (∀ id m, valid_id id → node w.1 id = Some m →
     id = GenerateFsID (Path m) ∧
     if renames then (∃ p, ID m = GenerateFsID p) ∧ metadata_ok m
     else ID m = id ∧ BlobFs.placed m) ∧
  (∀ pid id, valid_id pid → id ∈ child w.1 pid →
     if renames then ∃ path, id = GenerateFsID path
     else ∃ dir name, pid = GenerateFsID dir ∧ id = GenerateFsID (Join [dir; name])) ∧
  Forall (λ n, if renames then ∃ p, BlobFs.NID (BlobFs.bfsNode n) = GenerateFsID p
               else BlobFs.NID (BlobFs.bfsNode n) = GenerateFsID (BlobFs.NPath (BlobFs.bfsNode n))) ns.
Proof.
  intros Hn Hc Hrun.
  assert (∀ x y, mstep x y → BlobFs.tree renames x.1.1 ∧ Forall (BlobFs.node_at renames) x.2 →
    BlobFs.tree renames y.1.1 ∧ Forall (BlobFs.node_at renames) y.2) as Hstep.
  { intros x y Hxy [Ht Hns]. destruct Hxy as [env now c n call w0 ns0 Hin Hcall|c w0 ns0
      |env g req w0 ns0|r0 r1 nodes0 ns0 Ho|r0 nodes0 nodes1 ns0]; simpl in *.
    - pose proof (proj1 (Forall_forall _ _) Hns n Hin) as Hnode.
      destruct (BlobFs.run_call_opens renames (NL := mount_laws) (FL := mount_client env now) n call Hnode Hcall
        (c, w0) Ht) as [Ht' Hns']. split; [exact Ht'|]. by apply Forall_app.
    - destruct (BlobFs.mount_opens renames (NL := mount_laws) (c, w0) Ht) as [Ht' Hns'].
      split; [exact Ht'|]. by apply Forall_app.
    - split; [by apply serve_tree|done].
    - split; [by eapply Hothers|done].
    - done. }
  assert (BlobFs.tree renames w.1 ∧ Forall (BlobFs.node_at renames) ns) as [[Ht Hl] Hns].
  { refine (rtc_keeps mstep (λ x, BlobFs.tree renames x.1.1 ∧ Forall (BlobFs.node_at renames) x.2) _ _
      Hstep Hrun _).
    split; [|done]. split; [intros id m _; simpl; by rewrite Hn|].
    intros pid id _. simpl. rewrite Hc. set_solver. }
  split_and!; [|exact Hl|exact Hns].
  intros id m Hid Hm. specialize (Ht id m Hid Hm). unfold BlobFs.named in Ht. by destruct renames; naive_solver.
Qed.

End cluster.

(** ** Witness *)

#[local] Existing Instances Client.list_hasher Client.list_hasher_laws.
#[local] Instance db_coordinator : CoordinatorClient (RedisLock db) := local_coordinator empty_config.
#[local] Instance db_nodes : NodeStore (RedisLock db) := local_store empty_config.
#[local] Instance db_laws : NodeStoreLaws (RedisLock db) := local_laws empty_config.
#[local] Instance db_locks : StoreLocks (RedisLock db) := local_locks empty_config.

Abbreviation small_world := (world (RedisLock db) (clocked (gmap string cache_item))).
Abbreviation small_cluster := (cluster_service db_coordinator small_store small_env "l").
Abbreviation small_mstep renames :=
  (mstep (Hs := list BlobCacheHost) small_store "l" two_attempts renames
     (λ _ _ : RedisLock db, False)).
#[local] Instance db_mount : CoordinatorClient (St (list BlobCacheHost) small_world) :=
  mount_coordinator (Hs := list BlobCacheHost) (T := clocked (gmap string cache_item)).

(** [a] starts, a client mounts the file system, [a] stores its file [/d/f], the
    kernel looks up [d], and renames it to [e]. *)
Definition run0 : small_world :=
  (mkRedisLock no_db ∅, {[ "a:1" := (([], fresh), ∅) ]}).
Definition run1 := BlobFs.mount (abc_client, run0).
Definition run2 : small_world :=
  serve (H := small_cluster) conn_a (ReqSource (mkSource "/d/f" "" "" "" "" "")) run1.2.2.
Definition on_root call (w : small_world) :=
  @BlobFs.run_call _ db_mount (client_fs (H0 := small_cluster) two_attempts (λ _, 0))
    BlobFs.root_node call (abc_client, w).
Definition run3 := on_root (BlobFs.FsLookup "d") run2.
Definition kernel_nodes : list BlobFs.FSNode := ([] ++ BlobFs.opened run1.1) ++ BlobFs.opened run3.1.
Definition rename_d : BlobFs.fs_call := BlobFs.FsRename "d" BlobFs.root_node "e" 0.
Definition run4 := on_root rename_d run3.2.2.

Lemma root_is_open : BlobFs.root_node ∈ BlobFs.opened run1.1.
Proof.
  assert (BlobFs.opened run1.1 = [BlobFs.root_node]) as -> by by vm_compute. by left.
Qed.

Lemma run3_reached renames :
  rtc (small_mstep renames) ((mkRedisLock no_db ∅, ∅), []) (run3.2.2, kernel_nodes).
Proof.
  eapply rtc_l; [apply (m_servers _ _ _ _ _ _ _ run0.2)|].
  eapply rtc_l; [apply (m_mount _ _ _ _ _ abc_client run0)|].
  eapply rtc_l; [apply (m_request _ _ _ _ _ small_env conn_a (ReqSource (mkSource "/d/f" "" "" "" "" "")))|].
  eapply rtc_l; [|apply rtc_refl].
  apply (m_call _ _ _ _ _ small_env (λ _, 0) abc_client BlobFs.root_node (BlobFs.FsLookup "d") run2); [|done].
  apply root_is_open.
Qed.

Lemma run4_reached :
  rtc (small_mstep true) ((mkRedisLock no_db ∅, ∅), []) (run4.2.2, kernel_nodes ++ BlobFs.opened run4.1).
Proof.
  eapply rtc_r; [apply run3_reached|].
  apply (m_call _ _ _ _ _ small_env (λ _, 0) abc_client BlobFs.root_node rename_d run3.2.2); [|done].
  apply elem_of_app. left. apply root_is_open.
Qed.

(** With the rename: the node of [/e] is stored under the hash of [/e], and carries
    the identifier of [/d]. *)
Lemma cluster_tree_witness :
  map (λ n, BlobFs.NPath (BlobFs.bfsNode n)) kernel_nodes = ["/"; "/d"] ∧
  run4.1 = Ok [] ∧
  ID <$> node run4.2.2.1 (GenerateFsID "/e") = Some (GenerateFsID "/d") ∧
  Forall BlobFs.node_ok kernel_nodes ∧
  (∀ id m, valid_id id → node run3.2.2.1 id = Some m →
     id = GenerateFsID (Path m) ∧ ID m = id ∧ BlobFs.placed m) ∧
  (∀ id m, valid_id id → node run4.2.2.1 id = Some m →
     id = GenerateFsID (Path m) ∧ (∃ p, ID m = GenerateFsID p) ∧ metadata_ok m).
Proof.
  split; [by vm_compute|]. split; [by vm_compute|]. split; [by vm_compute|].
  destruct (cluster_tree (SL := db_locks) (Hs := list BlobCacheHost) small_store "l" two_attempts false
    (λ _ _, False) (λ _ _ H _, match H with end) (mkRedisLock no_db ∅) ∅ run3.2.2 kernel_nodes
    (λ _, eq_refl) (λ _, eq_refl) (run3_reached false)) as (H1 & _ & H2).
  destruct (cluster_tree (SL := db_locks) (Hs := list BlobCacheHost) small_store "l" two_attempts true
    (λ _ _, False) (λ _ _ H _, match H with end) (mkRedisLock no_db ∅) ∅ run4.2.2 _
    (λ _, eq_refl) (λ _, eq_refl) run4_reached) as (H3 & _ & _).
  split; [exact H2|]. split; [exact H1|exact H3].
Defined.
