(* ===== verification/Startup.v ===== *)
(** * Starting a server, a coordinator client and a mount

    [NewCacheService], [getHostId] and [StartServer] of [pkg/server.go], the
    connection of [NewCoordinatorClientRemote], and [Mount] and
    [updateReadAheadKB] of [pkg/blobfs.go].  What the host answers (files,
    addresses, the mount table, the programs) is an argument; the servers of gRPC
    and FUSE are the options they are given. *)

From S2P Require Import Prelude GoStrings GoPath FsID Network GoFloat Types Rpc Sources.
From S2P Require Import Redis Metadata Coordinator Client.
From S2P Require BlobFs Storage Server.
Local Open Scope Z_scope.
#[local] Opaque GenerateFsID.

(** ** The identifier of a host *)

(** [getHostId]: the file [HOST_ID] of the cache directory, if it can be read.  The
    error of writing it is dropped; [uuid6] is the first six characters of a new
    UUID. *)
Definition getHostId (writable : bool) (uuid6 : string) : M (option string) string :=
  file ← get;
  match file with
  | Some content => mret (TrimSpace content)
  | None =>
      let hostId := BlobCacheHostPrefix +:+ "-" +:+ uuid6 in
      (if writable then modify (λ _, Some hostId) else mret tt) ≫= λ _, mret hostId
  end.

(** ** The server *)

Record service : Type := mkService {
  sv_mode : string; sv_hostId : string; sv_locality : string; sv_privateIpAddr : string;
  sv_publicIpAddr : string; sv_config : BlobCacheServerConfig; sv_currentHost : BlobCacheHost;
  sv_sources : list source;
}.

Definition or_empty (r : res string) : string := match r with Ok s => s | _ => "" end.

(** What the host answers while the server starts: [st_new_local] is the error of
    connecting to the metadata store, [st_remote] of dialling the coordinator,
    [st_region] the answer of [GetRegionConfig]. *)
Record start_env : Type := mkStart {
  st_new_local : option error; st_remote : option error; st_region : res BlobCacheServerConfig;
  st_mkdir : option error; st_writable : bool; st_uuid6 : string;
  st_public : res string; st_private : res string;
  st_cas : BlobCacheServerConfig → option error;
  st_exec : command → option string; st_wakes : string → list wake;
}.

Definition fail_if {S} (e : option error) : M S () :=
  match e with None => mret tt | Some e => throw e end.

Section start.
Context (env : start_env).

(** The coordinator, and the configuration that the server takes. *)
Definition choose_config {S} (cfg : BlobCacheServerConfig) : M S BlobCacheServerConfig :=
  if decide (CMode cfg = BlobCacheServerModeCoordinator) then
    fail_if (st_new_local env) ≫= λ _, mret cfg
  else
    fail_if (st_remote env) ≫= λ _,
    match st_region env with Ok regionConfig => mret regionConfig | _ => mret cfg end.

(** The sources: one that cannot be configured is skipped. *)
Fixpoint start_sources (l : list SourceConfig) : M (list action) (list source) :=
  match l with
  | [] => mret []
  | config :: l =>
      r ← attempt (NewSource (st_exec env) (st_wakes env (FilesystemPath config)) config);
      rest ← start_sources l;
      mret (match r with inl s => s :: rest | inr _ => rest end)
  end.

Definition NewCacheService (cfg : BlobCacheServerConfig) (ServerPort : Z) (locality : string) :
    M (option string * list action) service :=
  cfg ← choose_config cfg;
  fail_if (st_mkdir env) ≫= λ _,
  hostId ← zoom fst (λ f s, (f, s.2)) (getHostId (st_writable env) (st_uuid6 env));
  let publicIpAddr := or_empty (st_public env) in
  let privateIpAddr := or_empty (st_private env) in
  let currentHost := mkHost 0 hostId (server_addr publicIpAddr ServerPort)
                       (server_addr privateIpAddr ServerPort) (f64_of_Z 0) in
  fail_if (st_cas env cfg) ≫= λ _,
  sources ← zoom snd (λ l s, (s.1, l)) (start_sources (Sources cfg));
  mret (mkService (CMode cfg) hostId locality privateIpAddr publicIpAddr cfg currentHost sources).

End start.

(** The options of [StartServer]; [numCPU] is [runtime.NumCPU()]. *)
Record server_options : Type := mkServerOptions {
  o_maxRecvMsgSize : Z; o_maxSendMsgSize : Z; o_window : Z; o_connWindow : Z;
  o_writeBuffer : Z; o_readBuffer : Z; o_maxConcurrentStreams : Z; o_numStreamWorkers : Z;
}.

Definition StartServer_options (g : BlobCacheGlobalConfig) (numCPU : Z) : server_options := {|
  o_maxRecvMsgSize := GRPCMessageSizeBytes g;
  o_maxSendMsgSize := GRPCMessageSizeBytes g;
  o_window := wrap32 (or_default (GRPCInitialWindowSize g) (4 * 1024 * 1024));
  o_connWindow := wrap32 (or_default (GRPCInitialConnWindowSize g) (32 * 1024 * 1024));
  o_writeBuffer := or_default (GRPCWriteBufferSize g) (256 * 1024);
  o_readBuffer := or_default (GRPCReadBufferSize g) (256 * 1024);
  o_maxConcurrentStreams := wrapU32 (or_default (GRPCMaxConcurrentStreams g) 1024);
  o_numStreamWorkers := wrapU32 (or_default (GRPCNumStreamWorkers g) (numCPU *! 2)%go);
|}.

(** [NewCoordinatorClientRemote]: the connection; the windows and the buffers keep
    the defaults of gRPC ([None]). *)
Record remote_options : Type := mkRemote {
  r_tls : bool; r_maxRecvMsgSize : Z; r_maxSendMsgSize : Z; r_token : option string;
}.
Definition NewCoordinatorClientRemote (dial : string → option error) (g : BlobCacheGlobalConfig)
    (token : string) : res (string * remote_options) :=
  let addr := CoordinatorHost g in
  match dial addr with
  | Some err => Err err
  | None => Ok (addr, mkRemote (isTLSEnabled addr) (GRPCMessageSizeBytes g) (GRPCMessageSizeBytes g)
                        (if decide (token = "") then None else Some token))
  end.

(** ** The mount *)

(** [strings.Contains(s, sub)] *)
Fixpoint str_prefix (p s : string) : bool :=
  match p, s with
  | "", _ => true
  | String a p, String b s => bool_decide (a = b) && str_prefix p s
  | _, _ => false
  end.
Fixpoint Contains (s sub : string) : bool :=
  str_prefix sub s || match s with "" => false | String _ s => Contains s sub end.

(** The options of [fuse.NewServer] that depend on the configuration. *)
Record mount_options : Type := mkMountOptions {
  m_maxBackground : Z; m_maxReadAhead : Z; m_maxWrite : Z; m_options : list string;
  m_directMount : bool;
}.

(** What the host answers: [Stat] and [MkdirAll] of the mount point, the output of
    [findmnt], whether [fusermount] and [fuse.NewServer] fail. *)
Record mount_env : Type := mkMountEnv {
  me_stat : option error; me_mkdir : option error; me_findmnt : res string;
  me_fusermount : option error; me_server : mount_options → option error;
}.

Definition isFuseMount (findmnt : res string) : bool :=
  match findmnt with Ok output => Contains output "fuse" | _ => false end.

(** [fmt.Errorf("...: %v", err)] *)
Definition wrap_if {S} (what : string) (e : option error) : M S () :=
  fail_if (ErrWrap what <$> e).

(** The mount point is made, or freed of a former mount. *)
Definition prepare_mount {S} (env : mount_env) : M S () :=
  if bool_decide (me_stat env = Some Disk.not_exist) then
    wrap_if "failed to create mount point directory" (me_mkdir env)
  else if isFuseMount (me_findmnt env) then
    wrap_if "failed to unmount existing FUSE mount" (me_fusermount env)
  else mret tt.

Definition mount_opts (c : BlobFsConfig) : mount_options :=
  let or_positive v d := if bool_decide (v ≤ 0) then d else v in
  mkMountOptions (or_positive (MaxBackgroundTasks c) 512)
    (or_positive (MaxReadAheadKB c) 128 *! 1024)%go (or_positive (MaxWriteKB c) 1024 *! 1024)%go
    (Options c) (DirectMount c).

(** The root of the file system and the options of its server. *)
Definition Mount {S} `{CoordinatorClient S} (env : mount_env) (c : BlobFsConfig) :
    M S (BlobFs.FSNode * mount_options) :=
  prepare_mount env ≫= λ _,
  root ← attempt BlobFs.NewFileSystem;
  match root with
  | inr err => throw (ErrWrap "could not create filesystem" err)
  | inl root =>
      wrap_if "could not create server" (me_server env (mount_opts c)) ≫= λ _,
      mret (root, mount_opts c)
  end.

(** [updateReadAheadKB]: a line of the mount table is the mount point and the
    numbers of the device. *)
Definition device_of (mounts : list (string * (Z * Z))) (mountPoint : string) : string :=
  match list_find (λ m, m.1 = mountPoint) mounts with
  | Some (_, (_, (major, minor))) => pretty major +:+ ":" +:+ pretty minor
  | None => ""
  end.

Definition update_command (deviceID : string) (valueKB : Z) : command :=
  mkCommand ["sh"; "-c"; "echo " +:+ pretty valueKB +:+ " > /sys/class/bdi/" +:+ deviceID +:+
             "/read_ahead_kb"] None.

Definition updateReadAheadKB (GetMounts : res (list (string * (Z * Z))))
    (exec : command → option error) (mountPoint : string) (valueKB : Z) : M (list action) () :=
  match GetMounts with
  | Ok mounts =>
      let deviceID := device_of mounts mountPoint in
      if decide (deviceID = "") then throw (ErrNew ("mount point " +:+ mountPoint +:+ " not found"))
      else
        let cmd := update_command deviceID valueKB in
        start cmd ≫= λ _, wrap_if "failed to update read_ahead_kb" (exec cmd)
  | Err e => throw (ErrWrap "failed to get mount info" e)
  | Panic p => gopanic p
  end.

(** [NewBlobCacheClient]: the errors that reach the caller, in order; setting the
    read-ahead may fail. *)
Definition readAheadKB : Z := 32768.
Definition start_client {S} `{CoordinatorClient S} (remote : option error) (env : mount_env)
    (c : BlobFsConfig) : M S (option BlobFs.FSNode) :=
  fail_if remote ≫= λ _,
  if Enabled c then r ← Mount env c; mret (Some r.1) else mret None.

(** ** Theorems *)

Lemma trim_right_id s : all_chars (λ a, negb (is_space a)) s = true → trim_right s = s.
Proof.
  induction s as [|a s IH]; [done|]. simpl. intros [Ha Hs]%andb_true_iff. rewrite IH by done.
  destruct s; [|done]. by destruct (is_space a).
Qed.

Lemma TrimSpace_id s : all_chars (λ a, negb (is_space a)) s = true → TrimSpace s = s.
Proof.
  intros Hs. unfold TrimSpace. assert (trim_left s = s) as ->; [|by apply trim_right_id].
  destruct s as [|a s]; [done|]. simpl in *. apply andb_true_iff in Hs as [Ha _].
  by destruct (is_space a).
Qed.

(** A server keeps its identifier over restarts, whatever UUIDs are drawn, once the
    file could be written. *)
Theorem getHostId_stable uuid6 uuid6' w file :
  all_chars (λ a, negb (is_space a)) uuid6 = true →
  let '(r, file') := getHostId true uuid6 file in
  ∃ id, r = Ok id ∧ getHostId w uuid6' file' = (Ok id, file').
Proof.
  intros Hu. unfold getHostId, mbind, M_bind. simpl. destruct file as [content|]; simpl; [eauto|].
  eexists. split; [done|]. by rewrite TrimSpace_id.
Qed.

(** The sources that were configured, in order: the others are skipped, and the only
    panics are a fatal error and a mount still waited for. *)
Lemma NewSource_panic exec wakes config s p l :
  NewSource exec wakes config s = (Panic p, l) → p = ProcessExit ∨ p = OutOfFuel.
Proof.
  intros E. pose proof (NewSource_outcome exec wakes config s) as H. rewrite E in H. tauto.
Qed.

(** The server of a coordinator keeps its configuration; another one takes the
    region's when it gets it.  Either way it advertises the addresses it found, on
    its port. *)
Theorem NewCacheService_host env cfg port locality s sv s' :
  NewCacheService env cfg port locality s = (Ok sv, s') →
  let host := sv_currentHost sv in
  sv_config sv = (if decide (CMode cfg = BlobCacheServerModeCoordinator) then cfg
                  else match st_region env with Ok c => c | _ => cfg end) ∧
  sv_mode sv = CMode (sv_config sv) ∧ HostId host = sv_hostId sv ∧
  Addr host = server_addr (or_empty (st_public env)) port ∧
  PrivateAddr host = server_addr (or_empty (st_private env)) port ∧
  st_cas env (sv_config sv) = None.
Proof.
  intros (c & s1 & E1 & E)%bind_Ok_inv.
  apply bind_Ok_inv in E as ([] & s2 & E2 & E). apply bind_Ok_inv in E as (hostId & s3 & E3 & E).
  apply bind_Ok_inv in E as ([] & s4 & E4 & E). apply bind_Ok_inv in E as (srcs & s5 & E5 & E).
  injection E as <- <-. simpl.
  assert (c = if decide (CMode cfg = BlobCacheServerModeCoordinator) then cfg
              else match st_region env with Ok c => c | _ => cfg end) as ->.
  { unfold choose_config in E1. destruct (decide _).
    - apply bind_Ok_inv in E1 as ([] & ? & _ & [= <- _]). done.
    - apply bind_Ok_inv in E1 as ([] & ? & _ & E1). by destruct (st_region env); injection E1. }
  split_and!; [done..|]. unfold fail_if in E4. by destruct (st_cas env _).
Qed.

(** Mounting prepares the mount point before it touches the coordinator: when that
    fails the coordinator is as it was. *)
Theorem Mount_prepares {S} `{CoordinatorClient S} env c (s : S) e s' :
  Mount env c s = (Err e, s') → s' = s ∨ s' = (BlobFs.NewFileSystem s).2.
Proof.
  unfold Mount, attempt, mbind, M_bind.
  destruct (prepare_mount env s) as [[[]|e'|p] t] eqn:Ep; [|by intros [= _ <-]; left; revert Ep;
    unfold prepare_mount, wrap_if, fail_if; repeat case_match; by intros [= _ <-]|done].
  assert (t = s) as ->.
  { revert Ep. unfold prepare_mount, wrap_if, fail_if. repeat case_match; by intros [= <-]. }
  destruct (BlobFs.NewFileSystem s) as [[root|e'|p] t] eqn:En; simpl; [|by intros [= _ <-]; right|done].
  unfold wrap_if, fail_if. destruct (me_server env (mount_opts c)); simpl; [|done].
  intros [= _ <-]. by right.
Qed.

(** ** The keepalive of a server without memory cache *)

Section keepalive.
Context {R : Type} `{Redis R} `{HostCodec} (serverConfig : BlobCacheServerConfig).

(** JSON has no infinities: [json.Marshal] refuses them. *)
Definition json_codec : Prop :=
  ∀ h, CapacityUsagePct h = S754_infinity false → ∃ e, Marshal h = Err e.

(** A tick of the keepalive with an infinite usage does no more than adding the host
    to the index: its keepalive is not set again. *)
Lemma keepalive_tick_infinite locality privateIpAddr port host (s : RedisLock R) :
  json_codec →
  (Server.keepalive_tick (CC := CoordinatorClientLocal serverConfig) locality privateIpAddr port
     (S754_infinity false) host s).2
  = (AddHostToIndex locality (mkHost (RTT host) (HostId host) (Addr host)
       (privateIpAddr +:+ ":" +:+ pretty port) (S754_infinity false)) s).2.
Proof.
  intros Hj. unfold Server.keepalive_tick. simpl. unfold ignore, attempt, mbind, M_bind.
  set (h := mkHost _ _ _ _ _). destruct (Hj h eq_refl) as [e He].
  destruct (AddHostToIndex locality h s) as [[[]|e'|p] t]; simpl;
    try (unfold SetHostKeepAlive; rewrite He); done.
Qed.

End keepalive.

(** Without a memory cache the limit is 0 megabytes, and the usage of one megabyte
    is infinite. *)
Example disk_only_usage : Server.usagePct (1024 * 1024) 0 = S754_infinity false.
Proof. by vm_compute. Qed.

Example Contains_fuse : Contains "fuse.blobfs" "fuse" = true ∧ Contains "ext4" "fuse" = false.
Proof. done. Qed.
