(* ===== verification/Process.v ===== *)
(** * Goroutines that wait, and processes

    The loops of the background goroutines (the keepalive and the disk monitor of a
    server, the cleanups of the client's host cache and of the prefetcher), the life
    of a server between its start and its end ([StartServer] of [pkg/server.go]), the
    program [cmd/main.go], and what is left of [pkg/blobfs.go], [pkg/client.go],
    [pkg/network.go], [pkg/storage.go] and [pkg/fadvise.go]: the goroutine of a mount,
    the end of a client, the authorization of calls, dialling, the memory of the host
    and the hints on files. *)

From S2P Require Import Prelude GoStrings GoPath FsID Network GoFloat Types Rpc Sources HostMap.
From S2P Require Import Redis Metadata Coordinator Client Startup.
From S2P Require Logger Prefetcher Storage Server BlobFs.
Local Open Scope Z_scope.

(** ** Loops over a ticker *)

(** What a [select] of [ctx.Done()] and of a ticker receives; a tick comes with what
    its body reads: the time, the answers of the system. *)
Inductive select (A : Type) : Type :=
  | CtxDone
  | Ticked (a : A).
Arguments CtxDone {A}.
Arguments Ticked {A} a.

(** [for { select { case <-ctx.Done(): return; case <-ticker.C: body } }] over what
    was received up to now; the flag tells whether the loop has returned. *)
Fixpoint ticker_loop {S X A} (body : X → A → M S X) (x : X) (evs : list (select A)) : M S (X * bool) :=
  match evs with
  | [] => mret (x, false)
  | CtxDone :: _ => mret (x, true)
  | Ticked a :: evs => x ← body x a; ticker_loop body x evs
  end.

(** *** The keepalive of a server *)

(** A tick comes with the usage of the cache at that time. *)
Definition HostKeepAlive {S} `{CoordinatorClient S} (locality privateIpAddr : string) (port : Z)
    (host : BlobCacheHost) (evs : list (select float64)) : M S (BlobCacheHost * bool) :=
  Server.keepalive_start locality host ≫= λ _,
  ticker_loop (λ host usage, Server.keepalive_tick locality privateIpAddr port usage host) host evs.

(** *** The cleanup of the client's host cache *)

Section manage.
Context {Hs : Type}.

(** The hashes to remove are found under the lock for readers, and removed under the
    lock for writers: [between] is what the other goroutines do in between. *)
Definition find_stale (ttl now : Z) (c : BlobCacheClient Hs) : list string :=
  (map_to_list (filter (λ kv, now - lc_timestamp kv.2 > ttl) (localHostCache c))).*1.

Definition delete_all {V} (keys : list string) (m : gmap string V) : gmap string V :=
  foldr delete m keys.

Definition manage_tick (ttl now : Z) (between : BlobCacheClient Hs → BlobCacheClient Hs) :
    M (BlobCacheClient Hs) () :=
  stale ← gets (find_stale ttl now);
  modify between ≫= λ _,
  modify (set_cache (delete_all stale)).

Definition manageLocalClientCache (ttl : Z)
    (evs : list (select (Z * (BlobCacheClient Hs → BlobCacheClient Hs)))) :
    M (BlobCacheClient Hs) (() * bool) :=
  ticker_loop (λ _ t, manage_tick ttl t.1 t.2) tt evs.

End manage.

(** *** The cleanup of the prefetcher *)

Definition cleanupWorker (evs : list (select Z)) : M Prefetcher.Prefetcher (() * bool) :=
  ticker_loop (λ _ now, modify (Prefetcher.cleanup now)) tt evs.

(** *** The disk monitor *)

(** [getMemoryMb], over the available and the total bytes of the host. *)
Definition getMemoryMb {S} (VirtualMemory : res (Z * Z)) : M S (Z * Z) :=
  match VirtualMemory with
  | Ok v => mret (v.1 `div` (1024 * 1024), v.2 `div` (1024 * 1024))
  | _ => gopanic ProcessExit
  end.

Section monitor.
Context {C : Type} `{Storage.Ristretto C} (serverConfig : BlobCacheServerConfig).

(** The answers of the system at a tick of [monitorDiskCacheUsage]. *)
Record monitor_answers : Type := mkAnswers {
  ma_walk : option error; ma_statfs : res (Z * Z); ma_memory : res (Z * Z);
}.

(** The memory is asked for after the disk was measured. *)
Definition monitor_turn (a : monitor_answers) : M (Storage.CAS C) () :=
  s ← get;
  match Storage.GetDiskCacheMetrics serverConfig (ma_walk a) (ma_statfs a) (Storage.disk_ s) with
  | Ok _ =>
      m ← getMemoryMb (ma_memory a);
      Storage.monitor_tick serverConfig (ma_walk a) (ma_statfs a) m.1 m.2
  | Err _ => mret tt
  | Panic p => gopanic p
  end.

Definition monitorDiskCacheUsage (evs : list (select monitor_answers)) :
    M (Storage.CAS C) (() * bool) :=
  ticker_loop (λ _ a, monitor_turn a) tt evs.

End monitor.

(** ** The life of a server *)

(** [StartServer] after the server of gRPC is made: it serves; after a signal
    [GracefulStop] takes no new request and waits for those that run; then
    [Cleanup] closes the cache, and it returns. *)
Inductive phase : Type := Serving | Draining | Returned.
#[export] Instance phase_eq_dec : EqDecision phase.
Proof. solve_decision. Defined.

(** [answered]: the requests that ended; [uses]: whether the cache was open when the
    handler of a request called it. *)
Record life : Type := mkLife {
  l_phase : phase; running : gset nat; answered : gset nat; cache_open : bool;
  uses : list bool;
}.

Definition serving : life := mkLife Serving ∅ ∅ true [].

(** Listening fails, or the server is up with its options. *)
Definition StartServer (listen : string → option error) (g : BlobCacheGlobalConfig) (numCPU port : Z) :
    res (server_options * life) :=
  match listen (":" +:+ pretty port) with
  | Some err => Err err
  | None => Ok (StartServer_options g numCPU, serving)
  end.

Inductive server_step : life → life → Prop :=
  | ss_request r run ans o us :
      (r ∉ run) → (r ∉ ans) →
      server_step (mkLife Serving run ans o us) (mkLife Serving ({[ r ]} ∪ run) ans o us)
  | ss_use r ph run ans o us :
      r ∈ run → server_step (mkLife ph run ans o us) (mkLife ph run ans o (o :: us))
  | ss_answer r ph run ans o us :
      r ∈ run →
      server_step (mkLife ph run ans o us) (mkLife ph (run ∖ {[ r ]}) ({[ r ]} ∪ ans) o us)
  | ss_signal run ans o us :
      server_step (mkLife Serving run ans o us) (mkLife Draining run ans o us)
  | ss_stop ans o us :
      server_step (mkLife Draining ∅ ans o us) (mkLife Returned ∅ ans false us).

(** ** The program *)

Record BlobCacheConfig : Type := mkConfig {
  ServerConfig : BlobCacheServerConfig; ClientConfig : BlobCacheClientConfig;
  GlobalConfig : BlobCacheGlobalConfig; MetricsConfig : BlobCacheMetricsConfig;
}.

(** [main]: [load] is what [NewConfigManager] and [GetConfig] give, [locality] the
    environment variable, and [listen] the answer of the system to [StartServer], which
    returns at the end of the server's life.  [log.Fatal] is [ProcessExit], a status
    other than 0; to return is status 0. *)
Definition main (load : res BlobCacheConfig) (locality : string) (env : start_env)
    (listen : string → option error) (numCPU : Z) :
    M (Logger.log_state * (option string * list action)) () :=
  match load with
  | Ok cfg =>
      let g := GlobalConfig cfg in
      zoom fst (λ l s, (l, s.2)) (Logger.InitLogger (DebugMode g) (GPrettyLogs g)) ≫= λ _,
      s ← attempt (zoom snd (λ h s, (s.1, h))
            (NewCacheService env (ServerConfig cfg) (ServerPort g) (GetLocality locality g)));
      match s with
      | inr _ => gopanic ProcessExit
      | inl _ => ignore (λ s, (StartServer listen g numCPU (ServerPort g), s))
      end
  | _ => gopanic ProcessExit
  end.

(** ** Mounts and clients *)

(** The goroutine of [Mount]'s [startServer]: what it does with the channel of
    errors, given how [WaitMount] ends, when the file system is unmounted later. *)
Inductive chan_event : Type := Sent (e : error) | ChanClosed.
Definition serve_mount (WaitMount : option error) : list chan_event :=
  match WaitMount with Some err => [Sent err] | None => [ChanClosed] end.

(** [startServer] starts it and returns. *)
Definition startServer (WaitMount : option error) : res () * list chan_event :=
  (Ok tt, serve_mount WaitMount).

Definition Root (root : option BlobFs.FSNode) : res BlobFs.FSNode :=
  match root with Some n => Ok n | None => Err (ErrNew "root not initialized") end.

Definition forceUnmount (exec : command → option error) (mountPoint : string) : M (list action) () :=
  let cmd := mkCommand ["fusermount"; "-uz"; mountPoint] None in
  start cmd ≫= λ _, fail_if (exec cmd).

(** [Cleanup] of the client, over the [Unmount] of its FUSE server. *)
Definition Cleanup {S} (c : BlobFsConfig) (blobfsServer : option (M S ())) : M S () :=
  match blobfsServer with
  | Some Unmount => if Enabled c then ignore Unmount else mret tt
  | None => mret tt
  end.

(** [grpcAuthInterceptor]: the metadata of a unary call. *)
Definition grpcAuthInterceptor {A} (token : string) (invoker : list (string * string) → A)
    (outgoing : list (string * string)) : A :=
  invoker (outgoing ++ [("authorization", "Bearer " +:+ token)]).

(** [DialWithTimeout], over a dialler that is given the time it has: a second, or less
    when the caller has less ([remaining]). *)
Definition DialWithTimeout {Conn} (remaining : option Z) (dial : Z → string → res Conn) (addr : string) :
    res Conn :=
  dial (match remaining with Some t => t `min` Second | None => Second end) addr.

(** The hints of [pkg/fadvise.go] and [pkg/fadvise_other.go]: [Fadvise] is the call of
    the system; without Linux there is none. *)
Inductive advice : Type := FADV_SEQUENTIAL | FADV_WILLNEED | FADV_DONTNEED | FADV_RANDOM.
Section fadvise.
Context (linux : bool) (Fadvise : Z → Z → Z → advice → option error) (fd : Z).
Definition fadvise (offset length : Z) (a : advice) : option error :=
  if linux then Fadvise fd offset length a else None.
Definition fadviseSequential : option error := fadvise 0 0 FADV_SEQUENTIAL.
Definition fadviseWillneed (offset length : Z) : option error := fadvise offset length FADV_WILLNEED.
Definition fadviseDontneed (offset length : Z) : option error := fadvise offset length FADV_DONTNEED.
Definition fadviseRandom : option error := fadvise 0 0 FADV_RANDOM.
End fadvise.

(** ** Loops: lemmas *)

Section loops.
Context {S X A : Type} (body : X → A → M S X).

(** What the body keeps, the loop keeps, whether it ends or not. *)
Lemma keeps_ticker_loop (I : S → Prop) x evs :
  (∀ x a, keeps I (body x a)) → keeps I (ticker_loop body x evs).
Proof.
  intros Hb. revert x. induction evs as [|[|a] evs IH]; intros x; simpl; [apply keeps_ret..|].
  by apply keeps_bind.
Qed.

(** After the context is done nothing runs. *)
Lemma ticker_loop_done x evs rest s :
  ticker_loop body x (evs ++ CtxDone :: rest) s = ticker_loop body x (evs ++ [CtxDone]) s.
Proof.
  revert x s. induction evs as [|[|a] evs IH]; intros x s; simpl; [done..|].
  unfold mbind, M_bind. by destruct (body x a s) as [[x'|e|p] s'].
Qed.

(** A loop whose body returns runs until the context is done: the ticks before it are
    the runs of the body, in order. *)
Lemma ticker_loop_runs x ticks s :
  (∀ x a s, ∃ x' s', body x a s = (Ok x', s')) →
  ∃ x' s', ticker_loop body x (Ticked <$> ticks) s = (Ok (x', false), s') ∧
           ticker_loop body x ((Ticked <$> ticks) ++ [CtxDone]) s = (Ok (x', true), s').
Proof.
  intros Hb. revert x s. induction ticks as [|a ticks IH]; intros x s; simpl; [by eexists _, _|].
  destruct (Hb x a s) as (x' & s' & E). unfold mbind, M_bind. rewrite E. apply IH.
Qed.

End loops.

(** *** The keepalive *)

(** The host that the keepalive advertises: its id and its public address never change;
    after a tick it has the private address of the server. *)
Theorem HostKeepAlive_host {S} `{CoordinatorClient S} locality ip port host evs (s : S) host' done s' :
  HostKeepAlive locality ip port host evs s = (Ok (host', done), s') →
  HostId host' = HostId host ∧ Addr host' = Addr host ∧ RTT host' = RTT host ∧
  (host' = host ∨ PrivateAddr host' = server_addr ip port).
Proof.
  unfold HostKeepAlive. intros (? & s1 & _ & Hloop)%bind_Ok_inv. revert host s1 Hloop.
  induction evs as [|[|usage] evs IH]; intros host s1; simpl; [intros [= <- _ _]; auto..|].
  intros (h & s2 & Ht & Hr)%bind_Ok_inv. unfold Server.keepalive_tick in Ht.
  apply bind_Ok_inv in Ht as (? & ? & _ & Ht). apply bind_Ok_inv in Ht as (? & ? & _ & [= <- _]).
  apply IH in Hr as (E1 & E2 & E3 & Hp). simpl in *. split_and!; [done..|].
  right. by destruct Hp as [->|Hp].
Qed.

(** *** The cleanup of the client *)

Section manage_lemmas.
Context {Hs : Type}.
Implicit Types c : BlobCacheClient Hs.

Lemma lookup_delete_all {V} keys (m : gmap string V) k :
  delete_all keys m !! k = if decide (k ∈ keys) then None else m !! k.
Proof.
  unfold delete_all. induction keys as [|k' keys IH]; cbn [foldr].
  { case_decide as Hn; [by apply not_elem_of_nil in Hn|done]. }
  destruct (decide (k = k')) as [->|Hk].
  - rewrite lookup_delete_eq, decide_True by apply list_elem_of_here. done.
  - rewrite lookup_delete_ne, IH by done. apply decide_ext. rewrite elem_of_cons. tauto.
Qed.

Lemma elem_of_find_stale ttl now c k :
  k ∈ find_stale ttl now c ↔ ∃ e, localHostCache c !! k = Some e ∧ now - lc_timestamp e > ttl.
Proof.
  unfold find_stale. rewrite list_elem_of_fmap. split.
  - intros ([k' e] & -> & Hin). apply elem_of_map_to_list, map_lookup_filter_Some in Hin as [Hl Ht].
    by exists e.
  - intros (e & Hl & Ht). exists (k, e). split; [done|].
    by apply elem_of_map_to_list, map_lookup_filter_Some.
Qed.

(** A tick: what was stale at its first half is gone, whatever was done meanwhile;
    everything else is as the other goroutines left it, and the connections too. *)
Theorem manage_tick_drops ttl now between c :
  let c' := (manage_tick ttl now between c).2 in
  (∀ k e, localHostCache c !! k = Some e → now - lc_timestamp e > ttl → localHostCache c' !! k = None) ∧
  (∀ k, (∀ e, localHostCache c !! k = Some e → now - lc_timestamp e ≤ ttl) →
        localHostCache c' !! k = localHostCache (between c) !! k) ∧
  grpcClients c' = grpcClients (between c).
Proof.
  unfold manage_tick, mbind, M_bind. simpl. split_and!; [| |done]; intros k.
  - intros e He Ht. rewrite lookup_delete_all, decide_True; [done|].
    apply elem_of_find_stale. by exists e.
  - intros Hk. rewrite lookup_delete_all, decide_False; [done|].
    intros (e & He & Ht)%elem_of_find_stale. specialize (Hk e He). lia.
Qed.

(** With nothing in between the tick is the filter that [Client.v] takes it for. *)
Lemma manage_tick_quiet ttl now c :
  localHostCache (manage_tick ttl now id c).2 =
  filter (λ kv, ¬ now - lc_timestamp kv.2 > ttl) (localHostCache c).
Proof.
  apply map_eq. intros k. destruct (manage_tick_drops ttl now id c) as (Hst & Hf & _).
  set (l := localHostCache (manage_tick ttl now id c).2) in *. rewrite map_lookup_filter.
  destruct (localHostCache c !! k) as [e|] eqn:E; simpl.
  - destruct (decide (now - lc_timestamp e > ttl)) as [Ht|Ht].
    + rewrite (Hst k e E Ht), option_guard_False; [done|]. by intros [].
    + rewrite Hf, option_guard_True; [done..|]. intros e' E'.
      assert (e' = e) as -> by congruence. lia.
  - rewrite Hf; [done|]. intros e. by rewrite E.
Qed.

End manage_lemmas.

(** An entry that was renewed between the two halves is removed although it is new. *)
Example renewed_entry_is_dropped :
  let h := mkHost 0 "a" "1" "2" (f64_of_Z 0) in
  let c := mkClient ∅ {[ "x" := mkLocal h 0 ]} tt [] in
  localHostCache (manage_tick 5 10 (set_cache (insert "x" (mkLocal h 10))) c).2 !! "x" = None.
Proof. by vm_compute. Qed.

(** *** The disk monitor *)

(** When the memory of the host is known, a turn is the tick of [Storage.v]; when it is
    not, the process ends, but only if the disk could be measured. *)
Lemma monitor_turn_tick {C} `{Storage.Ristretto C} cfg walk statfs m s :
  let a := mkAnswers walk statfs m in
  match m with
  | Ok m => monitor_turn (C:=C) cfg a s
            = Storage.monitor_tick cfg walk statfs (m.1 `div` (1024 * 1024)) (m.2 `div` (1024 * 1024)) s
  | _ => monitor_turn cfg a s
         = (match Storage.GetDiskCacheMetrics cfg walk statfs (Storage.disk_ s) with
            | Ok _ => Panic ProcessExit | Err _ => Ok tt | Panic p => Panic p
            end, s)
  end.
Proof.
  cbv zeta. unfold monitor_turn, mbind, M_bind, get. simpl.
  unfold Storage.monitor_tick, mbind, M_bind, get. simpl.
  destruct m as [m|e|p]; unfold getMemoryMb, mret, M_ret;
    destruct (Storage.GetDiskCacheMetrics _ _ _ _) as [[[? ?] ?]|e'|p'] eqn:E; by rewrite ?E.
Qed.

(** ** The life of a server: theorems *)

Definition life_ok (x : life) : Prop :=
  cache_open x = bool_decide (l_phase x ≠ Returned) ∧ Forall (eq true) (uses x) ∧
  (l_phase x = Returned → running x = ∅).

Lemma server_step_ok x y : server_step x y → life_ok x → life_ok y.
Proof.
  destruct 1 as [r run ans o us|r ph run ans o us Hr|r ph run ans o us Hr|run ans o us|ans o us];
    intros (Ho & Hu & Hph); simpl in *.
  - by split_and!.
  - split_and!; [done| |done]. constructor; [|done]. rewrite Ho.
    symmetry. apply bool_decide_eq_true_2. intros ->. rewrite Hph in Hr by done. set_solver.
  - split_and!; simpl; [done..|]. intros Er. rewrite (Hph Er). set_solver.
  - by split_and!.
  - by split_and!.
Qed.

Lemma answer_all run ans o us ph :
  rtc server_step (mkLife ph run ans o us) (mkLife ph ∅ (run ∪ ans) o us).
Proof.
  revert ans. induction run as [|r run Hr IH] using set_ind_L; intros ans.
  { by rewrite (left_id_L ∅ (∪)). }
  eapply rtc_l; [apply (ss_answer r); set_solver|].
  replace (({[r]} ∪ run) ∖ {[r]}) with run by set_solver.
  replace ({[r]} ∪ run ∪ ans) with (run ∪ ({[r]} ∪ ans)) by set_solver. apply IH.
Qed.

(** A server that shuts down: in every run, each call of a handler to the cache finds it
    open; the cache is closed when the server returns, with no request running; and from
    any point, with handlers that end, the server can return with every request that it
    took answered. *)
Theorem server_shutdown x :
  rtc server_step serving x →
  Forall (eq true) (uses x) ∧
  (l_phase x = Returned ↔ cache_open x = false) ∧ (l_phase x = Returned → running x = ∅) ∧
  ∃ y, rtc server_step x y ∧ l_phase y = Returned ∧ running x ∪ answered x ⊆ answered y.
Proof.
  intros Hrun. pose proof (rtc_keeps _ life_ok _ _ server_step_ok Hrun) as H.
  destruct H as (Ho & Hu & Hph); [by repeat split; try constructor|].
  split_and!; [done| |done|].
  { rewrite Ho, bool_decide_eq_false. destruct (l_phase x); intuition (done || congruence). }
  destruct x as [[] run ans o us]; simpl in *.
  - exists (mkLife Returned ∅ (run ∪ ans) false us). split_and!; [|done|done].
    etrans; [apply answer_all|].
    eapply rtc_l; [apply ss_signal|]. eapply rtc_l; [apply ss_stop|]. apply rtc_refl.
  - exists (mkLife Returned ∅ (run ∪ ans) false us). split_and!; [|done|done].
    etrans; [apply answer_all|]. eapply rtc_l; [apply ss_stop|]. apply rtc_refl.
  - exists (mkLife Returned run ans o us). rewrite Hph by done. split_and!; [done..|set_solver].
Qed.

(** After the signal no request is taken. *)
Lemma draining_takes_nothing x y :
  rtc server_step x y → l_phase x ≠ Serving →
  l_phase y ≠ Serving ∧ running y ∪ answered y = running x ∪ answered x.
Proof.
  intros Hrun Hx. revert Hrun.
  assert (∀ a b, server_step a b →
    l_phase a ≠ Serving ∧ running a ∪ answered a = running x ∪ answered x →
    l_phase b ≠ Serving ∧ running b ∪ answered b = running x ∪ answered x) as Hstep.
  { intros a b Hab [Ha E].
    destruct Hab as [r run ans o us|r ph run ans o us Hr|r ph run ans o us Hr|run ans o us|ans o us];
      simpl in *; try done.
    split; [done|]. rewrite <-E. apply set_eq. intros k. destruct (decide (k = r)); set_solver. }
  intros Hrun. by apply (rtc_keeps _ _ _ _ Hstep Hrun).
Qed.

(** ** The program: theorems *)

(** How the program ends: with a failure when the configuration cannot be read or the
    service cannot be made; otherwise with status 0, whatever became of [StartServer]: a
    port that is taken is no failure. *)
Theorem main_status load locality env listen numCPU s :
  (main load locality env listen numCPU s).1 =
  match load with
  | Ok cfg =>
      let g := GlobalConfig cfg in
      match (NewCacheService env (ServerConfig cfg) (ServerPort g) (GetLocality locality g) s.2).1 with
      | Ok _ => Ok tt
      | Err _ => Panic ProcessExit
      | Panic p => Panic p
      end
  | _ => Panic ProcessExit
  end.
Proof.
  unfold main. destruct load as [cfg|e|p]; [|done..]. cbv zeta.
  unfold mbind, M_bind, attempt, zoom. simpl.
  destruct (NewCacheService _ _ _ _ _) as [[sv|e|p] s']; simpl; [|done..].
  unfold ignore, attempt, mbind, M_bind. destruct (StartServer _ _ _ _) as [x|e|p] eqn:E; [done..|].
  unfold StartServer in E. by destruct (listen _).
Qed.

(** The logger is initialized before anything logs. *)
Lemma main_logger load locality env listen numCPU s cfg :
  load = Ok cfg → (Logger.once s.1 = true → Logger.Logger s.1 ≠ None) →
  Logger.Logger (main load locality env listen numCPU s).2.1 ≠ None.
Proof.
  intros -> Hl. unfold main. cbv zeta. unfold mbind, M_bind, attempt, zoom. simpl.
  assert (Logger.Logger (if Logger.once s.1 then s.1 else
    Logger.mkLog true (Some (Logger.mkLogger
      (if GPrettyLogs (GlobalConfig cfg) then Logger.ConsoleWriter else Logger.Stderr)
      (if DebugMode (GlobalConfig cfg) then Logger.DebugLevel else Logger.InfoLevel)
      (DebugMode (GlobalConfig cfg)))) (Logger.written s.1)) ≠ None) as Hn
    by (destruct (Logger.once s.1); auto).
  destruct (NewCacheService _ _ _ _ _) as [[sv|e|p] s']; simpl; [|done..].
  unfold ignore, attempt, mbind, M_bind. by destruct (StartServer _ _ _ _) as [x|e|p].
Qed.

(** ** Mounts: examples *)

(** A mount that fails after [Mount] returned: [startServer] has told its caller that
    all went well, the error is in the channel. *)
Example failed_mount : startServer (Some (ErrLib "EIO")) = (Ok tt, [Sent (ErrLib "EIO")]).
Proof. done. Qed.
